(** * CBForest: revision tree and tagged value encoder

    A shallow embedding of [CBForest/RevTree.cc] and
    [CBForest/EncodingWriter.cc] together with the properties of their
    specification.

    Conventions.
    - Fixed-width C++ integers are [Z] values; conversions that truncate
      are written out with [wrap8], [wrap16], [wrap32] and [wrap64].
    - A [slice] (pointer and length) is a [list byte]; where the code
      tests the pointer against NULL the slice is an [option (list byte)],
      [None] being the null slice.
    - A [Revision*] handed to a tree operation is the index of that
      revision in the tree's [_revs] vector.
    - The arena [_insertedData] only keeps copied bytes alive; revisions
      hold the copied bytes themselves here. *)

From Stdlib Require Import ZArith List Lia Bool Permutation Sorted.
From Stdlib Require Import Strings.Byte Strings.String Strings.Ascii.
From stdpp Require Import base tactics option list gmap strings.

Local Open Scope Z_scope.

(** ** Bytes and fixed-width integers *)

Definition wrap8 (z : Z) : Z := z mod 256.
Definition wrap16 (z : Z) : Z := z mod 65536.
Definition wrap32 (z : Z) : Z := z mod 4294967296.
Definition wrap64 (z : Z) : Z := z mod 18446744073709551616.

(** [int16_t]: the two's complement reading of the low 16 bits. *)
Definition wrap16s (z : Z) : Z :=
  let u := wrap16 z in if u <? 32768 then u else u - 65536.

Definition UINT16_MAX : Z := 65535.
Definition UINT32_MAX : Z := 4294967295.

Definition Z_of_byte (b : byte) : Z := Z.of_N (Byte.to_N b).

Definition byte_of_Z (z : Z) : byte :=
  match Byte.of_N (Z.to_N (wrap8 z)) with
  | Some b => b
  | None => x00
  end.

(** Big-endian fields, as produced by [htons]/[htonl] and read back by
    [ntohs]/[ntohl]. *)
Definition put_u16 (z : Z) : list byte :=
  [byte_of_Z (wrap16 z / 256); byte_of_Z (wrap16 z)].

Definition put_u32 (z : Z) : list byte :=
  [byte_of_Z (wrap32 z / 16777216); byte_of_Z (wrap32 z / 65536);
   byte_of_Z (wrap32 z / 256); byte_of_Z (wrap32 z)].

Definition get_be (bs : list byte) : Z :=
  fold_left (fun acc b => acc * 256 + Z_of_byte b) bs 0.

(** ** Outcomes of fallible code

    [assert] failures abort the process, [throw] raises a typed error, and
    a read outside a buffer or vector has no defined behaviour; the three
    are kept apart. *)

Inductive error : Type :=
  | AssertionFailure
  | CorruptRevisionData
  | OutOfBounds
  | OutOfFuel
  | Exception (what : string).

Inductive result (A : Type) : Type :=
  | Ok (a : A)
  | Err (e : error).
Arguments Ok {A} a.
Arguments Err {A} e.

Definition bind {A B : Type} (c : result A) (k : A -> result B) : result B :=
  match c with
  | Ok a => k a
  | Err e => Err e
  end.

Notation "x <- c ;; k" := (bind c (fun x => k))
  (at level 100, c at next level, right associativity).

Definition assert (b : bool) : result unit :=
  if b then Ok tt else Err AssertionFailure.

Definition assert_in_bounds (b : bool) : result unit :=
  if b then Ok tt else Err OutOfBounds.

Definition of_option {A : Type} (e : error) (o : option A) : result A :=
  match o with
  | Some a => Ok a
  | None => Err e
  end.

(** ** Varints

    Modelled from the spec: [varint.hh] is not part of the sources; the
    specification describes [PutUVarInt], [GetUVarInt] and [SizeOfVarInt]
    as an unsigned LEB128-style codec returning the number of bytes
    produced or consumed.  A 64-bit value takes at most
    [kMaxVarintLen64 = 10] bytes. *)

Fixpoint PutUVarInt_loop (fuel : nat) (n : Z) : list byte :=
  match fuel with
  | O => [byte_of_Z n]
  | S fuel' =>
      if n <? 128 then [byte_of_Z n]
      else byte_of_Z (n mod 128 + 128) :: PutUVarInt_loop fuel' (n / 128)
  end.

Definition PutUVarInt (n : Z) : list byte := PutUVarInt_loop 9 (wrap64 n).

Fixpoint SizeOfVarInt_loop (fuel : nat) (n : Z) : Z :=
  match fuel with
  | O => 1
  | S fuel' => if n <? 128 then 1 else 1 + SizeOfVarInt_loop fuel' (n / 128)
  end.

Definition SizeOfVarInt (n : Z) : Z := SizeOfVarInt_loop 9 (wrap64 n).

(** [GetUVarInt buf] is [None] where the C function returns 0 (the buffer
    ends before the last byte of the number) and leaves [*n] alone;
    otherwise the number of bytes consumed and the value. *)
Fixpoint GetUVarInt_loop (buf : list byte) (i : nat) (shift : Z) (acc : Z)
  : option (nat * Z) :=
  match buf with
  | [] => None
  | b :: rest =>
      let byte := Z_of_byte b in
      let acc' := wrap64 (acc + (byte mod 128) * 2 ^ shift) in
      if 128 <=? byte then GetUVarInt_loop rest (S i) (shift + 7) acc'
      else Some (S i, acc')
  end.

Definition GetUVarInt (buf : list byte) : option (nat * Z) :=
  GetUVarInt_loop buf 0 0 0.

#[global] Instance byte_eq_dec : EqDecision byte := Byte.byte_eq_dec.

(** ** Revision identifiers *)

Definition revid : Type := list byte.

Definition bytes_of (s : string) : list byte := list_byte_of_string s.

Definition is_digit (b : byte) : bool :=
  (48 <=? Z_of_byte b) && (Z_of_byte b <=? 57).

(** Reads the decimal prefix of a revision identifier up to the first
    ['-']; gives the number read and the bytes after the dash. *)
Fixpoint parse_revid (s : list byte) (acc : Z) : option (Z * list byte) :=
  match s with
  | [] => None
  | b :: rest =>
      if Byte.eqb b "-"%byte then Some (acc, rest)
      else if is_digit b then parse_revid rest (acc * 10 + (Z_of_byte b - 48))
      else None
  end.

(** Modelled from the spec: [revid::generation] is declared outside the
    sources; the specification has it parse the prefix of the identifier
    as base 10 up to the first ['-'].  The C++ result is an [unsigned];
    an identifier without such a prefix has generation 0. *)
Definition generation (r : revid) : Z :=
  match parse_revid r 0 with
  | Some (g, _) => wrap32 g
  | None => 0
  end.

(** Modelled from the spec: the suffix of an identifier, the bytes after
    the first ['-']. *)
Definition revid_suffix (r : revid) : list byte :=
  match parse_revid r 0 with
  | Some (_, s) => s
  | None => []
  end.

(** Byte-wise lexicographic order on slices. *)
Fixpoint bytes_ltb (a b : list byte) : bool :=
  match a, b with
  | _, [] => false
  | [], _ :: _ => true
  | x :: a', y :: b' =>
      if Z_of_byte x <? Z_of_byte y then true
      else if Z_of_byte y <? Z_of_byte x then false
      else bytes_ltb a' b'
  end.

(** Modelled from the spec: [revid::operator<] is declared outside the
    sources; identifiers are compared first by generation (numerically),
    then by suffix (byte-wise). *)
Definition revid_ltb (a b : revid) : bool :=
  (generation a <? generation b)
  || ((generation a =? generation b) && bytes_ltb (revid_suffix a) (revid_suffix b)).

Definition bytes_eqb (a b : list byte) : bool :=
  bool_decide (a = b).

(** ** Revisions *)

(** Modelled from the spec: the [Revision::Flags] bits are declared in
    [RevTree.hh], which is not part of the sources.  Leaf, Deleted and
    HasAttachments are persisted, New is transient, and all four are
    distinct bits outside the two private bits of [RawRevision]. *)
Definition kDeleted : Z := 1.
Definition kLeaf : Z := 2.
Definition kNew : Z := 4.
Definition kHasAttachments : Z := 8.

(** Modelled from the spec: [Revision::kNoParent], the sentinel of the
    16-bit index fields. *)
Definition kNoParent : Z := UINT16_MAX.

Record Revision : Type := mkRevision {
  revID : revid;
  sequence : Z;                 (* uint64_t *)
  body : option (list byte);    (* slice; None is the null slice *)
  oldBodyOffset : Z;            (* uint64_t *)
  flags : Z;                    (* uint8_t *)
  parentIndex : Z;              (* uint16_t *)
  deltaRefIndex : Z;            (* uint16_t *)
}.

#[global] Instance Revision_eq_dec : EqDecision Revision.
Proof. solve_decision. Defined.

#[global] Instance Revision_inhabited : Inhabited Revision :=
  populate (mkRevision [] 0 None 0 0 0 0).

Definition slice_size (s : option (list byte)) : Z :=
  match s with
  | Some bs => Z.of_nat (length bs)
  | None => 0
  end.

Definition slice_bytes (s : option (list byte)) : list byte :=
  match s with
  | Some bs => bs
  | None => []
  end.

Definition has_flag (f bit : Z) : bool := negb (Z.land f bit =? 0).

(** Modelled from the spec: the accessors of [Revision] defined inline in
    [RevTree.hh]. *)
Definition isLeaf (r : Revision) : bool := has_flag (flags r) kLeaf.
Definition isDeleted (r : Revision) : bool := has_flag (flags r) kDeleted.
Definition hasAttachments (r : Revision) : bool := has_flag (flags r) kHasAttachments.
Definition isNew (r : Revision) : bool := has_flag (flags r) kNew.
Definition isActive (r : Revision) : bool := isLeaf r && negb (isDeleted r).
Definition isCompressed (r : Revision) : bool := negb (deltaRefIndex r =? kNoParent).

Definition set_flags (r : Revision) (f : Z) : Revision :=
  mkRevision (revID r) (sequence r) (body r) (oldBodyOffset r) f
             (parentIndex r) (deltaRefIndex r).
Definition set_parentIndex (r : Revision) (p : Z) : Revision :=
  mkRevision (revID r) (sequence r) (body r) (oldBodyOffset r) (flags r)
             p (deltaRefIndex r).
Definition set_deltaRefIndex (r : Revision) (d : Z) : Revision :=
  mkRevision (revID r) (sequence r) (body r) (oldBodyOffset r) (flags r)
             (parentIndex r) d.
Definition set_revID (r : Revision) (i : revid) : Revision :=
  mkRevision i (sequence r) (body r) (oldBodyOffset r) (flags r)
             (parentIndex r) (deltaRefIndex r).
Definition set_body (r : Revision) (b : option (list byte)) : Revision :=
  mkRevision (revID r) (sequence r) b (oldBodyOffset r) (flags r)
             (parentIndex r) (deltaRefIndex r).
Definition set_oldBodyOffset (r : Revision) (o : Z) : Revision :=
  mkRevision (revID r) (sequence r) (body r) o (flags r)
             (parentIndex r) (deltaRefIndex r).
Definition set_sequence (r : Revision) (s : Z) : Revision :=
  mkRevision (revID r) s (body r) (oldBodyOffset r) (flags r)
             (parentIndex r) (deltaRefIndex r).

Definition addFlag (r : Revision) (bit : Z) : Revision :=
  set_flags r (Z.lor (flags r) bit).
Definition clearFlag (r : Revision) (bit : Z) : Revision :=
  set_flags r (Z.land (flags r) (Z.lxor 255 bit)).

(** The ranges of the C++ field types. *)
Record Revision_in_range (r : Revision) : Prop := {
  sequence_range : 0 <= sequence r < 18446744073709551616;
  oldBodyOffset_range : 0 <= oldBodyOffset r < 18446744073709551616;
  flags_range : 0 <= flags r < 256;
  parentIndex_range : 0 <= parentIndex r <= 65535;
  deltaRefIndex_range : 0 <= deltaRefIndex r <= 65535;
}.

(** ** The revision tree *)

Record RevTree : Type := mkRevTree {
  bodyOffset : Z;      (* _bodyOffset, uint64_t *)
  sorted : bool;       (* _sorted *)
  changed : bool;      (* _changed *)
  unknown : bool;      (* _unknown *)
  revs : list Revision (* _revs *)
}.

Definition RevTree_new : RevTree := mkRevTree 0 true false false [].

Definition set_revs (t : RevTree) (l : list Revision) : RevTree :=
  mkRevTree (bodyOffset t) (sorted t) (changed t) (unknown t) l.
Definition set_sorted (t : RevTree) (b : bool) : RevTree :=
  mkRevTree (bodyOffset t) b (changed t) (unknown t) (revs t).
Definition set_changed (t : RevTree) (b : bool) : RevTree :=
  mkRevTree (bodyOffset t) (sorted t) b (unknown t) (revs t).

Definition size (t : RevTree) : Z := Z.of_nat (length (revs t)).

(** ** The encoded form of a revision *)

Module RawRevision.

Definition kPublicPersistentFlags : Z :=
  Z.lor (Z.lor kLeaf kDeleted) kHasAttachments.
Definition kHasBodyOffset : Z := 64.
Definition kHasData : Z := 128.

(** [offsetof(RawRevision, revID)]: the fields before [revID] are packed
    as 4 + 2 + 2 + 1 + 1 bytes. *)
Definition header_size : Z := 10.

(** The fields of one encoded revision; [tail] is what follows the
    revID: the sequence varint, then the body or the offset varint. *)
Record t : Type := mk {
  size : Z;            (* uint32_t, big-endian *)
  parentIndex : Z;     (* uint16_t, big-endian *)
  deltaRefIndex : Z;   (* uint16_t, big-endian *)
  flags : Z;           (* uint8_t *)
  revIDLen : Z;        (* uint8_t *)
  revID : list byte;
  tail : list byte
}.

Definition bytes (r : t) : list byte :=
  put_u32 (size r) ++ put_u16 (parentIndex r) ++ put_u16 (deltaRefIndex r)
  ++ [byte_of_Z (flags r); byte_of_Z (revIDLen r)]
  ++ revID r ++ tail r.

End RawRevision.

Import RawRevision(kPublicPersistentFlags, kHasBodyOffset, kHasData).

Definition sizeToWrite (r : Revision) : Z :=
  let size := RawRevision.header_size + Z.of_nat (length (revID r))
              + SizeOfVarInt (sequence r) in
  if 0 <? slice_size (body r) then size + slice_size (body r)
  else if 0 <? oldBodyOffset r then size + SizeOfVarInt (oldBodyOffset r)
  else size.

(** The flags byte stored by [Revision::write]. *)
Definition write_flags (r : Revision) : Z :=
  let dstFlags := Z.land (flags r) kPublicPersistentFlags in
  if 0 <? slice_size (body r) then Z.lor dstFlags kHasData
  else if 0 <? oldBodyOffset r then Z.lor dstFlags kHasBodyOffset
  else dstFlags.

(** What [Revision::write] stores after the sequence: the body bytes, the
    offset varint, or nothing. *)
Definition write_payload (r : Revision) (bodyOffset : Z) : list byte :=
  let dstFlags := wrap8 (write_flags r) in
  if has_flag dstFlags kHasData then slice_bytes (body r)
  else if has_flag dstFlags kHasBodyOffset then
    PutUVarInt (if oldBodyOffset r =? 0 then bodyOffset else oldBodyOffset r)
  else [].

(** [Revision::write], as the record it stores at [dst]; the function
    returns [dst] advanced by [sizeToWrite]. *)
Definition Revision_write (r : Revision) (bodyOffset : Z) : RawRevision.t :=
  let revSize := sizeToWrite r in
  RawRevision.mk
    (wrap32 revSize)
    (parentIndex r)
    (deltaRefIndex r)
    (wrap8 (write_flags r))
    (wrap8 (Z.of_nat (length (revID r))))
    (revID r)
    (PutUVarInt (sequence r) ++ write_payload r bodyOffset).

(** [Revision::read], on the buffer [buf] holding the encoded tree, for the
    raw revision that starts at offset [pos].  [this] is the revision
    object being filled in: [sequence] keeps its value when the varint
    cannot be read.  A read outside [buf] is [OutOfBounds]. *)
Definition read_bytes (buf : list byte) (pos len : nat) : result (list byte) :=
  let s := take len (drop pos buf) in
  if (length s =? len)%nat then Ok s else Err OutOfBounds.

Definition raw_size (buf : list byte) (pos : nat) : result Z :=
  s <- read_bytes buf pos 4;; Ok (get_be s).

(** [GetUVarInt(slice(data, end - data), &n)] as [Revision::read] calls
    it: [None] where it returns 0.  [Revision::read] never compares [data]
    with [end]: when [data] is past [end] the size of the slice, a
    [size_t], wraps to a huge value, and the bytes are read from [data] on
    until the number ends.  The bytes are read one at a time, so only a
    number that does not end inside [buf] makes a read outside it. *)
Definition read_varint (buf : list byte) (data end_ : nat)
  : result (option (nat * Z)) :=
  let window := if (data <=? end_)%nat then take (end_ - data) (drop data buf)
                else drop data buf in
  match GetUVarInt window with
  | Some r => Ok (Some r)
  | None =>
      if (data <=? end_)%nat && (length window =? end_ - data)%nat then Ok None
      else Err OutOfBounds
  end.

(** [slice(data, end - data)] as a body: its bytes, when they are bytes of
    [buf].  When [data] is past [end] the size wraps to a huge [size_t] and
    the slice reaches outside every buffer; such a slice, like one that
    ends after [buf], has no bytes the program may read: [OutOfBounds]. *)
Definition read_slice (buf : list byte) (data end_ : nat) : result (list byte) :=
  _ <- assert_in_bounds (data <=? end_)%nat;;
  read_bytes buf data (end_ - data).

Definition Revision_read (this : Revision) (buf : list byte) (pos : nat)
  : result Revision :=
  size <- raw_size buf pos;;
  let end_ := (pos + Z.to_nat size)%nat in
  pidx <- read_bytes buf (pos + 4) 2;;
  didx <- read_bytes buf (pos + 6) 2;;
  fl <- read_bytes buf (pos + 8) 1;;
  idlen <- read_bytes buf (pos + 9) 1;;
  let src_flags := get_be fl in
  let revIDLen := Z.to_nat (get_be idlen) in
  id <- read_bytes buf (pos + 10) revIDLen;;
  let data := (pos + 10 + revIDLen)%nat in
  v <- read_varint buf data end_;;
  let '(used, seq) :=
    match v with
    | Some (used, n) => (used, n)
    | None => (O, sequence this)
    end in
  let data := (data + used)%nat in
  if has_flag src_flags kHasData then
    b <- read_slice buf data end_;;
    Ok (mkRevision id seq (Some b) 0
          (Z.land src_flags kPublicPersistentFlags)
          (get_be pidx) (get_be didx))
  else if has_flag src_flags kHasBodyOffset then
    o <- read_varint buf data end_;;
    let off := match o with
               | Some (_, n) => n
               | None => 0
               end in
    Ok (mkRevision id seq None off
          (Z.land src_flags kPublicPersistentFlags)
          (get_be pidx) (get_be didx))
  else
    Ok (mkRevision id seq None 0
          (Z.land src_flags kPublicPersistentFlags)
          (get_be pidx) (get_be didx)).

(** [RawRevision::count]: the number of raw revisions before the first
    one of size 0.  Every valid raw revision moves the cursor forward, so
    [length buf] steps are enough for any buffer. *)
Fixpoint RawRevision_count (fuel : nat) (buf : list byte) (pos : nat) : result Z :=
  size <- raw_size buf pos;;
  if size =? 0 then Ok 0
  else match fuel with
       | O => Err OutOfFuel
       | S fuel' =>
           n <- RawRevision_count fuel' buf (pos + Z.to_nat size);;
           Ok (n + 1)
       end.

(** The loop of [RevTree::decode]: the revisions read, in the order met,
    and the offset of the terminator. *)
Fixpoint decode_loop (fuel : nat) (buf : list byte) (pos : nat) (seq : Z)
  : result (list Revision * nat) :=
  size <- raw_size buf pos;;
  if size =? 0 then Ok ([], pos)
  else match fuel with
       | O => Err OutOfFuel
       | S fuel' =>
           rev <- Revision_read (mkRevision [] 0 None 0 0 0 0) buf pos;;
           let rev := if sequence rev =? 0 then set_sequence rev seq else rev in
           rest <- decode_loop fuel' buf (pos + Z.to_nat size) seq;;
           Ok (rev :: fst rest, snd rest)
       end.

Definition decode (t : RevTree) (raw_tree : list byte) (seq docOffset : Z)
  : result RevTree :=
  count <- RawRevision_count (length raw_tree) raw_tree 0;;
  if UINT16_MAX <? count then Err CorruptRevisionData
  else
    r <- decode_loop (length raw_tree) raw_tree 0 seq;;
    if negb (Z.of_nat (snd r) =? Z.of_nat (length raw_tree) - 4)
    then Err CorruptRevisionData
    else Ok (mkRevTree docOffset (sorted t) (changed t) (unknown t) (fst r)).

(** [RevTree::RevTree(slice raw_tree, sequence seq, uint64_t docOffset)] *)
Definition RevTree_from (raw_tree : list byte) (seq docOffset : Z) : result RevTree :=
  decode (mkRevTree docOffset true false false []) raw_tree seq docOffset.

(** ** Accessors *)

(** [RevTree::get(unsigned index)] *)
Definition get (t : RevTree) (index : Z) : result Revision :=
  _ <- assert (negb (unknown t));;
  _ <- assert ((0 <=? index) && (index <? size t));;
  of_option OutOfBounds (revs t !! Z.to_nat index).

Fixpoint find_revID (l : list Revision) (id : revid) (i : Z) : option Z :=
  match l with
  | [] => None
  | rev :: rest =>
      if bytes_eqb (revID rev) id then Some i else find_revID rest id (i + 1)
  end.

(** [RevTree::get(revid revID)]: the index of the first revision with
    that identifier, [None] for the NULL result. *)
Definition get_by_revID (t : RevTree) (id : revid) : result (option Z) :=
  match find_revID (revs t) id 0 with
  | Some i => Ok (Some i)
  | None => _ <- assert (negb (unknown t));; Ok None
  end.

(** Reading through a [Revision*] that points into [_revs]. *)
Definition deref (t : RevTree) (p : Z) : result Revision :=
  of_option OutOfBounds (if 0 <=? p then revs t !! Z.to_nat p else None).

(** Storing through a [Revision*]. *)
Definition store (t : RevTree) (p : Z) (r : Revision) : RevTree :=
  set_revs t (<[Z.to_nat p := r]> (revs t)).

(** [Revision::index] *)
Definition index (t : RevTree) (p : Z) : result Z :=
  _ <- assert ((0 <=? p) && (p <? size t));; Ok p.

(** [Revision::parent] and [Revision::deltaReference]: [None] is NULL. *)
Definition parent (t : RevTree) (r : Revision) : result (option Z) :=
  if parentIndex r =? kNoParent then Ok None
  else _ <- get t (parentIndex r);; Ok (Some (parentIndex r)).

Definition deltaReference (t : RevTree) (r : Revision) : result (option Z) :=
  if deltaRefIndex r =? kNoParent then Ok None
  else _ <- get t (deltaRefIndex r);; Ok (Some (deltaRefIndex r)).

(** Modelled from the spec: [Revision::inlineBody] is defined in
    [RevTree.hh]; the body held in the tree when it is not a delta. *)
Definition inlineBody (r : Revision) : option (list byte) :=
  if isCompressed r then None else body r.

(** The delta collaborator ([Delta.hh]), called with [kRevDeltaFlags];
    [None] is the null [alloc_slice] of a failure. *)
Class Delta : Type := {
  CreateDelta : list byte -> list byte -> option (list byte);
  ApplyDelta : list byte -> list byte -> option (list byte)
}.

Section WithDelta.
Context `{Delta}.

(** [RevTree::readBodyOfRevision], reached through [Revision::readBody]
    (modelled from the spec: [readBody] is defined in [RevTree.hh] and
    asks the owning tree for the body of the revision).  The recursion
    follows the delta references; [fuel] bounds its depth. *)
Fixpoint readBodyOfRevision (fuel : nat) (t : RevTree) (p : Z)
  : result (option (list byte)) :=
  rev <- deref t p;;
  match body rev with
  | None => Ok None
  | Some b =>
      ref <- deltaReference t rev;;
      match ref with
      | None => Ok (Some b)
      | Some refp =>
          referenceRev <- deref t refp;;
          match inlineBody referenceRev with
          | Some inlineReference => Ok (ApplyDelta inlineReference b)
          | None =>
              match fuel with
              | O => Err OutOfFuel
              | S fuel' =>
                  loadedReference <- readBodyOfRevision fuel' t refp;;
                  match loadedReference with
                  | None => Ok None
                  | Some l => Ok (ApplyDelta l b)
                  end
              end
          end
      end
  end.

Definition readBody := readBodyOfRevision.

(** ** Compressing and removing revision bodies *)

(** [RevTree::replaceBody] *)
Definition replaceBody (t : RevTree) (p : Z) (newBody : option (list byte))
  : result RevTree :=
  rev <- deref t p;;
  match newBody with
  | Some _ =>
      Ok (set_changed (store t p (set_body rev newBody)) true)
  | None =>
      match body rev with
      | None => Ok t
      | Some _ =>
          _ <- assert (0 <? bodyOffset t);;
          let rev := set_oldBodyOffset rev (bodyOffset t) in
          Ok (set_changed (store t p (set_body rev newBody)) true)
      end
  end.

(** [RevTree::decompress] *)
Definition decompress (fuel : nat) (t : RevTree) (p : Z) : result (RevTree * bool) :=
  rev <- deref t p;;
  if negb (isCompressed rev) then Ok (t, true)
  else
    b <- readBody fuel t p;;
    match b with
    | None => Ok (t, false)
    | Some _ =>
        t <- replaceBody t p b;;
        rev <- deref t p;;
        Ok (store t p (set_deltaRefIndex rev kNoParent), true)
    end.

(** The loop of [RevTree::removeBody] over [_revs], from position [i];
    [false] is the early [return false]. *)
Fixpoint removeBody_loop (fuel : nat) (n : nat) (t : RevTree) (i : Z)
  (index : Z) (allowExpansion : bool) : result (RevTree * bool) :=
  match n with
  | O => Ok (t, true)
  | S n' =>
      otherRev <- deref t i;;
      if deltaRefIndex otherRev =? index then
        if negb allowExpansion then Ok (t, false)
        else
          r <- decompress fuel t i;;
          if negb (snd r) then Ok (fst r, false)
          else removeBody_loop fuel n' (fst r) (i + 1) index allowExpansion
      else removeBody_loop fuel n' t (i + 1) index allowExpansion
  end.

(** [RevTree::removeBody] *)
Definition removeBody (fuel : nat) (t : RevTree) (p : Z) (allowExpansion : bool)
  : result (RevTree * bool) :=
  rev <- deref t p;;
  match body rev with
  | None => Ok (t, true)
  | Some _ =>
      index <- index t p;;
      r <- removeBody_loop fuel (length (revs t)) t 0 index allowExpansion;;
      if negb (snd r) then Ok r
      else
        t <- replaceBody (fst r) p None;;
        Ok (t, true)
  end.

(** [Revision::generateZDeltaFrom]; [target] is the receiver. *)
Definition generateZDeltaFrom (fuel : nat) (t : RevTree) (target reference : Z)
  : result (option (list byte)) :=
  _ <- assert (negb (reference =? target));;
  this <- deref t target;;
  refIndex <- index t reference;;
  if isCompressed this && (deltaRefIndex this =? refIndex) then Ok (body this)
  else
    targetData <- readBody fuel t target;;
    referenceData <- readBody fuel t reference;;
    match targetData, referenceData with
    | Some td, Some rd => Ok (CreateDelta rd td)
    | _, _ => Ok None
    end.

(** The loop of [RevTree::compress] that walks the delta references of
    [reference]; [true] when it meets [target] (the [return false] of
    the caller). *)
Fixpoint compress_finds_cycle (fuel : nat) (t : RevTree) (target rev : Z)
  : result bool :=
  r <- deref t rev;;
  if negb (isCompressed r) then Ok false
  else if rev =? target then Ok true
  else match fuel with
       | O => Err OutOfFuel
       | S fuel' =>
           next <- deltaReference t r;;
           match next with
           | Some q => compress_finds_cycle fuel' t target q
           | None => Err OutOfBounds
           end
       end.

(** [RevTree::compress] *)
Definition compress (fuel : nat) (t : RevTree) (target reference : Z)
  : result (RevTree * bool) :=
  trev <- deref t target;;
  if isCompressed trev then Ok (t, true)
  else
    cyc <- compress_finds_cycle fuel t target reference;;
    if cyc then Ok (t, false)
    else
      delta <- generateZDeltaFrom fuel t target reference;;
      match delta with
      | None => Ok (t, false)
      | Some _ =>
          t <- replaceBody t target delta;;
          refIndex <- index t reference;;
          trev <- deref t target;;
          Ok (store t target (set_deltaRefIndex trev (wrap16 refIndex)), true)
      end.

End WithDelta.

(** ** Insertion *)

Definition bool_flag (b : bool) (bit : Z) : Z := if b then bit else 0.

(** [RevTree::_insert]: the tree after the insertion and the index of the
    new revision ([&_revs.back()]).  [parentRev] is [None] for NULL. *)
Definition _insert (t : RevTree) (unownedRevID : revid) (body : option (list byte))
  (parentRev : option Z) (deleted hasAttachments : bool) : result (RevTree * Z) :=
  _ <- assert (negb (unknown t));;
  let newRev := mkRevision unownedRevID 0 body 0 (Z.lor kLeaf kNew)
                           kNoParent kNoParent in
  let newRev := if deleted then addFlag newRev kDeleted else newRev in
  let newRev := if hasAttachments then addFlag newRev kHasAttachments else newRev in
  r <- match parentRev with
       | Some p =>
           parentIndex <- index t p;;
           prev <- deref t p;;
           Ok (set_parentIndex newRev (wrap16 parentIndex),
               store t p (clearFlag prev kLeaf))
       | None => Ok (newRev, t)
       end;;
  let revs' := revs (snd r) ++ [fst r] in
  let t' := mkRevTree (bodyOffset t)
              (if 1 <? Z.of_nat (length revs') then false else sorted t)
              true (unknown t) revs' in
  Ok (t', Z.of_nat (length revs') - 1).

(** The outcome of an [insert]: the tree, the new revision (NULL when
    nothing was inserted) and the value left in [httpStatus]. *)
Record inserted : Type := mkInserted {
  ins_tree : RevTree;
  ins_rev : option Z;
  httpStatus : Z
}.

Definition refused (t : RevTree) (status : Z) : result inserted :=
  Ok (mkInserted t None status).

(** [RevTree::insert(revid, slice, bool, bool, const Revision*, bool, int&)] *)
Definition insert (t : RevTree) (newRevID : revid) (data : option (list byte))
  (deleted hasAttachments : bool) (parent : option Z) (allowConflict : bool)
  : result inserted :=
  let newGen := generation newRevID in
  if newGen =? 0 then refused t 400
  else
    existing <- get_by_revID t newRevID;;
    match existing with
    | Some _ => refused t 200
    | None =>
        pg <- match parent with
              | Some p =>
                  prev <- deref t p;;
                  if negb allowConflict && negb (isLeaf prev) then Ok None
                  else Ok (Some (generation (revID prev)))
              | None =>
                  if negb allowConflict && (0 <? size t) then Ok None
                  else Ok (Some 0)
              end;;
        match pg with
        | None => refused t 409
        | Some parentGen =>
            if negb (newGen =? wrap32 (parentGen + 1)) then refused t 400
            else
              r <- _insert t newRevID data parent deleted hasAttachments;;
              Ok (mkInserted (fst r) (Some (snd r)) (if deleted then 200 else 201))
        end
    end.

(** [RevTree::insert(revid, slice, bool, bool, revid, bool, int&)];
    [parentRevID] is [None] for a slice whose [buf] is NULL. *)
Definition insert_by_revID (t : RevTree) (newRevID : revid) (body : option (list byte))
  (deleted hasAttachments : bool) (parentRevID : option revid) (allowConflict : bool)
  : result inserted :=
  match parentRevID with
  | Some pid =>
      parent <- get_by_revID t pid;;
      match parent with
      | None => refused t 404
      | Some p => insert t newRevID body deleted hasAttachments (Some p) allowConflict
      end
  | None => insert t newRevID body deleted hasAttachments None allowConflict
  end.

(** The first loop of [RevTree::insertHistory], from entry [i] on:
    [None] is the [return -1]; otherwise the value of [i] and of [parent]
    when the loop ends. *)
Fixpoint insertHistory_scan (t : RevTree) (history : list revid) (i : Z) (lastGen : Z)
  : result (option (Z * option Z)) :=
  match history with
  | [] => Ok (Some (i, None))
  | h :: rest =>
      let gen := generation h in
      if (0 <? lastGen) && negb (gen =? lastGen - 1) then Ok None
      else
        parent <- get_by_revID t h;;
        match parent with
        | Some _ => Ok (Some (i, parent))
        | None => insertHistory_scan t rest (i + 1) gen
        end
  end.

(** The loop [while (--i > 0) parent = _insert(history[i], ...)]. *)
Fixpoint insertHistory_ancestors (i : nat) (t : RevTree) (history : list revid)
  (parent : option Z) : result (RevTree * option Z) :=
  match i with
  | O => Ok (t, parent)
  | S i' =>
      match i' with
      | O => Ok (t, parent)
      | S _ =>
          h <- of_option OutOfBounds (history !! i');;
          r <- _insert t h None parent false false;;
          insertHistory_ancestors i' (fst r) history (Some (snd r))
      end
  end.

(** [RevTree::insertHistory]: the tree and the [int] returned. *)
Definition insertHistory (t : RevTree) (history : list revid) (data : option (list byte))
  (deleted hasAttachments : bool) : result (RevTree * Z) :=
  _ <- assert (0 <? Z.of_nat (length history));;
  scan <- insertHistory_scan t history 0 0;;
  match scan with
  | None => Ok (t, -1)
  | Some (i, parent) =>
      let commonAncestorIndex := i in
      if 0 <? i then
        r <- insertHistory_ancestors (Z.to_nat i) t history parent;;
        h0 <- of_option OutOfBounds (history !! O);;
        r' <- _insert (fst r) h0 data (snd r) deleted hasAttachments;;
        Ok (fst r', commonAncestorIndex)
      else Ok (t, commonAncestorIndex)
  end.

(** ** Depths, pruning and compaction *)

(** The inner loop of [RevTree::computeDepths]: the walk from [index] up
    the parents, [d] being the [int16_t] counter.  [fuel] bounds the
    number of steps. *)
Fixpoint computeDepths_walk (fuel : nat) (revs : list Revision) (useMax : bool)
  (index : Z) (d : Z) (depths : list Z) : result (list Z) :=
  if index =? kNoParent then Ok depths
  else match fuel with
       | O => Err OutOfFuel
       | S fuel' =>
           oldDepth <- of_option OutOfBounds (depths !! Z.to_nat index);;
           if (oldDepth =? UINT16_MAX) || (if useMax then oldDepth <? d else d <? oldDepth)
           then
             rev <- of_option OutOfBounds (revs !! Z.to_nat index);;
             computeDepths_walk fuel' revs useMax (parentIndex rev)
               (wrap16s (d + 1)) (<[Z.to_nat index := wrap16 d]> depths)
           else Ok depths
       end.

(** The outer loop of [RevTree::computeDepths] over the revisions [l],
    the first of which has index [k]. *)
Fixpoint computeDepths_loop (fuel : nat) (t : RevTree) (useMax : bool)
  (l : list Revision) (k : Z) (depths : list Z) : result (list Z) :=
  match l with
  | [] => Ok depths
  | rev :: rest =>
      if isLeaf rev then
        depths' <- computeDepths_walk fuel (revs t) useMax k 0 depths;;
        computeDepths_loop fuel t useMax rest (k + 1) depths'
      else if sorted t then Ok depths
      else computeDepths_loop fuel t useMax rest (k + 1) depths
  end.

(** [RevTree::computeDepths] *)
Definition computeDepths (fuel : nat) (t : RevTree) (useMax : bool) : result (list Z) :=
  computeDepths_loop fuel t useMax (revs t) 0
    (replicate (length (revs t)) UINT16_MAX).

(** The first loop of [RevTree::compact]: the map from current to new
    indexes, [j] counting the survivors so far. *)
Fixpoint compact_map (l : list Revision) (j : Z) : list Z :=
  match l with
  | [] => []
  | rev :: rest =>
      if 0 <? Z.of_nat (length (revID rev))
      then wrap16 j :: compact_map rest (j + 1)
      else kNoParent :: compact_map rest j
  end.

(** Reading the stack arrays of [compact] and [sort]; a read outside the
    array, undefined in C++, gives 0 here. *)
Definition array_get (a : list Z) (i : Z) : Z :=
  match a !! Z.to_nat i with
  | Some v => v
  | None => 0
  end.

Definition renumber (map : list Z) (i : Z) : Z :=
  if i =? kNoParent then i else array_get map i.

(** [RevTree::compact] *)
Definition compact (t : RevTree) : RevTree :=
  let map := compact_map (revs t) 0 in
  let survivors :=
    List.filter (fun rev => 0 <? Z.of_nat (length (revID rev))) (revs t) in
  let slid :=
    List.map (fun rev =>
           set_deltaRefIndex
             (set_parentIndex rev (renumber map (parentIndex rev)))
             (renumber map (deltaRefIndex rev))) survivors in
  mkRevTree (bodyOffset t) (sorted t) true (unknown t) slid.

(** The marking loop of [RevTree::prune]. *)
Fixpoint prune_mark (l : list Revision) (depths : list Z) (maxDepth : Z)
  : list Revision * Z :=
  match l, depths with
  | rev :: rest, depth :: depths' =>
      let r := prune_mark rest depths' maxDepth in
      if maxDepth <? depth then (set_revID rev [] :: fst r, snd r + 1)
      else (rev :: fst r, snd r)
  | _, _ => (l, 0)
  end.

(** [RevTree::prune]: the tree and the number of revisions removed. *)
Definition prune (fuel : nat) (t : RevTree) (maxDepth : Z) : result (RevTree * Z) :=
  if (maxDepth =? 0) || (size t <=? maxDepth) then Ok (t, 0)
  else
    depths <- computeDepths fuel t true;;
    let marked := prune_mark (revs t) depths maxDepth in
    let numPruned := snd marked in
    let t := set_revs t (fst marked) in
    Ok (if 0 <? numPruned then compact t else t, numPruned).

(** ** Canonical order *)

(** [Revision::operator<]: higher priority comes first. *)
Definition Revision_lt (this rev2 : Revision) : bool :=
  let delta := Z.b2z (isLeaf rev2) - Z.b2z (isLeaf this) in
  if negb (delta =? 0) then delta <? 0
  else
    let delta := Z.b2z (isDeleted this) - Z.b2z (isDeleted rev2) in
    if negb (delta =? 0) then delta <? 0
    else revid_ltb (revID rev2) (revID this).

(** [std::sort] with [Revision::operator<].  The library leaves the order
    of equivalent elements open, so the sort is a parameter of the model;
    what the standard promises about it is [StdSortLaws]. *)
Class StdSort : Type := std_sort : list Revision -> list Revision.

Class StdSortLaws `{StdSort} : Prop := {
  std_sort_perm : forall l, Permutation (std_sort l) l;
  std_sort_sorted : forall l,
    StronglySorted (fun a b => Revision_lt b a = false) (std_sort l)
}.

(** One such sort: insertion of each element before the first element it
    is less than. *)
Fixpoint insert_sorted (x : Revision) (l : list Revision) : list Revision :=
  match l with
  | [] => [x]
  | y :: l' => if Revision_lt x y then x :: y :: l' else y :: insert_sorted x l'
  end.

Definition insertion_sort (l : list Revision) : list Revision :=
  fold_right insert_sorted [] l.

Section WithSort.
Context `{StdSort}.

(** The loop of [RevTree::sort] that fills [oldToNew]. *)
Fixpoint sort_oldToNew (l : list Revision) (i : Z) (oldToNew : list Z) : list Z :=
  match l with
  | [] => oldToNew
  | rev :: rest =>
      let oldIndex := parentIndex rev in
      sort_oldToNew rest (i + 1) (<[Z.to_nat oldIndex := wrap16 i]> oldToNew)
  end.

(** [RevTree::sort].  The arrays [oldParents] and [oldToNew] live on the
    stack; [oldToNew] starts out as zeros here. *)
Definition sort (t : RevTree) : RevTree :=
  if sorted t then t
  else
    let oldParents := List.map parentIndex (revs t) in
    let cookied :=
      imap (fun i rev => set_parentIndex rev (wrap16 (Z.of_nat i))) (revs t) in
    let sorted_revs := std_sort cookied in
    let oldToNew :=
      sort_oldToNew sorted_revs 0 (replicate (length (revs t)) 0) in
    let fixed :=
      List.map (fun rev =>
             let oldIndex := parentIndex rev in
             let parent := array_get oldParents oldIndex in
             let parent := renumber oldToNew parent in
             set_deltaRefIndex (set_parentIndex rev parent)
               (renumber oldToNew (deltaRefIndex rev))) sorted_revs in
    mkRevTree (bodyOffset t) true (changed t) (unknown t) fixed.

(** [RevTree::encode]: the tree, now sorted, and the bytes. *)
Definition encode (t : RevTree) : RevTree * list byte :=
  let t := sort t in
  (t, concat (List.map (fun src => RawRevision.bytes (Revision_write src (bodyOffset t)))
                  (revs t))
      ++ put_u32 0).

(** [RevTree::currentRevision] *)
Definition currentRevision (t : RevTree) : result (RevTree * Revision) :=
  _ <- assert (negb (unknown t));;
  let t := sort t in
  r <- of_option OutOfBounds (revs t !! O);;
  Ok (t, r).

End WithSort.

#[global] Instance insertion_StdSort : StdSort := insertion_sort.

(** ** The tagged value encoder *)

Module EncodingWriter.

(** Modelled from the spec: [value::typeCode] is declared in
    [Encoding.hh], which is not part of the sources; the codes are those
    of the format table of the specification. *)
Inductive typeCode : Type :=
  | kNullCode | kFalseCode | kTrueCode
  | kInt8Code | kInt16Code | kInt32Code | kInt64Code | kUInt64Code
  | kFloat32Code | kFloat64Code | kRawNumberCode | kDateCode | kDataCode
  | kStringCode | kSharedStringCode | kSharedStringRefCode
  | kExternStringRefCode | kArrayCode | kDictCode.

(** The byte each type code is written as: a parameter, the numbering
    being part of the missing header. *)
Class TypeCodeBytes : Type := code_byte : typeCode -> byte.

Definition kMinSharedStringLength : Z := 4.
Definition kMaxSharedStringLength : Z := 100.

(** One frame of the stack of open containers. *)
Record state : Type := mkState {
  count : Z;                 (* declared size *)
  i : Z;                     (* items written so far *)
  hashes : option (list Z);  (* key hashes of a dict, NULL otherwise *)
  indexPos : Z               (* where the hash index starts in the output *)
}.

Record dataWriter : Type := mkWriter {
  _out : list byte;                       (* the Writer's buffer *)
  _enableSharedStrings : bool;
  _sharedStrings : gmap string Z;
  _externStrings : option (list string);  (* the caller's table, or NULL *)
  _externStringsLookup : gmap string Z;
  _maxExternStrings : Z;
  _states : list state
}.

Definition set_out (w : dataWriter) (o : list byte) : dataWriter :=
  mkWriter o (_enableSharedStrings w) (_sharedStrings w) (_externStrings w)
           (_externStringsLookup w) (_maxExternStrings w) (_states w).
Definition set_sharedStrings (w : dataWriter) (m : gmap string Z) : dataWriter :=
  mkWriter (_out w) (_enableSharedStrings w) m (_externStrings w)
           (_externStringsLookup w) (_maxExternStrings w) (_states w).
Definition set_externs (w : dataWriter) (l : list string) (m : gmap string Z)
  : dataWriter :=
  mkWriter (_out w) (_enableSharedStrings w) (_sharedStrings w) (Some l)
           m (_maxExternStrings w) (_states w).
Definition set_states (w : dataWriter) (st : list state) : dataWriter :=
  mkWriter (_out w) (_enableSharedStrings w) (_sharedStrings w) (_externStrings w)
           (_externStringsLookup w) (_maxExternStrings w) st.
Definition enableSharedStrings (w : dataWriter) (b : bool) : dataWriter :=
  mkWriter (_out w) b (_sharedStrings w) (_externStrings w)
           (_externStringsLookup w) (_maxExternStrings w) (_states w).

(** [Writer::length] and [Writer::write] ([Writer.hh]). *)
Definition Writer_length (w : dataWriter) : Z := Z.of_nat (length (_out w)).
Definition Writer_write (w : dataWriter) (data : list byte) : dataWriter :=
  set_out w (_out w ++ data).

(** Modelled from the spec: [Writer::rewrite], declared in [Writer.hh]
    and defined outside the sources, overwrites already-written data in
    place, from position [pos], without changing the length. *)
Definition Writer_rewrite (w : dataWriter) (pos : Z) (newData : list byte)
  : dataWriter :=
  let p := Z.to_nat pos in
  set_out w (take (length (_out w))
               (take p (_out w) ++ newData ++ drop (p + length newData) (_out w))).

(** The constructor: inverts the caller's extern table and pushes the
    top-level frame. *)
Fixpoint invert_externs (l : list string) (k : Z) (m : gmap string Z)
  : gmap string Z :=
  match l with
  | [] => m
  | s :: rest => invert_externs rest (k + 1) (<[s := wrap32 k + 1]> m)
  end.

Definition dataWriter_new (out : list byte) (externStrings : option (list string))
  (maxExternStrings : Z) : dataWriter :=
  mkWriter out false ∅ externStrings
    (match externStrings with
     | Some l => invert_externs l 0 ∅
     | None => ∅
     end)
    maxExternStrings
    [mkState 0 0 None 0].

Section WithCodes.
Context `{TypeCodeBytes}.

(** Modelled from the spec: [dataWriter::addTypeCode] is defined in
    [EncodingWriter.hh]; it writes the code byte and counts one more item
    in the current frame.  The current frame [_state] is the head of
    [_states]. *)
Definition addTypeCode (w : dataWriter) (code : typeCode) : dataWriter :=
  let w := Writer_write w [code_byte code] in
  match _states w with
  | st :: below =>
      set_states w (mkState (count st) (i st + 1) (hashes st) (indexPos st) :: below)
  | [] => w
  end.

(** [dataWriter::addUVarint] *)
Definition addUVarint (w : dataWriter) (n : Z) : dataWriter :=
  Writer_write w (PutUVarInt n).

(** [dataWriter::writeExternString] *)
Definition writeExternString (w : dataWriter) (externRef : Z) : result dataWriter :=
  _ <- assert (0 <? externRef);;
  let w := addTypeCode w kExternStringRefCode in
  Ok (addUVarint w externRef).

Definition str_length (str : string) : Z := Z.of_nat (String.length str).

Definition shareable (len : Z) : bool :=
  (kMinSharedStringLength <=? len) && (len <=? kMaxSharedStringLength).

(** [_sharedStrings[str]]: the value stored for [str], after a zero has
    been stored for a key that was missing. *)
Definition sharedStrings_at (w : dataWriter) (str : string) : dataWriter * Z :=
  match _sharedStrings w !! str with
  | Some off => (w, off)
  | None => (set_sharedStrings w (<[str := 0]> (_sharedStrings w)), 0)
  end.

(** The part of [writeString(std::string, bool)] after the extern
    table: sharing, then the string itself. *)
Definition writeString_shared (w : dataWriter) (str : string) : result dataWriter :=
  let len := str_length str in
  let plain (w : dataWriter) :=
    let w := addTypeCode w kStringCode in
    let w := addUVarint w len in
    Ok (Writer_write w (list_byte_of_string str)) in
  if _enableSharedStrings w && shareable len then
    let curOffset := Writer_length w in
    if UINT32_MAX <? curOffset then Err (Exception "output too large")
    else
      let '(w, sharedOffset) := sharedStrings_at w str in
      if 0 <? sharedOffset then
        let w := Writer_rewrite w sharedOffset [code_byte kSharedStringCode] in
        let w := addTypeCode w kSharedStringRefCode in
        Ok (addUVarint w (curOffset - sharedOffset))
      else
        plain (set_sharedStrings w (<[str := wrap32 curOffset]> (_sharedStrings w)))
  else plain w.

(** [dataWriter::writeString(std::string str, bool canAddExtern)] *)
Definition writeString (w : dataWriter) (str : string) (canAddExtern : bool)
  : result dataWriter :=
  match _externStrings w with
  | Some externs =>
      match _externStringsLookup w !! str with
      | Some externID => writeExternString w externID
      | None =>
          let n := wrap32 (Z.of_nat (length externs)) in
          if (n <? _maxExternStrings w) && canAddExtern then
            let n := wrap32 (n + 1) in
            let w := set_externs w (externs ++ [str])
                       (<[str := n]> (_externStringsLookup w)) in
            writeExternString w n
          else writeString_shared w str
      end
  | None => writeString_shared w str
  end.

(** [dataWriter::writeString(slice s, bool canAddExtern)] *)
Definition writeString_slice (w : dataWriter) (s : string) (canAddExtern : bool)
  : result dataWriter :=
  if bool_decide (_externStrings w <> None)
     || (_enableSharedStrings w && shareable (str_length s))
  then writeString w s canAddExtern
  else
    let w := addTypeCode w kStringCode in
    let w := addUVarint w (str_length s) in
    Ok (Writer_write w (list_byte_of_string s)).

(** A run of [writeString] calls, one per string. *)
Fixpoint writeStrings (w : dataWriter) (strs : list string) : result dataWriter :=
  match strs with
  | [] => Ok w
  | s :: rest => w' <- writeString w s true;; writeStrings w' rest
  end.

End WithCodes.

(** A writer with sharing enabled, no extern table and nothing written
    yet: the next value is written at offset 0. *)
Definition fresh_sharing_writer : dataWriter :=
  enableSharedStrings (dataWriter_new [] None 0) true.

Section Occurrences.
Context `{TypeCodeBytes}.

(** A string written in full. *)
Definition plain_string (str : string) : list byte :=
  code_byte kStringCode :: PutUVarInt (str_length str) ++ list_byte_of_string str.

(** A reference [distance] bytes back. *)
Definition shared_ref (distance : Z) : list byte :=
  code_byte kSharedStringRefCode :: PutUVarInt distance.

(** The second occurrence of a shareable string as the specification
    words it, for a string written twice in a row at the start of the
    output: the code byte of the first occurrence becomes
    [kSharedStringCode] and the second occurrence is a reference to it. *)
Definition spec_second_occurrence (str : string) : Prop :=
  exists w,
    writeStrings fresh_sharing_writer [str; str] = Ok w /\
    _out w =
      (code_byte kSharedStringCode
         :: PutUVarInt (str_length str) ++ list_byte_of_string str)
      ++ shared_ref (Z.of_nat (length (plain_string str))).

(** A string first written at offset 0, as the claim words it: each of
    the [n] later occurrences is written in full again. *)
Definition spec_never_shared (str : string) (n : nat) : Prop :=
  exists w,
    writeStrings fresh_sharing_writer (replicate (S n) str) = Ok w /\
    _out w = concat (replicate (S n) (plain_string str)).

End Occurrences.

(** A numbering of the type codes, in the order of their declaration
    above. *)
Definition declaration_order (c : typeCode) : byte :=
  byte_of_Z
    match c with
    | kNullCode => 0 | kFalseCode => 1 | kTrueCode => 2
    | kInt8Code => 3 | kInt16Code => 4 | kInt32Code => 5 | kInt64Code => 6
    | kUInt64Code => 7 | kFloat32Code => 8 | kFloat64Code => 9
    | kRawNumberCode => 10 | kDateCode => 11 | kDataCode => 12
    | kStringCode => 13 | kSharedStringCode => 14 | kSharedStringRefCode => 15
    | kExternStringRefCode => 16 | kArrayCode => 17 | kDictCode => 18
    end.

(** Modelled from the spec: [_enc64] is declared in [Endian.h], outside
    the sources; it gives a 64-bit value in big-endian order.  The eight
    bytes of the value in memory after the conversion. *)
Definition put_u64 (z : Z) : list byte :=
  [byte_of_Z (wrap64 z / 72057594037927936); byte_of_Z (wrap64 z / 281474976710656);
   byte_of_Z (wrap64 z / 1099511627776); byte_of_Z (wrap64 z / 4294967296);
   byte_of_Z (wrap64 z / 16777216); byte_of_Z (wrap64 z / 65536);
   byte_of_Z (wrap64 z / 256); byte_of_Z (wrap64 z)].

Definition INT64_MAX : Z := 9223372036854775807.

(** The conversion [(int64_t)u] of a [uint64_t]. *)
Definition to_int64 (u : Z) : Z :=
  let v := wrap64 u in
  if v <? 9223372036854775808 then v else v - 18446744073709551616.

(** [dict::hashCode], declared outside the sources: a parameter. *)
Class KeyHash : Type := hashCode : string -> Z.

(** The bytes of a [uint16_t] in the memory of the host, which
    [beginDict] and [endDict] copy to the output as they are. *)
Class HostMemory : Type := {
  u16_bytes : Z -> list byte;
  u16_bytes_length : forall z, length (u16_bytes z) = 2%nat
}.

Section Values.
Context `{TypeCodeBytes}.

(** [dataWriter::writeNull] and [dataWriter::writeBool] *)
Definition writeNull (w : dataWriter) : dataWriter := addTypeCode w kNullCode.

Definition writeBool (w : dataWriter) (b : bool) : dataWriter :=
  addTypeCode w (if b then kTrueCode else kFalseCode).

(** [dataWriter::writeInt]; [i] is an [int64_t]. *)
Definition writeInt (w : dataWriter) (i : Z) : dataWriter :=
  let buf := put_u64 i in
  let '(code, size) :=
    if (-128 <=? i) && (i <=? 127) then (kInt8Code, 1%nat)
    else if (-32768 <=? i) && (i <=? 32767) then (kInt16Code, 2%nat)
    else if (-2147483648 <=? i) && (i <=? 2147483647) then (kInt32Code, 4%nat)
    else (kInt64Code, 8%nat) in
  let w := addTypeCode w code in
  Writer_write w (drop (8 - size) buf).

(** [dataWriter::writeUInt]; [u] is a [uint64_t]. *)
Definition writeUInt (w : dataWriter) (u : Z) : dataWriter :=
  if u <? INT64_MAX then writeInt w (to_int64 u)
  else
    let w := addTypeCode w kUInt64Code in
    Writer_write w (put_u64 u).

(** [dataWriter::writeRawNumber], [writeDate] and [writeData] *)
Definition writeRawNumber (w : dataWriter) (s : list byte) : dataWriter :=
  let w := addTypeCode w kRawNumberCode in
  let w := addUVarint w (Z.of_nat (length s)) in
  Writer_write w s.

Definition writeDate (w : dataWriter) (dateTime : Z) : dataWriter :=
  let w := addTypeCode w kDateCode in
  addUVarint w dateTime.

Definition writeData (w : dataWriter) (s : list byte) : dataWriter :=
  let w := addTypeCode w kDataCode in
  let w := addUVarint w (Z.of_nat (length s)) in
  Writer_write w s.

(** Writing through [_state], the frame on top of the stack. *)
Definition update_state (f : state -> state) (w : dataWriter) : dataWriter :=
  match _states w with
  | st :: below => set_states w (f st :: below)
  | [] => w
  end.

(** [dataWriter::pushState]: the new frame is value-initialised. *)
Definition pushState (w : dataWriter) : dataWriter :=
  let w := set_states w (mkState 0 0 None 0 :: _states w) in
  update_state (fun st => mkState (count st) (i st) None (indexPos st)) w.

(** [dataWriter::popState] *)
Definition popState (w : dataWriter) : result dataWriter :=
  match _states w with
  | st :: below =>
      if negb (i st =? count st)
      then Err (Exception "dataWriter: mismatched count")
      else Ok (set_states w below)
  | [] => Err OutOfBounds
  end.

(** [dataWriter::pushCount] *)
Definition pushCount (w : dataWriter) (n : Z) : dataWriter :=
  let w := addUVarint w n in
  let w := pushState w in
  let w := update_state (fun st => mkState n (i st) (hashes st) (indexPos st)) w in
  update_state (fun st => mkState (count st) 0 (hashes st) (indexPos st)) w.

(** [dataWriter::beginArray] *)
Definition beginArray (w : dataWriter) (n : Z) : dataWriter :=
  let w := addTypeCode w kArrayCode in
  pushCount w n.

Section Dicts.
Context `{KeyHash} `{HostMemory}.

(** The memory of an array of [uint16_t]. *)
Definition u16s_bytes (l : list Z) : list byte := flat_map u16_bytes l.

(** [dataWriter::beginDict]; [fresh] is what the array that [new
    uint16_t[count]] returns happens to hold, [count] values. *)
Definition beginDict (w : dataWriter) (n : Z) (fresh : list Z) : dataWriter :=
  let w := addTypeCode w kDictCode in
  let w := pushCount w n in
  let w := update_state (fun st => mkState (count st) (i st) (Some fresh) (indexPos st)) w in
  let pos := Writer_length w in
  let w := update_state (fun st => mkState (count st) (i st) (hashes st) pos) w in
  Writer_write w (take (Z.to_nat (n * 2)) (u16s_bytes fresh)).

(** [_state->hashes[_state->i] = hash] *)
Definition store_hash (w : dataWriter) (hash : Z) : result dataWriter :=
  match _states w with
  | st :: below =>
      match hashes st with
      | Some hs =>
          _ <- assert_in_bounds ((0 <=? i st) && (i st <? Z.of_nat (length hs)));;
          Ok (set_states w
                (mkState (count st) (i st)
                         (Some (<[Z.to_nat (i st) := wrap16 hash]> hs)) (indexPos st)
                 :: below))
      | None => Err OutOfBounds
      end
  | [] => Err OutOfBounds
  end.

(** [--_state->i] *)
Definition uncount (w : dataWriter) : dataWriter :=
  update_state (fun st => mkState (count st) (i st - 1) (hashes st) (indexPos st)) w.

(** [dataWriter::writeKey(std::string key, bool canAddExtern)] *)
Definition writeKey (w : dataWriter) (key : string) (canAddExtern : bool)
  : result dataWriter :=
  w <- store_hash w (hashCode key);;
  w <- writeString w key canAddExtern;;
  Ok (uncount w).

(** [dataWriter::writeKey(slice key, bool canAddExtern)] *)
Definition writeKey_slice (w : dataWriter) (key : string) (canAddExtern : bool)
  : result dataWriter :=
  w <- store_hash w (hashCode key);;
  w <- writeString_slice w key canAddExtern;;
  Ok (uncount w).

(** [dataWriter::writeExternKey] *)
Definition writeExternKey (w : dataWriter) (externRef : Z) (hash : Z)
  : result dataWriter :=
  w <- store_hash w hash;;
  w <- writeExternString w externRef;;
  Ok (uncount w).

(** [dataWriter::endDict] *)
Definition endDict (w : dataWriter) : result dataWriter :=
  match _states w with
  | st :: _ =>
      match hashes st with
      | Some hs =>
          _ <- assert_in_bounds (count st <=? Z.of_nat (length hs));;
          popState (Writer_rewrite w (indexPos st)
                      (take (Z.to_nat (count st * 2)) (u16s_bytes hs)))
      | None =>
          _ <- assert_in_bounds (count st =? 0);;
          popState w
      end
  | [] => Err OutOfBounds
  end.

End Dicts.

End Values.

End EncodingWriter.

(** ** The properties as the specification words them

    Each definition below follows a sentence of the specification, to be
    compared with what the code does. *)

(** A trivial delta codec: the delta of a target is the target itself. *)
#[global] Instance verbatim_Delta : Delta := {
  CreateDelta := fun _ target => Some target;
  ApplyDelta := fun _ delta => Some delta
}.

(** The body of a written record: HasData and the body when there is
    one; else HasBodyOffset and an offset when the revision or the tree
    has one; else neither. *)
Definition spec_body_rule (r : Revision) (treeBodyOffset : Z) : Prop :=
  let raw := Revision_write r treeBodyOffset in
  (0 < slice_size (body r) ->
     has_flag (RawRevision.flags raw) kHasData = true /\
     RawRevision.tail raw = PutUVarInt (sequence r) ++ slice_bytes (body r)) /\
  (slice_size (body r) = 0 -> 0 < oldBodyOffset r \/ 0 < treeBodyOffset ->
     has_flag (RawRevision.flags raw) kHasBodyOffset = true /\
     RawRevision.tail raw =
       PutUVarInt (sequence r) ++
       PutUVarInt (if oldBodyOffset r =? 0 then treeBodyOffset else oldBodyOffset r)) /\
  (slice_size (body r) = 0 -> oldBodyOffset r = 0 -> treeBodyOffset = 0 ->
     has_flag (RawRevision.flags raw) kHasData = false /\
     has_flag (RawRevision.flags raw) kHasBodyOffset = false /\
     RawRevision.tail raw = PutUVarInt (sequence r)).

(** Whether a revision identifier is in the tree, and the revision it
    names. *)
Definition in_tree (t : RevTree) (id : revid) : bool :=
  match find_revID (revs t) id 0 with
  | Some _ => true
  | None => false
  end.

Definition named (t : RevTree) (id : revid) : option Revision :=
  match find_revID (revs t) id 0 with
  | Some p => revs t !! Z.to_nat p
  | None => None
  end.

(** The conflict condition of [insert]: conflicts are not allowed and the
    parent is not a leaf, or there is no parent and the tree is not
    empty. *)
Definition conflicts (t : RevTree) (parentRevID : option revid) (allowConflict : bool)
  : bool :=
  negb allowConflict &&
  match parentRevID with
  | Some pid =>
      match named t pid with
      | Some prev => negb (isLeaf prev)
      | None => false
      end
  | None => 0 <? size t
  end.

Definition parent_generation (parentRevID : option revid) : Z :=
  match parentRevID with
  | Some pid => generation pid
  | None => 0
  end.

(** The status list of [insert] as the specification gives it, each
    status with its condition. *)
Definition spec_insert_status (t : RevTree) (newRevID : revid)
  (parentRevID : option revid) (allowConflict deleted : bool) (res : inserted) : Prop :=
  (generation newRevID = 0 \/
   generation newRevID <> parent_generation parentRevID + 1 ->
     httpStatus res = 400) /\
  (in_tree t newRevID = true -> httpStatus res = 200 /\ ins_tree res = t) /\
  ((exists pid, parentRevID = Some pid /\ in_tree t pid = false) ->
     httpStatus res = 404) /\
  (conflicts t parentRevID allowConflict = true -> httpStatus res = 409).

(** The status of [insert] in the order the code decides it. *)
Definition insert_status (t : RevTree) (newRevID : revid)
  (parentRevID : option revid) (allowConflict deleted : bool) : Z :=
  if match parentRevID with
     | Some pid => negb (in_tree t pid)
     | None => false
     end then 404
  else if generation newRevID =? 0 then 400
  else if in_tree t newRevID then 200
  else if conflicts t parentRevID allowConflict then 409
  else if negb (generation newRevID =? wrap32 (parent_generation parentRevID + 1))
  then 400
  else if deleted then 200 else 201.

(** The revision [_insert] appends. *)
Definition new_revision (newRevID : revid) (body : option (list byte))
  (deleted hasAttachments : bool) (parentIndex : Z) : Revision :=
  mkRevision newRevID 0 body 0
    (Z.lor (Z.lor (Z.lor kLeaf kNew) (bool_flag deleted kDeleted))
           (bool_flag hasAttachments kHasAttachments))
    parentIndex kNoParent.

(** Adjacent entries of a history have generations that go down by
    exactly 1. *)
Definition generations_descend (history : list revid) : Prop :=
  forall k a b, history !! k = Some a -> history !! S k = Some b ->
                generation b = generation a - 1.

(** The index of the first entry of a history that is in the tree. *)
Fixpoint first_present (t : RevTree) (history : list revid) : option nat :=
  match history with
  | [] => None
  | h :: rest =>
      if in_tree t h then Some O
      else match first_present t rest with
           | Some k => Some (S k)
           | None => None
           end
  end.

(** [_insert] of each identifier in turn, with an empty body, each the
    child of the one before; the first is the child of [parent]. *)
Fixpoint insert_each (t : RevTree) (ids : list revid) (parent : option Z)
  : result (RevTree * option Z) :=
  match ids with
  | [] => Ok (t, parent)
  | h :: rest =>
      r <- _insert t h None parent false false;;
      insert_each (fst r) rest (Some (snd r))
  end.

(** [insertHistory] as the specification words it: -1 and no insertion
    whenever some adjacent pair does not descend by 1; otherwise the index
    of the first entry present, after the newer entries were inserted
    oldest first. *)
Definition spec_insertHistory (t : RevTree) (history : list revid)
  (data : option (list byte)) (deleted hasAttachments : bool) : Prop :=
  (~ generations_descend history ->
     insertHistory t history data deleted hasAttachments = Ok (t, -1)) /\
  (generations_descend history ->
     forall k, first_present t history = Some k ->
       exists t', insertHistory t history data deleted hasAttachments
                  = Ok (t', Z.of_nat k)).

(** No revision of the tree has [p] as its delta reference. *)
Definition not_a_reference (t : RevTree) (p : Z) : Prop :=
  forall j r, revs t !! j = Some r -> deltaRefIndex r <> p.

(** [removeBody] as the specification words it: for a revision with a
    body that no revision uses as its delta reference, the call returns
    true and clears the body; [oldBodyOffset] becomes the offset of the
    tree when it has one and stays 0 otherwise. *)
Definition spec_removeBody `{Delta} (fuel : nat) (t : RevTree) (p : Z)
  (allowExpansion : bool) : Prop :=
  forall rev b,
    deref t p = Ok rev -> body rev = Some b -> b <> [] ->
    not_a_reference t p ->
    exists t' rev',
      removeBody fuel t p allowExpansion = Ok (t', true) /\
      deref t' p = Ok rev' /\
      body rev' = None /\
      oldBodyOffset rev' = (if 0 <? bodyOffset t then bodyOffset t else 0).

(** The target is on the chain of delta references that starts at
    [rev]. *)
Inductive on_delta_chain (t : RevTree) (target : Z) : Z -> Prop :=
  | chain_here : on_delta_chain t target target
  | chain_next (p : Z) (r : Revision) :
      deref t p = Ok r -> isCompressed r = true ->
      on_delta_chain t target (deltaRefIndex r) ->
      on_delta_chain t target p.

(** [compress] as the specification words it: when the target is on the
    chain of the reference, the call returns false and leaves the tree
    untouched. *)
Definition spec_compress_refuses `{Delta} (fuel : nat) (t : RevTree)
  (target reference : Z) : Prop :=
  forall trev,
    target <> reference ->
    deref t target = Ok trev -> isCompressed trev = false ->
    on_delta_chain t target reference ->
    compress fuel t target reference = Ok (t, false).

(** Whether [insert] goes on to [_insert]. *)
Definition insert_accepts (t : RevTree) (newRevID : revid)
  (parentRevID : option revid) (allowConflict : bool) : bool :=
  insert_status t newRevID parentRevID allowConflict false =? 201.

(** The revisions after an accepted [insert]: the parent is no longer a
    leaf and the new revision is last. *)
Definition revs_after_insert (t : RevTree) (newRevID : revid)
  (body : option (list byte)) (deleted hasAttachments : bool)
  (parentRevID : option revid) : list Revision :=
  match parentRevID with
  | Some pid =>
      match find_revID (revs t) pid 0, named t pid with
      | Some p, Some prev =>
          <[Z.to_nat p := clearFlag prev kLeaf]> (revs t)
          ++ [new_revision newRevID body deleted hasAttachments (wrap16 p)]
      | _, _ => revs t
      end
  | None => revs t ++ [new_revision newRevID body deleted hasAttachments kNoParent]
  end.

(** ** Sample trees *)

(** The history 1-a, 2-b: what two calls of [insert] build. *)
Definition tree_1a_2b : RevTree :=
  mkRevTree 0 false true false
    [mkRevision (bytes_of "1-a") 0 (Some (bytes_of "x")) 0 kNew kNoParent kNoParent;
     mkRevision (bytes_of "2-b") 0 (Some (bytes_of "y")) 0 (Z.lor kLeaf kNew) 0 kNoParent].

(** A tree that was never saved, with one revision that has a body. *)
Definition tree_unsaved : RevTree :=
  mkRevTree 0 true true false
    [mkRevision (bytes_of "1-a") 0 (Some (bytes_of "hello")) 0 (Z.lor kLeaf kNew)
                kNoParent kNoParent].

(** The same tree loaded from offset 4096 of the file. *)
Definition tree_saved : RevTree :=
  mkRevTree 4096 true false false
    [mkRevision (bytes_of "1-a") 7 (Some (bytes_of "hello")) 0 kLeaf
                kNoParent kNoParent].

(** Two revisions, the second stored as a delta against the first. *)
Definition tree_delta_pair : RevTree :=
  mkRevTree 4096 false true false
    [mkRevision (bytes_of "1-a") 1 (Some (bytes_of "hello world")) 0 0
                kNoParent kNoParent;
     mkRevision (bytes_of "2-b") 2 (Some (bytes_of "hello brave new world")) 0 kLeaf
                0 0].

(** The [parentIndex] stored for a new revision whose parent is [parent]. *)
Definition parent_field (parent : option Z) : Z :=
  match parent with
  | Some p => wrap16 p
  | None => kNoParent
  end.

(** The [parentIndex] fields of [m] revisions appended to a tree of [n]
    revisions as a chain: the first is the child of [parent], each of the
    others the child of the one before. *)
Definition chain_parents (parent : option Z) (n : Z) (m : nat) : list Z :=
  take m (parent_field parent :: List.map wrap16 (seqZ n (Z.of_nat m))).

(** The number of entries [insertHistory] looks at: up to the first one
    that is in the tree, all of them when there is none. *)
Definition common_ancestor (t : RevTree) (history : list revid) : nat :=
  match first_present t history with
  | Some k => k
  | None => length history
  end.

(** The revision of the tree that the entry at [common_ancestor] names. *)
Definition ancestor_revision (t : RevTree) (history : list revid) : option Z :=
  match history !! common_ancestor t history with
  | Some h => find_revID (revs t) h 0
  | None => None
  end.

(** A history whose last pair of generations does not descend, behind an
    entry that is in [tree_1a_2b]. *)
Definition history_with_gap : list revid :=
  [bytes_of "3-c"; bytes_of "2-b"; bytes_of "7-x"].

Definition history_4d : list revid :=
  [bytes_of "4-d"; bytes_of "3-c"; bytes_of "2-b"; bytes_of "1-a"].

(** ** Priority, links and chains *)

(** [a] comes before [b] in the canonical order: a leaf before a
    non-leaf; with the same leaf status, a live revision before a deleted
    one; with the same flags, the higher identifier first. *)
Definition outranks (a b : Revision) : Prop :=
  (isLeaf a = true /\ isLeaf b = false) \/
  (isLeaf a = isLeaf b /\ isDeleted a = false /\ isDeleted b = true) \/
  (isLeaf a = isLeaf b /\ isDeleted a = isDeleted b /\
   revid_ltb (revID b) (revID a) = true).

(** The order as the specification words it: the deletion rule applies
    among leaves only, and the identifier decides otherwise. *)
Definition spec_outranks (a b : Revision) : Prop :=
  (isLeaf a = true /\ isLeaf b = false) \/
  (isLeaf a = true /\ isLeaf b = true /\ isDeleted a = false /\ isDeleted b = true) \/
  (isLeaf a = isLeaf b /\
   (isLeaf a = true -> isDeleted a = isDeleted b) /\
   revid_ltb (revID b) (revID a) = true).

(** No revision of the list comes after one that it outranks. *)
Definition descending (order : Revision -> Revision -> Prop) (l : list Revision) : Prop :=
  forall (i j : nat) (a b : Revision),
    (i < j)%nat -> l !! i = Some a -> l !! j = Some b -> ~ order b a.

Definition spec_sorted_order `{StdSort} (t : RevTree) : Prop :=
  descending spec_outranks (revs (sort t)).

(** Two revisions that differ in their index fields at most. *)
Definition same_content (a b : Revision) : Prop :=
  revID a = revID b /\ sequence a = sequence b /\ body a = body b /\
  oldBodyOffset a = oldBodyOffset b /\ flags a = flags b.

(** The index field [new_] of a moved revision denotes the revision that
    the field [old] denoted: [moved] lists, for each new position, the
    old position of the revision now there. *)
Definition same_link (moved : list nat) (old new_ : Z) : Prop :=
  (old = kNoParent -> new_ = kNoParent) /\
  (forall p : nat, moved !! p <> None -> old = Z.of_nat p ->
     exists p' : nat, moved !! p' = Some p /\ new_ = Z.of_nat p').

(** [after] holds the revisions of [before] in another order, with the
    parent and delta-reference links renumbered to match. *)
Definition rearranged (moved : list nat) (before after : list Revision) : Prop :=
  length after = length before /\
  Permutation moved (seq 0 (length before)) /\
  forall (j o : nat), moved !! j = Some o ->
    exists r0 r',
      before !! o = Some r0 /\ after !! j = Some r' /\
      same_content r0 r' /\
      same_link moved (parentIndex r0) (parentIndex r') /\
      same_link moved (deltaRefIndex r0) (deltaRefIndex r').

(** The chain of parents that starts at index [i] ends at [kNoParent]. *)
Inductive chain_ends (l : list Revision) : Z -> Prop :=
  | ends_root : chain_ends l kNoParent
  | ends_step (i : nat) (r : Revision) :
      l !! i = Some r -> chain_ends l (parentIndex r) ->
      chain_ends l (Z.of_nat i).

(** 1-a, its deleted child 2-b, and the leaf 3-c under that. *)
Definition tree_deleted_parent : RevTree :=
  mkRevTree 0 false true false
    [mkRevision (bytes_of "1-a") 0 None 0 kNew kNoParent kNoParent;
     mkRevision (bytes_of "2-b") 0 None 0 (Z.lor kNew kDeleted) 0 kNoParent;
     mkRevision (bytes_of "3-c") 0 (Some (bytes_of "z")) 0 (Z.lor kLeaf kNew) 1 kNoParent].

(** ** Round trip *)

(** What [decode] reads back for a revision that [encode] wrote: the
    persistent flags, the sequence with 0 replaced, the body when there is
    one, the offset of the body when there is none. *)
Definition decoded (seq : Z) (r : Revision) : Revision :=
  mkRevision (revID r)
    (if sequence r =? 0 then seq else sequence r)
    (if 0 <? slice_size (body r) then Some (slice_bytes (body r)) else None)
    (if 0 <? slice_size (body r) then 0 else oldBodyOffset r)
    (Z.land (flags r) kPublicPersistentFlags)
    (parentIndex r) (deltaRefIndex r).

(** The fields the round trip compares. *)
Definition round_trip_equal (seq : Z) (r r' : Revision) : Prop :=
  revID r' = revID r /\
  flags r' = Z.land (flags r) kPublicPersistentFlags /\
  parentIndex r' = parentIndex r /\
  deltaRefIndex r' = deltaRefIndex r /\
  sequence r' = (if sequence r =? 0 then seq else sequence r) /\
  slice_bytes (body r') = slice_bytes (body r).

(** The round trip as the specification words it: within the limit on
    the number of revisions, decoding what [encode] produced gives the
    revisions of the (sorted) tree back. *)
Definition spec_round_trip `{StdSort} (t : RevTree) (seq docOffset : Z) : Prop :=
  size t <= 65535 ->
  exists t',
    RevTree_from (snd (encode t)) seq docOffset = Ok t' /\
    Forall2 (round_trip_equal seq) (revs (fst (encode t))) (revs (sort t')).

(** What the encoded form can hold of a revision: an identifier of at
    most 255 bytes and a record of less than 2^32 bytes. *)
Definition encodable (r : Revision) : Prop :=
  Revision_in_range r /\
  Z.of_nat (length (revID r)) <= 255 /\
  sizeToWrite r < 4294967296.

(** A tree whose only revision has an identifier of 256 bytes. *)
Definition tree_long_revID : RevTree :=
  mkRevTree 0 true true false
    [mkRevision (bytes_of "1-" ++ replicate 254 "a"%byte) 1 (Some (bytes_of "x")) 0
                kLeaf kNoParent kNoParent].

(** ** Depths *)

(** The revision at index [y] is the parent of the one at index [x]. *)
Definition is_parent (l : list Revision) (x y : nat) : Prop :=
  exists r, l !! x = Some r /\ parentIndex r = Z.of_nat y /\ (y < length l)%nat.

(** [path l x k y]: [k] steps from a revision to its parent lead from
    index [x] to index [y]. *)
Inductive path (l : list Revision) : nat -> nat -> nat -> Prop :=
  | path_0 (x : nat) : (x < length l)%nat -> path l x 0 x
  | path_S (x y z k : nat) :
      is_parent l x y -> path l y k z -> path l x (S k) z.

(** Some leaf is [k] steps below the revision at index [x]. *)
Definition reach (l : list Revision) (x k : nat) : Prop :=
  exists i r, l !! i = Some r /\ isLeaf r = true /\ path l i k x.

(** The depth of a revision: the length of the longest path from a leaf
    up to it. *)
Definition has_depth (l : list Revision) (x d : nat) : Prop :=
  reach l x d /\ forall k, reach l x k -> (k <= d)%nat.

(** The invariants of the data model that pruning relies on, for a tree
    small enough for the 16-bit signed counter of [computeDepths]: every
    chain of parents ends, delta references are valid, no identifier is
    empty, a leaf has no child, every revision is a leaf or above one, and
    a tree flagged as sorted has its leaves first. *)
Record wf_tree (t : RevTree) : Prop := {
  wf_size : size t <= 32767;
  wf_chains : forall x r, revs t !! x = Some r -> chain_ends (revs t) (Z.of_nat x);
  wf_delta : forall x r, revs t !! x = Some r ->
               deltaRefIndex r = kNoParent \/ 0 <= deltaRefIndex r < size t;
  wf_revID : forall x r, revs t !! x = Some r -> revID r <> [];
  wf_leaf : forall x r y r', revs t !! x = Some r -> isLeaf r = true ->
              revs t !! y = Some r' -> parentIndex r' <> Z.of_nat x;
  wf_reach : forall x r, revs t !! x = Some r -> exists k, reach (revs t) x k;
  wf_sorted : sorted t = true ->
              forall i j a b, (i < j)%nat -> revs t !! i = Some a -> revs t !! j = Some b ->
                              isLeaf a = false -> isLeaf b = false
}.

(** An index field [new_] of a surviving revision after a compaction
    that kept the revisions at the indexes [kept], in that order: the new
    place of the revision that [old] denoted, or [kNoParent] when that one
    was removed. *)
Definition kept_link (kept : list nat) (n : nat) (old new_ : Z) : Prop :=
  (old = kNoParent -> new_ = kNoParent) /\
  forall p : nat, old = Z.of_nat p -> (p < n)%nat ->
    (forall p', kept !! p' = Some p -> new_ = Z.of_nat p') /\
    (p ∉ kept -> new_ = kNoParent).

(** [after] holds the revisions of [before] at the indexes [kept], in
    that order, with their links renumbered. *)
Definition compacted (kept : list nat) (before after : list Revision) : Prop :=
  length after = length kept /\
  forall (j o : nat), kept !! j = Some o ->
    exists r0 r',
      before !! o = Some r0 /\ after !! j = Some r' /\
      same_content r0 r' /\
      kept_link kept (length before) (parentIndex r0) (parentIndex r') /\
      kept_link kept (length before) (deltaRefIndex r0) (deltaRefIndex r').

(** [prune] as the specification words it, for any depth: the revisions
    deeper than [maxDepth] are removed, and their number is returned. *)
Definition spec_prune (fuel : nat) (t : RevTree) (maxDepth : Z) : Prop :=
  exists t' kept,
    prune fuel t maxDepth = Ok (t', size t - Z.of_nat (length kept)) /\
    compacted kept (revs t) (revs t') /\
    forall x, x ∈ kept <->
              exists d, has_depth (revs t) x d /\ Z.of_nat d <= maxDepth.

(** The number of links from index [x] up to the root of its chain of
    parents. *)
Inductive height (l : list Revision) : Z -> nat -> Prop :=
  | height_root : height l kNoParent 0
  | height_step (i : nat) (r : Revision) (h : nat) :
      l !! i = Some r -> height l (parentIndex r) h ->
      height l (Z.of_nat i) (S h).

(** The array [depths] accounts for the paths [P]: the entry of a
    revision that no path reaches is [UINT16_MAX], any other entry is the
    length of the longest path to the revision. *)
Definition accounts (l : list Revision) (P : nat -> nat -> Prop) (depths : list Z) : Prop :=
  length depths = length l /\
  forall x v, depths !! x = Some v ->
    (v = UINT16_MAX /\ forall k, ~ P x k) \/
    (exists d, v = Z.of_nat d /\ P x d /\ forall k, P x k -> (k <= d)%nat).

(** Some leaf among the first [b] revisions is [k] steps below [x]. *)
Definition reach_below (l : list Revision) (b x k : nat) : Prop :=
  exists i r, (i < b)%nat /\ l !! i = Some r /\ isLeaf r = true /\ path l i k x.

(** A revision whose identifier is not emptied: [compact] keeps it. *)
Definition alive (rev : Revision) : bool := 0 <? Z.of_nat (length (revID rev)).

(** The indexes, counted from [base], of the revisions of [l] that
    [compact] keeps. *)
Fixpoint alive_indices (l : list Revision) (base : nat) : list nat :=
  match l with
  | [] => []
  | rev :: rest =>
      if alive rev then base :: alive_indices rest (S base)
      else alive_indices rest (S base)
  end.

(** ** More of the revision tree *)

(** The loop of [RevTree::getBySequence]. *)
Fixpoint find_sequence (l : list Revision) (seq : Z) (i : Z) : option Z :=
  match l with
  | [] => None
  | rev :: rest =>
      if sequence rev =? seq then Some i else find_sequence rest seq (i + 1)
  end.

(** [RevTree::getBySequence] *)
Definition getBySequence (t : RevTree) (seq : Z) : result (option Z) :=
  match find_sequence (revs t) seq 0 with
  | Some i => Ok (Some i)
  | None => _ <- assert (negb (unknown t));; Ok None
  end.

(** The counting loop of [RevTree::hasConflict]. *)
Fixpoint hasConflict_loop (l : list Revision) (nActive : Z) : bool :=
  match l with
  | [] => false
  | rev :: rest =>
      if isActive rev then
        let nActive := nActive + 1 in
        if 1 <? nActive then true else hasConflict_loop rest nActive
      else hasConflict_loop rest nActive
  end.

(** [RevTree::hasConflict] *)
Definition hasConflict (t : RevTree) : result bool :=
  if size t <? 2 then
    _ <- assert (negb (unknown t));; Ok false
  else if sorted t then
    rev <- of_option OutOfBounds (revs t !! 1%nat);; Ok (isActive rev)
  else Ok (hasConflict_loop (revs t) 0).

(** The loop of [RevTree::currentRevisions], [i] being the index of the
    first revision of [l]. *)
Fixpoint leaves_from (l : list Revision) (i : Z) : list Z :=
  match l with
  | [] => []
  | rev :: rest =>
      if isLeaf rev then i :: leaves_from rest (i + 1)
      else leaves_from rest (i + 1)
  end.

(** [RevTree::currentRevisions] *)
Definition currentRevisions (t : RevTree) : result (list Z) :=
  _ <- assert (negb (unknown t));; Ok (leaves_from (revs t) 0).

(** [Revision::history]: the revision and its ancestors, nearest first.
    [fuel] bounds the length of the chain followed. *)
Fixpoint history (fuel : nat) (t : RevTree) (p : Z) : result (list Z) :=
  match fuel with
  | O => Err OutOfFuel
  | S fuel' =>
      rev <- deref t p;;
      next <- parent t rev;;
      match next with
      | None => Ok [p]
      | Some q => h <- history fuel' t q;; Ok (p :: h)
      end
  end.

(** [RevTree::isBodyOfRevisionAvailable] *)
Definition isBodyOfRevisionAvailable (t : RevTree) (p : Z) (atOffset : Z)
  : result bool :=
  rev <- deref t p;;
  Ok (match body rev with Some _ => true | None => false end).

(** The loop of [RevTree::confirmLeaf]: some revision names [index] as
    its parent. *)
Fixpoint names_parent (l : list Revision) (index : Z) : bool :=
  match l with
  | [] => false
  | rev :: rest =>
      if parentIndex rev =? index then true else names_parent rest index
  end.

(** [RevTree::confirmLeaf] *)
Definition confirmLeaf (t : RevTree) (testRev : Z) : result (RevTree * bool) :=
  index <- index t testRev;;
  if names_parent (revs t) index then Ok (t, false)
  else
    rev <- deref t testRev;;
    Ok (store t testRev (addFlag rev kLeaf), true).

(** The [do ... while] loop of [RevTree::purge], entered with the
    revision at [rev]; the tree with the purged revisions marked and
    unlinked, and the value of [nPurged].  [fuel] bounds the number of
    rounds. *)
Fixpoint purge_loop (fuel : nat) (t : RevTree) (rev : Z) (nPurged : Z)
  : result (RevTree * Z) :=
  match fuel with
  | O => Err OutOfFuel
  | S fuel' =>
      let nPurged := nPurged + 1 in
      r <- deref t rev;;
      let r := set_revID r [] in
      let t := store t rev r in
      next <- parent t r;;
      let t := store t rev (set_parentIndex r kNoParent) in
      match next with
      | None => Ok (t, nPurged)
      | Some q =>
          c <- confirmLeaf t q;;
          if snd c then purge_loop fuel' (fst c) q nPurged
          else Ok (fst c, nPurged)
      end
  end.

(** [RevTree::purge] *)
Definition purge (fuel : nat) (t : RevTree) (leafID : revid) : result (RevTree * Z) :=
  found <- get_by_revID t leafID;;
  match found with
  | None => Ok (t, 0)
  | Some p =>
      rev <- deref t p;;
      if negb (isLeaf rev) then Ok (t, 0)
      else
        r <- purge_loop fuel t p 0;;
        Ok (compact (fst r), snd r)
  end.

Section MoreDelta.
Context `{Delta}.

(** [Revision::applyZDelta] *)
Definition applyZDelta (fuel : nat) (t : RevTree) (p : Z) (delta : list byte)
  : result (option (list byte)) :=
  rev <- deref t p;;
  match body rev with
  | Some b =>
      if negb (isCompressed rev) then Ok (ApplyDelta b delta)
      else
        loadedReference <- readBody fuel t p;;
        match loadedReference with
        | Some l => Ok (ApplyDelta l delta)
        | None => Ok None
        end
  | None => Ok None
  end.

End MoreDelta.

(** What a delta codec owes its callers: a delta created from a
    reference, applied to that reference, gives the target back. *)
Class DeltaLaws `{Delta} : Prop := {
  apply_create : forall reference target delta,
    CreateDelta reference target = Some delta ->
    ApplyDelta reference delta = Some target
}.

(** The leaf flags of a tree are exact: every parent index is
    [kNoParent] or the index of a revision, and a revision is flagged as a
    leaf exactly when no revision names it as its parent. *)
Record leaves_exact (t : RevTree) : Prop := {
  links_valid : forall x r, revs t !! x = Some r ->
                  parentIndex r = kNoParent \/ 0 <= parentIndex r < size t;
  leaf_iff : forall x r, revs t !! x = Some r ->
               (isLeaf r = true <->
                forall y r', revs t !! y = Some r' -> parentIndex r' <> Z.of_nat x)
}.

(** The number of active revisions (leaves that are not deleted). *)
Definition count_active (l : list Revision) : nat :=
  length (List.filter isActive l).

(** [isActive], read off the flags. *)
Definition active_flags (f : Z) : bool :=
  has_flag f kLeaf && negb (has_flag f kDeleted).

(** Two revisions with their bodies in full, in a tree read from offset
    4096 of the file. *)
Definition tree_saved_pair : RevTree :=
  mkRevTree 4096 true false false
    [mkRevision (bytes_of "1-a") 1 (Some (bytes_of "x")) 0 0 kNoParent kNoParent;
     mkRevision (bytes_of "2-b") 2 (Some (bytes_of "y")) 0 kLeaf 0 kNoParent].

(** What every revision that [decode] produces looks like, [seq] being
    the sequence given to [decode]. *)
Record decoded_shape (seq : Z) (r : Revision) : Prop := {
  shape_flags : Z.land (flags r) kPublicPersistentFlags = flags r;
  shape_not_new : isNew r = false;
  shape_sequence : seq <> 0 -> sequence r <> 0;
  shape_parent : 0 <= parentIndex r <= 65535;
  shape_deltaRef : 0 <= deltaRefIndex r <= 65535;
  shape_body : body r <> None -> oldBodyOffset r = 0;
  shape_revID : Z.of_nat (length (revID r)) <= 255
}.

(** The size of the buffer that [RevTree::encode] allocates for the
    revisions [l]: the trailing zero size and the size of each record. *)
Definition encode_size (l : list Revision) : Z :=
  fold_left (fun size rev => size + sizeToWrite rev) l 4.

(** The number that bytes in big-endian two's complement denote. *)
Definition get_be_signed (bs : list byte) : Z :=
  let u := get_be bs in
  let m := 2 ^ (8 * Z.of_nat (length bs)) in
  if u <? m / 2 then u else u - m.

(** The number of bytes [writeInt] spends on [i] after the type code. *)
Definition int_width (i : Z) : nat :=
  if (-128 <=? i) && (i <=? 127) then 1
  else if (-32768 <=? i) && (i <=? 32767) then 2
  else if (-2147483648 <=? i) && (i <=? 2147483647) then 4
  else 8.

(** ** More of the tagged value encoder *)

(** The lookup table of a writer points into its extern table: a
    string that the lookup maps to [k] is entry [k - 1] of the table (the
    table may hold a string twice, so an entry need not be the one its
    string is mapped to), and the table and its limit fit 32 bits. *)
Definition externs_consistent (w : EncodingWriter.dataWriter) : Prop :=
  match EncodingWriter._externStrings w with
  | Some l =>
      Z.of_nat (length l) <= 4294967295 /\
      EncodingWriter._maxExternStrings w <= 4294967295 /\
      forall s k, EncodingWriter._externStringsLookup w !! s = Some k ->
                  0 < k /\ l !! Z.to_nat (k - 1) = Some s
  | None => True
  end.

(** A reference to entry [k] of the extern table, as written. *)
Definition extern_ref `{EncodingWriter.TypeCodeBytes} (k : Z) : list byte :=
  EncodingWriter.code_byte EncodingWriter.kExternStringRefCode :: PutUVarInt k.

Module EncodingRuns.
Import EncodingWriter.

(** The frame stack after one more item was counted in the frame on
    top. *)
Definition counted (states : list state) : list state :=
  match states with
  | st :: below => mkState (count st) (i st + 1) (hashes st) (indexPos st) :: below
  | [] => []
  end.

Section Runs.
Context `{TypeCodeBytes} `{KeyHash} `{HostMemory}.

(** A run of [writeInt] calls, one per value. *)
Definition writeInts (w : dataWriter) (values : list Z) : dataWriter :=
  fold_left writeInt values w.

(** A run of [writeKey] and [writeInt] calls, one pair per entry. *)
Fixpoint writeEntries (w : dataWriter) (entries : list (string * Z))
  (canAddExtern : bool) : result dataWriter :=
  match entries with
  | [] => Ok w
  | (key, value) :: rest =>
      w <- writeKey w key canAddExtern;;
      writeEntries (writeInt w value) rest canAddExtern
  end.

End Runs.

End EncodingRuns.

(** A host that stores the low byte of a [uint16_t] first, and a key
    hash to run the encoder with: the length of the key. *)
Definition little_endian_host : EncodingWriter.HostMemory :=
  EncodingWriter.Build_HostMemory
    (fun z => [byte_of_Z z; byte_of_Z (z / 256)]) (fun z => eq_refl).

Definition length_hash : EncodingWriter.KeyHash :=
  fun key => EncodingWriter.str_length key.

(** An encoded tree of one record whose identifier runs past the
    record's own size: the record is 11 bytes long and announces an
    identifier of 3 bytes, the last two of which are bytes of the
    terminator. *)
Definition raw_revID_past_record : list byte :=
  byte_of_Z <$> [0; 0; 0; 11; 255; 255; 255; 255; 0; 3; 49; 0; 0; 0; 0].

(** Turns the boolean comparisons among the hypotheses into
    propositions. *)
Ltac zbool :=
  repeat match goal with
    | H : (_ <=? _) = true |- _ => apply Z.leb_le in H
    | H : (_ <=? _) = false |- _ => apply Z.leb_gt in H
    | H : (_ <? _) = true |- _ => apply Z.ltb_lt in H
    | H : (_ <? _) = false |- _ => apply Z.ltb_ge in H
    | H : (_ =? _) = true |- _ => apply Z.eqb_eq in H
    | H : (_ =? _) = false |- _ => apply Z.eqb_neq in H
    end.

Lemma Z_of_byte_range (b : byte) : 0 <= Z_of_byte b < 256.
Proof.
  unfold Z_of_byte. pose proof (Byte.to_N_bounded b). lia.
Qed.

Lemma Z_of_byte_of_Z (z : Z) : Z_of_byte (byte_of_Z z) = wrap8 z.
Proof.
  unfold byte_of_Z, Z_of_byte, wrap8.
  assert (Hr : 0 <= z mod 256 < 256) by (apply Z.mod_pos_bound; lia).
  destruct (Byte.of_N (Z.to_N (z mod 256))) as [b|] eqn:E.
  - apply Byte.to_of_N in E. rewrite E. lia.
  - apply Byte.of_N_None_iff in E. lia.
Qed.

Lemma Z_of_byte_of_Z_small (z : Z) : 0 <= z < 256 -> Z_of_byte (byte_of_Z z) = z.
Proof.
  intros H. rewrite Z_of_byte_of_Z. unfold wrap8. apply Z.mod_small. lia.
Qed.

Lemma byte_of_Z_of_byte (b : byte) : byte_of_Z (Z_of_byte b) = b.
Proof.
  unfold byte_of_Z, Z_of_byte, wrap8.
  pose proof (Byte.to_N_bounded b) as Hb.
  rewrite Z.mod_small by lia. rewrite N2Z.id. now rewrite Byte.of_to_N.
Qed.

Lemma get_put_u16 (z : Z) : 0 <= z < 65536 -> get_be (put_u16 z) = z.
Proof.
  intros H. unfold get_be, put_u16, wrap16. cbn [fold_left].
  rewrite !Z_of_byte_of_Z. unfold wrap8.
  rewrite (Z.mod_small z 65536) by lia.
  rewrite (Z.mod_small (z / 256) 256)
    by (split; [apply Z.div_pos; lia | apply Z.div_lt_upper_bound; lia]).
  pose proof (Z.div_mod z 256). lia.
Qed.

Lemma get_put_u32 (z : Z) : 0 <= z < 4294967296 -> get_be (put_u32 z) = z.
Proof.
  intros H. unfold get_be, put_u32, wrap32. cbn [fold_left].
  rewrite !Z_of_byte_of_Z. unfold wrap8.
  rewrite (Z.mod_small z 4294967296) by lia.
  rewrite (Z.mod_small (z / 16777216) 256)
    by (split; [apply Z.div_pos; lia | apply Z.div_lt_upper_bound; lia]).
  pose proof (Z.div_mod z 256 ltac:(lia)).
  pose proof (Z.div_mod (z / 256) 256 ltac:(lia)).
  pose proof (Z.div_mod (z / 256 / 256) 256 ltac:(lia)).
  rewrite !Z.div_div in * by lia.
  change (256 * 256) with 65536 in *. change (65536 * 256) with 16777216 in *.
  lia.
Qed.

Lemma SizeOfVarInt_loop_length (fuel : nat) (n : Z) :
  SizeOfVarInt_loop fuel n = Z.of_nat (length (PutUVarInt_loop fuel n)).
Proof.
  revert n. induction fuel as [|fuel IH]; intros n; cbn [SizeOfVarInt_loop PutUVarInt_loop].
  - reflexivity.
  - destruct (n <? 128); [reflexivity|].
    rewrite IH. cbn [length]. lia.
Qed.

Lemma SizeOfVarInt_length (n : Z) :
  SizeOfVarInt n = Z.of_nat (length (PutUVarInt n)).
Proof. apply SizeOfVarInt_loop_length. Qed.

Lemma PutUVarInt_loop_nonempty (fuel : nat) (n : Z) :
  (0 < length (PutUVarInt_loop fuel n))%nat.
Proof. destruct fuel; cbn; [lia|]. destruct (n <? 128); cbn; lia. Qed.

Lemma SizeOfVarInt_pos (n : Z) : 0 < SizeOfVarInt n.
Proof.
  rewrite SizeOfVarInt_length. pose proof (PutUVarInt_loop_nonempty 9 (wrap64 n)).
  unfold PutUVarInt. lia.
Qed.

Lemma GetUVarInt_loop_Put (fuel : nat) :
  forall (n : Z) (rest : list byte) (i : nat) (shift acc : Z),
    0 <= n < 128 ^ Z.of_nat (S fuel) ->
    0 <= shift -> 0 <= acc ->
    acc + n * 2 ^ shift < 18446744073709551616 ->
    GetUVarInt_loop (PutUVarInt_loop fuel n ++ rest) i shift acc =
    Some ((i + length (PutUVarInt_loop fuel n))%nat, acc + n * 2 ^ shift).
Proof.
  induction fuel as [|fuel IH]; intros n rest i shift acc Hn Hs Ha Hb.
  - cbn [PutUVarInt_loop app GetUVarInt_loop length].
    change (128 ^ Z.of_nat 1) with 128 in Hn.
    rewrite Z_of_byte_of_Z_small by lia.
    destruct (128 <=? n) eqn:E; [lia|].
    rewrite Z.mod_small by lia. unfold wrap64.
    rewrite Z.mod_small by (split; [|lia]; pose proof (Z.pow_nonneg 2 shift); nia).
    f_equal. f_equal. lia.
  - cbn [PutUVarInt_loop]. destruct (n <? 128) eqn:E.
    + cbn [app GetUVarInt_loop length].
      rewrite Z_of_byte_of_Z_small by lia.
      destruct (128 <=? n) eqn:E'; [lia|].
      rewrite Z.mod_small by lia. unfold wrap64.
      rewrite Z.mod_small by (split; [|lia]; pose proof (Z.pow_nonneg 2 shift); nia).
      f_equal. f_equal. lia.
    + cbn [app GetUVarInt_loop length].
      assert (Hm : 0 <= n mod 128 < 128) by (apply Z.mod_pos_bound; lia).
      rewrite Z_of_byte_of_Z_small by lia.
      destruct (128 <=? n mod 128 + 128) eqn:E'; [|lia].
      replace ((n mod 128 + 128) mod 128) with (n mod 128)
        by (rewrite <- Z.add_mod_idemp_r, Z.mod_same, Z.add_0_r, Z.mod_mod; lia).
      assert (Hp : 0 < 2 ^ shift) by (apply Z.pow_pos_nonneg; lia).
      assert (Hq : 2 ^ (shift + 7) = 128 * 2 ^ shift)
        by (rewrite Z.pow_add_r by lia; change (2 ^ 7) with 128; lia).
      pose proof (Z.div_mod n 128 ltac:(lia)) as Hdm.
      assert (Hd : 0 <= n / 128) by (apply Z.div_pos; lia).
      assert (Hsplit : acc + n * 2 ^ shift =
                       acc + n mod 128 * 2 ^ shift + n / 128 * 2 ^ (shift + 7)) by nia.
      unfold wrap64. rewrite Z.mod_small by nia.
      rewrite IH.
      * f_equal. f_equal; [lia|]. lia.
      * split; [assumption|]. apply Z.div_lt_upper_bound; [lia|].
        replace (128 ^ Z.of_nat (S (S fuel))) with (128 * 128 ^ Z.of_nat (S fuel)) in Hn
          by (rewrite (Nat2Z.inj_succ (S fuel)), Z.pow_succ_r by lia; reflexivity).
        lia.
      * lia.
      * nia.
      * nia.
Qed.

Lemma GetUVarInt_PutUVarInt (n : Z) (rest : list byte) :
  0 <= n < 18446744073709551616 ->
  GetUVarInt (PutUVarInt n ++ rest) = Some (length (PutUVarInt n), n).
Proof.
  intros Hn. unfold GetUVarInt, PutUVarInt, wrap64.
  rewrite Z.mod_small by lia.
  rewrite GetUVarInt_loop_Put.
  - f_equal. f_equal. change (2 ^ 0) with 1. lia.
  - change (128 ^ Z.of_nat 10) with 1180591620717411303424. lia.
  - lia.
  - lia.
  - change (2 ^ 0) with 1. lia.
Qed.

(** ** What [Revision::write] stores for the body *)

Lemma land_public_range (f : Z) : 0 <= Z.land f kPublicPersistentFlags <= 11.
Proof.
  change kPublicPersistentFlags with 11.
  split.
  - apply Z.land_nonneg. right. lia.
  - assert (H : Z.land f 11 = Z.land f 11 mod 2 ^ 4).
    { rewrite <- Z.land_ones by lia. rewrite <- Z.land_assoc.
      now change (Z.land 11 (Z.ones 4)) with 11. }
    pose proof (Z.mod_pos_bound (Z.land f 11) (2 ^ 4) ltac:(lia)) as Hb.
    assert (Hbit : Z.testbit (Z.land f 11) 2 = false).
    { rewrite Z.land_spec. now rewrite andb_false_r. }
    destruct (Z_le_gt_dec (Z.land f 11) 11) as [Hle|Hgt]; [exact Hle|].
    exfalso. rewrite H in Hgt. rewrite H in Hbit.
    change (2 ^ 4) with 16 in *.
    remember (Z.land f 11 mod 16) as x.
    assert (Hx : x = 12 \/ x = 13 \/ x = 14 \/ x = 15) by lia.
    destruct Hx as [-> | [-> | [-> | ->]]]; discriminate Hbit.
Qed.

(** The flag bits of the stored byte, for every value of the public
    flags. *)
Lemma flags_with_data (x : Z) :
  0 <= x <= 11 ->
  has_flag (wrap8 (Z.lor x kHasData)) kHasData = true /\
  has_flag (wrap8 (Z.lor x kHasData)) kHasBodyOffset = false.
Proof.
  intros H.
  assert (Hx : x = 0 \/ x = 1 \/ x = 2 \/ x = 3 \/ x = 4 \/ x = 5 \/ x = 6 \/
               x = 7 \/ x = 8 \/ x = 9 \/ x = 10 \/ x = 11) by lia.
  repeat (destruct Hx as [-> | Hx]; [split; reflexivity|]).
  subst x. split; reflexivity.
Qed.

Lemma flags_with_offset (x : Z) :
  0 <= x <= 11 ->
  has_flag (wrap8 (Z.lor x kHasBodyOffset)) kHasData = false /\
  has_flag (wrap8 (Z.lor x kHasBodyOffset)) kHasBodyOffset = true.
Proof.
  intros H.
  assert (Hx : x = 0 \/ x = 1 \/ x = 2 \/ x = 3 \/ x = 4 \/ x = 5 \/ x = 6 \/
               x = 7 \/ x = 8 \/ x = 9 \/ x = 10 \/ x = 11) by lia.
  repeat (destruct Hx as [-> | Hx]; [split; reflexivity|]).
  subst x. split; reflexivity.
Qed.

Lemma flags_plain (x : Z) :
  0 <= x <= 11 ->
  has_flag (wrap8 x) kHasData = false /\
  has_flag (wrap8 x) kHasBodyOffset = false /\
  wrap8 x = x.
Proof.
  intros H.
  assert (Hx : x = 0 \/ x = 1 \/ x = 2 \/ x = 3 \/ x = 4 \/ x = 5 \/ x = 6 \/
               x = 7 \/ x = 8 \/ x = 9 \/ x = 10 \/ x = 11) by lia.
  repeat (destruct Hx as [-> | Hx]; [repeat split; reflexivity|]).
  subst x. repeat split; reflexivity.
Qed.

Lemma write_with_body (r : Revision) (bo : Z) :
  0 < slice_size (body r) ->
  has_flag (RawRevision.flags (Revision_write r bo)) kHasData = true /\
  has_flag (RawRevision.flags (Revision_write r bo)) kHasBodyOffset = false /\
  RawRevision.tail (Revision_write r bo) =
    PutUVarInt (sequence r) ++ slice_bytes (body r).
Proof.
  intros Hb. cbn [Revision_write RawRevision.flags RawRevision.tail].
  unfold write_payload, write_flags.
  destruct (0 <? slice_size (body r)) eqn:E; [|lia].
  destruct (flags_with_data _ (land_public_range (flags r))) as [H1 H2].
  rewrite H1. auto.
Qed.

Lemma write_with_offset (r : Revision) (bo : Z) :
  slice_size (body r) = 0 -> 0 < oldBodyOffset r ->
  has_flag (RawRevision.flags (Revision_write r bo)) kHasData = false /\
  has_flag (RawRevision.flags (Revision_write r bo)) kHasBodyOffset = true /\
  RawRevision.tail (Revision_write r bo) =
    PutUVarInt (sequence r) ++ PutUVarInt (oldBodyOffset r).
Proof.
  intros Hb Ho. cbn [Revision_write RawRevision.flags RawRevision.tail].
  unfold write_payload, write_flags.
  destruct (0 <? slice_size (body r)) eqn:E; [lia|].
  destruct (0 <? oldBodyOffset r) eqn:E'; [|lia].
  destruct (flags_with_offset _ (land_public_range (flags r))) as [H1 H2].
  rewrite H1, H2.
  destruct (oldBodyOffset r =? 0) eqn:E''; [lia|]. auto.
Qed.

Lemma write_without_body (r : Revision) (bo : Z) :
  slice_size (body r) = 0 -> oldBodyOffset r <= 0 ->
  has_flag (RawRevision.flags (Revision_write r bo)) kHasData = false /\
  has_flag (RawRevision.flags (Revision_write r bo)) kHasBodyOffset = false /\
  RawRevision.tail (Revision_write r bo) = PutUVarInt (sequence r).
Proof.
  intros Hb Ho. cbn [Revision_write RawRevision.flags RawRevision.tail].
  unfold write_payload, write_flags.
  destruct (0 <? slice_size (body r)) eqn:E; [lia|].
  destruct (0 <? oldBodyOffset r) eqn:E'; [lia|].
  destruct (flags_plain _ (land_public_range (flags r))) as (H1 & H2 & _).
  rewrite H1, H2. rewrite app_nil_r. auto.
Qed.


(** C3 (as amended): what [Revision::write] stores for the body of a
    revision.  A non-empty body sets HasData and is copied verbatim after
    the sequence; an empty body with a non-zero [oldBodyOffset] sets
    HasBodyOffset and is followed by that offset as a varint; an empty
    body with [oldBodyOffset] 0 sets neither flag and stores nothing
    more, whatever the [bodyOffset] of the tree. *)
Theorem write_body_rule (r : Revision) (treeBodyOffset : Z) :
  let raw := Revision_write r treeBodyOffset in
  (0 < slice_size (body r) ->
     has_flag (RawRevision.flags raw) kHasData = true /\
     has_flag (RawRevision.flags raw) kHasBodyOffset = false /\
     RawRevision.tail raw = PutUVarInt (sequence r) ++ slice_bytes (body r)) /\
  (slice_size (body r) = 0 -> 0 < oldBodyOffset r ->
     has_flag (RawRevision.flags raw) kHasData = false /\
     has_flag (RawRevision.flags raw) kHasBodyOffset = true /\
     RawRevision.tail raw =
       PutUVarInt (sequence r) ++ PutUVarInt (oldBodyOffset r)) /\
  (slice_size (body r) = 0 -> oldBodyOffset r = 0 ->
     has_flag (RawRevision.flags raw) kHasData = false /\
     has_flag (RawRevision.flags raw) kHasBodyOffset = false /\
     RawRevision.tail raw = PutUVarInt (sequence r)).
Proof.
  cbv zeta. split; [|split].
  - apply write_with_body.
  - apply write_with_offset.
  - intros Hb Ho. apply write_without_body; lia.
Qed.

(** C3, counterexample: a revision without a body and with
    [oldBodyOffset] 0, written for a tree whose [bodyOffset] is 5, gets no
    HasBodyOffset flag and no offset. *)
Lemma write_body_rule_counterexample :
  ~ spec_body_rule (mkRevision (bytes_of "1-a") 1 None 0 kLeaf kNoParent kNoParent) 5.
Proof.
  intros (_ & H & _).
  destruct (H eq_refl (or_intror eq_refl)) as [Hflag _].
  vm_compute in Hflag. discriminate Hflag.
Qed.

(** ** Looking revisions up *)

Lemma bytes_eqb_eq (a b : list byte) : bytes_eqb a b = true <-> a = b.
Proof. unfold bytes_eqb. apply bool_decide_eq_true. Qed.

Lemma find_revID_Some (l : list Revision) (id : revid) (i p : Z) :
  find_revID l id i = Some p ->
  i <= p < i + Z.of_nat (length l) /\
  exists r, l !! Z.to_nat (p - i) = Some r /\ revID r = id.
Proof.
  revert i. induction l as [|x l IH]; intros i Hf; cbn in Hf; [discriminate|].
  destruct (bytes_eqb (revID x) id) eqn:E.
  - inversion Hf; subst p. apply bytes_eqb_eq in E.
    split; [cbn [length]; lia|]. exists x. rewrite Z.sub_diag. auto.
  - apply IH in Hf. destruct Hf as (Hr & r & Hl & Hid).
    split; [cbn [length]; lia|]. exists r. split; [|exact Hid].
    replace (Z.to_nat (p - i)) with (S (Z.to_nat (p - (i + 1)))) by lia.
    exact Hl.
Qed.

Lemma find_revID_deref (t : RevTree) (id : revid) (p : Z) :
  find_revID (revs t) id 0 = Some p ->
  0 <= p < size t /\ exists r, deref t p = Ok r /\ revID r = id /\
                              revs t !! Z.to_nat p = Some r.
Proof.
  intros Hf. apply find_revID_Some in Hf. destruct Hf as (Hr & r & Hl & Hid).
  rewrite Z.sub_0_r in Hl. unfold size. split; [lia|].
  exists r. unfold deref. destruct (0 <=? p) eqn:E; [|lia].
  rewrite Hl. auto.
Qed.

Lemma get_by_revID_known (t : RevTree) (id : revid) :
  unknown t = false -> get_by_revID t id = Ok (find_revID (revs t) id 0).
Proof.
  intros Hu. unfold get_by_revID. destruct (find_revID (revs t) id 0); [reflexivity|].
  rewrite Hu. reflexivity.
Qed.

Lemma index_in_range (t : RevTree) (p : Z) :
  0 <= p < size t -> index t p = Ok p.
Proof.
  intros H. unfold index.
  destruct (0 <=? p) eqn:E1; [|lia]. destruct (p <? size t) eqn:E2; [|lia].
  reflexivity.
Qed.

(** ** [_insert] and [insert] *)

Lemma new_revision_flags (newRevID : revid) (body : option (list byte))
  (deleted hasAttachments : bool) (p : Z) :
  set_parentIndex
    (let newRev := mkRevision newRevID 0 body 0 (Z.lor kLeaf kNew) kNoParent kNoParent in
     let newRev := if deleted then addFlag newRev kDeleted else newRev in
     if hasAttachments then addFlag newRev kHasAttachments else newRev) p
  = new_revision newRevID body deleted hasAttachments p.
Proof. destruct deleted, hasAttachments; reflexivity. Qed.

Lemma _insert_root (t : RevTree) (newRevID : revid) (body : option (list byte))
  (deleted hasAttachments : bool) :
  unknown t = false ->
  exists t',
    _insert t newRevID body None deleted hasAttachments = Ok (t', size t) /\
    revs t' = revs t ++ [new_revision newRevID body deleted hasAttachments kNoParent] /\
    unknown t' = false /\ bodyOffset t' = bodyOffset t.
Proof.
  intros Hu. unfold _insert. rewrite Hu. cbn [negb assert bind fst snd].
  eexists. split; [|split; [|split]].
  - f_equal. f_equal. rewrite length_app. cbn [length]. unfold size. lia.
  - cbn [revs]. f_equal. f_equal. rewrite <- new_revision_flags.
    destruct deleted, hasAttachments; reflexivity.
  - reflexivity.
  - reflexivity.
Qed.

Lemma _insert_child (t : RevTree) (newRevID : revid) (body : option (list byte))
  (deleted hasAttachments : bool) (p : Z) (prev : Revision) :
  unknown t = false -> 0 <= p < size t -> revs t !! Z.to_nat p = Some prev ->
  exists t',
    _insert t newRevID body (Some p) deleted hasAttachments = Ok (t', size t) /\
    revs t' = <[Z.to_nat p := clearFlag prev kLeaf]> (revs t)
              ++ [new_revision newRevID body deleted hasAttachments (wrap16 p)] /\
    unknown t' = false /\ bodyOffset t' = bodyOffset t.
Proof.
  intros Hu Hp Hl. unfold _insert. rewrite Hu. cbn [negb assert bind].
  rewrite index_in_range by exact Hp. cbn [bind].
  unfold deref. destruct (0 <=? p) eqn:E; [|lia]. rewrite Hl. cbn [of_option bind fst snd].
  eexists. split; [|split; [|split]].
  - f_equal. f_equal. rewrite length_app. cbn [length store set_revs revs].
    rewrite length_insert. unfold size. lia.
  - cbn [revs store set_revs]. f_equal. f_equal. apply new_revision_flags.
  - reflexivity.
  - reflexivity.
Qed.

Lemma in_tree_find (t : RevTree) (id : revid) :
  in_tree t id = match find_revID (revs t) id 0 with Some _ => true | None => false end.
Proof. reflexivity. Qed.

(** C4 (as amended): the status of [insert] is decided in the order of
    the code: 404 when a parent identifier is given and not found; else
    400 when the generation of the new identifier is 0; else 200, with
    nothing inserted, when the identifier is already in the tree; else 409
    on a conflict; else 400 when the generation is not the parent's plus
    1; else the revision is inserted, with status 200 for a deletion and
    201 otherwise. *)
Theorem insert_status_correct (t : RevTree) (newRevID : revid)
  (body : option (list byte)) (deleted hasAttachments : bool)
  (parentRevID : option revid) (allowConflict : bool) :
  unknown t = false ->
  exists res,
    insert_by_revID t newRevID body deleted hasAttachments parentRevID allowConflict
      = Ok res /\
    httpStatus res = insert_status t newRevID parentRevID allowConflict deleted /\
    if insert_accepts t newRevID parentRevID allowConflict
    then ins_rev res = Some (size t) /\
         revs (ins_tree res) =
           revs_after_insert t newRevID body deleted hasAttachments parentRevID
    else ins_rev res = None /\ ins_tree res = t.
Proof.
  intros Hu.
  unfold insert_by_revID, insert_accepts, insert_status, conflicts, named,
    revs_after_insert, parent_generation.
  destruct parentRevID as [pid|].
  - rewrite (get_by_revID_known t pid Hu). rewrite in_tree_find.
    destruct (find_revID (revs t) pid 0) as [p|] eqn:Hp; cbn [bind negb].
    2:{ eexists. split; [reflexivity|]. cbn. auto. }
    destruct (find_revID_deref _ _ _ Hp) as (Hrange & prev & Hd & Hid & Hl).
    unfold insert. destruct (generation newRevID =? 0) eqn:Hg.
    { eexists. split; [reflexivity|]. cbn. auto. }
    rewrite (get_by_revID_known t newRevID Hu). rewrite in_tree_find.
    destruct (find_revID (revs t) newRevID 0) as [q|] eqn:Hq; cbn [bind].
    { eexists. split; [reflexivity|]. cbn. auto. }
    rewrite Hd, Hl. cbn [bind]. rewrite Hid.
    destruct (negb allowConflict && negb (isLeaf prev)) eqn:Hc; cbn [bind].
    { eexists. split; [reflexivity|]. cbn. auto. }
    destruct (negb (generation newRevID =? wrap32 (generation pid + 1))) eqn:Hn.
    { eexists. split; [reflexivity|]. cbn. auto. }
    destruct (_insert_child t newRevID body deleted hasAttachments p prev Hu Hrange Hl)
      as (t' & Hi & Hrevs & _).
    rewrite Hi. cbn [bind fst snd].
    eexists. split; [reflexivity|]. cbn [httpStatus ins_rev ins_tree].
    split; [destruct deleted; reflexivity|].
    change (201 =? 201) with true. cbv iota. split; [reflexivity|].
    rewrite Hrevs. unfold named. rewrite ?Hp, ?Hl. reflexivity.
  - cbn [negb]. unfold insert. destruct (generation newRevID =? 0) eqn:Hg.
    { eexists. split; [reflexivity|]. cbn. auto. }
    rewrite (get_by_revID_known t newRevID Hu). rewrite in_tree_find.
    destruct (find_revID (revs t) newRevID 0) as [q|] eqn:Hq; cbn [bind].
    { eexists. split; [reflexivity|]. cbn. auto. }
    destruct (negb allowConflict && (0 <? size t)) eqn:Hc; cbn [bind].
    { eexists. split; [reflexivity|]. cbn. auto. }
    destruct (negb (generation newRevID =? wrap32 (0 + 1))) eqn:Hn.
    { eexists. split; [reflexivity|]. cbn. auto. }
    destruct (_insert_root t newRevID body deleted hasAttachments Hu)
      as (t' & Hi & Hrevs & _).
    rewrite Hi. cbn [bind fst snd].
    eexists. split; [reflexivity|]. cbn [httpStatus ins_rev ins_tree].
    split; [destruct deleted; reflexivity|].
    change (201 =? 201) with true. cbv iota. split; [reflexivity|]. exact Hrevs.
Qed.

Lemma insert_status_witness :
  exists res,
    insert_by_revID tree_1a_2b (bytes_of "3-c") None false false
                    (Some (bytes_of "2-b")) false = Ok res /\
    httpStatus res = 201.
Proof.
  destruct (insert_status_correct tree_1a_2b (bytes_of "3-c") None false false
              (Some (bytes_of "2-b")) false eq_refl) as (res & Hr & Hs & _).
  exists res. split; [exact Hr|]. rewrite Hs. reflexivity.
Defined.

(** C4, counterexample: in the tree 1-a, 2-b, inserting 2-b again without
    a parent has a generation that is not the parent's plus 1, and the
    status is 200, not 400. *)
Lemma insert_status_counterexample :
  exists res,
    insert_by_revID tree_1a_2b (bytes_of "2-b") None false false None true = Ok res /\
    ~ spec_insert_status tree_1a_2b (bytes_of "2-b") None true false res.
Proof.
  eexists. split; [vm_compute; reflexivity|].
  intros (H400 & _).
  assert (Hgen : generation (bytes_of "2-b") = 0 \/
                 generation (bytes_of "2-b") <> parent_generation None + 1).
  { right. vm_compute. discriminate. }
  specialize (H400 Hgen). vm_compute in H400. discriminate H400.
Qed.

(** ** Removing and compressing bodies *)

Section DeltaFacts.
Context `{Delta}.

Lemma deref_in_range (t : RevTree) (p : Z) (r : Revision) :
  deref t p = Ok r -> 0 <= p < size t /\ revs t !! Z.to_nat p = Some r.
Proof.
  unfold deref. destruct (0 <=? p) eqn:E; [|discriminate].
  destruct (revs t !! Z.to_nat p) as [x|] eqn:Hl; [|discriminate].
  intros Hx. inversion Hx; subst x. apply lookup_lt_Some in Hl as Hlt.
  unfold size. split; [lia|reflexivity].
Qed.

Lemma deref_lookup (t : RevTree) (j : nat) (r : Revision) :
  revs t !! j = Some r -> deref t (Z.of_nat j) = Ok r.
Proof.
  intros Hl. unfold deref. destruct (0 <=? Z.of_nat j) eqn:E; [|zbool; lia].
  rewrite Nat2Z.id, Hl. reflexivity.
Qed.

Lemma removeBody_loop_no_reference (fuel : nat) (t : RevTree) (index : Z)
  (allowExpansion : bool) :
  not_a_reference t index ->
  forall (n : nat) (i : nat),
    (i + n <= length (revs t))%nat ->
    removeBody_loop fuel n t (Z.of_nat i) index allowExpansion = Ok (t, true).
Proof.
  intros Hno. induction n as [|n IH]; intros i Hi; [reflexivity|].
  cbn [removeBody_loop].
  destruct (lookup_lt_is_Some_2 (revs t) i ltac:(lia)) as [r Hr].
  rewrite (deref_lookup _ _ _ Hr). cbn [bind].
  destruct (deltaRefIndex r =? index) eqn:E.
  - exfalso. apply (Hno i r Hr). apply Z.eqb_eq. exact E.
  - replace (Z.of_nat i + 1) with (Z.of_nat (S i)) by lia. apply IH. lia.
Qed.

Lemma deref_store_same (t : RevTree) (p : Z) (r r' : Revision) :
  deref t p = Ok r -> deref (store t p r') p = Ok r'.
Proof.
  intros Hd. apply deref_in_range in Hd. destruct Hd as [Hr Hl].
  unfold deref, store. destruct (0 <=? p) eqn:E; [|lia]. cbn [revs set_revs].
  rewrite list_lookup_insert_eq; [reflexivity|].
  apply lookup_lt_Some in Hl. exact Hl.
Qed.

(** C9 (as amended): for a revision with a body that no revision uses as
    its delta reference, in a tree that has a [bodyOffset], [removeBody]
    returns true, clears the body and records the [bodyOffset] of the tree
    as [oldBodyOffset], leaving every other revision as it was; in a tree
    whose [bodyOffset] is 0 the assertion of [replaceBody] fails. *)
Theorem removeBody_clears (fuel : nat) (t : RevTree) (p : Z)
  (allowExpansion : bool) (rev : Revision) (b : list byte) :
  deref t p = Ok rev -> body rev = Some b ->
  not_a_reference t p ->
  if 0 <? bodyOffset t then
    exists t' rev',
      removeBody fuel t p allowExpansion = Ok (t', true) /\
      deref t' p = Ok rev' /\
      body rev' = None /\
      oldBodyOffset rev' = bodyOffset t /\
      (forall j, j <> Z.to_nat p -> revs t' !! j = revs t !! j)
  else removeBody fuel t p allowExpansion = Err AssertionFailure.
Proof.
  intros Hd Hb Hno.
  destruct (deref_in_range _ _ _ Hd) as [Hr Hl].
  unfold removeBody. rewrite Hd. cbn [bind]. rewrite Hb.
  rewrite index_in_range by exact Hr. cbn [bind].
  pose proof (removeBody_loop_no_reference fuel t p allowExpansion Hno
                (length (revs t)) 0%nat ltac:(lia)) as Hloop.
  change (Z.of_nat 0) with 0 in Hloop. rewrite Hloop. cbn [bind snd fst negb].
  unfold replaceBody. rewrite Hd. cbn [bind]. rewrite Hb.
  destruct (0 <? bodyOffset t) eqn:Ho; cbn [assert bind].
  - eexists. eexists. split; [reflexivity|].
    split; [|split; [|split]].
    + unfold set_changed, deref. cbn [revs store set_revs].
      destruct (0 <=? p) eqn:E; [|lia].
      rewrite list_lookup_insert_eq by (apply lookup_lt_Some in Hl; exact Hl).
      reflexivity.
    + reflexivity.
    + reflexivity.
    + intros j Hj. cbn [revs set_changed store set_revs].
      apply list_lookup_insert_ne. congruence.
  - reflexivity.
Qed.

Lemma compress_cycle_check_never_fires (t : RevTree) (target : Z) (trev : Revision) :
  deref t target = Ok trev -> isCompressed trev = false ->
  forall (fuel : nat) (reference : Z),
    compress_finds_cycle fuel t target reference <> Ok true.
Proof.
  intros Hd Hc. induction fuel as [|fuel IH]; intros reference.
  - cbn [compress_finds_cycle].
    destruct (deref t reference) as [r|e] eqn:Hr; cbn [bind]; [|discriminate].
    destruct (negb (isCompressed r)) eqn:Hn; [discriminate|].
    destruct (reference =? target) eqn:E; [|discriminate].
    apply Z.eqb_eq in E. subst reference. rewrite Hd in Hr. inversion Hr; subst r.
    rewrite Hc in Hn. discriminate Hn.
  - cbn [compress_finds_cycle].
    destruct (deref t reference) as [r|e] eqn:Hr; cbn [bind]; [|discriminate].
    destruct (negb (isCompressed r)) eqn:Hn; [discriminate|].
    destruct (reference =? target) eqn:E.
    + apply Z.eqb_eq in E. subst reference. rewrite Hd in Hr. inversion Hr; subst r.
      rewrite Hc in Hn. discriminate Hn.
    + destruct (deltaReference t r) as [[q|]|e]; cbn [bind]; try discriminate.
      apply IH.
Qed.

End DeltaFacts.

Lemma removeBody_clears_witness :
  exists t' rev',
    removeBody 0 tree_saved 0 false = Ok (t', true) /\
    deref t' 0 = Ok rev' /\ body rev' = None /\ oldBodyOffset rev' = 4096.
Proof.
  pose proof (removeBody_clears 0 tree_saved 0 false
                (mkRevision (bytes_of "1-a") 7 (Some (bytes_of "hello")) 0 kLeaf
                            kNoParent kNoParent)
                (bytes_of "hello") eq_refl eq_refl) as Hx.
  assert (Hno : not_a_reference tree_saved 0).
  { intros j r Hj. destruct j as [|[|j]]; cbn in Hj; [|discriminate..].
    inversion Hj; subst r. cbn. discriminate. }
  specialize (Hx Hno). cbn in Hx.
  destruct Hx as (t' & rev' & H1 & H2 & H3 & H4 & _).
  exists t', rev'. auto.
Defined.

(** C9, counterexample: in a tree that was never saved ([bodyOffset] 0),
    removing the body of its only revision stops at the assertion of
    [replaceBody]. *)
Lemma removeBody_counterexample :
  removeBody 0 tree_unsaved 0 true = Err AssertionFailure /\
  ~ spec_removeBody 0 tree_unsaved 0 true.
Proof.
  split; [reflexivity|].
  intros Hs.
  destruct (Hs (mkRevision (bytes_of "1-a") 0 (Some (bytes_of "hello")) 0
                           (Z.lor kLeaf kNew) kNoParent kNoParent)
               (bytes_of "hello") eq_refl eq_refl)
    as (t' & rev' & Hr & _).
  - discriminate.
  - intros j r Hj. destruct j as [|[|j]]; cbn in Hj; [|discriminate..].
    inversion Hj; subst r. cbn. discriminate.
  - vm_compute in Hr. discriminate Hr.
Qed.

(** C2, the code at the failing input: the first revision is the delta
    reference of the second; compressing the first against the second is
    not refused, and afterwards each is the delta reference of the
    other. *)
Theorem compress_creates_cycle :
  on_delta_chain tree_delta_pair 0 1 /\
  exists t',
    compress 2 tree_delta_pair 0 1 = Ok (t', true) /\
    deltaRefIndex <$> revs t' !! 0%nat = Some 1 /\
    deltaRefIndex <$> revs t' !! 1%nat = Some 0 /\
    ~ spec_compress_refuses 2 tree_delta_pair 0 1.
Proof.
  assert (Hchain : on_delta_chain tree_delta_pair 0 1).
  { eapply chain_next; [reflexivity|reflexivity|]. apply chain_here. }
  split; [exact Hchain|].
  eexists. split; [vm_compute; reflexivity|].
  split; [reflexivity|]. split; [reflexivity|].
  intros Hs.
  specialize (Hs _ ltac:(discriminate) eq_refl eq_refl Hchain).
  vm_compute in Hs. discriminate Hs.
Qed.

(** ** [insertHistory] *)

Lemma fmap_insert_same {A B : Type} (f : A -> B) (l : list A) (i : nat) (x y : A) :
  l !! i = Some y -> f x = f y -> f <$> <[i := x]> l = f <$> l.
Proof.
  intros Hl Hf. rewrite list_fmap_insert. apply list_insert_id.
  rewrite list_lookup_fmap, Hl. cbn. congruence.
Qed.

Lemma _insert_appends (t : RevTree) (id : revid) (data : option (list byte))
  (deleted hasAttachments : bool) (parent : option Z) :
  unknown t = false ->
  match parent with Some p => 0 <= p < size t | None => True end ->
  exists t',
    _insert t id data parent deleted hasAttachments = Ok (t', size t) /\
    unknown t' = false /\ size t' = size t + 1 /\
    revID <$> revs t' = (revID <$> revs t) ++ [id] /\
    body <$> revs t' = (body <$> revs t) ++ [data] /\
    parentIndex <$> revs t' = (parentIndex <$> revs t) ++ [parent_field parent] /\
    last (revs t') =
      Some (new_revision id data deleted hasAttachments (parent_field parent)).
Proof.
  intros Hu Hp. destruct parent as [p|].
  - destruct (lookup_lt_is_Some_2 (revs t) (Z.to_nat p)) as [prev Hl];
      [unfold size in Hp; lia|].
    destruct (_insert_child t id data deleted hasAttachments p prev Hu Hp Hl)
      as (t' & Hi & Hr & Hu' & _).
    exists t'. split; [exact Hi|]. split; [exact Hu'|].
    unfold size. rewrite Hr. rewrite length_app, length_insert. cbn [length].
    split; [lia|]. rewrite !fmap_app.
    rewrite !(fmap_insert_same _ _ _ _ prev Hl) by reflexivity.
    repeat split; try reflexivity. apply last_snoc.
  - destruct (_insert_root t id data deleted hasAttachments Hu)
      as (t' & Hi & Hr & Hu' & _).
    exists t'. split; [exact Hi|]. split; [exact Hu'|].
    unfold size. rewrite Hr. rewrite length_app. cbn [length].
    split; [lia|]. rewrite !fmap_app.
    repeat split; try reflexivity. apply last_snoc.
Qed.

Lemma chain_parents_cons (parent : option Z) (n : Z) (m : nat) :
  chain_parents parent n (S m) = parent_field parent :: chain_parents (Some n) (n + 1) m.
Proof.
  unfold chain_parents. cbn [take]. f_equal.
  rewrite Nat2Z.inj_succ. rewrite seqZ_cons by lia.
  replace (Z.pred (Z.succ (Z.of_nat m))) with (Z.of_nat m) by lia.
  replace (Z.succ n) with (n + 1) by lia.
  reflexivity.
Qed.

Lemma chain_parents_snoc (m : nat) :
  forall (parent : option Z) (n : Z),
    chain_parents parent n (S m) =
    chain_parents parent n m
    ++ [parent_field (match m with
                      | O => parent
                      | S _ => Some (n + Z.of_nat m - 1)
                      end)].
Proof.
  induction m as [|m IH]; intros parent n; [reflexivity|].
  rewrite (chain_parents_cons parent n (S m)), (chain_parents_cons parent n m).
  rewrite IH. cbn [app]. f_equal. f_equal. f_equal. f_equal.
  destruct m; f_equal; lia.
Qed.

Lemma insert_each_appends (ids : list revid) :
  forall (t : RevTree) (parent : option Z),
    unknown t = false ->
    match parent with Some p => 0 <= p < size t | None => True end ->
    exists t' parent',
      insert_each t ids parent = Ok (t', parent') /\
      unknown t' = false /\ size t' = size t + Z.of_nat (length ids) /\
      (match parent' with Some p => 0 <= p < size t' | None => True end) /\
      parent' = (match ids with [] => parent | _ :: _ => Some (size t' - 1) end) /\
      revID <$> revs t' = (revID <$> revs t) ++ ids /\
      body <$> revs t' = (body <$> revs t) ++ replicate (length ids) None /\
      parentIndex <$> revs t' =
        (parentIndex <$> revs t) ++ chain_parents parent (size t) (length ids).
Proof.
  induction ids as [|h rest IH]; intros t parent Hu Hp.
  - exists t, parent. cbn [insert_each length replicate].
    unfold chain_parents. cbn [take]. rewrite !app_nil_r.
    repeat split; try reflexivity; try lia; assumption.
  - cbn [insert_each].
    destruct (_insert_appends t h None false false parent Hu Hp)
      as (t1 & Hi & Hu1 & Hs1 & Hid1 & Hb1 & Hpi1 & _).
    rewrite Hi. cbn [bind fst snd].
    assert (Hin : 0 <= size t < size t1) by (unfold size in *; lia).
    destruct (IH t1 (Some (size t)) Hu1 Hin)
      as (t' & parent' & He & Hu' & Hs' & Hp' & Hpar & Hid & Hb & Hpi).
    exists t', parent'. split; [exact He|]. split; [exact Hu'|].
    cbn [length]. split; [lia|]. split; [exact Hp'|].
    split.
    { rewrite Hpar. destruct rest; [|reflexivity]. cbn [length] in Hs'. f_equal. lia. }
    rewrite Hid, Hid1, Hb, Hb1, Hpi, Hpi1, <- !app_assoc. cbn [replicate app].
    rewrite chain_parents_cons, Hs1. repeat split; reflexivity.
Qed.

Lemma insertHistory_ancestors_each (history : list revid) :
  forall (k : nat) (t : RevTree) (parent : option Z),
    (k <= length history)%nat ->
    insertHistory_ancestors k t history parent =
    insert_each t (reverse (tail (take k history))) parent.
Proof.
  induction k as [|k IH]; intros t parent Hk; [reflexivity|].
  destruct k as [|k].
  - destruct history; reflexivity.
  - cbn [insertHistory_ancestors].
    destruct (lookup_lt_is_Some_2 history (S k) ltac:(lia)) as [h Hh].
    rewrite Hh. cbn [of_option bind].
    rewrite (take_S_r history (S k) h Hh).
    destruct history as [|h0 rest]; [discriminate Hh|].
    cbn [take tail app]. change (take k rest ++ [h]) with (tail (h0 :: take k rest) ++ [h]).
    change (h0 :: take k rest) with (take (S k) (h0 :: rest)).
    rewrite reverse_snoc. cbn [insert_each].
    destruct (_insert t h None parent false false) as [r|e]; cbn [bind]; [|reflexivity].
    apply IH. lia.
Qed.

Lemma common_ancestor_cons (t : RevTree) (h : revid) (rest : list revid) :
  common_ancestor t (h :: rest) =
  if in_tree t h then O else S (common_ancestor t rest).
Proof.
  unfold common_ancestor. cbn [first_present].
  destruct (in_tree t h); [reflexivity|].
  destruct (first_present t rest); reflexivity.
Qed.

Lemma generations_descend_cons (h : revid) (l : list revid) :
  generations_descend (h :: l) <->
  (forall h', head l = Some h' -> generation h' = generation h - 1) /\
  generations_descend l.
Proof.
  unfold generations_descend. split.
  - intros Hd. split.
    + intros h' Hh'. apply (Hd O h h'); [reflexivity|].
      destruct l; [discriminate|]. cbn in Hh'. exact Hh'.
    + intros k a b Ha Hb. apply (Hd (S k) a b); assumption.
  - intros [Hh Hd] k a b Ha Hb. destruct k as [|k].
    + cbn in Ha. inversion Ha; subst a. apply Hh.
      destruct l; [discriminate|]. cbn in Hb. exact Hb.
    + apply (Hd k a b); assumption.
Qed.

Section Scan.
Variable t : RevTree.
Hypothesis known : unknown t = false.

Lemma scan_descending (history : list revid) :
  forall (i lastGen : Z),
    (forall h, head history = Some h -> lastGen = 0 \/ generation h = lastGen - 1) ->
    generations_descend (take (S (common_ancestor t history)) history) ->
    insertHistory_scan t history i lastGen =
    Ok (Some (i + Z.of_nat (common_ancestor t history), ancestor_revision t history)).
Proof.
  induction history as [|h rest IH]; intros i lastGen Hhead Hd.
  - cbn. rewrite Z.add_0_r. reflexivity.
  - cbn [insertHistory_scan].
    assert (Hcheck : (0 <? lastGen) && negb (generation h =? lastGen - 1) = false).
    { destruct (Hhead h eq_refl) as [-> | ->]; [reflexivity|].
      rewrite Z.eqb_refl. apply andb_false_r. }
    rewrite Hcheck. rewrite (get_by_revID_known t h known). cbn [bind].
    unfold ancestor_revision. rewrite common_ancestor_cons. rewrite in_tree_find.
    rewrite common_ancestor_cons, in_tree_find in Hd.
    destruct (find_revID (revs t) h 0) as [p|] eqn:Hp.
    + cbn [lookup]. rewrite Z.add_0_r. cbn. rewrite Hp. reflexivity.
    + cbn [take] in Hd. apply generations_descend_cons in Hd. destruct Hd as [Hh Hd].
      rewrite (IH (i + 1) (generation h)).
      * unfold ancestor_revision. cbn [lookup]. f_equal. f_equal. f_equal. lia.
      * intros h' Hh'. right. apply Hh. destruct rest; [discriminate|].
        cbn in Hh'. cbn. exact Hh'.
      * exact Hd.
Qed.

Lemma scan_Some_descend (history : list revid) :
  forall (i lastGen : Z) (r : Z * option Z),
    Forall (fun h => 0 < generation h) history ->
    insertHistory_scan t history i lastGen = Ok (Some r) ->
    (forall h, head history = Some h -> 0 < lastGen -> generation h = lastGen - 1) /\
    generations_descend (take (S (common_ancestor t history)) history).
Proof.
  induction history as [|h rest IH]; intros i lastGen r Hpos Hs.
  - split; [discriminate|]. intros k a b Ha. destruct k; discriminate Ha.
  - cbn [insertHistory_scan] in Hs.
    destruct ((0 <? lastGen) && negb (generation h =? lastGen - 1)) eqn:Hcheck;
      [discriminate Hs|].
    split.
    { intros h0 Hh0 Hl. cbn in Hh0. inversion Hh0; subst h0.
      apply andb_false_iff in Hcheck. destruct Hcheck as [Hc|Hc]; [zbool; lia|].
      apply negb_false_iff in Hc. zbool. exact Hc. }
    rewrite (get_by_revID_known t h known) in Hs. cbn [bind] in Hs.
    rewrite common_ancestor_cons, in_tree_find.
    destruct (find_revID (revs t) h 0) as [p|] eqn:Hp.
    + cbn [take]. intros k a b Ha Hb. destruct k; discriminate Hb.
    + inversion Hpos as [|? ? Hh Hrest]; subst.
      destruct (IH _ _ _ Hrest Hs) as [Hhead Hd].
      cbn [take]. apply generations_descend_cons. split; [|exact Hd].
      intros h' Hh'. apply Hhead; [|exact Hh].
      destruct rest; [discriminate|]. cbn in Hh'. cbn. exact Hh'.
Qed.

Lemma scan_total (history : list revid) :
  forall (i lastGen : Z), exists r, insertHistory_scan t history i lastGen = Ok r.
Proof.
  induction history as [|h rest IH]; intros i lastGen; [eexists; reflexivity|].
  cbn [insertHistory_scan].
  destruct ((0 <? lastGen) && negb (generation h =? lastGen - 1));
    [eexists; reflexivity|].
  rewrite (get_by_revID_known t h known). cbn [bind].
  destruct (find_revID (revs t) h 0); [eexists; reflexivity|]. apply IH.
Qed.

Lemma ancestor_revision_in_range :
  forall (history : list revid) (p : Z),
    ancestor_revision t history = Some p -> 0 <= p < size t.
Proof.
  intros history p. unfold ancestor_revision.
  destruct (history !! common_ancestor t history); [|discriminate].
  intros Hf. apply find_revID_deref in Hf. tauto.
Qed.

Lemma common_ancestor_le (history : list revid) :
  (common_ancestor t history <= length history)%nat.
Proof.
  induction history as [|h rest IH]; [cbn; lia|].
  rewrite common_ancestor_cons. destruct (in_tree t h); cbn [length]; lia.
Qed.

End Scan.

(** C7 (as amended): [insertHistory] looks at the entries up to the first
    one that is in the tree, the common ancestor (at all of them when none
    is).  When two adjacent entries among those do not go down by exactly
    1 in generation, it returns -1 and the tree is unchanged (for
    identifiers of positive generation).  Otherwise it returns the index
    of the common ancestor (the length of the history when there is none),
    after appending the entries before it, oldest first, as a chain under
    the common ancestor: empty bodies except for [history[0]], which gets
    the given body and flags.  When [history[0]] is in the tree nothing is
    inserted and 0 is returned. *)
Theorem insertHistory_correct (t : RevTree) (history : list revid)
  (data : option (list byte)) (deleted hasAttachments : bool) :
  unknown t = false -> history <> [] ->
  let k := common_ancestor t history in
  (Forall (fun h => 0 < generation h) history ->
   ~ generations_descend (take (S k) history) ->
   insertHistory t history data deleted hasAttachments = Ok (t, -1)) /\
  (generations_descend (take (S k) history) ->
   exists t',
     insertHistory t history data deleted hasAttachments = Ok (t', Z.of_nat k) /\
     (k = O -> t' = t) /\
     ((0 < k)%nat ->
      revID <$> revs t' = (revID <$> revs t) ++ reverse (take k history) /\
      body <$> revs t' = (body <$> revs t) ++ replicate (k - 1) None ++ [data] /\
      parentIndex <$> revs t' =
        (parentIndex <$> revs t)
        ++ chain_parents (ancestor_revision t history) (size t) k /\
      exists h0 p,
        head history = Some h0 /\
        last (chain_parents (ancestor_revision t history) (size t) k) = Some p /\
        last (revs t') = Some (new_revision h0 data deleted hasAttachments p))).
Proof.
  intros Hu Hne k.
  assert (Hlen : (0 <? Z.of_nat (length history)) = true).
  { destruct history; [congruence|]. reflexivity. }
  split.
  - intros Hpos Hnd. unfold insertHistory. rewrite Hlen. cbn [assert bind].
    destruct (scan_total t Hu history 0 0) as [[r|] Hs].
    + exfalso. apply Hnd. eapply scan_Some_descend; eassumption.
    + rewrite Hs. reflexivity.
  - intros Hd. unfold insertHistory. rewrite Hlen. cbn [assert bind].
    rewrite (scan_descending t Hu history 0 0); [|auto|exact Hd].
    cbn [bind]. rewrite Z.add_0_l. fold k.
    destruct k as [|k'] eqn:Hk.
    { exists t. split; [reflexivity|]. split; [reflexivity|]. intros Hlt. lia. }
    destruct (0 <? Z.of_nat (S k')) eqn:E; [|zbool; lia].
    rewrite Nat2Z.id.
    pose proof (common_ancestor_le t history) as Hle. fold k in Hle. rewrite Hk in Hle.
    rewrite insertHistory_ancestors_each by exact Hle.
    assert (Hanc : match ancestor_revision t history with
                   | Some p => 0 <= p < size t
                   | None => True
                   end).
    { destruct (ancestor_revision t history) eqn:Ha; [|exact I].
      eapply ancestor_revision_in_range; eassumption. }
    destruct (insert_each_appends (reverse (tail (take (S k') history))) t
                (ancestor_revision t history) Hu Hanc)
      as (t1 & parent1 & He & Hu1 & Hs1 & Hp1 & Hpar1 & Hid1 & Hb1 & Hpi1).
    rewrite He. cbn [bind fst snd].
    destruct history as [|h0 rest]; [congruence|].
    cbn [lookup list_lookup of_option bind].
    destruct (_insert_appends t1 h0 data deleted hasAttachments parent1 Hu1 Hp1)
      as (t' & Hi & Hu' & Hs' & Hid' & Hb' & Hpi' & Hlast).
    rewrite Hi. cbn [bind fst].
    exists t'. split; [reflexivity|]. split; [discriminate|].
    intros _.
    assert (Hlenr : length (reverse (tail (take (S k') (h0 :: rest)))) = k').
    { rewrite length_reverse. cbn [take tail]. rewrite length_take.
      cbn [length] in Hle. lia. }
    rewrite Hlenr in *.
    assert (Hcp : chain_parents (ancestor_revision t (h0 :: rest)) (size t) (S k') =
                  chain_parents (ancestor_revision t (h0 :: rest)) (size t) k'
                  ++ [parent_field parent1]).
    { rewrite chain_parents_snoc. f_equal. f_equal. f_equal. rewrite Hpar1.
      destruct (reverse (tail (take (S k') (h0 :: rest)))) as [|x l];
        cbn [length] in Hlenr; subst k'; [reflexivity|].
      f_equal. lia. }
    split; [|split; [|split]].
    + rewrite Hid', Hid1, <- app_assoc. f_equal.
      cbn [take tail]. rewrite reverse_cons. reflexivity.
    + rewrite Hb', Hb1, <- app_assoc. f_equal.
      replace (S k' - 1)%nat with k' by lia. reflexivity.
    + rewrite Hpi', Hpi1, <- app_assoc. f_equal. symmetry. exact Hcp.
    + exists h0, (parent_field parent1). split; [reflexivity|].
      split; [|exact Hlast]. rewrite Hcp. apply last_snoc.
Qed.

Lemma insertHistory_witness :
  exists t',
    insertHistory tree_1a_2b history_4d (Some (bytes_of "body")) false true
      = Ok (t', 2) /\
    revID <$> revs t' =
      [bytes_of "1-a"; bytes_of "2-b"; bytes_of "3-c"; bytes_of "4-d"].
Proof.
  destruct (insertHistory_correct tree_1a_2b history_4d (Some (bytes_of "body"))
              false true eq_refl ltac:(discriminate)) as [_ Hok].
  assert (Hd : generations_descend
                 (take (S (common_ancestor tree_1a_2b history_4d)) history_4d)).
  { replace (take (S (common_ancestor tree_1a_2b history_4d)) history_4d)
      with [bytes_of "4-d"; bytes_of "3-c"; bytes_of "2-b"]
      by (vm_compute; reflexivity).
    intros k a b Ha Hb.
    destruct k as [|[|[|k]]]; try discriminate Hb;
      inversion Ha; inversion Hb; subst; vm_compute; reflexivity. }
  destruct (Hok Hd) as (t' & Hr & _ & Hrevs).
  exists t'. split; [exact Hr|].
  assert (Hk : (0 < common_ancestor tree_1a_2b history_4d)%nat)
    by (vm_compute; repeat constructor).
  destruct (Hrevs Hk) as (Hid & _). exact Hid.
Defined.

(** C7, counterexample: in the tree 1-a, 2-b the history 3-c, 2-b, 7-x
    has a pair of generations that does not go down by 1, behind the
    common ancestor 2-b; the call inserts 3-c and returns 1, not -1. *)
Lemma insertHistory_counterexample :
  ~ spec_insertHistory tree_1a_2b history_with_gap None false false.
Proof.
  intros [Hgap _].
  assert (Hnd : ~ generations_descend history_with_gap).
  { intros Hd. specialize (Hd 1%nat (bytes_of "2-b") (bytes_of "7-x") eq_refl eq_refl).
    vm_compute in Hd. discriminate Hd. }
  specialize (Hgap Hnd). vm_compute in Hgap. discriminate Hgap.
Qed.

(** ** The order of revisions *)

Lemma bytes_ltb_irrefl (a : list byte) : bytes_ltb a a = false.
Proof.
  induction a as [|x a IH]; [reflexivity|]. cbn [bytes_ltb].
  rewrite Z.ltb_irrefl. exact IH.
Qed.

Lemma Z_of_byte_inj (x y : byte) : Z_of_byte x = Z_of_byte y -> x = y.
Proof.
  intros Hxy. rewrite <- (byte_of_Z_of_byte x), <- (byte_of_Z_of_byte y).
  now rewrite Hxy.
Qed.

Lemma bytes_ltb_trans (a : list byte) :
  forall b c, bytes_ltb a b = true -> bytes_ltb b c = true -> bytes_ltb a c = true.
Proof.
  induction a as [|x a IH]; intros b c Hab Hbc.
  - destruct b as [|y b]; [discriminate Hab|].
    destruct c as [|z c]; [discriminate Hbc|].
    reflexivity.
  - destruct b as [|y b]; [discriminate Hab|].
    destruct c as [|z c].
    { cbn in Hbc. discriminate Hbc. }
    cbn [bytes_ltb] in *.
    destruct (Z_of_byte x <? Z_of_byte y) eqn:Exy.
    + destruct (Z_of_byte y <? Z_of_byte z) eqn:Eyz.
      * assert (E : (Z_of_byte x <? Z_of_byte z) = true) by (zbool; apply Z.ltb_lt; lia).
        now rewrite E.
      * destruct (Z_of_byte z <? Z_of_byte y) eqn:Ezy; [discriminate Hbc|].
        assert (E : (Z_of_byte x <? Z_of_byte z) = true) by (zbool; apply Z.ltb_lt; lia).
        now rewrite E.
    + destruct (Z_of_byte y <? Z_of_byte x) eqn:Eyx; [discriminate Hab|].
      assert (Hxy : Z_of_byte x = Z_of_byte y) by (zbool; lia).
      rewrite Hxy.
      destruct (Z_of_byte y <? Z_of_byte z); [reflexivity|].
      destruct (Z_of_byte z <? Z_of_byte y); [discriminate Hbc|].
      eapply IH; eassumption.
Qed.

Lemma revid_ltb_irrefl (a : revid) : revid_ltb a a = false.
Proof.
  unfold revid_ltb. rewrite Z.ltb_irrefl, Z.eqb_refl, bytes_ltb_irrefl. reflexivity.
Qed.

Lemma revid_ltb_trans (a b c : revid) :
  revid_ltb a b = true -> revid_ltb b c = true -> revid_ltb a c = true.
Proof.
  unfold revid_ltb. intros Hab Hbc.
  apply orb_true_iff in Hab, Hbc. apply orb_true_iff.
  destruct Hab as [Hab|Hab]; destruct Hbc as [Hbc|Hbc];
    rewrite ?andb_true_iff in *.
  - left. zbool. apply Z.ltb_lt. lia.
  - left. destruct Hbc as [Hbc _]. zbool. apply Z.ltb_lt. lia.
  - left. destruct Hab as [Hab _]. zbool. apply Z.ltb_lt. lia.
  - right. destruct Hab as [Hab Hab'], Hbc as [Hbc Hbc']. zbool.
    split; [apply Z.eqb_eq; lia|]. eapply bytes_ltb_trans; eassumption.
Qed.

Lemma revid_ltb_asym (a b : revid) :
  revid_ltb a b = true -> revid_ltb b a = false.
Proof.
  intros Hab. destruct (revid_ltb b a) eqn:Hba; [|reflexivity].
  pose proof (revid_ltb_trans _ _ _ Hab Hba) as Haa.
  rewrite revid_ltb_irrefl in Haa. discriminate Haa.
Qed.

(** [Revision::operator<] decides [outranks]. *)
Lemma Revision_lt_outranks (a b : Revision) :
  Revision_lt a b = true <-> outranks a b.
Proof.
  unfold Revision_lt, outranks.
  destruct (isLeaf a), (isLeaf b), (isDeleted a), (isDeleted b);
    cbv -[revid_ltb revID]; intuition congruence.
Qed.

Lemma Revision_lt_irrefl (a : Revision) : Revision_lt a a = false.
Proof.
  unfold Revision_lt. rewrite !Z.sub_diag. cbv -[revid_ltb revID].
  apply revid_ltb_irrefl.
Qed.

Lemma Revision_lt_trans (a b c : Revision) :
  Revision_lt a b = true -> Revision_lt b c = true -> Revision_lt a c = true.
Proof.
  unfold Revision_lt.
  destruct (isLeaf a), (isLeaf b), (isLeaf c),
    (isDeleted a), (isDeleted b), (isDeleted c); cbv -[revid_ltb revID];
    try congruence; intros; eapply revid_ltb_trans; eauto.
Qed.

Lemma Revision_lt_asym (a b : Revision) :
  Revision_lt a b = true -> Revision_lt b a = false.
Proof.
  intros Hab. destruct (Revision_lt b a) eqn:Hba; [|reflexivity].
  pose proof (Revision_lt_trans _ _ _ Hab Hba) as Haa.
  rewrite Revision_lt_irrefl in Haa. discriminate Haa.
Qed.

(** ** Insertion sort is one of the sorts [std::sort] may be *)

Lemma insert_sorted_perm (x : Revision) (l : list Revision) :
  Permutation (insert_sorted x l) (x :: l).
Proof.
  induction l as [|y l IH]; cbn [insert_sorted]; [reflexivity|].
  destruct (Revision_lt x y); [reflexivity|].
  rewrite IH. apply perm_swap.
Qed.

Lemma insert_sorted_sorted (x : Revision) (l : list Revision) :
  StronglySorted (fun a b => Revision_lt b a = false) l ->
  StronglySorted (fun a b => Revision_lt b a = false) (insert_sorted x l).
Proof.
  induction l as [|y l IH]; intros Hs; cbn [insert_sorted].
  - repeat constructor.
  - inversion Hs as [|? ? Hl Hy]; subst.
    destruct (Revision_lt x y) eqn:Hxy.
    + constructor; [exact Hs|]. constructor.
      * apply Revision_lt_asym. exact Hxy.
      * rewrite Forall_forall in Hy |- *. intros z Hz.
        destruct (Revision_lt z x) eqn:Hzx; [|reflexivity].
        pose proof (Revision_lt_trans _ _ _ Hzx Hxy) as Hzy.
        rewrite (Hy z Hz) in Hzy. discriminate Hzy.
    + constructor; [apply IH; exact Hl|].
      eapply Permutation_Forall; [symmetry; apply insert_sorted_perm|].
      constructor; assumption.
Qed.

#[global] Instance insertion_StdSortLaws : StdSortLaws (H := insertion_StdSort).
Proof.
  split.
  - intros l. unfold std_sort, insertion_StdSort, insertion_sort.
    induction l as [|x l IH]; cbn [fold_right]; [reflexivity|].
    rewrite insert_sorted_perm. now rewrite IH.
  - intros l. unfold std_sort, insertion_StdSort, insertion_sort.
    induction l as [|x l IH]; cbn [fold_right]; [constructor|].
    apply insert_sorted_sorted. exact IH.
Qed.

(** ** [RevTree::sort] *)

Lemma StronglySorted_lookup {A : Type} (R : A -> A -> Prop) (l : list A) :
  StronglySorted R l ->
  forall (i j : nat) (a b : A),
    (i < j)%nat -> l !! i = Some a -> l !! j = Some b -> R a b.
Proof.
  induction 1 as [|x l Hs IH Hx]; intros i j a b Hij Ha Hb; [destruct i; discriminate|].
  destruct j as [|j]; [lia|]. cbn in Hb.
  destruct i as [|i].
  - cbn in Ha. inversion Ha; subst a.
    rewrite Forall_forall in Hx. apply Hx.
    eapply list_elem_of_lookup_2. exact Hb.
  - cbn in Ha. eapply IH; [|eassumption..]. lia.
Qed.

Lemma wrap16_small (z : Z) : 0 <= z < 65536 -> wrap16 z = z.
Proof. intros Hz. unfold wrap16. apply Z.mod_small. exact Hz. Qed.

Lemma sort_oldToNew_untouched (l : list Revision) :
  forall (i : Z) (m : list Z) (k : nat),
    (forall r, r ∈ l -> Z.to_nat (parentIndex r) <> k) ->
    sort_oldToNew l i m !! k = m !! k.
Proof.
  induction l as [|r l IH]; intros i m k Hk; [reflexivity|].
  cbn [sort_oldToNew]. rewrite IH.
  - apply list_lookup_insert_ne. apply Hk. apply list_elem_of_here.
  - intros r' Hr'. apply Hk. apply list_elem_of_further. exact Hr'.
Qed.

Lemma sort_oldToNew_length (l : list Revision) :
  forall (i : Z) (m : list Z), length (sort_oldToNew l i m) = length m.
Proof.
  induction l as [|r l IH]; intros i m; [reflexivity|].
  cbn [sort_oldToNew]. rewrite IH. apply length_insert.
Qed.

Lemma sort_oldToNew_lookup (l : list Revision) :
  forall (i : Z) (m : list Z),
    NoDup (parentIndex <$> l) ->
    (forall r, r ∈ l -> 0 <= parentIndex r < Z.of_nat (length m)) ->
    forall (j : nat) (r : Revision),
      l !! j = Some r ->
      sort_oldToNew l i m !! Z.to_nat (parentIndex r) = Some (wrap16 (i + Z.of_nat j)).
Proof.
  induction l as [|r0 l IH]; intros i m Hnd Hrange j r Hj; [destruct j; discriminate|].
  cbn [fmap list_fmap] in Hnd. apply NoDup_cons in Hnd. destruct Hnd as [Hnotin Hnd].
  cbn [sort_oldToNew]. destruct j as [|j].
  - cbn in Hj. inversion Hj; subst r0. rewrite sort_oldToNew_untouched.
    + rewrite Z.add_0_r. apply list_lookup_insert_eq.
      pose proof (Hrange r (list_elem_of_here _ _)). lia.
    + intros r' Hr' Heq. apply Hnotin.
      pose proof (Hrange r (list_elem_of_here _ _)).
      pose proof (Hrange r' (list_elem_of_further _ _ _ Hr')).
      replace (parentIndex r) with (parentIndex r') by lia.
      apply list_elem_of_fmap_2. exact Hr'.
  - cbn in Hj. rewrite (IH (i + 1) _ Hnd) with (j := j).
    + f_equal. f_equal. lia.
    + intros r' Hr'. rewrite length_insert. apply Hrange.
      apply list_elem_of_further. exact Hr'.
    + exact Hj.
Qed.

Lemma StronglySorted_relinked (f : Revision -> Revision) (l : list Revision) :
  (forall a, flags (f a) = flags a /\ revID (f a) = revID a) ->
  StronglySorted (fun a b => Revision_lt b a = false) l ->
  StronglySorted (fun a b => Revision_lt b a = false) (f <$> l).
Proof.
  intros Hf. assert (Hlt : forall a b, Revision_lt (f b) (f a) = Revision_lt b a).
  { intros a b. unfold Revision_lt, isLeaf, isDeleted.
    destruct (Hf a) as [-> ->], (Hf b) as [-> ->]. reflexivity. }
  induction 1 as [|x l Hl IH Hx]; [constructor|].
  cbn [fmap list_fmap]. constructor; [exact IH|].
  rewrite Forall_fmap. eapply Forall_impl; [exact Hx|].
  intros y Hy. cbn. rewrite Hlt. exact Hy.
Qed.

Section SortFacts.
Context `{StdSortLaws}.

Variable t : RevTree.
Hypothesis fits : size t <= 65535.

Let cookied : list Revision :=
  imap (fun i rev => set_parentIndex rev (wrap16 (Z.of_nat i))) (revs t).
Let sorted_revs : list Revision := std_sort cookied.
Let moved : list nat := (fun r => Z.to_nat (parentIndex r)) <$> sorted_revs.
Let oldToNew : list Z :=
  sort_oldToNew sorted_revs 0 (replicate (length (revs t)) 0).

Lemma cookied_lookup (o : nat) (rs : Revision) :
  cookied !! o = Some rs <->
  exists r0, revs t !! o = Some r0 /\ rs = set_parentIndex r0 (Z.of_nat o).
Proof.
  unfold cookied. rewrite list_lookup_imap.
  destruct (revs t !! o) as [r0|] eqn:Hr; cbn.
  - apply lookup_lt_Some in Hr as Hlt. unfold size in fits.
    rewrite wrap16_small by lia. split.
    + intros Hx. inversion Hx. eauto.
    + intros (r1 & Hr1 & ->). inversion Hr1. reflexivity.
  - split; [discriminate|]. intros (r1 & Hr1 & _). discriminate Hr1.
Qed.

Lemma cookied_cookies :
  parentIndex <$> cookied = Z.of_nat <$> seq 0 (length (revs t)).
Proof.
  apply list_eq. intros i. rewrite !list_lookup_fmap.
  destruct (cookied !! i) as [rs|] eqn:Hc.
  - apply cookied_lookup in Hc as (r0 & Hr0 & ->).
    apply lookup_lt_Some in Hr0. rewrite lookup_seq_lt by exact Hr0. reflexivity.
  - destruct (seq 0 (length (revs t)) !! i) as [k|] eqn:Hs; [|reflexivity].
    apply lookup_seq in Hs. destruct Hs as [_ Hlt].
    apply lookup_lt_is_Some_2 in Hlt. destruct Hlt as [r0 Hr0].
    assert (Hx : cookied !! i = Some (set_parentIndex r0 (Z.of_nat i)))
      by (apply cookied_lookup; eauto).
    rewrite Hx in Hc. discriminate Hc.
Qed.

Lemma sorted_revs_perm : Permutation sorted_revs cookied.
Proof. apply std_sort_perm. Qed.

Lemma moved_perm : Permutation moved (seq 0 (length (revs t))).
Proof.
  unfold moved. rewrite sorted_revs_perm.
  replace ((fun r => Z.to_nat (parentIndex r)) <$> cookied)
    with (Z.to_nat <$> (parentIndex <$> cookied))
    by (rewrite <- list_fmap_compose; reflexivity).
  rewrite cookied_cookies, <- list_fmap_compose.
  rewrite (list_fmap_ext (Z.to_nat ∘ Z.of_nat) id (seq 0 (length (revs t)))).
  - rewrite list_fmap_id. reflexivity.
  - intros i x _. cbn. apply Nat2Z.id.
Qed.

Lemma sorted_revs_lookup (j : nat) (rs : Revision) :
  sorted_revs !! j = Some rs ->
  exists (o : nat) (r0 : Revision),
    revs t !! o = Some r0 /\ rs = set_parentIndex r0 (Z.of_nat o) /\
    moved !! j = Some o.
Proof.
  intros Hj.
  assert (Hin : rs ∈ cookied).
  { rewrite <- sorted_revs_perm. eapply list_elem_of_lookup_2. exact Hj. }
  apply list_elem_of_lookup_1 in Hin. destruct Hin as [o Ho].
  apply cookied_lookup in Ho as (r0 & Hr0 & ->).
  exists o, r0. split; [exact Hr0|]. split; [reflexivity|].
  unfold moved. rewrite list_lookup_fmap, Hj. cbn. now rewrite Nat2Z.id.
Qed.

Lemma moved_lookup (j o : nat) :
  moved !! j = Some o ->
  exists r0, revs t !! o = Some r0 /\
             sorted_revs !! j = Some (set_parentIndex r0 (Z.of_nat o)).
Proof.
  unfold moved. rewrite list_lookup_fmap.
  destruct (sorted_revs !! j) as [rs|] eqn:Hj; [|discriminate].
  cbn. intros Ho. inversion Ho as [Ho'].
  destruct (sorted_revs_lookup j rs Hj) as (o' & r0 & Hr0 & -> & _).
  cbn. rewrite Nat2Z.id. eauto.
Qed.

Lemma sorted_revs_cookies_NoDup : NoDup (parentIndex <$> sorted_revs).
Proof.
  rewrite sorted_revs_perm, cookied_cookies.
  apply NoDup_fmap_2; [apply _|]. apply NoDup_seq.
Qed.

Lemma sorted_revs_cookie_range (r : Revision) :
  r ∈ sorted_revs -> 0 <= parentIndex r < Z.of_nat (length (revs t)).
Proof.
  rewrite sorted_revs_perm. intros Hin.
  apply list_elem_of_lookup_1 in Hin. destruct Hin as [o Ho].
  apply cookied_lookup in Ho as (r0 & Hr0 & ->).
  apply lookup_lt_Some in Hr0. cbn. lia.
Qed.

Lemma moved_length : length moved = length (revs t).
Proof. rewrite (Permutation_length moved_perm). apply length_seq. Qed.

Lemma oldToNew_lookup (j o : nat) :
  moved !! j = Some o -> array_get oldToNew (Z.of_nat o) = Z.of_nat j.
Proof.
  intros Hm. destruct (moved_lookup j o Hm) as (r0 & Hr0 & Hs).
  apply lookup_lt_Some in Hm as Hj. rewrite moved_length in Hj.
  unfold array_get, oldToNew. rewrite Nat2Z.id.
  pose proof (sort_oldToNew_lookup sorted_revs 0 (replicate (length (revs t)) 0)
                sorted_revs_cookies_NoDup) as Hl.
  specialize (Hl ltac:(intros r Hr; rewrite length_replicate;
                       apply sorted_revs_cookie_range; exact Hr) j _ Hs).
  cbn [parentIndex set_parentIndex] in Hl. rewrite Nat2Z.id in Hl. rewrite Hl.
  unfold size in fits. apply wrap16_small. lia.
Qed.

Lemma moved_surjective (p : nat) :
  moved !! p <> None -> exists p', moved !! p' = Some p.
Proof.
  intros Hp.
  assert (Hlt : (p < length (revs t))%nat).
  { rewrite <- moved_length. apply lookup_lt_is_Some.
    destruct (moved !! p); [eauto|congruence]. }
  assert (Hin : p ∈ moved).
  { rewrite moved_perm. apply elem_of_seq. lia. }
  apply list_elem_of_lookup_1 in Hin. exact Hin.
Qed.

Lemma renumber_same_link (old : Z) :
  same_link moved old (renumber oldToNew old).
Proof.
  split.
  - intros ->. reflexivity.
  - intros p Hp ->. destruct (moved_surjective p Hp) as [p' Hp'].
    exists p'. split; [exact Hp'|].
    assert (Hlt : (p < length (revs t))%nat).
    { rewrite <- moved_length. apply lookup_lt_is_Some.
      destruct (moved !! p); [eauto|congruence]. }
    unfold renumber. unfold size in fits.
    destruct (Z.of_nat p =? kNoParent) eqn:E.
    + zbool. unfold kNoParent, UINT16_MAX in E. lia.
    + apply oldToNew_lookup. exact Hp'.
Qed.

(** What [sort] does to a tree that is not flagged as sorted. *)
Lemma sort_unsorted :
  sorted t = false ->
  sorted (sort t) = true /\
  bodyOffset (sort t) = bodyOffset t /\
  unknown (sort t) = unknown t /\
  changed (sort t) = changed t /\
  StronglySorted (fun a b => Revision_lt b a = false) (revs (sort t)) /\
  rearranged moved (revs t) (revs (sort t)).
Proof.
  intros Hs. unfold sort. rewrite Hs. cbn [sorted bodyOffset unknown changed revs].
  repeat (split; [reflexivity|]).
  fold cookied. fold sorted_revs. fold oldToNew.
  set (fix_ := fun rev : Revision =>
                 set_deltaRefIndex
                   (set_parentIndex rev
                      (renumber oldToNew
                         (array_get (List.map parentIndex (revs t)) (parentIndex rev))))
                   (renumber oldToNew (deltaRefIndex rev))).
  change (List.map fix_ sorted_revs) with (fix_ <$> sorted_revs).
  split.
  - apply StronglySorted_relinked; [intros a; split; reflexivity|].
    apply std_sort_sorted.
  - split.
    { rewrite length_fmap.
      transitivity (length cookied);
        [apply Permutation_length, sorted_revs_perm|apply length_imap]. }
    split; [apply moved_perm|].
    intros j o Hm. destruct (moved_lookup j o Hm) as (r0 & Hr0 & Hsj).
    exists r0, (fix_ (set_parentIndex r0 (Z.of_nat o))).
    split; [exact Hr0|]. split; [rewrite list_lookup_fmap, Hsj; reflexivity|].
    split; [repeat split|].
    unfold fix_. cbn [parentIndex deltaRefIndex set_parentIndex set_deltaRefIndex].
    assert (Hop : array_get (List.map parentIndex (revs t)) (Z.of_nat o) = parentIndex r0).
    { unfold array_get. rewrite Nat2Z.id.
      change (List.map parentIndex (revs t)) with (parentIndex <$> revs t).
      rewrite list_lookup_fmap, Hr0. reflexivity. }
    rewrite Hop. split; apply renumber_same_link.
Qed.

End SortFacts.

Lemma descending_of_sorted (l : list Revision) :
  StronglySorted (fun a b => Revision_lt b a = false) l -> descending outranks l.
Proof.
  intros Hs i j a b Hij Ha Hb Ho.
  pose proof (StronglySorted_lookup _ l Hs i j a b Hij Ha Hb) as Hlt.
  apply Revision_lt_outranks in Ho. cbn in Hlt. congruence.
Qed.

Lemma descending_winner (l : list Revision) (a b : Revision) :
  descending outranks l -> head l = Some a -> b ∈ l -> ~ outranks b a.
Proof.
  intros Hd Ha Hb. apply list_elem_of_lookup_1 in Hb. destruct Hb as [j Hj].
  destruct l as [|x l]; [discriminate Ha|]. cbn in Ha. inversion Ha; subst x.
  destruct j as [|j].
  - cbn in Hj. inversion Hj; subst b. intros Ho.
    apply Revision_lt_outranks in Ho. rewrite Revision_lt_irrefl in Ho. discriminate Ho.
  - apply (Hd O (S j) a b); [lia|reflexivity|exact Hj].
Qed.

Lemma rearranged_refl (l : list Revision) : rearranged (seq 0 (length l)) l l.
Proof.
  split; [reflexivity|]. split; [reflexivity|].
  intros j o Hj. apply lookup_seq in Hj. destruct Hj as [-> Hlt]. cbn [Nat.add].
  destruct (lookup_lt_is_Some_2 l j Hlt) as [r Hr].
  exists r, r. split; [exact Hr|]. split; [exact Hr|].
  split; [repeat split|].
  assert (Hlink : forall x, same_link (seq 0 (length l)) x x).
  { intros x. split; [auto|]. intros p Hp ->. exists p. split; [|reflexivity].
    destruct (seq 0 (length l) !! p) as [q|] eqn:Hq; [|congruence].
    apply lookup_seq in Hq as [-> _]. reflexivity. }
  split; apply Hlink.
Qed.

(** The chains of parents of a rearranged tree end where the chains of
    the tree did. *)
Lemma rearranged_chain (moved : list nat) (before after : list Revision) :
  rearranged moved before after ->
  forall x, chain_ends before x ->
  forall x', same_link moved x x' -> chain_ends after x'.
Proof.
  intros (Hlen & Hperm & Hre). induction 1 as [|i r Hl Hchain IH]; intros x' [Hroot Hlink].
  - rewrite (Hroot eq_refl). constructor.
  - assert (Hi : moved !! i <> None).
    { apply lookup_lt_Some in Hl.
      assert (Hlt : (i < length moved)%nat)
        by (rewrite (Permutation_length Hperm), length_seq; exact Hl).
      destruct (lookup_lt_is_Some_2 moved i Hlt) as [o Ho]. congruence. }
    destruct (Hlink i Hi eq_refl) as (p' & Hp' & ->).
    destruct (Hre p' i Hp') as (r0 & r' & Hr0 & Hr' & _ & Hpl & _).
    rewrite Hl in Hr0. inversion Hr0; subst r0.
    eapply ends_step; [exact Hr'|]. apply IH. exact Hpl.
Qed.

Lemma rearranged_chains (moved : list nat) (before after : list Revision) :
  Z.of_nat (length before) <= 65535 ->
  rearranged moved before after ->
  (forall i r, before !! i = Some r -> chain_ends before (Z.of_nat i)) ->
  forall j r, after !! j = Some r -> chain_ends after (Z.of_nat j).
Proof.
  intros Hfits Hre Hends j r' Hj. pose proof Hre as (Hlen & Hperm & Hall).
  apply lookup_lt_Some in Hj as Hlt. rewrite Hlen in Hlt.
  destruct (lookup_lt_is_Some_2 moved j) as [o Ho].
  { rewrite (Permutation_length Hperm), length_seq. exact Hlt. }
  destruct (Hall j o Ho) as (r0 & r1 & Hr0 & _).
  apply (rearranged_chain moved before after Hre (Z.of_nat o) (Hends o r0 Hr0)).
  apply lookup_lt_Some in Hr0. split.
  - unfold kNoParent, UINT16_MAX. intros Heq. lia.
  - intros p Hp Heq. apply Nat2Z.inj in Heq. subst p. eauto.
Qed.

(** C5 (as amended): after [sort] the tree is flagged sorted and its
    revisions are in descending priority: a leaf before a non-leaf; with
    the same leaf status, a live revision before a deleted one; with the
    same flags, the higher identifier first (by generation, then suffix); so
    no revision outranks [revs[0]].  The revisions are those of the tree
    before, in another order, with every parent and delta reference
    renumbered to the new place of the revision it denoted; and when every
    chain of parents ended at [kNoParent] before, it still does. *)
Theorem sort_correct `{StdSortLaws} (t : RevTree) :
  size t <= 65535 ->
  (sorted t = true -> descending outranks (revs t)) ->
  sorted (sort t) = true /\
  descending outranks (revs (sort t)) /\
  (forall a b, head (revs (sort t)) = Some a -> b ∈ revs (sort t) -> ~ outranks b a) /\
  exists moved : list nat,
    rearranged moved (revs t) (revs (sort t)) /\
    ((forall i r, revs t !! i = Some r -> chain_ends (revs t) (Z.of_nat i)) ->
     forall j r, revs (sort t) !! j = Some r -> chain_ends (revs (sort t)) (Z.of_nat j)).
Proof.
  intros Hfits Hinv.
  assert (Hgoal : sorted (sort t) = true /\ descending outranks (revs (sort t)) /\
                  exists moved, rearranged moved (revs t) (revs (sort t))).
  { destruct (sorted t) eqn:Hs.
    - unfold sort. rewrite Hs. split; [exact Hs|]. split; [apply Hinv; reflexivity|].
      exists (seq 0 (length (revs t))). apply rearranged_refl.
    - destruct (sort_unsorted t Hfits Hs) as (H1 & _ & _ & _ & H5 & H6).
      split; [exact H1|]. split; [apply descending_of_sorted; exact H5|].
      eexists. exact H6. }
  destruct Hgoal as (H1 & H2 & moved & H3).
  split; [exact H1|]. split; [exact H2|].
  split; [intros a b; apply descending_winner; exact H2|].
  exists moved. split; [exact H3|].
  apply (rearranged_chains moved); [exact Hfits|exact H3].
Qed.

Lemma sort_correct_witness :
  sorted (sort tree_deleted_parent) = true /\
  (revID <$> revs (sort tree_deleted_parent)) =
    [bytes_of "3-c"; bytes_of "1-a"; bytes_of "2-b"].
Proof.
  assert (Hfits : size tree_deleted_parent <= 65535) by (vm_compute; discriminate).
  assert (Hinv : sorted tree_deleted_parent = true ->
                 descending outranks (revs tree_deleted_parent)) by discriminate.
  destruct (sort_correct tree_deleted_parent Hfits Hinv) as (Hs & _).
  split; [exact Hs|]. vm_compute. reflexivity.
Defined.

(** C5, counterexample: 1-a, its deleted child 2-b and the leaf 3-c are
    sorted as 3-c, 1-a, 2-b: among the two that are not leaves the live
    one comes first, although the deleted one has the higher
    identifier. *)
Lemma sort_order_counterexample :
  revID <$> revs (sort tree_deleted_parent) =
    [bytes_of "3-c"; bytes_of "1-a"; bytes_of "2-b"] /\
  ~ spec_sorted_order tree_deleted_parent.
Proof.
  split; [vm_compute; reflexivity|].
  intros Hd.
  apply (Hd 1%nat 2%nat
           (mkRevision (bytes_of "1-a") 0 None 0 kNew kNoParent kNoParent)
           (mkRevision (bytes_of "2-b") 0 None 0 (Z.lor kNew kDeleted) 1 kNoParent));
    [lia|vm_compute; reflexivity|vm_compute; reflexivity|].
  right. right. vm_compute. split; [reflexivity|]. split; [discriminate|reflexivity].
Qed.

(** ** Reading back what [Revision::write] wrote *)

Lemma read_bytes_middle (a x b : list byte) (pos len : nat) :
  pos = length a -> len = length x -> read_bytes (a ++ x ++ b) pos len = Ok x.
Proof.
  intros -> ->. unfold read_bytes.
  rewrite drop_app_length, take_app_length, Nat.eqb_refl. reflexivity.
Qed.

Lemma read_bytes_take (buf : list byte) (pos len : nat) (s : list byte) :
  read_bytes buf pos len = Ok s -> take len (drop pos buf) = s.
Proof.
  unfold read_bytes. destruct (_ =? _)%nat; [|discriminate].
  intros Hs. inversion Hs. reflexivity.
Qed.

(** A number that ends inside its slice, and a body inside the buffer. *)
Lemma read_varint_window (buf : list byte) (data end_ : nat) (w : list byte)
  (r : nat * Z) :
  (data <= end_)%nat ->
  read_bytes buf data (end_ - data) = Ok w -> GetUVarInt w = Some r ->
  read_varint buf data end_ = Ok (Some r).
Proof.
  intros Hle Hw Hr. unfold read_varint.
  destruct (data <=? end_)%nat eqn:E; [|apply Nat.leb_gt in E; lia].
  rewrite (read_bytes_take _ _ _ _ Hw), Hr. reflexivity.
Qed.

Lemma read_slice_inside (buf : list byte) (data end_ : nat) :
  (data <= end_)%nat -> read_slice buf data end_ = read_bytes buf data (end_ - data).
Proof.
  intros Hle. unfold read_slice.
  destruct (data <=? end_)%nat eqn:E; [reflexivity|apply Nat.leb_gt in E; lia].
Qed.

Lemma read_fields (pre s4 p2 d2 f1 i1 id tl post : list byte) :
  length s4 = 4%nat -> length p2 = 2%nat -> length d2 = 2%nat ->
  length f1 = 1%nat -> length i1 = 1%nat ->
  let buf := pre ++ (s4 ++ p2 ++ d2 ++ f1 ++ i1 ++ id ++ tl) ++ post in
  let pos := length pre in
  read_bytes buf pos 4 = Ok s4 /\
  read_bytes buf (pos + 4) 2 = Ok p2 /\
  read_bytes buf (pos + 6) 2 = Ok d2 /\
  read_bytes buf (pos + 8) 1 = Ok f1 /\
  read_bytes buf (pos + 9) 1 = Ok i1 /\
  read_bytes buf (pos + 10) (length id) = Ok id /\
  forall k : nat, (k <= length tl)%nat ->
    read_bytes buf (pos + 10 + length id + k) (length tl - k) = Ok (drop k tl).
Proof.
  intros H4 Hp Hd Hf Hi buf pos. subst buf pos.
  repeat split.
  - rewrite <- !app_assoc. apply (read_bytes_middle pre s4); auto.
  - replace (pre ++ (s4 ++ p2 ++ d2 ++ f1 ++ i1 ++ id ++ tl) ++ post)
      with ((pre ++ s4) ++ p2 ++ (d2 ++ f1 ++ i1 ++ id ++ tl) ++ post)
      by (rewrite <- !app_assoc; reflexivity).
    apply read_bytes_middle; [rewrite length_app; lia|auto].
  - replace (pre ++ (s4 ++ p2 ++ d2 ++ f1 ++ i1 ++ id ++ tl) ++ post)
      with ((pre ++ s4 ++ p2) ++ d2 ++ (f1 ++ i1 ++ id ++ tl) ++ post)
      by (rewrite <- !app_assoc; reflexivity).
    apply read_bytes_middle; [rewrite !length_app; lia|auto].
  - replace (pre ++ (s4 ++ p2 ++ d2 ++ f1 ++ i1 ++ id ++ tl) ++ post)
      with ((pre ++ s4 ++ p2 ++ d2) ++ f1 ++ (i1 ++ id ++ tl) ++ post)
      by (rewrite <- !app_assoc; reflexivity).
    apply read_bytes_middle; [rewrite !length_app; lia|auto].
  - replace (pre ++ (s4 ++ p2 ++ d2 ++ f1 ++ i1 ++ id ++ tl) ++ post)
      with ((pre ++ s4 ++ p2 ++ d2 ++ f1) ++ i1 ++ (id ++ tl) ++ post)
      by (rewrite <- !app_assoc; reflexivity).
    apply read_bytes_middle; [rewrite !length_app; lia|auto].
  - replace (pre ++ (s4 ++ p2 ++ d2 ++ f1 ++ i1 ++ id ++ tl) ++ post)
      with ((pre ++ s4 ++ p2 ++ d2 ++ f1 ++ i1) ++ id ++ tl ++ post)
      by (rewrite <- !app_assoc; reflexivity).
    apply read_bytes_middle; [rewrite !length_app; lia|auto].
  - intros k Hk.
    replace (pre ++ (s4 ++ p2 ++ d2 ++ f1 ++ i1 ++ id ++ tl) ++ post)
      with ((pre ++ s4 ++ p2 ++ d2 ++ f1 ++ i1 ++ id ++ take k tl) ++ drop k tl ++ post)
      by (rewrite <- !app_assoc; rewrite (app_assoc (take k tl)), take_drop; reflexivity).
    apply read_bytes_middle.
    + rewrite !length_app, length_take. lia.
    + rewrite length_drop. reflexivity.
Qed.

Lemma land_public_idem (f : Z) :
  Z.land (Z.land f kPublicPersistentFlags) kPublicPersistentFlags =
  Z.land f kPublicPersistentFlags.
Proof. rewrite <- Z.land_assoc. reflexivity. Qed.

Lemma stored_flags_public (x : Z) :
  0 <= x <= 11 ->
  Z.land (wrap8 (Z.lor x kHasData)) kPublicPersistentFlags
    = Z.land x kPublicPersistentFlags /\
  Z.land (wrap8 (Z.lor x kHasBodyOffset)) kPublicPersistentFlags
    = Z.land x kPublicPersistentFlags /\
  Z.land (wrap8 x) kPublicPersistentFlags = Z.land x kPublicPersistentFlags.
Proof.
  intros H.
  assert (Hx : x = 0 \/ x = 1 \/ x = 2 \/ x = 3 \/ x = 4 \/ x = 5 \/ x = 6 \/
               x = 7 \/ x = 8 \/ x = 9 \/ x = 10 \/ x = 11) by lia.
  repeat (destruct Hx as [-> | Hx]; [repeat split; reflexivity|]).
  subst x. repeat split; reflexivity.
Qed.

Lemma write_flags_range (r : Revision) : 0 <= wrap8 (write_flags r) < 256.
Proof. unfold wrap8. apply Z.mod_pos_bound. lia. Qed.

Lemma record_shape (r : Revision) (bo : Z) :
  RawRevision.bytes (Revision_write r bo) =
  put_u32 (wrap32 (sizeToWrite r)) ++ put_u16 (parentIndex r)
  ++ put_u16 (deltaRefIndex r)
  ++ [byte_of_Z (wrap8 (write_flags r))]
  ++ [byte_of_Z (wrap8 (Z.of_nat (length (revID r))))]
  ++ revID r ++ (PutUVarInt (sequence r) ++ write_payload r bo).
Proof. reflexivity. Qed.

Lemma write_payload_cases (r : Revision) (bo : Z) :
  0 <= oldBodyOffset r ->
  write_payload r bo =
    if 0 <? slice_size (body r) then slice_bytes (body r)
    else if 0 <? oldBodyOffset r then PutUVarInt (oldBodyOffset r)
    else [].
Proof.
  intros Ho.
  destruct (0 <? slice_size (body r)) eqn:Eb.
  - zbool. destruct (write_with_body r bo Eb) as (_ & _ & Ht).
    cbn [Revision_write RawRevision.tail] in Ht. apply app_inv_head in Ht. exact Ht.
  - assert (Hs : slice_size (body r) = 0).
    { zbool. unfold slice_size in *. destruct (body r); lia. }
    destruct (0 <? oldBodyOffset r) eqn:Eo.
    + zbool. destruct (write_with_offset r bo Hs Eo) as (_ & _ & Ht).
      cbn [Revision_write RawRevision.tail] in Ht. apply app_inv_head in Ht. exact Ht.
    + zbool. destruct (write_without_body r bo Hs Eo) as (_ & _ & Ht).
      cbn [Revision_write RawRevision.tail] in Ht.
      rewrite <- (app_nil_r (PutUVarInt (sequence r))) in Ht at 2.
      apply app_inv_head in Ht. exact Ht.
Qed.

Lemma slice_size_bytes (s : option (list byte)) :
  slice_size s = Z.of_nat (length (slice_bytes s)).
Proof. destruct s; reflexivity. Qed.

Lemma record_length (r : Revision) (bo : Z) :
  0 <= oldBodyOffset r ->
  Z.of_nat (length (RawRevision.bytes (Revision_write r bo))) = sizeToWrite r.
Proof.
  intros Ho. rewrite record_shape, write_payload_cases by exact Ho.
  unfold sizeToWrite, RawRevision.header_size. rewrite !length_app.
  cbn [put_u32 put_u16 length]. rewrite !SizeOfVarInt_length.
  rewrite (slice_size_bytes (body r)).
  destruct (0 <? Z.of_nat (length (slice_bytes (body r)))); [lia|].
  destruct (0 <? oldBodyOffset r); cbn [length]; lia.
Qed.

Lemma sizeToWrite_pos (r : Revision) : 0 <= oldBodyOffset r -> 10 <= sizeToWrite r.
Proof.
  intros Ho. rewrite <- (record_length r 0 Ho), record_shape, !length_app.
  cbn [put_u32 put_u16 length]. lia.
Qed.

Lemma get_be_single (z : Z) : 0 <= z < 256 -> get_be [byte_of_Z z] = z.
Proof. intros Hz. unfold get_be. cbn [fold_left]. rewrite Z_of_byte_of_Z_small; lia. Qed.

(** The revision [Revision::read] fills in from a record that
    [Revision::write] stored: [decoded] before the sequence is replaced. *)
Lemma Revision_read_written (this r : Revision) (bo : Z) (pre post : list byte) :
  encodable r ->
  let buf := pre ++ RawRevision.bytes (Revision_write r bo) ++ post in
  raw_size buf (length pre) = Ok (sizeToWrite r) /\
  Revision_read this buf (length pre) =
    Ok (set_sequence (decoded 0 r) (sequence r)).
Proof.
  intros (Hrange & Hid & Hsize) buf. destruct Hrange as [Hseq Hold Hfl Hpi Hdi].
  assert (Hsz : 10 <= sizeToWrite r) by (apply sizeToWrite_pos; lia).
  assert (Hlen := record_length r bo ltac:(lia)).
  assert (Hw32 : wrap32 (sizeToWrite r) = sizeToWrite r)
    by (unfold wrap32; apply Z.mod_small; lia).
  assert (Hw8 : wrap8 (Z.of_nat (length (revID r))) = Z.of_nat (length (revID r)))
    by (unfold wrap8; apply Z.mod_small; lia).
  subst buf. rewrite record_shape in *. rewrite Hw32, Hw8 in *.
  set (tl := PutUVarInt (sequence r) ++ write_payload r bo) in *.
  rewrite !length_app in Hlen. cbn [put_u32 put_u16 length] in Hlen.
  destruct (read_fields pre (put_u32 (sizeToWrite r)) (put_u16 (parentIndex r))
              (put_u16 (deltaRefIndex r)) [byte_of_Z (wrap8 (write_flags r))]
              [byte_of_Z (Z.of_nat (length (revID r)))] (revID r) tl post
              eq_refl eq_refl eq_refl eq_refl eq_refl)
    as (R4 & Rp & Rd & Rf & Ri & Rid & Rtl).
  cbv zeta in R4, Rp, Rd, Rf, Ri, Rid, Rtl.
  assert (Hsize_read : raw_size
            (pre ++ (put_u32 (sizeToWrite r) ++ put_u16 (parentIndex r)
                     ++ put_u16 (deltaRefIndex r)
                     ++ [byte_of_Z (wrap8 (write_flags r))]
                     ++ [byte_of_Z (Z.of_nat (length (revID r)))]
                     ++ revID r ++ tl) ++ post) (length pre)
          = Ok (sizeToWrite r)).
  { unfold raw_size. rewrite R4. cbn [bind]. rewrite get_put_u32 by lia. reflexivity. }
  split; [exact Hsize_read|].
  unfold Revision_read. rewrite Hsize_read. cbn [bind].
  rewrite Rp, Rd, Rf, Ri. cbn [bind].
  rewrite (get_be_single (Z.of_nat (length (revID r)))) by lia.
  rewrite Nat2Z.id. rewrite Rid. cbn [bind].
  assert (Htl : (length pre + Z.to_nat (sizeToWrite r)
                 - (length pre + 10 + length (revID r)) = length tl)%nat).
  { lia. }
  pose proof (Rtl O ltac:(lia)) as Rtl0.
  rewrite Nat.add_0_r, Nat.sub_0_r, drop_0, <- Htl in Rtl0.
  assert (Hle0 : (length pre + 10 + length (revID r)
                  <= length pre + Z.to_nat (sizeToWrite r))%nat) by lia.
  assert (Hget : GetUVarInt tl = Some (length (PutUVarInt (sequence r)), sequence r)).
  { unfold tl. apply GetUVarInt_PutUVarInt. lia. }
  rewrite (read_varint_window _ _ _ tl _ Hle0 Rtl0 Hget).
  cbn [bind].
  assert (Hrest : (length pre + Z.to_nat (sizeToWrite r)
                   - (length pre + 10 + length (revID r) + length (PutUVarInt (sequence r)))
                   = length tl - length (PutUVarInt (sequence r)))%nat) by lia.
  assert (Hdrop : drop (length (PutUVarInt (sequence r))) tl = write_payload r bo)
    by (unfold tl; apply drop_app_length).
  pose proof (Rtl (length (PutUVarInt (sequence r)))
                ltac:(unfold tl; rewrite length_app; lia)) as Rpay.
  rewrite Hdrop, <- Hrest in Rpay.
  assert (Hin : (length pre + 10 + length (revID r) + length (PutUVarInt (sequence r))
                 <= length pre + Z.to_nat (sizeToWrite r))%nat).
  { unfold tl in Htl. rewrite length_app in Htl. lia. }
  rewrite read_slice_inside by exact Hin.
  rewrite get_put_u16 by lia. rewrite get_put_u16 by lia.
  rewrite (get_be_single (wrap8 (write_flags r))) by apply write_flags_range.
  rewrite (write_payload_cases r bo ltac:(lia)) in Rpay.
  assert (Hflags :
            has_flag (wrap8 (write_flags r)) kHasData = (0 <? slice_size (body r)) /\
            has_flag (wrap8 (write_flags r)) kHasBodyOffset
              = (negb (0 <? slice_size (body r)) && (0 <? oldBodyOffset r)) /\
            Z.land (wrap8 (write_flags r)) kPublicPersistentFlags
              = Z.land (flags r) kPublicPersistentFlags).
  { pose proof (land_public_range (flags r)) as Hpub.
    destruct (stored_flags_public _ Hpub) as (Hp1 & Hp2 & Hp3).
    rewrite land_public_idem in Hp1, Hp2, Hp3.
    unfold write_flags.
    destruct (0 <? slice_size (body r)).
    - destruct (flags_with_data _ Hpub) as [Hd1 Hd2]. rewrite Hd1, Hd2. auto.
    - destruct (0 <? oldBodyOffset r).
      + destruct (flags_with_offset _ Hpub) as [Ho1 Ho2]. rewrite Ho1, Ho2. auto.
      + destruct (flags_plain _ Hpub) as (Hn1 & Hn2 & _). rewrite Hn1, Hn2. auto. }
  destruct Hflags as (Hf1 & Hf2 & Hf3). rewrite Hf1, Hf2, Hf3.
  unfold decoded, set_sequence. cbn [revID body oldBodyOffset flags parentIndex
                                     deltaRefIndex sequence].
  destruct (0 <? slice_size (body r)) eqn:Eb.
  - rewrite Rpay. reflexivity.
  - cbn [negb andb]. destruct (0 <? oldBodyOffset r) eqn:Eo.
    + rewrite (read_varint_window _ _ _ _
                 (length (PutUVarInt (oldBodyOffset r)), oldBodyOffset r) Hin Rpay).
      * reflexivity.
      * pose proof (GetUVarInt_PutUVarInt (oldBodyOffset r) [] ltac:(lia)) as Hoff.
        rewrite app_nil_r in Hoff. exact Hoff.
    + zbool. replace (oldBodyOffset r) with 0 by lia. reflexivity.
Qed.

Lemma decoded_sequence (seq : Z) (r : Revision) :
  (let rev := set_sequence (decoded 0 r) (sequence r) in
   if sequence rev =? 0 then set_sequence rev seq else rev) = decoded seq r.
Proof.
  cbv zeta. unfold decoded, set_sequence. cbn [sequence revID body oldBodyOffset flags
                                               parentIndex deltaRefIndex].
  destruct (sequence r =? 0); reflexivity.
Qed.

(** Decoding the records that [encode] wrote, from any offset of the
    buffer. *)
Lemma decode_records (seq bo : Z) (l : list Revision) :
  forall (pre : list byte) (fuel : nat),
    Forall encodable l -> (length l <= fuel)%nat ->
    let records :=
      concat (List.map (fun src => RawRevision.bytes (Revision_write src bo)) l) in
    let buf := pre ++ records ++ put_u32 0 in
    RawRevision_count fuel buf (length pre) = Ok (Z.of_nat (length l)) /\
    decode_loop fuel buf (length pre) seq =
      Ok (decoded seq <$> l, (length pre + length records)%nat).
Proof.
  induction l as [|r l IH]; intros pre fuel Hall Hfuel records buf; subst records buf.
  - cbn [List.map concat app length].
    assert (Hz : raw_size (pre ++ put_u32 0) (length pre) = Ok 0).
    { unfold raw_size. rewrite <- (app_nil_r (put_u32 0)).
      rewrite (read_bytes_middle pre (put_u32 0) []) by reflexivity. reflexivity. }
    destruct fuel; cbn [RawRevision_count decode_loop]; rewrite Hz; cbn [bind];
      change (0 =? 0) with true; cbv iota; rewrite Nat.add_0_r; split; reflexivity.
  - inversion Hall as [|? ? Hr Hl]; subst.
    destruct fuel as [|fuel]; [cbn [length] in Hfuel; lia|].
    cbn [List.map concat]. rewrite <- !app_assoc.
    set (rec := RawRevision.bytes (Revision_write r bo)).
    set (rest := concat (List.map (fun src => RawRevision.bytes (Revision_write src bo)) l)).
    destruct (Revision_read_written (mkRevision [] 0 None 0 0 0 0) r bo pre
                (rest ++ put_u32 0) Hr) as [Hsize Hread].
    cbv zeta in Hsize, Hread. fold rec in Hsize, Hread.
    assert (Hpos : 10 <= sizeToWrite r).
    { destruct Hr as ([_ Ho _ _ _] & _). apply sizeToWrite_pos. lia. }
    assert (Hlen : Z.of_nat (length rec) = sizeToWrite r).
    { destruct Hr as ([_ Ho _ _ _] & _). apply record_length. lia. }
    assert (Hnext : (length pre + Z.to_nat (sizeToWrite r))%nat = length (pre ++ rec)).
    { rewrite length_app. lia. }
    destruct (IH (pre ++ rec) fuel Hl ltac:(cbn [length] in Hfuel; lia)) as [Hc Hd].
    cbv zeta in Hc, Hd. fold rest in Hc, Hd. rewrite <- !app_assoc in Hc, Hd.
    cbn [RawRevision_count decode_loop]. rewrite Hsize. cbn [bind].
    destruct (sizeToWrite r =? 0) eqn:E; [zbool; lia|].
    rewrite Hnext, Hc, Hd, Hread. cbn [bind fst snd].
    split.
    + f_equal. cbn [length]. lia.
    + f_equal. f_equal.
      * cbn [fmap list_fmap]. f_equal. apply decoded_sequence.
      * rewrite !length_app. lia.
Qed.

Lemma decoded_round_trip (seq : Z) (r : Revision) :
  round_trip_equal seq r (decoded seq r).
Proof.
  unfold round_trip_equal, decoded. cbn.
  repeat split. destruct (0 <? slice_size (body r)) eqn:E; [reflexivity|].
  zbool. cbn. destruct (body r) as [[|x b]|]; try reflexivity. cbn in E. lia.
Qed.

Lemma sort_oldToNew_range (l : list Revision) :
  forall (i : Z) (m : list Z),
    Forall (fun v => 0 <= v <= 65535) m ->
    Forall (fun v => 0 <= v <= 65535) (sort_oldToNew l i m).
Proof.
  induction l as [|r l IH]; intros i m Hm; [exact Hm|].
  cbn [sort_oldToNew]. apply IH. apply Forall_insert; [exact Hm|].
  unfold wrap16. pose proof (Z.mod_pos_bound i 65536 ltac:(lia)). lia.
Qed.

Lemma renumber_range (m : list Z) (x : Z) :
  Forall (fun v => 0 <= v <= 65535) m -> 0 <= renumber m x <= 65535.
Proof.
  intros Hm. unfold renumber. destruct (x =? kNoParent) eqn:E.
  - zbool. subst x. unfold kNoParent, UINT16_MAX. lia.
  - unfold array_get. destruct (m !! Z.to_nat x) as [v|] eqn:Hv; [|lia].
    rewrite Forall_lookup in Hm. apply (Hm _ _ Hv).
Qed.

Lemma encodable_relinked (r : Revision) (p d : Z) :
  encodable r -> 0 <= p <= 65535 -> 0 <= d <= 65535 ->
  encodable (set_deltaRefIndex (set_parentIndex r p) d).
Proof.
  intros ([Hs Ho Hf Hp Hd] & Hid & Hsz) Hp' Hd'.
  split; [|split]; [constructor|..]; cbn; try assumption; try lia.
Qed.

Lemma sort_encodable `{StdSortLaws} (t : RevTree) :
  Forall encodable (revs t) -> Forall encodable (revs (sort t)).
Proof.
  intros Hall. unfold sort. destruct (sorted t); [exact Hall|].
  cbn [revs].
  match goal with |- Forall _ (List.map ?f ?l) => change (List.map f l) with (f <$> l) end.
  apply Forall_fmap.
  eapply Permutation_Forall; [symmetry; apply std_sort_perm|].
  apply Forall_lookup. intros i rs Hi.
  rewrite list_lookup_imap in Hi.
  destruct (revs t !! i) as [r0|] eqn:Hr0; [|discriminate Hi].
  cbn in Hi. inversion Hi; subst rs; clear Hi.
  rewrite Forall_lookup in Hall. pose proof (Hall _ _ Hr0) as Henc.
  cbn [compose]. unfold set_parentIndex at 2 3. cbn [deltaRefIndex parentIndex].
  assert (Hm : Forall (fun v => 0 <= v <= 65535)
                 (sort_oldToNew
                    (std_sort
                       (imap (fun i rev => set_parentIndex rev (wrap16 (Z.of_nat i)))
                          (revs t))) 0 (replicate (length (revs t)) 0))).
  { apply sort_oldToNew_range. apply Forall_replicate. lia. }
  match goal with
  | |- encodable (set_deltaRefIndex (set_parentIndex ?x ?p) ?d) =>
      replace (set_deltaRefIndex (set_parentIndex x p) d)
        with (set_deltaRefIndex (set_parentIndex r0 p) d) by reflexivity
  end.
  apply encodable_relinked; [exact Henc|apply renumber_range; exact Hm..].
Qed.

Lemma sort_length `{StdSortLaws} (t : RevTree) :
  length (revs (sort t)) = length (revs t).
Proof.
  unfold sort. destruct (sorted t); [reflexivity|]. cbn [revs].
  rewrite length_map, (Permutation_length (std_sort_perm _)). apply length_imap.
Qed.

Lemma records_length (bo : Z) (l : list Revision) :
  Forall encodable l ->
  (length l <=
   length (concat (List.map (fun src => RawRevision.bytes (Revision_write src bo)) l)))%nat.
Proof.
  induction 1 as [|r l Hr Hl IH]; [cbn; lia|].
  cbn [List.map concat length]. rewrite length_app.
  destruct Hr as ([_ Ho _ _ _] & _).
  pose proof (record_length r bo ltac:(lia)) as Hlen.
  pose proof (sizeToWrite_pos r ltac:(lia)). lia.
Qed.

(** Decoding keeps what the order of the revisions looks at: the
    identifier and the leaf and deletion flags. *)
Lemma decoded_outranks (seq : Z) (a b : Revision) :
  outranks (decoded seq a) (decoded seq b) <-> outranks a b.
Proof.
  assert (Hleaf : forall r, isLeaf (decoded seq r) = isLeaf r).
  { intros r. unfold isLeaf, decoded, has_flag. cbn [flags].
    rewrite <- Z.land_assoc.
    change (Z.land kPublicPersistentFlags kLeaf) with kLeaf. reflexivity. }
  assert (Hdel : forall r, isDeleted (decoded seq r) = isDeleted r).
  { intros r. unfold isDeleted, decoded, has_flag. cbn [flags].
    rewrite <- Z.land_assoc.
    change (Z.land kPublicPersistentFlags kDeleted) with kDeleted. reflexivity. }
  unfold outranks. rewrite !Hleaf, !Hdel. reflexivity.
Qed.

Lemma decoded_descending (seq : Z) (l : list Revision) :
  descending outranks l -> descending outranks (decoded seq <$> l).
Proof.
  intros Hd i j a b Hij Ha Hb Ho.
  rewrite list_lookup_fmap in Ha, Hb.
  destruct (l !! i) as [a0|] eqn:Ha0; [|discriminate].
  destruct (l !! j) as [b0|] eqn:Hb0; [|discriminate].
  cbn in Ha, Hb. inversion Ha; subst a. inversion Hb; subst b.
  apply decoded_outranks in Ho. exact (Hd i j a0 b0 Hij Ha0 Hb0 Ho).
Qed.

(** C1 (as amended): for every tree of at most 65,535 revisions whose
    revisions fit the encoded form (identifiers of at most 255 bytes,
    records of less than 2^32 bytes), decoding what [encode] produced, with
    any sequence and offset, gives a tree that is flagged sorted, which
    [sort] leaves as it is, and whose revisions are those of the tree after
    [encode] sorted it, position by position, with the same identifier,
    persistent flags, parent and delta-reference index, sequence (0
    replaced by the given one) and body.  The revisions of the decoded tree
    are in descending order of priority, unless the tree was flagged sorted
    while out of order: [encode] then writes the revisions as they
    stand. *)
Theorem encode_decode_round_trip `{StdSortLaws} (t : RevTree) (seq docOffset : Z) :
  size t <= 65535 ->
  Forall encodable (revs t) ->
  exists t',
    RevTree_from (snd (encode t)) seq docOffset = Ok t' /\
    revs t' = decoded seq <$> revs (fst (encode t)) /\
    bodyOffset t' = docOffset /\
    sorted t' = true /\
    sort t' = t' /\
    Forall2 (round_trip_equal seq) (revs (fst (encode t))) (revs (sort t')) /\
    ((sorted t = true -> descending outranks (revs t)) ->
     descending outranks (revs t')).
Proof.
  intros Hfits Hall. unfold encode. cbn [fst snd].
  pose proof (sort_encodable t Hall) as Henc.
  pose proof (sort_length t) as Hlen.
  assert (Hdesc : (sorted t = true -> descending outranks (revs t)) ->
                  descending outranks (revs (sort t))).
  { intros Hinv. destruct (sorted t) eqn:Hs.
    - unfold sort. rewrite Hs. apply Hinv. reflexivity.
    - destruct (sort_unsorted t Hfits Hs) as (_ & _ & _ & _ & H5 & _).
      apply descending_of_sorted. exact H5. }
  set (t1 := sort t) in *.
  set (records := concat (List.map (fun src => RawRevision.bytes
                                      (Revision_write src (bodyOffset t1))) (revs t1))).
  pose proof (records_length (bodyOffset t1) (revs t1) Henc) as Hrl. fold records in Hrl.
  destruct (decode_records seq (bodyOffset t1) (revs t1) [] (length (records ++ put_u32 0))
              Henc ltac:(rewrite length_app; lia)) as [Hc Hd].
  cbv zeta in Hc, Hd. fold records in Hc, Hd. cbn [app length Nat.add] in Hc, Hd.
  exists (mkRevTree docOffset true false false (decoded seq <$> revs t1)).
  split.
  - unfold RevTree_from, decode. rewrite Hc. cbn [bind].
    destruct (UINT16_MAX <? Z.of_nat (length (revs t1))) eqn:E.
    { zbool. unfold UINT16_MAX, size in *. lia. }
    rewrite Hd. cbn [bind fst snd].
    destruct (negb (Z.of_nat (length records) =?
                    Z.of_nat (length (records ++ put_u32 0)) - 4)) eqn:E'.
    { apply negb_true_iff in E'. zbool. rewrite length_app in E'.
      cbn [put_u32 length] in E'. lia. }
    reflexivity.
  - split; [reflexivity|]. split; [reflexivity|]. split; [reflexivity|].
    split; [reflexivity|]. split.
    + unfold sort. cbn [sorted revs].
      apply Forall2_fmap_r. apply Forall_Forall2_diag.
      apply Forall_forall. intros r _. apply decoded_round_trip.
    + intros Hinv. cbn [revs]. apply decoded_descending. apply Hdesc. exact Hinv.
Qed.

Lemma encode_decode_round_trip_witness :
  exists t',
    RevTree_from (snd (encode tree_1a_2b)) 7 4096 = Ok t' /\
    revID <$> revs t' = [bytes_of "2-b"; bytes_of "1-a"] /\
    sequence <$> revs t' = [7; 7].
Proof.
  assert (Hfits : size tree_1a_2b <= 65535) by (vm_compute; discriminate).
  assert (Hall : Forall encodable (revs tree_1a_2b)).
  { repeat constructor; vm_compute; congruence. }
  destruct (encode_decode_round_trip tree_1a_2b 7 4096 Hfits Hall)
    as (t' & Hd & Hrevs & _).
  exists t'. split; [exact Hd|]. rewrite Hrevs. split; vm_compute; reflexivity.
Defined.

(** C1, counterexample: a tree whose only revision has an identifier of
    256 bytes.  The length is stored in one byte, as 0, so the revision read
    back has an empty identifier. *)
Lemma round_trip_counterexample :
  ~ spec_round_trip tree_long_revID 1 0.
Proof.
  intros Hs. destruct (Hs ltac:(vm_compute; discriminate)) as (t' & Hd & Hall).
  vm_compute in Hd. inversion Hd; subst t'; clear Hd.
  vm_compute in Hall. inversion Hall as [|? ? ? ? Heq _]; subst.
  destruct Heq as (Hid & _). discriminate Hid.
Qed.

(** ** Paths and heights *)

Section Paths.
Variable l : list Revision.
Hypothesis small : Z.of_nat (length l) <= 32767.

Lemma index_not_root (i : nat) (r : Revision) :
  l !! i = Some r -> Z.of_nat i <> kNoParent.
Proof.
  intros Hi. apply lookup_lt_Some in Hi. unfold kNoParent, UINT16_MAX. lia.
Qed.

Lemma chain_ends_height (x : Z) : chain_ends l x -> exists h, height l x h.
Proof.
  induction 1 as [|i r Hi _ [h Hh]].
  - exists O. constructor.
  - exists (S h). econstructor; eassumption.
Qed.

Lemma height_fun (x : Z) (h : nat) :
  height l x h -> forall h', height l x h' -> h = h'.
Proof.
  induction 1 as [|i r h Hi Hh IH]; intros h' Hh'.
  - inversion Hh' as [|i' r' h'' Hi' Hh'' Heq]; [reflexivity|].
    exfalso. eapply index_not_root; [exact Hi'|]. congruence.
  - inversion Hh' as [Heq|i' r' h'' Hi' Hh'' Heq].
    + exfalso. eapply index_not_root; [exact Hi|]. congruence.
    + apply Nat2Z.inj in Heq. subst i'. rewrite Hi in Hi'. inversion Hi'; subst r'.
      f_equal. apply IH. exact Hh''.
Qed.

Lemma path_valid (x k y : nat) : path l x k y -> (x < length l)%nat /\ (y < length l)%nat.
Proof.
  induction 1 as [x Hx|x y z k (r & Hr & _ & _) _ [_ IH]]; [auto|].
  split; [|exact IH]. eapply lookup_lt_Some. exact Hr.
Qed.

Lemma is_parent_fun (x y y' : nat) : is_parent l x y -> is_parent l x y' -> y = y'.
Proof.
  intros (r & Hr & Hp & _) (r' & Hr' & Hp' & _).
  rewrite Hr in Hr'. inversion Hr'; subst r'. lia.
Qed.

Lemma path_fun (x k y : nat) :
  path l x k y -> forall y', path l x k y' -> y = y'.
Proof.
  induction 1 as [x Hx|x y z k Hp _ IH]; intros y' Hy'.
  - inversion Hy'. reflexivity.
  - inversion Hy' as [|? y2 ? ? Hp2 Hrest]; subst.
    rewrite (is_parent_fun _ _ _ Hp Hp2) in IH. apply IH. exact Hrest.
Qed.

Lemma path_snoc (x k y z : nat) :
  path l x k y -> is_parent l y z -> path l x (S k) z.
Proof.
  induction 1 as [x Hx|x y' z' k Hp _ IH]; intros Hz.
  - econstructor; [exact Hz|]. constructor. destruct Hz as (_ & _ & _ & Hlt). exact Hlt.
  - econstructor; [exact Hp|]. apply IH. exact Hz.
Qed.

Lemma path_app (x j y : nat) :
  path l x j y -> forall m z, path l y m z -> path l x (j + m) z.
Proof.
  induction 1 as [x Hx|x y' z' k Hp _ IH]; intros m z Hz; [exact Hz|].
  cbn [Nat.add]. econstructor; [exact Hp|]. apply IH. exact Hz.
Qed.

Lemma path_split (j : nat) :
  forall x m z, path l x (j + m) z -> exists y, path l x j y /\ path l y m z.
Proof.
  induction j as [|j IH]; intros x m z Hp.
  - exists x. split; [|exact Hp]. constructor. apply (path_valid _ _ _ Hp).
  - cbn [Nat.add] in Hp. inversion Hp as [|? y ? ? Hpar Hrest]; subst.
    destruct (IH _ _ _ Hrest) as (y' & H1 & H2).
    exists y'. split; [|exact H2]. econstructor; eassumption.
Qed.

Lemma path_last (x k z : nat) :
  path l x (S k) z -> exists y, path l x k y /\ is_parent l y z.
Proof.
  intros Hp. replace (S k) with (k + 1)%nat in Hp by lia.
  destruct (path_split _ _ _ _ Hp) as (y & H1 & H2).
  exists y. split; [exact H1|].
  inversion H2 as [|? y' ? ? Hpar Hrest]; subst. inversion Hrest; subst. exact Hpar.
Qed.

Lemma path_height (x k y : nat) :
  path l x k y -> forall h, height l (Z.of_nat x) h ->
  exists h', height l (Z.of_nat y) h' /\ h = (k + h')%nat.
Proof.
  induction 1 as [x Hx|x y z k (r & Hr & Hp & Hlt) _ IH]; intros h Hh.
  - exists h. auto.
  - inversion Hh as [Heq|i r' h0 Hi Hh0 Heq].
    + exfalso. eapply index_not_root; [exact Hr|]. congruence.
    + apply Nat2Z.inj in Heq. subst i. rewrite Hr in Hi. inversion Hi; subst r'.
      rewrite Hp in Hh0. destruct (IH _ Hh0) as (h' & Hh' & ->).
      exists h'. split; [exact Hh'|]. lia.
Qed.

Lemma height_index_pos (x : nat) (h : nat) :
  (x < length l)%nat -> height l (Z.of_nat x) h -> (0 < h)%nat.
Proof.
  intros Hx Hh. inversion Hh as [Heq|]; [|lia].
  exfalso. unfold kNoParent, UINT16_MAX in Heq. lia.
Qed.

Hypothesis chains : forall x r, l !! x = Some r -> chain_ends l (Z.of_nat x).

Lemma index_height (x : nat) :
  (x < length l)%nat -> exists h, height l (Z.of_nat x) h.
Proof.
  intros Hx. destruct (lookup_lt_is_Some_2 l x Hx) as [r Hr].
  apply chain_ends_height. eapply chains. exact Hr.
Qed.

(** No revision is above itself. *)
Lemma path_acyclic (x k : nat) : path l x k x -> k = O.
Proof.
  intros Hp. destruct (index_height x (proj1 (path_valid _ _ _ Hp))) as [h Hh].
  destruct (path_height _ _ _ Hp h Hh) as (h' & Hh' & Heq).
  rewrite (height_fun _ _ Hh _ Hh') in Heq. lia.
Qed.

Lemma path_step_unique (x j k y : nat) : path l x j y -> path l x k y -> j = k.
Proof.
  intros Hj Hk.
  destruct (index_height x (proj1 (path_valid _ _ _ Hj))) as [h Hh].
  destruct (path_height _ _ _ Hj h Hh) as (h1 & Hh1 & E1).
  destruct (path_height _ _ _ Hk h Hh) as (h2 & Hh2 & E2).
  rewrite (height_fun _ _ Hh1 _ Hh2) in E1. lia.
Qed.

(** The revisions on a path are distinct, so a path is shorter than the
    list. *)
Lemma path_nodes (x k y : nat) :
  path l x k y ->
  exists ns : list nat,
    length ns = S k /\ NoDup ns /\ forall v, v ∈ ns -> exists j, path l x j v.
Proof.
  induction 1 as [x Hx|x y z k Hp Hrest (ns & Hlen & Hnd & Hall)].
  - exists [x]. split; [reflexivity|]. split; [apply NoDup_singleton|].
    intros v Hv. apply list_elem_of_singleton in Hv. subst v. exists O. constructor. exact Hx.
  - exists (x :: ns). split; [cbn [length]; lia|]. split.
    + apply NoDup_cons. split; [|exact Hnd]. intros Hin.
      destruct (Hall x Hin) as [j Hj].
      assert (Hcyc : path l x (S j) x) by (econstructor; eassumption).
      apply path_acyclic in Hcyc. discriminate Hcyc.
    + intros v Hv. apply elem_of_cons in Hv. destruct Hv as [->|Hv].
      * exists O. constructor. destruct Hp as (r & Hr & _). eapply lookup_lt_Some. exact Hr.
      * destruct (Hall v Hv) as [j Hj]. exists (S j). econstructor; eassumption.
Qed.

Lemma path_short (x k y : nat) : path l x k y -> (k < length l)%nat.
Proof.
  intros Hp. destruct (path_nodes _ _ _ Hp) as (ns & Hlen & Hnd & Hall).
  assert (Hsub : ns ⊆+ seq 0 (length l)).
  { apply NoDup_submseteq; [exact Hnd|]. intros v Hv.
    destruct (Hall v Hv) as [j Hj]. apply elem_of_seq.
    pose proof (path_valid _ _ _ Hj). lia. }
  apply submseteq_length in Hsub. rewrite length_seq in Hsub. lia.
Qed.

Lemma height_path (h : nat) :
  forall x, height l (Z.of_nat x) (S h) -> exists y, path l x h y.
Proof.
  induction h as [|h IH]; intros x Hh.
  - exists x. constructor.
    inversion Hh as [Heq|i r h0 Hi _ Heq].
    apply Nat2Z.inj in Heq. subst i. eapply lookup_lt_Some. exact Hi.
  - inversion Hh as [Heq|i r h0 Hi Hh0 Heq].
    apply Nat2Z.inj in Heq. subst i.
    inversion Hh0 as [Heq'|i' r' h1 Hi' Hh1 Heq'].
    destruct (IH i') as [y Hy]. { rewrite Heq'. exact Hh0. }
    exists y. econstructor; [|exact Hy].
    exists r. split; [exact Hi|]. split; [congruence|]. eapply lookup_lt_Some. exact Hi'.
Qed.

Lemma height_short (x h : nat) : height l (Z.of_nat x) h -> (h <= length l)%nat.
Proof.
  intros Hh. destruct h as [|h]; [lia|].
  destruct (height_path h x Hh) as [y Hy]. apply path_short in Hy. lia.
Qed.

(** *** The walk of [computeDepths] from one leaf *)

Lemma accounts_ext (P Q : nat -> nat -> Prop) (D : list Z) :
  (forall x k, P x k <-> Q x k) -> accounts l P D -> accounts l Q D.
Proof.
  intros Hpq [Hlen Hall]. split; [exact Hlen|]. intros x v Hv.
  destruct (Hall x v Hv) as [[Hmax Hno]|(d & Hd & Hp & Hmaxd)].
  - left. split; [exact Hmax|]. intros k Hq. apply (Hno k). apply Hpq. exact Hq.
  - right. exists d. split; [exact Hd|]. split; [apply Hpq; exact Hp|].
    intros k Hq. apply Hmaxd. apply Hpq. exact Hq.
Qed.

Section Walk.
Variable P : nat -> nat -> Prop.
Hypothesis up_closed : forall x k y, P x k -> is_parent l x y -> P y (S k).
Hypothesis bounded : forall x k, P x k -> (k < length l)%nat.
Variable i : nat.

Let upto (k : nat) : nat -> nat -> Prop :=
  fun y j => P y j \/ ((j < k)%nat /\ path l i j y).
Let full : nat -> nat -> Prop := fun y j => P y j \/ path l i j y.

Lemma up_closed_path (x d : nat) :
  P x d -> forall m y, path l x m y -> P y (d + m)%nat.
Proof.
  intros Hp m y Hpath. revert d Hp.
  induction Hpath as [x Hx|x y z m Hpar _ IH]; intros d Hp.
  - rewrite Nat.add_0_r. exact Hp.
  - replace (d + S m)%nat with (S d + m)%nat by lia. apply IH.
    eapply up_closed; eassumption.
Qed.

Lemma path_beyond (k x j y : nat) :
  path l i k x -> path l i j y -> (k <= j)%nat -> path l x (j - k) y.
Proof.
  intros Hk Hj Hle. replace j with (k + (j - k))%nat in Hj by lia.
  destruct (path_split _ _ _ _ Hj) as (x' & H1 & H2).
  rewrite (path_fun _ _ _ Hk _ H1). exact H2.
Qed.

Lemma accounts_break (k x : nat) (v : Z) (D : list Z) :
  accounts l (upto k) D -> path l i k x ->
  D !! x = Some v -> v <> UINT16_MAX -> Z.of_nat k <= v ->
  accounts l full D.
Proof.
  intros [Hlen Hall] Hpath Hv Hne Hge.
  destruct (Hall x v Hv) as [[Hmax _]|(d & Hd & Hp & Hmaxd)]; [congruence|].
  assert (Hpd : P x d).
  { destruct Hp as [Hp|[Hlt _]]; [exact Hp|lia]. }
  assert (Hup : forall j y, path l i j y -> (k <= j)%nat -> P y (d + (j - k))%nat).
  { intros j y Hj Hle. apply up_closed_path with (x := x); [exact Hpd|].
    eapply path_beyond; eassumption. }
  split; [exact Hlen|]. intros y vy Hvy.
  destruct (Hall y vy Hvy) as [[Hmax Hno]|(dy & Hdy & Hpy & Hmaxy)].
  - left. split; [exact Hmax|]. intros j [Hj|Hj].
    + apply (Hno j). left. exact Hj.
    + destruct (le_lt_dec k j) as [Hle|Hlt].
      * apply (Hno (d + (j - k))%nat). left. apply Hup; assumption.
      * apply (Hno j). right. auto.
  - right. exists dy. split; [exact Hdy|]. split.
    + destruct Hpy as [Hpy|[_ Hpy]]; [left|right]; exact Hpy.
    + intros j [Hj|Hj].
      * apply Hmaxy. left. exact Hj.
      * destruct (le_lt_dec k j) as [Hle|Hlt].
        -- pose proof (Hmaxy _ (or_introl (Hup j y Hj Hle))). lia.
        -- apply Hmaxy. right. auto.
Qed.

Lemma accounts_update (k x : nat) (v : Z) (D : list Z) :
  accounts l (upto k) D -> path l i k x ->
  D !! x = Some v -> v = UINT16_MAX \/ v < Z.of_nat k ->
  accounts l (upto (S k)) (<[x := Z.of_nat k]> D).
Proof.
  intros [Hlen Hall] Hpath Hv Hlow.
  split; [rewrite length_insert; exact Hlen|]. intros y vy Hvy.
  destruct (decide (y = x)) as [->|Hne].
  - rewrite list_lookup_insert_eq in Hvy by (eapply lookup_lt_Some; exact Hv).
    inversion Hvy; subst vy. right. exists k. split; [reflexivity|].
    split; [right; split; [lia|exact Hpath]|].
    intros j [Hj|[Hlt Hj]].
    + destruct (Hall x v Hv) as [[_ Hno]|(d & Hd & Hp & Hmaxd)].
      * exfalso. apply (Hno j). left. exact Hj.
      * pose proof (Hmaxd j (or_introl Hj)).
        destruct Hlow as [Hlow|Hlow]; [|lia].
        destruct Hp as [Hp|[Hp _]]; [|lia].
        pose proof (bounded _ _ Hp). unfold UINT16_MAX in Hlow. lia.
    + rewrite (path_step_unique _ _ _ _ Hj Hpath). lia.
  - rewrite list_lookup_insert_ne in Hvy by congruence.
    assert (Heq : forall j, upto (S k) y j <-> upto k y j).
    { intros j. unfold upto. split; intros [Hj|[Hlt Hj]]; auto.
      destruct (decide (j = k)) as [->|Hjk].
      - exfalso. apply Hne. eapply path_fun; eassumption.
      - right. split; [lia|exact Hj]. }
    destruct (Hall y vy Hvy) as [[Hmax Hno]|(d & Hd & Hp & Hmaxd)].
    + left. split; [exact Hmax|]. intros j Hj. apply (Hno j). apply Heq. exact Hj.
    + right. exists d. split; [exact Hd|]. split; [apply Heq; exact Hp|].
      intros j Hj. apply Hmaxd. apply Heq. exact Hj.
Qed.

Lemma wrap16s_small (z : Z) : 0 <= z < 32768 -> wrap16s z = z.
Proof.
  intros Hz. unfold wrap16s. rewrite wrap16_small by lia.
  destruct (z <? 32768) eqn:E; [reflexivity|]. zbool. lia.
Qed.

Lemma walk_accounts (h : nat) :
  forall (fuel x k : nat) (D : list Z),
    height l (Z.of_nat x) h -> (h <= fuel)%nat -> path l i k x ->
    accounts l (upto k) D ->
    exists D',
      computeDepths_walk fuel l true (Z.of_nat x) (Z.of_nat k) D = Ok D' /\
      accounts l full D'.
Proof.
  induction h as [|h IH]; intros fuel x k D Hh Hfuel Hpath Hacc.
  - exfalso. pose proof (height_index_pos x 0 (proj2 (path_valid _ _ _ Hpath)) Hh). lia.
  - destruct fuel as [|fuel]; [lia|].
    pose proof (path_valid _ _ _ Hpath) as [_ Hx].
    pose proof (path_short _ _ _ Hpath) as Hk.
    cbn [computeDepths_walk].
    destruct (Z.of_nat x =? kNoParent) eqn:Eroot.
    { zbool. unfold kNoParent, UINT16_MAX in Eroot. lia. }
    rewrite Nat2Z.id.
    destruct (lookup_lt_is_Some_2 D x) as [v Hv]; [rewrite (proj1 Hacc); exact Hx|].
    rewrite Hv. cbn [of_option bind].
    destruct ((v =? UINT16_MAX) || (v <? Z.of_nat k)) eqn:Econd.
    + assert (Hlow : v = UINT16_MAX \/ v < Z.of_nat k).
      { apply orb_true_iff in Econd. destruct Econd as [E|E]; zbool; auto. }
      inversion Hh as [Heq|x' r h0 Hr Hh0 Heq].
      apply Nat2Z.inj in Heq. subst x'. rewrite Hr. cbn [of_option bind].
      rewrite wrap16_small by lia. rewrite wrap16s_small by lia.
      pose proof (accounts_update k x v D Hacc Hpath Hv Hlow) as Hacc'.
      inversion Hh0 as [Hroot|y ry h1 Hy Hh1 Hpy].
      * (* the chain ends here *)
        exists (<[x := Z.of_nat k]> D). split.
        { destruct fuel; cbn [computeDepths_walk]; rewrite Z.eqb_refl; reflexivity. }
        eapply accounts_ext; [|exact Hacc'].
        intros y j. unfold upto, full. split; intros [Hj|Hj]; auto.
        -- destruct Hj as [_ Hj]. auto.
        -- right. split; [|exact Hj].
           destruct (le_lt_dec (S k) j) as [Hle|Hlt]; [|exact Hlt]. exfalso.
           pose proof (path_beyond k x j y Hpath Hj ltac:(lia)) as Hb.
           replace (j - k)%nat with (S (j - S k)) in Hb by lia.
           inversion Hb as [|? y' ? ? (r' & Hr' & Hp' & Hy') _]; subst.
           rewrite Hr in Hr'. inversion Hr'; subst r'.
           rewrite <- Hroot in Hp'. unfold kNoParent, UINT16_MAX in Hp'.
           apply lookup_lt_Some in Hr. lia.
      * (* one step up *)
        assert (Hpar : is_parent l x y).
        { exists r. split; [exact Hr|]. split; [congruence|].
          eapply lookup_lt_Some. exact Hy. }
        replace (Z.of_nat k + 1) with (Z.of_nat (S k)) by lia.
        apply (IH fuel y (S k)).
        -- rewrite Hpy. exact Hh0.
        -- lia.
        -- eapply path_snoc; eassumption.
        -- exact Hacc'.
    + apply orb_false_iff in Econd. destruct Econd as [E1 E2]. zbool.
      exists D. split; [reflexivity|].
      eapply accounts_break; eassumption.
Qed.

End Walk.

End Paths.

(** *** [computeDepths] on a well-formed tree *)

Section Depths.
Variable t : RevTree.
Hypothesis wf : wf_tree t.

Lemma wf_small : Z.of_nat (length (revs t)) <= 32767.
Proof. exact (wf_size t wf). Qed.

Lemma reach_below_up (b x k y : nat) :
  reach_below (revs t) b x k -> is_parent (revs t) x y ->
  reach_below (revs t) b y (S k).
Proof.
  intros (i & r & Hi & Hr & Hleaf & Hpath) Hpar.
  exists i, r. repeat split; try assumption. eapply path_snoc; eassumption.
Qed.

Lemma reach_below_short (b x k : nat) :
  reach_below (revs t) b x k -> (k < length (revs t))%nat.
Proof.
  intros (i & r & _ & _ & _ & Hpath).
  exact (path_short _ wf_small (wf_chains t wf) _ _ _ Hpath).
Qed.

Lemma reach_below_all (x k : nat) :
  reach_below (revs t) (length (revs t)) x k <-> reach (revs t) x k.
Proof.
  split.
  - intros (i & r & _ & Hr & Hleaf & Hpath). exists i, r. auto.
  - intros (i & r & Hr & Hleaf & Hpath). exists i, r.
    split; [eapply lookup_lt_Some; exact Hr|auto].
Qed.

Lemma reach_below_leaf (b : nat) (rev : Revision) (x k : nat) :
  revs t !! b = Some rev -> isLeaf rev = true ->
  (reach_below (revs t) b x k \/ path (revs t) b k x) <->
  reach_below (revs t) (S b) x k.
Proof.
  intros Hb Hleaf. split.
  - intros [(i & r & Hi & Hr & Hl & Hpath)|Hpath].
    + exists i, r. split; [lia|auto].
    + exists b, rev. split; [lia|auto].
  - intros (i & r & Hi & Hr & Hl & Hpath).
    destruct (decide (i = b)) as [->|Hne].
    + right. exact Hpath.
    + left. exists i, r. split; [lia|auto].
Qed.

Lemma reach_below_inner (b : nat) (rev : Revision) (x k : nat) :
  revs t !! b = Some rev -> isLeaf rev = false ->
  reach_below (revs t) b x k <-> reach_below (revs t) (S b) x k.
Proof.
  intros Hb Hleaf. split.
  - intros (i & r & Hi & Hr & Hl & Hpath). exists i, r. split; [lia|auto].
  - intros (i & r & Hi & Hr & Hl & Hpath).
    destruct (decide (i = b)) as [->|Hne]; [congruence|].
    exists i, r. split; [lia|auto].
Qed.

Lemma reach_below_sorted (b : nat) (rev : Revision) (x k : nat) :
  sorted t = true -> revs t !! b = Some rev -> isLeaf rev = false ->
  reach_below (revs t) b x k <-> reach (revs t) x k.
Proof.
  intros Hs Hb Hleaf. split.
  - intros (i & r & _ & Hr & Hl & Hpath). exists i, r. auto.
  - intros (i & r & Hr & Hl & Hpath). exists i, r.
    split; [|auto].
    destruct (lt_eq_lt_dec i b) as [[Hlt|Heq]|Hgt]; [exact Hlt| |].
    + subst i. congruence.
    + pose proof (wf_sorted t wf Hs b i rev r Hgt Hb Hr Hleaf). congruence.
Qed.

Lemma loop_accounts (fuel : nat) :
  (length (revs t) <= fuel)%nat ->
  forall (rest pre : list Revision) (D : list Z),
    revs t = pre ++ rest ->
    accounts (revs t) (reach_below (revs t) (length pre)) D ->
    exists D',
      computeDepths_loop fuel t true rest (Z.of_nat (length pre)) D = Ok D' /\
      accounts (revs t) (reach (revs t)) D'.
Proof.
  intros Hfuel rest.
  induction rest as [|rev rest IH]; intros pre D Hsplit Hacc.
  - exists D. split; [reflexivity|].
    eapply accounts_ext; [|exact Hacc]. intros x k.
    replace (length pre) with (length (revs t))
      by (rewrite Hsplit, length_app; cbn; lia).
    apply reach_below_all.
  - assert (Hb : revs t !! length pre = Some rev).
    { rewrite Hsplit. rewrite lookup_app_r by lia.
      rewrite Nat.sub_diag. reflexivity. }
    assert (Hnext : revs t = (pre ++ [rev]) ++ rest).
    { rewrite <- app_assoc. exact Hsplit. }
    assert (Hlen : length (pre ++ [rev]) = S (length pre)).
    { rewrite length_app. cbn. lia. }
    assert (Hz : Z.of_nat (length pre) + 1 = Z.of_nat (length (pre ++ [rev]))).
    { rewrite Hlen. lia. }
    cbn [computeDepths_loop].
    destruct (isLeaf rev) eqn:Hleaf.
    + destruct (index_height _ (wf_chains t wf) (length pre)) as [h Hh].
      { eapply lookup_lt_Some. exact Hb. }
      pose proof (height_short _ wf_small (wf_chains t wf) _ _ Hh) as Hshort.
      destruct (walk_accounts _ wf_small (wf_chains t wf)
                  (reach_below (revs t) (length pre))
                  (reach_below_up (length pre)) (reach_below_short (length pre))
                  (length pre) h fuel (length pre) O D Hh ltac:(lia))
        as (D1 & Hrun & Hacc1).
      { constructor. eapply lookup_lt_Some. exact Hb. }
      { eapply accounts_ext; [|exact Hacc]. intros x k. split; [auto|].
        intros [Hp|[Hlt _]]; [exact Hp|lia]. }
      change (Z.of_nat O) with 0 in Hrun. rewrite Hrun. cbn [bind].
      rewrite Hz. apply (IH (pre ++ [rev]) D1 Hnext).
      eapply accounts_ext; [|exact Hacc1]. intros x k. rewrite Hlen.
      exact (reach_below_leaf (length pre) rev x k Hb Hleaf).
    + destruct (sorted t) eqn:Hs.
      * exists D. split; [reflexivity|].
        eapply accounts_ext; [|exact Hacc]. intros x k.
        exact (reach_below_sorted (length pre) rev x k Hs Hb Hleaf).
      * rewrite Hz. apply (IH (pre ++ [rev]) D Hnext).
        eapply accounts_ext; [|exact Hacc]. intros x k. rewrite Hlen.
        exact (reach_below_inner (length pre) rev x k Hb Hleaf).
Qed.

Lemma computeDepths_accounts (fuel : nat) :
  (length (revs t) <= fuel)%nat ->
  exists D, computeDepths fuel t true = Ok D /\
            accounts (revs t) (reach (revs t)) D.
Proof.
  intros Hfuel. unfold computeDepths.
  apply (loop_accounts fuel Hfuel (revs t) [] _ eq_refl).
  split; [apply length_replicate|]. intros x v Hv.
  apply lookup_replicate in Hv. destruct Hv as [-> _].
  left. split; [reflexivity|].
  intros k (i & r & Hi & _). cbn in Hi. lia.
Qed.

Lemma computeDepths_depth (D : list Z) (x : nat) (v : Z) :
  accounts (revs t) (reach (revs t)) D -> D !! x = Some v ->
  exists d, v = Z.of_nat d /\ has_depth (revs t) x d /\ (d < length (revs t))%nat.
Proof.
  intros [Hlen Hall] Hv.
  destruct (Hall x v Hv) as [[_ Hno]|(d & Hd & Hp & Hmaxd)].
  - exfalso. destruct (lookup_lt_is_Some_2 (revs t) x) as [r Hr].
    { rewrite <- Hlen. eapply lookup_lt_Some. exact Hv. }
    destruct (wf_reach t wf x r Hr) as [k Hk]. exact (Hno k Hk).
  - exists d. split; [exact Hd|]. split; [split; assumption|].
    destruct Hp as (i & r & _ & _ & Hpath).
    exact (path_short _ wf_small (wf_chains t wf) _ _ _ Hpath).
Qed.

Lemma depth_exists (x : nat) :
  (x < length (revs t))%nat ->
  exists d, has_depth (revs t) x d /\ (d < length (revs t))%nat.
Proof.
  intros Hx.
  destruct (computeDepths_accounts (length (revs t)) (le_n _)) as (D & _ & Hacc).
  destruct (lookup_lt_is_Some_2 D x) as [v Hv]; [rewrite (proj1 Hacc); exact Hx|].
  destruct (computeDepths_depth D x v Hacc Hv) as (d & _ & Hd). exists d. exact Hd.
Qed.

Lemma has_depth_fun (x d d' : nat) :
  has_depth (revs t) x d -> has_depth (revs t) x d' -> d = d'.
Proof.
  intros [H1 M1] [H2 M2]. pose proof (M1 _ H2). pose proof (M2 _ H1). lia.
Qed.

Lemma leaf_depth (x : nat) (r : Revision) :
  revs t !! x = Some r -> isLeaf r = true -> has_depth (revs t) x 0.
Proof.
  intros Hr Hleaf. split.
  - exists x, r. repeat split; try assumption. constructor.
    eapply lookup_lt_Some. exact Hr.
  - intros k (i & ri & Hi & _ & Hpath). destruct k as [|k]; [lia|]. exfalso.
    destruct (path_last _ _ _ _ Hpath) as (y & _ & (ry & Hy & Hpy & _)).
    exact (wf_leaf t wf x r y ry Hr Hleaf Hy Hpy).
Qed.

Lemma child_depth (x y dx dy : nat) :
  is_parent (revs t) x y -> has_depth (revs t) x dx -> has_depth (revs t) y dy ->
  (S dx <= dy)%nat.
Proof.
  intros Hpar [(i & r & Hr & Hleaf & Hpath) _] [_ Hmax].
  apply Hmax. exists i, r. repeat split; try assumption.
  eapply path_snoc; eassumption.
Qed.

End Depths.

(** *** [compact] and the marking loop of [prune] *)

Lemma alive_indices_bounds (m : list Revision) :
  forall (base o : nat),
    o ∈ alive_indices m base -> (base <= o < base + length m)%nat.
Proof.
  induction m as [|r rest IH]; intros base o Ho.
  - cbn in Ho. inversion Ho.
  - cbn in Ho. destruct (alive r).
    + apply elem_of_cons in Ho. destruct Ho as [->|Ho]; [cbn; lia|].
      apply IH in Ho. cbn. lia.
    + apply IH in Ho. cbn. lia.
Qed.

Lemma alive_indices_sorted (m : list Revision) :
  forall base, StronglySorted lt (alive_indices m base).
Proof.
  induction m as [|r rest IH]; intros base; cbn; [constructor|].
  destruct (alive r); [|apply IH].
  constructor; [apply IH|].
  rewrite Forall_forall. intros o Ho. apply alive_indices_bounds in Ho. lia.
Qed.

Lemma sorted_lt_NoDup (l : list nat) : StronglySorted lt l -> NoDup l.
Proof.
  induction 1 as [|x l _ IH Hx]; constructor; [|exact IH].
  intros Hin. rewrite Forall_forall in Hx. specialize (Hx x Hin). lia.
Qed.

Lemma alive_indices_lookup (m : list Revision) :
  forall (base j o : nat),
    alive_indices m base !! j = Some o ->
    exists r, m !! (o - base)%nat = Some r /\ alive r = true /\
              List.filter alive m !! j = Some r /\ (base <= o)%nat.
Proof.
  induction m as [|r rest IH]; intros base j o Hj; [discriminate|].
  cbn in Hj. cbn [List.filter]. destruct (alive r) eqn:Hr.
  - destruct j as [|j].
    + inversion Hj; subst o. exists r. rewrite Nat.sub_diag. auto.
    + cbn in Hj. destruct (IH _ _ _ Hj) as (r' & Hm & Ha & Hf & Hle).
      exists r'. replace (o - base)%nat with (S (o - S base)) by lia.
      repeat split; try assumption. lia.
  - destruct (IH _ _ _ Hj) as (r' & Hm & Ha & Hf & Hle).
    exists r'. replace (o - base)%nat with (S (o - S base)) by lia.
    repeat split; try assumption. lia.
Qed.

Lemma alive_indices_length (m : list Revision) :
  forall base, length (alive_indices m base) = length (List.filter alive m).
Proof.
  induction m as [|r rest IH]; intros base; [reflexivity|].
  cbn. destruct (alive r); cbn; rewrite IH; reflexivity.
Qed.

Lemma alive_indices_all (m : list Revision) :
  (forall r, r ∈ m -> alive r = true) ->
  forall base, alive_indices m base = seq base (length m).
Proof.
  induction m as [|r rest IH]; intros Hall base; [reflexivity|].
  cbn. rewrite (Hall r) by apply list_elem_of_here.
  f_equal. apply IH. intros r' Hr'. apply Hall. apply list_elem_of_further. exact Hr'.
Qed.

Lemma compact_map_lookup (m : list Revision) :
  forall (base : nat) (j0 : Z) (p : nat) (r : Revision),
    m !! p = Some r ->
    (alive r = true ->
       exists j, alive_indices m base !! j = Some (base + p)%nat /\
                 compact_map m j0 !! p = Some (wrap16 (j0 + Z.of_nat j))) /\
    (alive r = false ->
       compact_map m j0 !! p = Some kNoParent /\
       (base + p)%nat ∉ alive_indices m base).
Proof.
  induction m as [|r0 rest IH]; intros base j0 p r Hp; [discriminate|].
  cbn [compact_map alive_indices]. fold (alive r0).
  destruct p as [|p].
  - cbn in Hp. inversion Hp; subst r0. split; intros Hr; rewrite Hr.
    + exists O. rewrite Nat.add_0_r, Z.add_0_r. split; reflexivity.
    + split; [reflexivity|]. intros Hin. apply alive_indices_bounds in Hin. lia.
  - cbn in Hp.
    destruct (IH (S base) (if alive r0 then j0 + 1 else j0) p r Hp) as [Hyes Hno].
    replace (base + S p)%nat with (S base + p)%nat by lia.
    split; intros Hr.
    + destruct (Hyes Hr) as (j & Hj & Hmap).
      destruct (alive r0).
      * exists (S j). split; [exact Hj|].
        transitivity (Some (wrap16 (j0 + 1 + Z.of_nat j))); [exact Hmap|].
        do 2 f_equal. lia.
      * exists j. split; [exact Hj|exact Hmap].
    + destruct (Hno Hr) as [Hmap Hnot].
      destruct (alive r0); (split; [exact Hmap|]); [|exact Hnot].
      intros Hin. apply elem_of_cons in Hin. destruct Hin as [Heq|Hin]; [lia|].
      exact (Hnot Hin).
Qed.

Lemma prune_mark_lookup (maxDepth : Z) (l : list Revision) :
  forall (D : list Z) (x : nat) (r : Revision) (v : Z),
    l !! x = Some r -> D !! x = Some v ->
    fst (prune_mark l D maxDepth) !! x =
      Some (if maxDepth <? v then set_revID r [] else r).
Proof.
  induction l as [|r0 rest IH]; intros D x r v Hr Hv; [discriminate|].
  destruct D as [|v0 D]; [discriminate|].
  cbn [prune_mark]. destruct x as [|x].
  - cbn in Hr, Hv. inversion Hr; inversion Hv; subst.
    destruct (maxDepth <? v); reflexivity.
  - cbn in Hr, Hv. pose proof (IH D x r v Hr Hv) as Hx.
    destruct (maxDepth <? v0); cbn; exact Hx.
Qed.

Lemma prune_mark_length (maxDepth : Z) (l : list Revision) :
  forall D, length (fst (prune_mark l D maxDepth)) = length l.
Proof.
  induction l as [|r0 rest IH]; intros D; [reflexivity|].
  destruct D as [|v0 D]; [reflexivity|].
  cbn [prune_mark]. destruct (maxDepth <? v0); cbn; rewrite IH; reflexivity.
Qed.

Lemma prune_mark_count (maxDepth : Z) (l : list Revision) :
  (forall r, r ∈ l -> alive r = true) ->
  forall (D : list Z) (base : nat),
    length D = length l ->
    snd (prune_mark l D maxDepth) =
      Z.of_nat (length l) -
      Z.of_nat (length (alive_indices (fst (prune_mark l D maxDepth)) base)).
Proof.
  induction l as [|r0 rest IH]; intros Hall D base Hlen; [reflexivity|].
  destruct D as [|v0 D]; [discriminate|].
  cbn [prune_mark].
  assert (Hrest : forall r, r ∈ rest -> alive r = true).
  { intros r Hr. apply Hall. apply list_elem_of_further. exact Hr. }
  pose proof (IH Hrest D (S base) ltac:(cbn in Hlen; lia)) as Hsnd.
  destruct (maxDepth <? v0); cbn [fst snd alive_indices].
  - change (alive (set_revID r0 [])) with false. cbv iota.
    rewrite Hsnd. cbn [length]. lia.
  - rewrite (Hall r0) by apply list_elem_of_here.
    rewrite Hsnd. cbn [length]. lia.
Qed.

Lemma prune_mark_nonneg (maxDepth : Z) (l : list Revision) :
  forall D, 0 <= snd (prune_mark l D maxDepth).
Proof.
  induction l as [|r0 rest IH]; intros D; [cbn; lia|].
  destruct D as [|v0 D]; [cbn; lia|].
  cbn [prune_mark]. specialize (IH D).
  destruct (maxDepth <? v0); cbn [snd]; lia.
Qed.

Lemma prune_mark_none (maxDepth : Z) (l : list Revision) :
  forall D, snd (prune_mark l D maxDepth) = 0 ->
            fst (prune_mark l D maxDepth) = l.
Proof.
  induction l as [|r0 rest IH]; intros D H0; [reflexivity|].
  destruct D as [|v0 D]; [reflexivity|].
  cbn [prune_mark] in *. pose proof (prune_mark_nonneg maxDepth rest D).
  destruct (maxDepth <? v0); cbn [fst snd] in *; [lia|].
  f_equal. apply IH. exact H0.
Qed.

Lemma renumber_kept (m : list Revision) (old : Z) :
  Z.of_nat (length m) <= 32767 ->
  kept_link (alive_indices m 0) (length m) old
            (renumber (compact_map m 0) old).
Proof.
  intros Hsmall. unfold renumber. split.
  - intros ->. reflexivity.
  - intros p -> Hp.
    destruct (Z.of_nat p =? kNoParent) eqn:E.
    { zbool. unfold kNoParent, UINT16_MAX in E. lia. }
    destruct (lookup_lt_is_Some_2 m p Hp) as [r Hr].
    destruct (compact_map_lookup m O 0 p r Hr) as [Hyes Hno].
    unfold array_get. rewrite Nat2Z.id. cbn [Nat.add] in Hyes, Hno.
    destruct (alive r) eqn:Ha.
    + destruct (Hyes eq_refl) as (j & Hj & Hmap). rewrite Hmap.
      assert (Hjlt : (j < length m)%nat).
      { apply lookup_lt_Some in Hj. rewrite alive_indices_length in Hj.
        pose proof (List.filter_length_le alive m). lia. }
      rewrite wrap16_small by lia. rewrite Z.add_0_l. split.
      * intros p' Hp'. f_equal.
        eapply NoDup_lookup; [|exact Hj|exact Hp'].
        apply sorted_lt_NoDup, alive_indices_sorted.
      * intros Hnot. exfalso. apply Hnot.
        eapply list_elem_of_lookup_2. exact Hj.
    + destruct (Hno eq_refl) as [Hmap Hnot]. rewrite Hmap. split.
      * intros p' Hp'. exfalso. apply Hnot.
        eapply list_elem_of_lookup_2. exact Hp'.
      * reflexivity.
Qed.

(** [compact] keeps the revisions that are not marked, in their order,
    and renumbers their links. *)
Lemma compact_compacted (t0 : RevTree) (l : list Revision) :
  length (revs t0) = length l -> Z.of_nat (length l) <= 32767 ->
  (forall o rm, revs t0 !! o = Some rm -> alive rm = true -> l !! o = Some rm) ->
  compacted (alive_indices (revs t0) 0) l (revs (compact t0)).
Proof.
  intros Hlen Hsmall Hsame. split.
  - rewrite alive_indices_length. unfold compact. cbn [revs].
    rewrite length_map. reflexivity.
  - intros j o Hj.
    destruct (alive_indices_lookup _ _ _ _ Hj) as (r & Hm & Ha & Hf & _).
    rewrite Nat.sub_0_r in Hm.
    exists r, (set_deltaRefIndex
                 (set_parentIndex r (renumber (compact_map (revs t0) 0) (parentIndex r)))
                 (renumber (compact_map (revs t0) 0) (deltaRefIndex r))).
    split; [apply Hsame; assumption|]. split.
    { unfold compact. cbn [revs].
      change (List.map ?f ?x) with (f <$> x). rewrite list_lookup_fmap.
      fold alive. rewrite Hf. reflexivity. }
    split; [repeat split|].
    rewrite <- Hlen. cbn [parentIndex deltaRefIndex set_deltaRefIndex set_parentIndex].
    split; apply renumber_kept; lia.
Qed.

Lemma compacted_refl (l : list Revision) : compacted (seq 0 (length l)) l l.
Proof.
  split; [rewrite length_seq; reflexivity|].
  intros j o Hj. apply lookup_seq in Hj. destruct Hj as [-> Hlt]. cbn [Nat.add].
  destruct (lookup_lt_is_Some_2 l j Hlt) as [r Hr].
  exists r, r. split; [exact Hr|]. split; [exact Hr|].
  split; [repeat split|].
  assert (Hlink : forall x, kept_link (seq 0 (length l)) (length l) x x).
  { intros x. split; [auto|]. intros p -> Hp. split.
    - intros p' Hp'. apply lookup_seq in Hp'. destruct Hp' as [-> _]. reflexivity.
    - intros Hnot. exfalso. apply Hnot. apply elem_of_seq. lia. }
  split; apply Hlink.
Qed.

(** *** Depths after a compaction that keeps the shallow revisions *)

Section Survivors.
Variable t : RevTree.
Variable kept : list nat.
Variable after : list Revision.
Variable maxDepth : Z.
Hypothesis wf : wf_tree t.
Hypothesis Hcomp : compacted kept (revs t) after.
Hypothesis Hnodup : NoDup kept.
Hypothesis Hmem :
  forall x, x ∈ kept <->
            exists d, has_depth (revs t) x d /\ Z.of_nat d <= maxDepth.

Lemma kept_valid (x : nat) : x ∈ kept -> (x < length (revs t))%nat.
Proof.
  intros Hx. apply Hmem in Hx. destruct Hx as (d & [(i & r & _ & _ & Hpath) _] & _).
  exact (proj2 (path_valid _ _ _ _ Hpath)).
Qed.

Lemma kept_short : (length kept <= length (revs t))%nat.
Proof.
  assert (Hsub : kept ⊆+ seq 0 (length (revs t))).
  { apply NoDup_submseteq; [exact Hnodup|].
    intros x Hx. apply elem_of_seq. pose proof (kept_valid x Hx). lia. }
  apply submseteq_length in Hsub. rewrite length_seq in Hsub. exact Hsub.
Qed.

Lemma kept_child (x y : nat) : is_parent (revs t) x y -> y ∈ kept -> x ∈ kept.
Proof.
  intros Hpar Hy. apply Hmem in Hy. destruct Hy as (dy & Hdy & Hle).
  destruct (depth_exists t wf x) as (dx & Hdx & _).
  { destruct Hpar as (r & Hr & _). eapply lookup_lt_Some. exact Hr. }
  apply Hmem. exists dx. split; [exact Hdx|].
  pose proof (child_depth t x y dx dy Hpar Hdx Hdy). lia.
Qed.

Lemma kept_path (x k z : nat) : path (revs t) x k z -> z ∈ kept -> x ∈ kept.
Proof.
  induction 1 as [x Hx|x y z k Hpar _ IH]; intros Hz; [exact Hz|].
  eapply kept_child; [exact Hpar|]. apply IH. exact Hz.
Qed.

Lemma parent_cases (x : nat) (r : Revision) :
  revs t !! x = Some r ->
  parentIndex r = kNoParent \/
  exists p : nat, parentIndex r = Z.of_nat p /\ (p < length (revs t))%nat.
Proof.
  intros Hr. pose proof (wf_chains t wf x r Hr) as Hc.
  inversion Hc as [Heq|i ri Hi Hci Heq].
  { exfalso. exact (index_not_root _ (wf_small t wf) x r Hr (eq_sym Heq)). }
  apply Nat2Z.inj in Heq. subst i. rewrite Hr in Hi. inversion Hi; subst ri.
  inversion Hci as [Hroot|p rp Hp _ Hpeq]; [left; reflexivity|].
  right. exists p. split; [reflexivity|]. eapply lookup_lt_Some. exact Hp.
Qed.

Lemma parent_down (x y x' y' : nat) :
  is_parent (revs t) x y -> kept !! x' = Some x -> kept !! y' = Some y ->
  is_parent after x' y'.
Proof.
  intros (r & Hr & Hpar & Hy) Hx' Hy'.
  destruct (proj2 Hcomp x' x Hx') as (r0 & r' & Hr0 & Hr' & _ & [_ Hlink] & _).
  rewrite Hr in Hr0. inversion Hr0; subst r0.
  exists r'. split; [exact Hr'|]. split.
  - exact (proj1 (Hlink y Hpar Hy) y' Hy').
  - rewrite (proj1 Hcomp). eapply lookup_lt_Some. exact Hy'.
Qed.

Lemma path_down (x k z : nat) :
  path (revs t) x k z ->
  forall x' z', kept !! x' = Some x -> kept !! z' = Some z -> path after x' k z'.
Proof.
  induction 1 as [x Hx|x y z k Hpar Hpath IH]; intros x' z' Hx' Hz'.
  - rewrite (NoDup_lookup _ _ _ _ Hnodup Hz' Hx'). constructor.
    rewrite (proj1 Hcomp). eapply lookup_lt_Some. exact Hx'.
  - assert (Hy : y ∈ kept).
    { eapply kept_path; [exact Hpath|]. eapply list_elem_of_lookup_2. exact Hz'. }
    apply list_elem_of_lookup_1 in Hy. destruct Hy as [y' Hy'].
    econstructor; [eapply parent_down; eassumption|].
    apply IH; assumption.
Qed.

Lemma parent_up (x' y' : nat) :
  is_parent after x' y' ->
  exists x y, kept !! x' = Some x /\ kept !! y' = Some y /\
              is_parent (revs t) x y.
Proof.
  intros (r' & Hr' & Hpar & Hy').
  pose proof kept_short as Hshort. pose proof (wf_small t wf) as Hsmall.
  rewrite (proj1 Hcomp) in Hy'.
  destruct (lookup_lt_is_Some_2 kept x') as [x Hx].
  { rewrite <- (proj1 Hcomp). eapply lookup_lt_Some. exact Hr'. }
  destruct (proj2 Hcomp x' x Hx) as (r0 & r2 & Hr0 & Hr2 & _ & [Hroot Hlink] & _).
  rewrite Hr' in Hr2. inversion Hr2; subst r2.
  destruct (parent_cases x r0 Hr0) as [Hno|(p & Hp & Hplt)].
  { rewrite (Hroot Hno) in Hpar. unfold kNoParent, UINT16_MAX in Hpar. lia. }
  destruct (Hlink p Hp Hplt) as [Hin Hout].
  destruct (decide (p ∈ kept)) as [Hk|Hk].
  - apply list_elem_of_lookup_1 in Hk. destruct Hk as [p' Hp'].
    pose proof (Hin p' Hp') as Hnew. rewrite Hpar in Hnew.
    apply Nat2Z.inj in Hnew. subst p'.
    exists x, p. split; [exact Hx|]. split; [exact Hp'|].
    exists r0. auto.
  - rewrite (Hout Hk) in Hpar. unfold kNoParent, UINT16_MAX in Hpar. lia.
Qed.

Lemma path_up (x' k z' : nat) :
  path after x' k z' ->
  exists x z, kept !! x' = Some x /\ kept !! z' = Some z /\ path (revs t) x k z.
Proof.
  induction 1 as [x' Hx'|x' y' z' k Hpar _ IH].
  - rewrite (proj1 Hcomp) in Hx'.
    destruct (lookup_lt_is_Some_2 kept x' Hx') as [x Hx].
    exists x, x. split; [exact Hx|]. split; [exact Hx|]. constructor.
    apply kept_valid. eapply list_elem_of_lookup_2. exact Hx.
  - destruct (parent_up _ _ Hpar) as (x & y & Hx & Hy & Hxy).
    destruct IH as (y2 & z & Hy2 & Hz & Hpath).
    rewrite Hy in Hy2. inversion Hy2; subst y2.
    exists x, z. split; [exact Hx|]. split; [exact Hz|].
    econstructor; eassumption.
Qed.

Lemma survivor_depth (j o d : nat) :
  kept !! j = Some o -> has_depth (revs t) o d -> has_depth after j d.
Proof.
  intros Hj [(i & r & Hr & Hleaf & Hpath) Hmax]. split.
  - assert (Hi : i ∈ kept).
    { eapply kept_path; [exact Hpath|]. eapply list_elem_of_lookup_2. exact Hj. }
    apply list_elem_of_lookup_1 in Hi. destruct Hi as [i' Hi'].
    destruct (proj2 Hcomp i' i Hi') as (r0 & r' & Hr0 & Hr' & Hsame & _).
    rewrite Hr in Hr0. inversion Hr0; subst r0.
    exists i', r'. split; [exact Hr'|]. split.
    + destruct Hsame as (_ & _ & _ & _ & Hflags).
      unfold isLeaf in *. rewrite <- Hflags. exact Hleaf.
    + eapply path_down; eassumption.
  - intros k (i' & r' & Hr' & Hleaf' & Hpath').
    destruct (path_up _ _ _ Hpath') as (i2 & o2 & Hi2 & Ho2 & Hp2).
    rewrite Hj in Ho2. inversion Ho2; subst o2.
    destruct (proj2 Hcomp i' i2 Hi2) as (r0 & r2 & Hr0 & Hr2 & Hsame & _).
    rewrite Hr' in Hr2. inversion Hr2; subst r2.
    apply Hmax. exists i2, r0. split; [exact Hr0|]. split; [|exact Hp2].
    destruct Hsame as (_ & _ & _ & _ & Hflags).
    unfold isLeaf in *. rewrite Hflags. exact Hleaf'.
Qed.

Lemma survivors_shallow (j : nat) (r' : Revision) :
  after !! j = Some r' ->
  exists d, has_depth after j d /\ Z.of_nat d <= maxDepth.
Proof.
  intros Hr'.
  destruct (lookup_lt_is_Some_2 kept j) as [o Ho].
  { rewrite <- (proj1 Hcomp). eapply lookup_lt_Some. exact Hr'. }
  destruct (proj1 (Hmem o)) as (d & Hd & Hle).
  { eapply list_elem_of_lookup_2. exact Ho. }
  exists d. split; [|exact Hle]. eapply survivor_depth; eassumption.
Qed.

End Survivors.

(** *** [prune] *)

Lemma seq_sorted (n : nat) : forall b, StronglySorted lt (seq b n).
Proof.
  induction n as [|n IH]; intros b; cbn; constructor; [apply IH|].
  rewrite Forall_forall. intros x Hx. apply elem_of_seq in Hx. lia.
Qed.

Lemma wf_alive (t : RevTree) :
  wf_tree t -> forall r, r ∈ revs t -> alive r = true.
Proof.
  intros wf r Hr. apply list_elem_of_lookup_1 in Hr. destruct Hr as [x Hx].
  pose proof (wf_revID t wf x r Hx) as Hne. unfold alive.
  destruct (revID r); [congruence|]. reflexivity.
Qed.

Section Marked.
Variable t : RevTree.
Variable maxDepth : Z.
Variable D : list Z.
Hypothesis wf : wf_tree t.
Hypothesis Hacc : accounts (revs t) (reach (revs t)) D.

Lemma marked_alive (x : nat) (rm : Revision) :
  fst (prune_mark (revs t) D maxDepth) !! x = Some rm -> alive rm = true ->
  revs t !! x = Some rm /\
  exists d, has_depth (revs t) x d /\ Z.of_nat d <= maxDepth.
Proof.
  intros Hrm Ha.
  assert (Hx : (x < length (revs t))%nat).
  { rewrite <- (prune_mark_length maxDepth (revs t) D).
    eapply lookup_lt_Some. exact Hrm. }
  destruct (lookup_lt_is_Some_2 (revs t) x Hx) as [r Hr].
  destruct (lookup_lt_is_Some_2 D x) as [v Hv]; [rewrite (proj1 Hacc); exact Hx|].
  rewrite (prune_mark_lookup maxDepth _ _ _ _ _ Hr Hv) in Hrm.
  destruct (maxDepth <? v) eqn:E; inversion Hrm; subst rm.
  { exfalso. cbv in Ha. discriminate. }
  split; [exact Hr|].
  destruct (computeDepths_depth t wf D x v Hacc Hv) as (d & -> & Hd & _).
  exists d. split; [exact Hd|]. zbool. lia.
Qed.

Lemma kept_shallow (x : nat) :
  x ∈ alive_indices (fst (prune_mark (revs t) D maxDepth)) 0 <->
  exists d, has_depth (revs t) x d /\ Z.of_nat d <= maxDepth.
Proof.
  split.
  - intros Hx. apply list_elem_of_lookup_1 in Hx. destruct Hx as [j Hj].
    destruct (alive_indices_lookup _ _ _ _ Hj) as (rm & Hrm & Ha & _).
    rewrite Nat.sub_0_r in Hrm. exact (proj2 (marked_alive x rm Hrm Ha)).
  - intros (d & Hd & Hle).
    assert (Hx : (x < length (revs t))%nat).
    { destruct Hd as [(i & r & _ & _ & Hpath) _].
      exact (proj2 (path_valid _ _ _ _ Hpath)). }
    destruct (lookup_lt_is_Some_2 (revs t) x Hx) as [r Hr].
    destruct (lookup_lt_is_Some_2 D x) as [v Hv]; [rewrite (proj1 Hacc); exact Hx|].
    pose proof (prune_mark_lookup maxDepth _ _ _ _ _ Hr Hv) as Hrm.
    destruct (computeDepths_depth t wf D x v Hacc Hv) as (d' & -> & Hd' & _).
    rewrite (has_depth_fun t x d' d Hd' Hd) in Hrm.
    replace (maxDepth <? Z.of_nat d) with false in Hrm by (symmetry; apply Z.ltb_ge; lia).
    destruct (proj1 (compact_map_lookup _ O 0 x r Hrm)) as (j & Hj & _).
    { apply (wf_alive t wf). eapply list_elem_of_lookup_2. exact Hr. }
    eapply list_elem_of_lookup_2. exact Hj.
Qed.

Lemma marked_compacted :
  let marked := prune_mark (revs t) D maxDepth in
  compacted (alive_indices (fst marked) 0) (revs t)
    (revs (if 0 <? snd marked then compact (set_revs t (fst marked))
           else set_revs t (fst marked))).
Proof.
  intros marked. destruct (0 <? snd marked) eqn:E.
  - apply (compact_compacted (set_revs t (fst marked)) (revs t)).
    + apply prune_mark_length.
    + exact (wf_small t wf).
    + intros o rm Hrm Ha. exact (proj1 (marked_alive o rm Hrm Ha)).
  - assert (H0 : snd marked = 0).
    { pose proof (prune_mark_nonneg maxDepth (revs t) D). zbool.
      unfold marked in *. lia. }
    cbn [revs set_revs]. unfold marked in *.
    rewrite (prune_mark_none _ _ _ H0).
    rewrite (alive_indices_all _ (wf_alive t wf)). apply compacted_refl.
Qed.

End Marked.

(** C6 (as amended): for a well-formed tree of at most 32767 revisions and a
    depth limit of at least 1, [prune] returns; it keeps exactly the
    revisions whose longest path from a leaf has at most [maxDepth] links,
    in their order and with their links renumbered, and returns the number
    of the others; afterwards every revision has such a depth of at most
    [maxDepth], and every leaf of the tree is kept.  With a depth limit of
    0, [prune] removes nothing from any tree and returns 0. *)
Theorem prune_correct (t : RevTree) (maxDepth : Z) (fuel : nat) :
  prune fuel t 0 = Ok (t, 0) /\
  (wf_tree t -> 1 <= maxDepth -> (length (revs t) <= fuel)%nat ->
   exists t' kept,
     prune fuel t maxDepth = Ok (t', size t - Z.of_nat (length kept)) /\
     (forall x, x ∈ kept <->
                exists d, has_depth (revs t) x d /\ Z.of_nat d <= maxDepth) /\
     StronglySorted lt kept /\
     compacted kept (revs t) (revs t') /\
     (forall j r', revs t' !! j = Some r' ->
                   exists d, has_depth (revs t') j d /\ Z.of_nat d <= maxDepth) /\
     (forall x r, revs t !! x = Some r -> isLeaf r = true -> x ∈ kept)).
Proof.
  split; [reflexivity|].
  intros wf Hmax Hfuel.
  assert (Hgoal : exists t' kept,
    prune fuel t maxDepth = Ok (t', size t - Z.of_nat (length kept)) /\
    (forall x, x ∈ kept <->
               exists d, has_depth (revs t) x d /\ Z.of_nat d <= maxDepth) /\
    StronglySorted lt kept /\
    compacted kept (revs t) (revs t')).
  { unfold prune.
    destruct ((maxDepth =? 0) || (size t <=? maxDepth)) eqn:G.
    - apply orb_true_iff in G. destruct G as [G|G]; zbool; [lia|].
      exists t, (seq 0 (length (revs t))).
      split; [rewrite length_seq; unfold size; do 2 f_equal; lia|].
      split; [|split; [apply seq_sorted|apply compacted_refl]].
      intros x. rewrite elem_of_seq. split.
      + intros Hx. destruct (depth_exists t wf x ltac:(lia)) as (d & Hd & Hlt).
        exists d. split; [exact Hd|]. unfold size in G. lia.
      + intros (d & [(i & r & _ & _ & Hpath) _] & _).
        pose proof (proj2 (path_valid _ _ _ _ Hpath)). lia.
    - destruct (computeDepths_accounts t wf fuel Hfuel) as (D & Hrun & Hacc).
      rewrite Hrun. cbn [bind].
      exists (if 0 <? snd (prune_mark (revs t) D maxDepth)
              then compact (set_revs t (fst (prune_mark (revs t) D maxDepth)))
              else set_revs t (fst (prune_mark (revs t) D maxDepth))),
             (alive_indices (fst (prune_mark (revs t) D maxDepth)) 0).
      split.
      { rewrite (prune_mark_count maxDepth (revs t) (wf_alive t wf) D O (proj1 Hacc)).
        reflexivity. }
      split; [apply kept_shallow; assumption|].
      split; [apply alive_indices_sorted|].
      apply (marked_compacted t maxDepth D wf Hacc). }
  destruct Hgoal as (t' & kept & Hrun & Hmem & Hsorted & Hcomp).
  exists t', kept. repeat (split; [assumption|]). split.
  - exact (survivors_shallow t kept (revs t') maxDepth wf Hcomp
             (sorted_lt_NoDup kept Hsorted) Hmem).
  - intros x r Hr Hleaf. apply Hmem. exists O.
    split; [exact (leaf_depth t wf x r Hr Hleaf)|lia].
Qed.

Lemma tree_deleted_parent_wf : wf_tree tree_deleted_parent.
Proof.
  split.
  - vm_compute. discriminate.
  - intros x r Hr. destruct x as [|[|[|x]]]; try discriminate.
    + eapply (ends_step _ 0%nat); [reflexivity|]. apply ends_root.
    + eapply (ends_step _ 1%nat); [reflexivity|].
      eapply (ends_step _ 0%nat); [reflexivity|]. apply ends_root.
    + eapply (ends_step _ 2%nat); [reflexivity|].
      eapply (ends_step _ 1%nat); [reflexivity|].
      eapply (ends_step _ 0%nat); [reflexivity|]. apply ends_root.
  - intros x r Hr. left.
    destruct x as [|[|[|x]]]; try discriminate; inversion Hr; reflexivity.
  - intros x r Hr.
    destruct x as [|[|[|x]]]; try discriminate; inversion Hr; discriminate.
  - intros x r y r' Hr Hleaf Hr'.
    destruct x as [|[|[|x]]]; try discriminate; inversion Hr; subst r;
      try (vm_compute in Hleaf; discriminate).
    destruct y as [|[|[|y]]]; try discriminate; inversion Hr'; subst r';
      vm_compute; discriminate.
  - assert (H21 : is_parent (revs tree_deleted_parent) 2 1).
    { eexists. split; [reflexivity|]. split; [reflexivity|]. vm_compute. repeat constructor. }
    assert (H10 : is_parent (revs tree_deleted_parent) 1 0).
    { eexists. split; [reflexivity|]. split; [reflexivity|]. vm_compute. repeat constructor. }
    assert (Hleaf : forall k x, path (revs tree_deleted_parent) 2 k x ->
                                reach (revs tree_deleted_parent) x k).
    { intros k x Hp. eexists 2%nat, _. split; [reflexivity|]. split; [reflexivity|exact Hp]. }
    intros x r Hr. destruct x as [|[|[|x]]]; try discriminate.
    + exists 2%nat. apply Hleaf. econstructor; [exact H21|].
      econstructor; [exact H10|]. constructor. vm_compute. repeat constructor.
    + exists 1%nat. apply Hleaf. econstructor; [exact H21|].
      constructor. vm_compute. repeat constructor.
    + exists 0%nat. apply Hleaf. constructor. vm_compute. repeat constructor.
  - discriminate.
Qed.

Lemma prune_correct_witness :
  wf_tree tree_deleted_parent /\
  exists t',
    prune 3 tree_deleted_parent 1 = Ok (t', 1) /\
    (revID <$> revs t') = [bytes_of "2-b"; bytes_of "3-c"] /\
    forall j r', revs t' !! j = Some r' ->
                 exists d, has_depth (revs t') j d /\ Z.of_nat d <= 1.
Proof.
  split; [exact tree_deleted_parent_wf|].
  destruct (proj2 (prune_correct tree_deleted_parent 1 3) tree_deleted_parent_wf)
    as (t' & kept & Hrun & _ & _ & _ & Hshallow & _); [lia|cbn; lia|].
  assert (Hn : exists t0, prune 3 tree_deleted_parent 1 = Ok (t0, 1) /\
                          (revID <$> revs t0) = [bytes_of "2-b"; bytes_of "3-c"]).
  { eexists. split; vm_compute; reflexivity. }
  destruct Hn as (t0 & Hn & Hids). rewrite Hn in Hrun. inversion Hrun; subst t0.
  exists t'. split; [exact Hn|]. split; [exact Hids|exact Hshallow].
Defined.

(** C6, counterexample: with a depth limit of 0 [prune] removes nothing
    from the history 1-a, 2-b and returns 0, although 1-a is one link
    above the only leaf. *)
Lemma prune_zero_counterexample :
  prune 2 tree_1a_2b 0 = Ok (tree_1a_2b, 0) /\ ~ spec_prune 2 tree_1a_2b 0.
Proof.
  split; [reflexivity|].
  intros (t' & kept & Hrun & Hcomp & Hmem).
  change (prune 2 tree_1a_2b 0) with (Ok (tree_1a_2b, 0)) in Hrun.
  inversion Hrun as [[Ht Hlen]]. subst t'.
  destruct kept as [|a kept]; [cbn in Hlen; discriminate|].
  destruct (proj2 Hcomp O a eq_refl) as (r0 & r' & Hr0 & Hr' & (Hid & _) & _).
  destruct (proj1 (Hmem a)) as (d & [(i & r & Hr & Hleaf & Hpath) _] & Hd).
  { apply list_elem_of_here. }
  assert (d = O) by lia. subst d.
  inversion Hpath; subst.
  cbn in Hr'. inversion Hr'; subst r'.
  destruct a as [|[|a]]; [| |discriminate].
  - inversion Hr; subst r. vm_compute in Hleaf. discriminate.
  - inversion Hr0; subst r0. vm_compute in Hid. discriminate.
Qed.

(** ** Shared strings in the value encoder *)

Module WriterFacts.
Import EncodingWriter.

Section Sharing.
Context `{TypeCodeBytes}.

Lemma writeStrings_app (l1 l2 : list string) :
  forall w : dataWriter,
    writeStrings w (l1 ++ l2) = (w' <- writeStrings w l1;; writeStrings w' l2).
Proof.
  induction l1 as [|s l1 IH]; intros w; [reflexivity|].
  cbn [app writeStrings]. destruct (writeString w s true); cbn [bind]; [apply IH|reflexivity].
Qed.

Lemma addTypeCode_out (w : dataWriter) (c : typeCode) :
  _out (addTypeCode w c) = _out w ++ [code_byte c].
Proof. unfold addTypeCode. cbn. destruct (_states w); reflexivity. Qed.

Lemma addTypeCode_frame (w : dataWriter) (c : typeCode) :
  _sharedStrings (addTypeCode w c) = _sharedStrings w /\
  _enableSharedStrings (addTypeCode w c) = _enableSharedStrings w /\
  _externStrings (addTypeCode w c) = _externStrings w.
Proof. unfold addTypeCode. cbn. destruct (_states w); auto. Qed.

Lemma write_plain (w : dataWriter) (str : string) :
  let w' := Writer_write (addUVarint (addTypeCode w kStringCode) (str_length str))
              (list_byte_of_string str) in
  _out w' = _out w ++ plain_string str /\
  _sharedStrings w' = _sharedStrings w /\
  _externStrings w' = _externStrings w /\
  _enableSharedStrings w' = _enableSharedStrings w.
Proof.
  cbv zeta. unfold addUVarint, Writer_write, plain_string.
  cbn [_out set_out _sharedStrings _externStrings _enableSharedStrings].
  rewrite addTypeCode_out.
  destruct (addTypeCode_frame w kStringCode) as (H1 & H2 & H3).
  rewrite H1, H2, H3, <- !app_assoc. auto.
Qed.

(** The first occurrence, or any occurrence whose recorded offset is 0:
    the string is written in full and its offset recorded. *)
Lemma writeString_miss (w : dataWriter) (str : string) (canAddExtern : bool) :
  _externStrings w = None -> _enableSharedStrings w = true ->
  shareable (str_length str) = true ->
  Writer_length w <= UINT32_MAX ->
  (_sharedStrings w !! str = None \/ _sharedStrings w !! str = Some 0) ->
  exists w',
    writeString w str canAddExtern = Ok w' /\
    _out w' = _out w ++ plain_string str /\
    _sharedStrings w' = <[str := Writer_length w]> (_sharedStrings w) /\
    _externStrings w' = None /\ _enableSharedStrings w' = true.
Proof.
  intros Hx He Hs Hlen Hm. unfold writeString, writeString_shared.
  rewrite Hx, He, Hs. cbn [andb].
  destruct (UINT32_MAX <? Writer_length w) eqn:E; [zbool; lia|].
  assert (Hw : wrap32 (Writer_length w) = Writer_length w).
  { unfold wrap32. apply Z.mod_small. unfold Writer_length, UINT32_MAX in *. lia. }
  unfold sharedStrings_at.
  destruct Hm as [Hm|Hm]; rewrite Hm; cbn [Z.ltb Z.compare].
  - eexists. split; [reflexivity|].
    match goal with
    | |- context [addTypeCode ?x kStringCode] =>
        destruct (write_plain x str) as (H1 & H2 & H3 & H4)
    end.
    rewrite H1, H2, H3, H4.
    cbn [set_sharedStrings _out _sharedStrings _externStrings _enableSharedStrings].
    rewrite Hw, insert_insert_eq. auto.
  - eexists. split; [reflexivity|].
    match goal with
    | |- context [addTypeCode ?x kStringCode] =>
        destruct (write_plain x str) as (H1 & H2 & H3 & H4)
    end.
    rewrite H1, H2, H3, H4.
    cbn [set_sharedStrings _out _sharedStrings _externStrings _enableSharedStrings].
    rewrite Hw. auto.
Qed.

(** A later occurrence of a string whose recorded offset is positive: the
    code byte at that offset is rewritten and a reference is written. *)
Lemma writeString_hit (w : dataWriter) (str : string) (canAddExtern : bool)
  (sharedOffset : Z) :
  _externStrings w = None -> _enableSharedStrings w = true ->
  shareable (str_length str) = true ->
  Writer_length w <= UINT32_MAX ->
  _sharedStrings w !! str = Some sharedOffset -> 0 < sharedOffset ->
  exists w',
    writeString w str canAddExtern = Ok w' /\
    _out w' =
      _out (Writer_rewrite w sharedOffset [code_byte kSharedStringCode])
      ++ shared_ref (Writer_length w - sharedOffset) /\
    _sharedStrings w' = _sharedStrings w /\
    _externStrings w' = None /\ _enableSharedStrings w' = true.
Proof.
  intros Hx He Hs Hlen Hm Hpos. unfold writeString, writeString_shared.
  rewrite Hx, He, Hs. cbn [andb].
  destruct (UINT32_MAX <? Writer_length w) eqn:E; [zbool; lia|].
  unfold sharedStrings_at. rewrite Hm.
  destruct (0 <? sharedOffset) eqn:E'; [|zbool; lia].
  eexists. split; [reflexivity|].
  unfold addUVarint, Writer_write, shared_ref. cbn [_out set_out].
  rewrite addTypeCode_out. rewrite <- app_assoc.
  destruct (addTypeCode_frame
              (Writer_rewrite w sharedOffset [code_byte kSharedStringCode])
              kSharedStringRefCode) as (H1 & H2 & H3).
  cbn [_sharedStrings _externStrings _enableSharedStrings set_out].
  rewrite H1, H2, H3. cbn. auto.
Qed.

(** Writing one string leaves the offsets recorded for the other strings
    alone, and never shortens the output. *)
Lemma writeString_frame (w w' : dataWriter) (s str : string) (canAddExtern : bool) :
  _externStrings w = None ->
  writeString w s canAddExtern = Ok w' -> s <> str ->
  _sharedStrings w' !! str = _sharedStrings w !! str /\
  _externStrings w' = None /\
  _enableSharedStrings w' = _enableSharedStrings w /\
  Writer_length w <= Writer_length w'.
Proof.
  intros Hx Hw Hne. unfold writeString in Hw. rewrite Hx in Hw.
  unfold writeString_shared in Hw.
  destruct (_enableSharedStrings w && shareable (str_length s)) eqn:Hsh.
  - destruct (UINT32_MAX <? Writer_length w); [discriminate Hw|].
    unfold sharedStrings_at in Hw.
    destruct (_sharedStrings w !! s) as [off|] eqn:Hoff.
    + destruct (0 <? off) eqn:Hpos.
      * inversion Hw; subst w'; clear Hw.
        unfold addUVarint, Writer_write, Writer_length.
        cbn [_out set_out _sharedStrings _externStrings _enableSharedStrings].
        rewrite addTypeCode_out.
        destruct (addTypeCode_frame
                    (Writer_rewrite w off [code_byte kSharedStringCode])
                    kSharedStringRefCode) as (H1 & H2 & H3).
        rewrite H1, H2, H3. cbn [Writer_rewrite _out set_out _sharedStrings
                                  _externStrings _enableSharedStrings].
        repeat split; auto.
        rewrite !length_app, length_take, !length_app, length_take, length_drop.
        cbn [length]. lia.
      * inversion Hw; subst w'; clear Hw.
        unfold addUVarint, Writer_write, Writer_length.
        cbn [_out set_out _sharedStrings _externStrings _enableSharedStrings].
        rewrite addTypeCode_out.
        match goal with
        | |- context [addTypeCode ?x kStringCode] =>
            destruct (addTypeCode_frame x kStringCode) as (H1 & H2 & H3)
        end.
        rewrite H1, H2, H3.
        cbn [set_sharedStrings _out _sharedStrings _externStrings _enableSharedStrings].
        rewrite lookup_insert_ne by exact Hne.
        repeat split; auto. rewrite !length_app. lia.
    + cbn [Z.ltb Z.compare] in Hw.
      inversion Hw; subst w'; clear Hw.
      unfold addUVarint, Writer_write, Writer_length.
      cbn [_out set_out _sharedStrings _externStrings _enableSharedStrings].
      rewrite addTypeCode_out.
      match goal with
      | |- context [addTypeCode ?x kStringCode] =>
          destruct (addTypeCode_frame x kStringCode) as (H1 & H2 & H3)
      end.
      rewrite H1, H2, H3.
      cbn [set_sharedStrings _out _sharedStrings _externStrings _enableSharedStrings].
      rewrite !lookup_insert_ne by exact Hne.
      repeat split; auto. rewrite !length_app. lia.
  - inversion Hw; subst w'; clear Hw.
    unfold addUVarint, Writer_write, Writer_length.
    cbn [_out set_out _sharedStrings _externStrings _enableSharedStrings].
    rewrite addTypeCode_out.
    destruct (addTypeCode_frame w kStringCode) as (H1 & H2 & H3).
    rewrite H1, H2, H3. repeat split; auto. rewrite !length_app. lia.
Qed.

Lemma writeStrings_frame (str : string) (mids : list string) :
  forall w w' : dataWriter,
    str ∉ mids -> _externStrings w = None ->
    writeStrings w mids = Ok w' ->
    _sharedStrings w' !! str = _sharedStrings w !! str /\
    _externStrings w' = None /\
    _enableSharedStrings w' = _enableSharedStrings w /\
    Writer_length w <= Writer_length w'.
Proof.
  induction mids as [|s mids IH]; intros w w' Hnot Hx Hw.
  - inversion Hw; subst w'. repeat split; auto. lia.
  - cbn [writeStrings] in Hw.
    destruct (writeString w s true) as [w1|e] eqn:Hs; cbn [bind] in Hw; [|discriminate Hw].
    apply not_elem_of_cons in Hnot. destruct Hnot as [Hne Hnot].
    destruct (writeString_frame w w1 s str true Hx Hs ltac:(congruence))
      as (H1 & H2 & H3 & H4).
    destruct (IH w1 w' Hnot H2 Hw) as (H1' & H2' & H3' & H4').
    rewrite H1', H1, H3', H3. repeat split; auto. lia.
Qed.

Lemma writeString_fits (w w' : dataWriter) (str : string) (canAddExtern : bool) :
  _externStrings w = None -> _enableSharedStrings w = true ->
  shareable (str_length str) = true ->
  writeString w str canAddExtern = Ok w' ->
  Writer_length w <= UINT32_MAX.
Proof.
  intros Hx He Hs Hw. unfold writeString, writeString_shared in Hw.
  rewrite Hx, He, Hs in Hw. cbn [andb] in Hw.
  destruct (UINT32_MAX <? Writer_length w) eqn:E; [discriminate Hw|]. zbool. lia.
Qed.

Lemma bind_Ok {A B : Type} (c : result A) (k : A -> result B) (b : B) :
  bind c k = Ok b -> exists a, c = Ok a /\ k a = Ok b.
Proof. destruct c as [a|e]; cbn; [eauto|discriminate]. Qed.

Lemma plain_string_length (str : string) : (0 < length (plain_string str))%nat.
Proof. unfold plain_string. cbn [length]. lia. Qed.

(** A shareable string written as the first value and then again: the
    second occurrence is written in full. *)
Lemma written_twice_from_offset_zero (str : string) :
  shareable (str_length str) = true ->
  exists w,
    writeStrings fresh_sharing_writer [str; str] = Ok w /\
    _out w = plain_string str ++ plain_string str.
Proof.
  intros Hs.
  destruct (writeString_miss fresh_sharing_writer str true eq_refl eq_refl Hs
              ltac:(vm_compute; discriminate) (or_introl (lookup_empty str)))
    as (w1 & Hw1 & Ho1 & Hm1 & Hx1 & He1).
  assert (Hl1 : Writer_length w1 <= UINT32_MAX).
  { unfold Writer_length. rewrite Ho1. cbn [fresh_sharing_writer _out app
      enableSharedStrings dataWriter_new].
    unfold plain_string. cbn [length]. rewrite length_app.
    unfold shareable, kMinSharedStringLength, kMaxSharedStringLength in Hs.
    apply andb_true_iff in Hs. destruct Hs as [Hs1 Hs2]. zbool.
    assert (Hv : (length (PutUVarInt (str_length str)) = 1)%nat).
    { unfold PutUVarInt, wrap64. rewrite Z.mod_small by lia.
      cbn [PutUVarInt_loop]. destruct (str_length str <? 128) eqn:E; [reflexivity|].
      zbool. lia. }
    rewrite Hv. unfold str_length in *.
    assert (Hlb : length (list_byte_of_string str) = String.length str).
    { clear. unfold list_byte_of_string. induction str; cbn; [reflexivity|].
      f_equal. exact IHstr. }
    rewrite Hlb. unfold UINT32_MAX. lia. }
  destruct (writeString_miss w1 str true Hx1 He1 Hs Hl1) as (w2 & Hw2 & Ho2 & _).
  { right. rewrite Hm1. apply lookup_insert_eq. }
  exists w2. cbn [writeStrings]. rewrite Hw1. cbn [bind]. rewrite Hw2. cbn [bind].
  split; [reflexivity|]. rewrite Ho2, Ho1. reflexivity.
Qed.

(** Once a positive offset is recorded for a string it stays recorded,
    whatever is written afterwards, further occurrences of the string
    included. *)
Lemma writeStrings_keeps (str : string) (off : Z) (later : list string) :
  forall w w' : dataWriter,
    shareable (str_length str) = true -> 0 < off ->
    _externStrings w = None -> _enableSharedStrings w = true ->
    _sharedStrings w !! str = Some off ->
    writeStrings w later = Ok w' ->
    _sharedStrings w' !! str = Some off /\
    _externStrings w' = None /\ _enableSharedStrings w' = true.
Proof.
  induction later as [|s later IH]; intros w w' Hs Hpos Hx He Hrec Hw.
  - inversion Hw; subst w'. auto.
  - cbn [writeStrings] in Hw.
    destruct (writeString w s true) as [w1|e] eqn:Hw1; cbn [bind] in Hw;
      [|discriminate Hw].
    destruct (decide (s = str)) as [Heq|Hne].
    + subst s. pose proof (writeString_fits w w1 str true Hx He Hs Hw1) as Hfit.
      destruct (writeString_hit w str true off Hx He Hs Hfit Hrec Hpos)
        as (w1' & Hw1' & _ & Hm1 & Hx1 & He1).
      rewrite Hw1 in Hw1'. inversion Hw1'; subst w1'; clear Hw1'.
      apply (IH w1 w' Hs Hpos Hx1 He1); [rewrite Hm1; exact Hrec|exact Hw].
    + destruct (writeString_frame w w1 s str true Hx Hw1 Hne) as (Hm1 & Hx1 & He1 & _).
      apply (IH w1 w' Hs Hpos Hx1); [congruence|congruence|exact Hw].
Qed.

(** C10 (as amended): a shareable string written as the very first
    value has its offset, 0, recorded.  Its second occurrence, whatever
    other strings were written in between, is written in full again, and
    the offset of that second occurrence is recorded.  Every occurrence
    after that, whatever was written since the second one (further
    occurrences of the string included), is a reference to the second
    occurrence, whose code byte is rewritten to [kSharedStringCode]. *)
Theorem shared_after_offset_zero (str : string) (mid later : list string)
  (w : dataWriter) :
  shareable (str_length str) = true ->
  str ∉ mid ->
  writeStrings fresh_sharing_writer (str :: mid ++ str :: later ++ [str]) = Ok w ->
  exists w2 w3 w4,
    writeStrings fresh_sharing_writer (str :: mid) = Ok w2 /\
    writeString w2 str true = Ok w3 /\
    writeStrings w3 later = Ok w4 /\
    writeString w4 str true = Ok w /\
    0 < Writer_length w2 /\
    _out w3 = _out w2 ++ plain_string str /\
    _sharedStrings w3 !! str = Some (Writer_length w2) /\
    _out w =
      _out (Writer_rewrite w4 (Writer_length w2) [code_byte kSharedStringCode])
      ++ shared_ref (Writer_length w4 - Writer_length w2) /\
    _sharedStrings w !! str = Some (Writer_length w2).
Proof.
  intros Hs Hn1 Hrun.
  cbn [writeStrings] in Hrun.
  destruct (writeString_miss fresh_sharing_writer str true eq_refl eq_refl Hs
              ltac:(vm_compute; discriminate) (or_introl (lookup_empty str)))
    as (w1 & Hw1 & Ho1 & Hm1 & Hx1 & He1).
  rewrite Hw1 in Hrun. cbn [bind] in Hrun.
  rewrite writeStrings_app in Hrun.
  apply bind_Ok in Hrun. destruct Hrun as (w2 & Hmid1 & Hrun).
  cbn [writeStrings] in Hrun.
  apply bind_Ok in Hrun. destruct Hrun as (w3 & Hw3 & Hrun).
  rewrite writeStrings_app in Hrun.
  apply bind_Ok in Hrun. destruct Hrun as (w4 & Hmid2 & Hrun).
  cbn [writeStrings] in Hrun.
  apply bind_Ok in Hrun. destruct Hrun as (w5 & Hw5 & Hrun).
  inversion Hrun; subst w5; clear Hrun.
  destruct (writeStrings_frame str mid w1 w2 Hn1 Hx1 Hmid1) as (Hm2 & Hx2 & He2 & Hl2).
  rewrite He1 in He2.
  assert (Hpos : 0 < Writer_length w2).
  { pose proof (plain_string_length str) as Hp.
    unfold Writer_length in *. rewrite Ho1 in Hl2. rewrite length_app in Hl2.
    cbn [fresh_sharing_writer enableSharedStrings dataWriter_new _out length] in Hl2.
    lia. }
  assert (Hrec : _sharedStrings w2 !! str = Some 0).
  { rewrite Hm2, Hm1. apply lookup_insert_eq. }
  pose proof (writeString_fits w2 w3 str true Hx2 He2 Hs Hw3) as Hfit2.
  destruct (writeString_miss w2 str true Hx2 He2 Hs Hfit2 (or_intror Hrec))
    as (w3' & Hw3' & Ho3 & Hm3 & Hx3 & He3).
  rewrite Hw3 in Hw3'. inversion Hw3'; subst w3'; clear Hw3'.
  assert (Hrec3 : _sharedStrings w3 !! str = Some (Writer_length w2)).
  { rewrite Hm3. apply lookup_insert_eq. }
  destruct (writeStrings_keeps str (Writer_length w2) later w3 w4 Hs Hpos Hx3 He3
              Hrec3 Hmid2) as (Hrec4 & Hx4 & He4).
  pose proof (writeString_fits w4 w str true Hx4 He4 Hs Hw5) as Hfit4.
  destruct (writeString_hit w4 str true (Writer_length w2) Hx4 He4 Hs Hfit4 Hrec4 Hpos)
    as (w' & Hw' & Ho' & Hm' & _).
  rewrite Hw5 in Hw'. inversion Hw'; subst w'; clear Hw'.
  exists w2, w3, w4.
  split; [cbn [writeStrings]; rewrite Hw1; exact Hmid1|].
  repeat (split; [assumption|]). rewrite Hm'. exact Hrec4.
Qed.

End Sharing.


Lemma shared_after_offset_zero_witness :
  exists w2 w4 w,
    writeStrings (H := declaration_order) fresh_sharing_writer
      ["hello!"; "world."; "hello!"; "hello!"; "hello!"]%string = Ok w /\
    writeStrings (H := declaration_order) fresh_sharing_writer
      ["hello!"; "world."]%string = Ok w2 /\
    _out w =
      _out (Writer_rewrite w4 (Writer_length w2)
              [declaration_order kSharedStringCode])
      ++ shared_ref (H := declaration_order) (Writer_length w4 - Writer_length w2).
Proof.
  assert (Hrun : exists w,
             writeStrings (H := declaration_order) fresh_sharing_writer
               ("hello!" :: ["world."] ++ "hello!" :: ["hello!"] ++ ["hello!"])%string
               = Ok w).
  { eexists. vm_compute. reflexivity. }
  destruct Hrun as [w Hrun].
  destruct (shared_after_offset_zero (H := declaration_order)
              "hello!" ["world."%string] ["hello!"%string] w eq_refl)
    as (w2 & w3 & w4 & H1 & _ & _ & _ & _ & _ & _ & H7 & _).
  - intros Hin. apply list_elem_of_singleton in Hin. discriminate Hin.
  - exact Hrun.
  - exists w2, w4, w. split; [exact Hrun|]. split; [exact H1|exact H7].
Defined.

(** C10, counterexample: ["hello!"] written three times from the start
    of the output; the third occurrence is not written in full. *)
Lemma never_shared_counterexample :
  ~ spec_never_shared (H := declaration_order) "hello!" 2.
Proof.
  intros (w & Hw & Hout). vm_compute in Hw. inversion Hw; subst w; clear Hw.
  vm_compute in Hout. discriminate Hout.
Qed.

(** C8, the code at the failing input: ["hello!"] written twice from the
    start of the output, with sharing enabled and no extern table.  Both
    occurrences are written in full, whatever the bytes of the codes are:
    the first code byte is not rewritten and no reference is written. *)
Theorem second_occurrence_at_offset_zero (codes : TypeCodeBytes) :
  (exists w,
      writeStrings fresh_sharing_writer ["hello!"; "hello!"]%string = Ok w /\
      _out w = plain_string "hello!" ++ plain_string "hello!") /\
  ~ spec_second_occurrence "hello!".
Proof.
  split; [apply written_twice_from_offset_zero; reflexivity|].
  intros (w & Hw & Hout).
  destruct (written_twice_from_offset_zero "hello!" eq_refl) as (w' & Hw' & Hout').
  rewrite Hw in Hw'. inversion Hw'; subst w'; clear Hw'.
  rewrite Hout' in Hout. apply (f_equal length) in Hout.
  vm_compute in Hout. discriminate Hout.
Qed.

End WriterFacts.

(** * Further properties of the revision tree *)

(** ** Looking up what [insert] stored *)

Lemma find_revID_app (l l' : list Revision) (id : revid) :
  forall i,
    find_revID (l ++ l') id i =
      match find_revID l id i with
      | Some p => Some p
      | None => find_revID l' id (i + Z.of_nat (length l))
      end.
Proof.
  induction l as [|r l IH]; intros i.
  - cbn. rewrite Z.add_0_r. reflexivity.
  - cbn [app find_revID]. destruct (bytes_eqb (revID r) id); [reflexivity|].
    rewrite IH. destruct (find_revID l id (i + 1)); [reflexivity|].
    f_equal. cbn [length]. lia.
Qed.

Lemma find_revID_ids (l l' : list Revision) (id : revid) :
  revID <$> l = revID <$> l' ->
  forall i, find_revID l id i = find_revID l' id i.
Proof.
  revert l'. induction l as [|r l IH]; intros [|r' l'] Hids i; try discriminate.
  - reflexivity.
  - cbn in Hids. inversion Hids as [[Hr Hl]]. cbn [find_revID]. rewrite Hr.
    destruct (bytes_eqb (revID r') id); [reflexivity|]. apply IH. exact Hl.
Qed.

Lemma _insert_known (t : RevTree) (id : revid) (data : option (list byte))
  (parent : option Z) (deleted hasAttachments : bool) (r : RevTree * Z) :
  _insert t id data parent deleted hasAttachments = Ok r -> unknown t = false.
Proof.
  unfold _insert. destruct (unknown t); [discriminate|reflexivity].
Qed.

Lemma _insert_parent_valid (t : RevTree) (id : revid) (data : option (list byte))
  (p : Z) (deleted hasAttachments : bool) (r : RevTree * Z) :
  _insert t id data (Some p) deleted hasAttachments = Ok r -> 0 <= p < size t.
Proof.
  unfold _insert. destruct (unknown t); [discriminate|]. cbn [negb assert bind].
  unfold index. destruct ((0 <=? p) && (p <? size t)) eqn:E; [|discriminate].
  intros _. apply andb_true_iff in E. destruct E. zbool. lia.
Qed.

(** What [_insert] leaves in the tree, whatever the parent. *)
Lemma _insert_result (t : RevTree) (id : revid) (data : option (list byte))
  (parent : option Z) (deleted hasAttachments : bool) (r : RevTree * Z) :
  _insert t id data parent deleted hasAttachments = Ok r ->
  snd r = size t /\ unknown (fst r) = false /\
  exists old : list Revision,
    revs (fst r) =
      old ++ [new_revision id data deleted hasAttachments (parent_field parent)] /\
    length old = length (revs t) /\
    revID <$> old = revID <$> revs t /\
    (forall j, parent <> Some (Z.of_nat j) -> old !! j = revs t !! j).
Proof.
  intros Hins. pose proof (_insert_known _ _ _ _ _ _ _ Hins) as Hu.
  destruct parent as [p|].
  - pose proof (_insert_parent_valid _ _ _ _ _ _ _ Hins) as Hp.
    destruct (lookup_lt_is_Some_2 (revs t) (Z.to_nat p)) as [prev Hprev].
    { unfold size in Hp. lia. }
    destruct (_insert_child t id data deleted hasAttachments p prev Hu Hp Hprev)
      as (t' & Hrun & Hrevs & Hu' & _).
    rewrite Hrun in Hins. inversion Hins; subst r. cbn [fst snd].
    split; [reflexivity|]. split; [exact Hu'|].
    exists (<[Z.to_nat p := clearFlag prev kLeaf]> (revs t)).
    split; [exact Hrevs|]. split; [apply length_insert|].
    split; [apply (fmap_insert_same revID _ _ _ _ Hprev); reflexivity|].
    intros j Hj. apply list_lookup_insert_ne. intros Heq. apply Hj.
    rewrite <- Heq. f_equal. lia.
  - destruct (_insert_root t id data deleted hasAttachments Hu)
      as (t' & Hrun & Hrevs & Hu' & _).
    rewrite Hrun in Hins. inversion Hins; subst r. cbn [fst snd].
    split; [reflexivity|]. split; [exact Hu'|].
    exists (revs t). auto.
Qed.

Lemma insert_accepted (t : RevTree) (newRevID : revid) (data : option (list byte))
  (deleted hasAttachments : bool) (parent : option Z) (allowConflict : bool)
  (res : inserted) (p : Z) :
  insert t newRevID data deleted hasAttachments parent allowConflict = Ok res ->
  ins_rev res = Some p ->
  find_revID (revs t) newRevID 0 = None /\
  _insert t newRevID data parent deleted hasAttachments = Ok (ins_tree res, p).
Proof.
  unfold insert, refused. intros Hins Hrev.
  destruct (generation newRevID =? 0); [inversion Hins; subst res; discriminate|].
  unfold get_by_revID in Hins.
  destruct (find_revID (revs t) newRevID 0) as [q|] eqn:Hq;
    [inversion Hins; subst res; discriminate|].
  split; [reflexivity|].
  destruct (assert (negb (unknown t))) as [[]|]; [|discriminate]. cbn [bind] in Hins.
  destruct (match parent with
            | Some p0 =>
                prev <- deref t p0;;
                if negb allowConflict && negb (isLeaf prev) then Ok None
                else Ok (Some (generation (revID prev)))
            | None =>
                if negb allowConflict && (0 <? size t) then Ok None else Ok (Some 0)
            end) as [[pg|]|] eqn:Hpg; cbn [bind] in Hins;
    [|inversion Hins; subst res; discriminate|discriminate].
  destruct (negb (generation newRevID =? wrap32 (pg + 1)));
    [inversion Hins; subst res; discriminate|].
  destruct (_insert t newRevID data parent deleted hasAttachments) as [[t' q]|] eqn:Hi;
    [|discriminate].
  cbn [bind fst snd] in Hins. inversion Hins; subst res. cbn in Hrev.
  inversion Hrev; subst q. reflexivity.
Qed.

Lemma new_revision_fields (id : revid) (data : option (list byte))
  (deleted attachments : bool) (p : Z) :
  let rev := new_revision id data deleted attachments p in
  revID rev = id /\ body rev = data /\ isLeaf rev = true /\
  isDeleted rev = deleted /\ hasAttachments rev = attachments /\
  isNew rev = true /\ sequence rev = 0.
Proof. destruct deleted, attachments; repeat split. Qed.

(** X1: a revision that [insert] accepted is found by [get] under its
    identifier, at the position [insert] returned, as a leaf with the given
    body and deletion flag; the lookup of every other identifier gives what
    it gave before. *)
Theorem insert_then_get (t : RevTree) (newRevID : revid) (data : option (list byte))
  (deleted hasAttachments : bool) (parent : option Z) (allowConflict : bool)
  (res : inserted) (p : Z) :
  insert t newRevID data deleted hasAttachments parent allowConflict = Ok res ->
  ins_rev res = Some p ->
  get_by_revID (ins_tree res) newRevID = Ok (Some p) /\
  (exists rev,
     deref (ins_tree res) p = Ok rev /\ revID rev = newRevID /\ body rev = data /\
     isLeaf rev = true /\ isDeleted rev = deleted) /\
  forall id, id <> newRevID ->
             get_by_revID (ins_tree res) id = get_by_revID t id.
Proof.
  intros Hins Hrev.
  destruct (insert_accepted _ _ _ _ _ _ _ _ _ Hins Hrev) as [Hnew Hrun].
  pose proof (_insert_known _ _ _ _ _ _ _ Hrun) as Hu.
  destruct (_insert_result _ _ _ _ _ _ _ Hrun)
    as (Hp & Hu' & old & Hrevs & Hlen & Hids & _).
  cbn [fst snd] in Hp, Hu', Hrevs.
  assert (Hfind : forall id,
            find_revID (revs (ins_tree res)) id 0 =
              match find_revID (revs t) id 0 with
              | Some q => Some q
              | None => if bytes_eqb newRevID id then Some p else None
              end).
  { intros id. rewrite Hrevs, find_revID_app, (find_revID_ids old (revs t) id Hids).
    destruct (find_revID (revs t) id 0); [reflexivity|].
    cbn [find_revID new_revision revID].
    destruct (bytes_eqb newRevID id); [|reflexivity].
    f_equal. rewrite Hlen, Hp. unfold size. lia. }
  split; [|split].
  - rewrite (get_by_revID_known _ _ Hu'), Hfind, Hnew.
    unfold bytes_eqb. rewrite bool_decide_eq_true_2 by reflexivity. reflexivity.
  - exists (new_revision newRevID data deleted hasAttachments (parent_field parent)).
    split.
    + unfold deref. rewrite Hp. unfold size.
      replace (0 <=? Z.of_nat (length (revs t))) with true by (symmetry; apply Z.leb_le; lia).
      rewrite Nat2Z.id, Hrevs, <- Hlen.
      rewrite lookup_app_r by lia. rewrite Nat.sub_diag. reflexivity.
    + pose proof (new_revision_fields newRevID data deleted hasAttachments
                    (parent_field parent)) as Hf.
      cbv zeta in Hf. tauto.
  - intros id Hne.
    rewrite (get_by_revID_known _ _ Hu'), (get_by_revID_known _ _ Hu), Hfind.
    destruct (find_revID (revs t) id 0); [reflexivity|].
    unfold bytes_eqb. rewrite bool_decide_eq_false_2 by congruence. reflexivity.
Qed.

Lemma insert_then_get_witness :
  exists res,
    insert tree_1a_2b (bytes_of "3-c") (Some (bytes_of "z")) false false (Some 1) false
      = Ok res /\
    get_by_revID (ins_tree res) (bytes_of "3-c") = Ok (Some 2) /\
    get_by_revID (ins_tree res) (bytes_of "2-b") = Ok (Some 1).
Proof.
  assert (Hrun : exists res,
            insert tree_1a_2b (bytes_of "3-c") (Some (bytes_of "z")) false false
                   (Some 1) false = Ok res /\ ins_rev res = Some 2).
  { eexists. split; vm_compute; reflexivity. }
  destruct Hrun as (res & Hrun & Hrev). exists res. split; [exact Hrun|].
  destruct (insert_then_get _ _ _ _ _ _ _ _ _ Hrun Hrev) as (Hget & _ & Hother).
  split; [exact Hget|].
  rewrite (Hother (bytes_of "2-b")) by discriminate. vm_compute. reflexivity.
Defined.

(** ** The leaf flags under [insert] *)

Lemma isLeaf_clearFlag (r : Revision) : isLeaf (clearFlag r kLeaf) = false.
Proof.
  unfold isLeaf, clearFlag, has_flag. cbn [flags set_flags].
  rewrite <- Z.land_assoc.
  change (Z.land (Z.lxor 255 kLeaf) kLeaf) with 0. rewrite Z.land_0_r. reflexivity.
Qed.

Lemma _insert_shape (t : RevTree) (id : revid) (data : option (list byte))
  (parent : option Z) (deleted hasAttachments : bool) (r : RevTree * Z) :
  _insert t id data parent deleted hasAttachments = Ok r ->
  size t < 65535 ->
  exists (old : list Revision) (pf : Z),
    revs (fst r) = old ++ [new_revision id data deleted hasAttachments pf] /\
    length old = length (revs t) /\
    (pf = kNoParent /\ parent = None \/
     0 <= pf < size t /\ parent = Some pf) /\
    forall x rx, revs t !! x = Some rx ->
      exists rx', old !! x = Some rx' /\ parentIndex rx' = parentIndex rx /\
                  isLeaf rx' = if decide (pf = Z.of_nat x) then false else isLeaf rx.
Proof.
  intros Hins Hsize. pose proof (_insert_known _ _ _ _ _ _ _ Hins) as Hu.
  destruct parent as [p|].
  - pose proof (_insert_parent_valid _ _ _ _ _ _ _ Hins) as Hp.
    destruct (lookup_lt_is_Some_2 (revs t) (Z.to_nat p)) as [prev Hprev].
    { unfold size in Hp. lia. }
    destruct (_insert_child t id data deleted hasAttachments p prev Hu Hp Hprev)
      as (t' & Hrun & Hrevs & _).
    rewrite Hrun in Hins. inversion Hins; subst r. cbn [fst].
    exists (<[Z.to_nat p := clearFlag prev kLeaf]> (revs t)), p.
    rewrite wrap16_small in Hrevs by lia.
    split; [exact Hrevs|]. split; [apply length_insert|].
    split; [right; split; [exact Hp|reflexivity]|].
    intros x rx Hx. destruct (decide (p = Z.of_nat x)) as [->|Hne].
    + rewrite Nat2Z.id in *. rewrite Hprev in Hx. inversion Hx; subst rx.
      exists (clearFlag prev kLeaf).
      split; [apply list_lookup_insert_eq; eapply lookup_lt_Some; exact Hprev|].
      split; [reflexivity|apply isLeaf_clearFlag].
    + exists rx. rewrite list_lookup_insert_ne by lia. auto.
  - destruct (_insert_root t id data deleted hasAttachments Hu)
      as (t' & Hrun & Hrevs & _).
    rewrite Hrun in Hins. inversion Hins; subst r. cbn [fst].
    exists (revs t), kNoParent. split; [exact Hrevs|]. split; [reflexivity|].
    split; [left; auto|].
    intros x rx Hx. exists rx. split; [exact Hx|]. split; [reflexivity|].
    destruct (decide (kNoParent = Z.of_nat x)) as [Heq|]; [|reflexivity].
    apply lookup_lt_Some in Hx. unfold size, kNoParent, UINT16_MAX in *. lia.
Qed.

(** X2: [insert] keeps the leaf flags exact.  In a tree of fewer than
    65,535 revisions where every parent index is valid and a revision is
    flagged as a leaf exactly when it has no child, the same holds after an
    accepted [insert]. *)
Theorem insert_keeps_leaves_exact (t : RevTree) (newRevID : revid)
  (data : option (list byte)) (deleted hasAttachments : bool) (parent : option Z)
  (allowConflict : bool) (res : inserted) (p : Z) :
  insert t newRevID data deleted hasAttachments parent allowConflict = Ok res ->
  ins_rev res = Some p ->
  size t < 65535 ->
  leaves_exact t ->
  leaves_exact (ins_tree res).
Proof.
  intros Hins Hrev Hsize [Hvalid Hleaf].
  destruct (insert_accepted _ _ _ _ _ _ _ _ _ Hins Hrev) as [_ Hrun].
  destruct (_insert_shape _ _ _ _ _ _ _ Hrun Hsize)
    as (old & pf & Hrevs & Hlen & Hpf & Hold).
  cbn [fst] in Hrevs. set (n := length (revs t)) in *.
  assert (Hn : size t = Z.of_nat n) by reflexivity.
  assert (Hsize' : size (ins_tree res) = Z.of_nat n + 1).
  { unfold size. rewrite Hrevs, length_app, Hlen. cbn. lia. }
  assert (Hpf' : pf = kNoParent \/ 0 <= pf < Z.of_nat n).
  { destruct Hpf as [[-> _]|[Hr _]]; [left; reflexivity|right; lia]. }
  assert (Hcases : forall y ry, revs (ins_tree res) !! y = Some ry ->
            ((y < n)%nat /\ exists r0, revs t !! y = Some r0 /\
                                       parentIndex ry = parentIndex r0 /\
                                       isLeaf ry = if decide (pf = Z.of_nat y)
                                                   then false else isLeaf r0) \/
            (y = n /\ ry = new_revision newRevID data deleted hasAttachments pf)).
  { intros y ry Hy. rewrite Hrevs in Hy.
    destruct (lt_dec y n) as [Hlt|Hge].
    - left. split; [exact Hlt|].
      rewrite lookup_app_l in Hy by lia.
      destruct (lookup_lt_is_Some_2 (revs t) y Hlt) as [r0 Hr0].
      destruct (Hold y r0 Hr0) as (ry' & Hy' & Hpar & Hl).
      rewrite Hy in Hy'. inversion Hy'; subst ry'. exists r0. auto.
    - right. rewrite lookup_app_r in Hy by lia.
      rewrite Hlen in Hy. destruct (y - n)%nat as [|k] eqn:Hk; [|discriminate].
      inversion Hy; subst ry. split; [|reflexivity].
      apply lookup_lt_Some in Hy. lia. }
  assert (Hlast : revs (ins_tree res) !! n =
                    Some (new_revision newRevID data deleted hasAttachments pf)).
  { rewrite Hrevs, lookup_app_r by lia. rewrite Hlen, Nat.sub_diag. reflexivity. }
  assert (Hkeep : forall y r0, revs t !! y = Some r0 ->
            exists ry, revs (ins_tree res) !! y = Some ry /\
                       parentIndex ry = parentIndex r0).
  { intros y r0 Hr0. destruct (Hold y r0 Hr0) as (ry & Hy & Hpar & _).
    exists ry. split; [|exact Hpar]. rewrite Hrevs.
    rewrite lookup_app_l; [exact Hy|]. eapply lookup_lt_Some. exact Hy. }
  split.
  - intros x r Hx. rewrite Hsize'.
    destruct (Hcases x r Hx) as [(_ & r0 & Hr0 & Hpar & _)|[_ ->]].
    + rewrite Hpar. destruct (Hvalid x r0 Hr0) as [Hno|Hin]; [left; exact Hno|].
      right. lia.
    + cbn [new_revision parentIndex]. destruct Hpf' as [->|Hin]; [left; reflexivity|].
      right. lia.
  - intros x r Hx.
    destruct (Hcases x r Hx) as [(Hlt & r0 & Hr0 & _ & Hfl)|[-> ->]].
    + rewrite Hfl. destruct (decide (pf = Z.of_nat x)) as [Heq|Hne].
      * split; [discriminate|]. intros Hnone. exfalso.
        apply (Hnone n _ Hlast). exact Heq.
      * rewrite (Hleaf x r0 Hr0). split.
        -- intros Hnone y ry Hy.
           destruct (Hcases y ry Hy) as [(_ & ry0 & Hry0 & Hpar & _)|[_ ->]].
           ++ rewrite Hpar. exact (Hnone y ry0 Hry0).
           ++ exact Hne.
        -- intros Hnone y ry0 Hry0.
           destruct (Hkeep y ry0 Hry0) as (ry & Hy & Hpar).
           rewrite <- Hpar. exact (Hnone y ry Hy).
    + split; [|intros _; apply new_revision_fields].
      intros _ y ry Hy.
      destruct (Hcases y ry Hy) as [(_ & ry0 & Hry0 & Hpar & _)|[_ ->]].
      * rewrite Hpar. destruct (Hvalid y ry0 Hry0) as [Hno|Hin].
        -- rewrite Hno. unfold kNoParent, UINT16_MAX. lia.
        -- lia.
      * cbn [new_revision parentIndex].
        destruct Hpf' as [->|Hin]; [unfold kNoParent, UINT16_MAX|]; lia.
Qed.

Lemma tree_1a_2b_leaves_exact : leaves_exact tree_1a_2b.
Proof.
  split.
  - intros x r Hx. destruct x as [|[|x]]; [| |discriminate];
      inversion Hx; subst r; cbn; [left; reflexivity|right; unfold size; cbn; lia].
  - intros x r Hx. destruct x as [|[|x]]; [| |discriminate]; inversion Hx; subst r.
    + split; [vm_compute; discriminate|].
      intros Hnone. exfalso. apply (Hnone 1%nat _ eq_refl). reflexivity.
    + split; [|reflexivity]. intros _ y ry Hy.
      destruct y as [|[|y]]; [| |discriminate]; inversion Hy; subst ry;
        vm_compute; discriminate.
Qed.

Lemma insert_keeps_leaves_exact_witness :
  exists res,
    insert tree_1a_2b (bytes_of "3-c") (Some (bytes_of "z")) false false (Some 1) false
      = Ok res /\
    leaves_exact (ins_tree res).
Proof.
  assert (Hrun : exists res,
            insert tree_1a_2b (bytes_of "3-c") (Some (bytes_of "z")) false false
                   (Some 1) false = Ok res /\ ins_rev res = Some 2).
  { eexists. split; vm_compute; reflexivity. }
  destruct Hrun as (res & Hrun & Hrev). exists res. split; [exact Hrun|].
  apply (insert_keeps_leaves_exact _ _ _ _ _ _ _ _ _ Hrun Hrev).
  - vm_compute. reflexivity.
  - exact tree_1a_2b_leaves_exact.
Defined.

(** ** Conflicts and the current revision *)

Lemma filter_length_perm {A : Type} (p : A -> bool) (a b : list A) :
  Permutation a b -> length (List.filter p a) = length (List.filter p b).
Proof.
  induction 1 as [|x a b _ IH|x y a|a b c _ IH1 _ IH2]; cbn.
  - reflexivity.
  - destruct (p x); cbn; congruence.
  - destruct (p x), (p y); reflexivity.
  - congruence.
Qed.

Lemma count_active_flags (l : list Revision) :
  count_active l = length (List.filter active_flags (flags <$> l)).
Proof.
  unfold count_active. induction l as [|r l IH]; [reflexivity|].
  cbn [List.filter fmap list_fmap].
  change (active_flags (flags r)) with (isActive r).
  destruct (isActive r); cbn [length]; rewrite IH; reflexivity.
Qed.

Lemma hasConflict_loop_count (l : list Revision) :
  forall k, 0 <= k <= 1 ->
    hasConflict_loop l k = (1 <? k + Z.of_nat (count_active l)).
Proof.
  unfold count_active.
  induction l as [|r l IH]; intros k Hk; cbn [hasConflict_loop List.filter].
  - cbn. symmetry. apply Z.ltb_ge. lia.
  - destruct (isActive r); cbn [length].
    + destruct (1 <? k + 1) eqn:E.
      * symmetry. apply Z.ltb_lt. zbool. lia.
      * zbool. rewrite IH by lia. f_equal. lia.
    + apply IH. exact Hk.
Qed.

Section SortedTrees.
Context `{StdSortLaws}.

Lemma sort_flags_perm (t : RevTree) :
  Permutation (flags <$> revs (sort t)) (flags <$> revs t).
Proof.
  unfold sort. destruct (sorted t); [reflexivity|]. cbn [revs].
  change (List.map ?f ?x) with (f <$> x).
  rewrite <- list_fmap_compose.
  rewrite (list_fmap_ext _ flags (std_sort _)) by (intros; reflexivity).
  rewrite (std_sort_perm _).
  rewrite fmap_imap.
  rewrite (imap_ext _ (const flags)) by (intros; reflexivity).
  rewrite imap_const. reflexivity.
Qed.

Lemma sort_StronglySorted (t : RevTree) :
  sorted t = false ->
  StronglySorted (fun a b => Revision_lt b a = false) (revs (sort t)).
Proof.
  intros Hs. unfold sort. rewrite Hs. cbn [revs].
  change (List.map ?f ?x) with (f <$> x).
  apply StronglySorted_relinked; [intros a; split; reflexivity|].
  apply std_sort_sorted.
Qed.

Lemma sort_count_active (t : RevTree) :
  count_active (revs (sort t)) = count_active (revs t).
Proof.
  rewrite !count_active_flags. apply filter_length_perm, sort_flags_perm.
Qed.

End SortedTrees.

(** In the canonical order no active revision comes after one that is
    not active, and no leaf after a revision that is not a leaf. *)
Lemma active_first (l : list Revision) (i j : nat) (a b : Revision) :
  descending outranks l ->
  (i < j)%nat -> l !! i = Some a -> l !! j = Some b ->
  isActive b = true -> isActive a = true.
Proof.
  intros Hd Hij Ha Hb Hact.
  pose proof (Hd i j a b Hij Ha Hb) as Hno.
  unfold isActive in *. apply andb_true_iff in Hact. destruct Hact as [Hleaf Hdel].
  apply negb_true_iff in Hdel.
  destruct (isLeaf a) eqn:La.
  - destruct (isDeleted a) eqn:Da; [|reflexivity].
    exfalso. apply Hno. right. left. rewrite La, Hleaf, Da, Hdel. auto.
  - exfalso. apply Hno. left. rewrite La, Hleaf. auto.
Qed.

Lemma leaf_first (l : list Revision) (i j : nat) (a b : Revision) :
  descending outranks l ->
  (i < j)%nat -> l !! i = Some a -> l !! j = Some b ->
  isLeaf b = true -> isLeaf a = true.
Proof.
  intros Hd Hij Ha Hb Hleaf.
  pose proof (Hd i j a b Hij Ha Hb) as Hno.
  destruct (isLeaf a) eqn:La; [reflexivity|].
  exfalso. apply Hno. left. auto.
Qed.

Lemma count_active_none (l : list Revision) :
  (forall r, r ∈ l -> isActive r = false) -> count_active l = O.
Proof.
  unfold count_active. induction l as [|r l IH]; intros Hall; [reflexivity|].
  cbn [List.filter]. rewrite (Hall r) by apply list_elem_of_here.
  apply IH. intros r' Hr'. apply Hall. apply list_elem_of_further. exact Hr'.
Qed.

Lemma second_active_count (a b : Revision) (rest : list Revision) :
  descending outranks (a :: b :: rest) ->
  (1 <? Z.of_nat (count_active (a :: b :: rest))) = isActive b.
Proof.
  intros Hs. destruct (isActive b) eqn:Hb.
  - pose proof (active_first _ 0 1 a b Hs ltac:(lia) eq_refl eq_refl Hb) as Ha.
    unfold count_active. cbn [List.filter]. rewrite Ha, Hb. cbn [length].
    apply Z.ltb_lt. lia.
  - assert (Hrest : count_active rest = O).
    { apply count_active_none. intros r Hr.
      apply list_elem_of_lookup_1 in Hr. destruct Hr as [k Hk].
      destruct (isActive r) eqn:Hact; [|reflexivity].
      pose proof (active_first _ 1 (S (S k)) b r Hs ltac:(lia) eq_refl Hk Hact).
      congruence. }
    unfold count_active in *. cbn [List.filter]. rewrite Hb.
    destruct (isActive a); cbn [length]; rewrite Hrest; reflexivity.
Qed.

(** X3: [hasConflict] does not depend on whether the tree has been
    sorted: the shortcut taken on a sorted tree (is the second revision
    active?) and the count of active revisions made on an unsorted one
    agree. *)
Theorem hasConflict_after_sort `{StdSortLaws} (t : RevTree) :
  hasConflict (sort t) = hasConflict t.
Proof.
  destruct (sorted t) eqn:Hs.
  { unfold sort. rewrite Hs. reflexivity. }
  pose proof (descending_of_sorted _ (sort_StronglySorted t Hs)) as Hsorted.
  pose proof (sort_length t) as Hlen.
  pose proof (sort_count_active t) as Hcount.
  assert (Hflag : sorted (sort t) = true) by (unfold sort; rewrite Hs; reflexivity).
  assert (Hu : unknown (sort t) = unknown t) by (unfold sort; rewrite Hs; reflexivity).
  unfold hasConflict, size. rewrite Hlen, Hflag, Hs, Hu.
  destruct (Z.of_nat (length (revs t)) <? 2) eqn:E; [reflexivity|].
  rewrite (hasConflict_loop_count _ 0) by lia. rewrite Z.add_0_l, <- Hcount.
  destruct (revs (sort t)) as [|a [|b rest]] eqn:Hl;
    [cbn in Hlen; zbool; lia|cbn in Hlen; zbool; lia|].
  cbn [lookup list_lookup of_option bind].
  rewrite (second_active_count a b rest Hsorted). reflexivity.
Qed.

Lemma hasConflict_after_sort_witness :
  hasConflict (sort tree_deleted_parent) = hasConflict tree_deleted_parent.
Proof. apply hasConflict_after_sort. Defined.

Lemma sort_descending `{StdSortLaws} (t : RevTree) :
  (sorted t = true -> descending outranks (revs t)) ->
  descending outranks (revs (sort t)).
Proof.
  intros Hinv. destruct (sorted t) eqn:Hs.
  - unfold sort. rewrite Hs. apply Hinv. reflexivity.
  - apply descending_of_sorted, sort_StronglySorted. exact Hs.
Qed.

Lemma sort_keeps_flags `{StdSortLaws} (t : RevTree) (x : nat) (a : Revision) :
  revs t !! x = Some a ->
  exists j b, revs (sort t) !! j = Some b /\ flags b = flags a.
Proof.
  intros Ha.
  assert (Hin : flags a ∈ flags <$> revs (sort t)).
  { rewrite (sort_flags_perm t). apply list_elem_of_fmap. exists a.
    split; [reflexivity|]. eapply list_elem_of_lookup_2. exact Ha. }
  apply list_elem_of_fmap in Hin. destruct Hin as (b & Hfl & Hb).
  apply list_elem_of_lookup_1 in Hb. destruct Hb as [j Hj]. exists j, b. auto.
Qed.

(** X4: [currentRevision] calls [sort] and returns the first revision
    of the tree that [sort] leaves.  [sort] does nothing to a tree flagged
    as sorted; so, provided the tree is not flagged as sorted while its
    revisions are out of order, the revision returned is an active
    revision (a leaf that is not deleted) whenever the tree holds one, and
    a leaf whenever the tree holds one. *)
Theorem currentRevision_active `{StdSortLaws} (t t' : RevTree) (r : Revision) :
  currentRevision t = Ok (t', r) ->
  t' = sort t /\ revs t' !! 0%nat = Some r /\
  ((sorted t = true -> descending outranks (revs t)) ->
   ((exists x a, revs t !! x = Some a /\ isActive a = true) -> isActive r = true) /\
   ((exists x a, revs t !! x = Some a /\ isLeaf a = true) -> isLeaf r = true)).
Proof.
  intros Hrun. unfold currentRevision in Hrun.
  destruct (assert (negb (unknown t))) as [[]|]; [|discriminate]. cbn [bind] in Hrun.
  destruct (revs (sort t) !! 0%nat) as [r0|] eqn:Hfirst; [|discriminate].
  cbn [of_option bind] in Hrun. inversion Hrun; subst t' r0.
  split; [reflexivity|]. split; [exact Hfirst|]. intros Hinv.
  pose proof (sort_descending t Hinv) as Hd.
  split.
  - intros (x & a & Ha & Hact).
    destruct (sort_keeps_flags t x a Ha) as (j & b & Hb & Hfl).
    assert (Hactb : isActive b = true).
    { unfold isActive, isLeaf, isDeleted in *. rewrite Hfl. exact Hact. }
    destruct j as [|j]; [congruence|].
    exact (active_first _ 0 (S j) r b Hd ltac:(lia) Hfirst Hb Hactb).
  - intros (x & a & Ha & Hleaf).
    destruct (sort_keeps_flags t x a Ha) as (j & b & Hb & Hfl).
    assert (Hleafb : isLeaf b = true).
    { unfold isLeaf in *. rewrite Hfl. exact Hleaf. }
    destruct j as [|j]; [congruence|].
    exact (leaf_first _ 0 (S j) r b Hd ltac:(lia) Hfirst Hb Hleafb).
Qed.

Lemma currentRevision_active_witness :
  exists t' r,
    currentRevision tree_deleted_parent = Ok (t', r) /\
    revID r = bytes_of "3-c" /\ isActive r = true.
Proof.
  assert (Hrun : exists t' r, currentRevision tree_deleted_parent = Ok (t', r) /\
                              revID r = bytes_of "3-c").
  { eexists _, _. split; vm_compute; reflexivity. }
  destruct Hrun as (t' & r & Hrun & Hid). exists t', r.
  split; [exact Hrun|]. split; [exact Hid|].
  destruct (currentRevision_active tree_deleted_parent t' r Hrun) as (_ & _ & Hact).
  apply Hact; [discriminate|].
  exists 2%nat. eexists. split; reflexivity.
Defined.

(** ** The ancestry of a revision *)

Lemma height_parent (l : list Revision) (x : nat) (r : Revision) (h : nat) :
  Z.of_nat (length l) <= 65535 ->
  l !! x = Some r -> height l (Z.of_nat x) (S h) ->
  height l (parentIndex r) h /\
  (parentIndex r = kNoParent /\ h = O \/
   exists (y : nat) (h' : nat),
     parentIndex r = Z.of_nat y /\ parentIndex r <> kNoParent /\ h = S h' /\
     is_parent l x y).
Proof.
  intros Hsize Hr Hh.
  inversion Hh as [Heq|x' r' h0 Hr' Hh0 Heq].
  apply Nat2Z.inj in Heq. subst x'. rewrite Hr in Hr'. inversion Hr'; subst r'.
  split; [exact Hh0|].
  inversion Hh0 as [Hroot|y ry h1 Hy Hh1 Hpy].
  - left. auto.
  - right. exists y, h1. split; [reflexivity|].
    apply lookup_lt_Some in Hy as Hlt.
    split; [unfold kNoParent, UINT16_MAX, size in *; lia|].
    split; [reflexivity|]. exists r. auto.
Qed.

(** X5: [Revision::history] follows the parents of a revision to the
    root.  On a tree of at most 65,535 revisions, for a revision whose
    chain of parents ends after [h] revisions, it returns [h] entries, and
    the entry at position [k] is the ancestor [k] links above the
    revision. *)
Theorem history_ancestors (t : RevTree) (h : nat) :
  unknown t = false -> size t <= 65535 ->
  forall (fuel x : nat),
    (x < length (revs t))%nat ->
    height (revs t) (Z.of_nat x) h -> (h <= fuel)%nat ->
    exists ys : list nat,
      history fuel t (Z.of_nat x) = Ok (Z.of_nat <$> ys) /\
      length ys = h /\
      forall k y, ys !! k = Some y <-> path (revs t) x k y.
Proof.
  intros Hu Hsize. induction h as [|h IH]; intros fuel x Hvalid Hh Hfuel.
  - exfalso. inversion Hh as [Heq|].
    unfold kNoParent, UINT16_MAX, size in *. lia.
  - destruct fuel as [|fuel]; [lia|].
    inversion Hh as [Heq|x' r h0 Hr _ Heq].
    apply Nat2Z.inj in Heq. subst x'.
    destruct (height_parent (revs t) x r h Hsize Hr Hh) as [Hhp Hcases].
    apply lookup_lt_Some in Hr as Hx.
    cbn [history]. rewrite (deref_lookup t x r Hr). cbn [bind]. unfold parent.
    destruct Hcases as [[Hroot ->]|(y & h' & Hy & Hne & -> & Hpar)].
    + rewrite Hroot, Z.eqb_refl. cbn [bind]. exists [x].
      split; [reflexivity|]. split; [reflexivity|].
      intros k y. split.
      * destruct k as [|k]; [|discriminate]. intros Hk. inversion Hk; subst y.
        constructor. exact Hx.
      * intros Hp. inversion Hp as [|? y' ? ? (r' & Hr' & Hp' & Hlt) _]; subst.
        -- reflexivity.
        -- exfalso. rewrite Hr in Hr'. inversion Hr'; subst r'.
           unfold kNoParent, UINT16_MAX, size in *. lia.
    + replace (parentIndex r =? kNoParent) with false
        by (symmetry; apply Z.eqb_neq; exact Hne).
      destruct Hpar as (r' & Hr' & Hpy & Hylt).
      destruct (lookup_lt_is_Some_2 (revs t) y Hylt) as [ry Hry].
      assert (Hg : get t (parentIndex r) = Ok ry).
      { unfold get. rewrite Hu. cbn [negb assert bind]. rewrite Hy.
        replace ((0 <=? Z.of_nat y) && (Z.of_nat y <? size t)) with true.
        - cbn [assert bind]. rewrite Nat2Z.id, Hry. reflexivity.
        - symmetry. apply andb_true_iff. split; [apply Z.leb_le|apply Z.ltb_lt];
            unfold size; lia. }
      rewrite Hg. cbn [bind]. rewrite Hy in Hhp |- *.
      destruct (IH fuel y Hylt Hhp ltac:(lia)) as (ys & Hrun & Hlen & Hys).
      rewrite Hrun. cbn [bind]. exists (x :: ys).
      split; [reflexivity|]. split; [cbn; lia|].
      assert (Hxy : is_parent (revs t) x y).
      { exists r. rewrite <- Hy. auto. }
      intros k z. split.
      * destruct k as [|k].
        -- intros Hk. inversion Hk; subst z. constructor. exact Hx.
        -- intros Hk. cbn in Hk. econstructor; [exact Hxy|]. apply Hys. exact Hk.
      * intros Hp. inversion Hp as [|? y' ? ? Hpar' Hrest]; subst; [reflexivity|].
        rewrite (is_parent_fun _ _ _ _ Hpar' Hxy) in Hrest.
        cbn. apply Hys. exact Hrest.
Qed.

Lemma history_ancestors_witness :
  exists ys : list nat,
    history 3 tree_deleted_parent 2 = Ok (Z.of_nat <$> ys) /\ length ys = 3%nat.
Proof.
  destruct (history_ancestors tree_deleted_parent 3 eq_refl
              ltac:(vm_compute; discriminate) 3 2) as (ys & Hrun & Hlen & _).
  - vm_compute. repeat constructor.
  - eapply (height_step _ 2%nat); [reflexivity|].
    eapply (height_step _ 1%nat); [reflexivity|].
    eapply (height_step _ 0%nat); [reflexivity|]. apply height_root.
  - lia.
  - exists ys. split; [exact Hrun|exact Hlen].
Defined.

(** ** [purge] *)

Lemma height_unique (l : list Revision) (x : Z) (h : nat) :
  Z.of_nat (length l) <= 65535 ->
  height l x h -> forall h', height l x h' -> h = h'.
Proof.
  intros Hsize. induction 1 as [|i r h Hr _ IH]; intros h' Hh'.
  - inversion Hh' as [|i r h0 Hr Hh0 Heq]; [reflexivity|].
    apply lookup_lt_Some in Hr. unfold kNoParent, UINT16_MAX in *. lia.
  - inversion Hh' as [Heq|i' r' h0 Hr' Hh0 Heq].
    + apply lookup_lt_Some in Hr. unfold kNoParent, UINT16_MAX in *. lia.
    + apply Nat2Z.inj in Heq. subst i'. rewrite Hr in Hr'. inversion Hr'; subst r'.
      f_equal. apply IH. exact Hh0.
Qed.

Lemma filter_length_insert {A : Type} (p : A -> bool) (l : list A) :
  forall (x : nat) (r r' : A),
    l !! x = Some r ->
    (length (List.filter p (<[x := r']> l)) + (if p r then 1 else 0) =
     length (List.filter p l) + (if p r' then 1 else 0))%nat.
Proof.
  induction l as [|a l IH]; intros x r r' Hx; [discriminate|].
  destruct x as [|x].
  - cbn in Hx. inversion Hx; subst a.
    change (<[0%nat := r']> (r :: l)) with (r' :: l). cbn [List.filter].
    destruct (p r), (p r'); cbn [length]; lia.
  - cbn in Hx. specialize (IH x r r' Hx).
    change (<[S x := r']> (a :: l)) with (a :: <[x := r']> l). cbn [List.filter].
    destruct (p a); cbn [length]; lia.
Qed.

Lemma names_parent_false (l : list Revision) (index : Z) :
  names_parent l index = false <->
  forall y r, l !! y = Some r -> parentIndex r <> index.
Proof.
  induction l as [|a l IH]; cbn [names_parent].
  - split; [intros _ y r Hy; discriminate|reflexivity].
  - destruct (parentIndex a =? index) eqn:E.
    + split; [discriminate|]. intros Hall. exfalso.
      apply (Hall O a eq_refl). zbool. exact E.
    + rewrite IH. split.
      * intros Hall [|y] r Hy; [inversion Hy; subst; zbool; exact E|].
        exact (Hall y r Hy).
      * intros Hall y r Hy. exact (Hall (S y) r Hy).
Qed.

Lemma alive_set_parentIndex (r : Revision) (p : Z) :
  alive (set_parentIndex r p) = alive r.
Proof. reflexivity. Qed.

Lemma alive_addFlag (r : Revision) (bit : Z) : alive (addFlag r bit) = alive r.
Proof. reflexivity. Qed.

Lemma alive_revID (r : Revision) : alive r = true <-> revID r <> [].
Proof.
  unfold alive. destruct (revID r) as [|b bs].
  - split; [discriminate|]. intros Hne. exfalso. apply Hne. reflexivity.
  - split; [discriminate|]. intros _. apply Z.ltb_lt. cbn [length]. lia.
Qed.

Lemma get_valid (t : RevTree) (y : nat) (r : Revision) :
  unknown t = false -> revs t !! y = Some r -> get t (Z.of_nat y) = Ok r.
Proof.
  intros Hu Hy. unfold get. rewrite Hu. cbn [negb assert bind].
  apply lookup_lt_Some in Hy as Hlt.
  replace ((0 <=? Z.of_nat y) && (Z.of_nat y <? size t)) with true.
  - cbn [assert bind]. rewrite Nat2Z.id, Hy. reflexivity.
  - symmetry. apply andb_true_iff. split; [apply Z.leb_le|apply Z.ltb_lt];
      unfold size; lia.
Qed.

Section PurgeLoop.
Variable l0 : list Revision.
Hypothesis fits : Z.of_nat (length l0) <= 65535.
Hypothesis ids : forall x r, l0 !! x = Some r -> revID r <> [].

(** The revisions [l] are those of [l0], apart from leaf flags, where
    they are not marked; the marked ones are higher in [l0] than [hc]. *)
Let tracks (hc : nat) (l : list Revision) : Prop :=
  length l = length l0 /\
  forall x r, l !! x = Some r ->
    exists r0, l0 !! x = Some r0 /\
      ((revID r = [] /\ forall h, height l0 (Z.of_nat x) h -> (hc < h)%nat) \/
       (revID r = revID r0 /\ parentIndex r = parentIndex r0)).

(** Marking the revision at [cur]. *)
Let mark (t : RevTree) (cur : nat) (r : Revision) : RevTree :=
  store (store t (Z.of_nat cur) (set_revID r [])) (Z.of_nat cur)
        (set_parentIndex (set_revID r []) kNoParent).

Lemma mark_revs (t : RevTree) (cur : nat) (r : Revision) :
  revs (mark t cur r) =
    <[cur := set_parentIndex (set_revID r []) kNoParent]> (revs t).
Proof.
  unfold mark, store. cbn [revs set_revs]. rewrite Nat2Z.id.
  apply list_insert_insert_eq.
Qed.

Lemma mark_count (t : RevTree) (cur : nat) (r : Revision) :
  revs t !! cur = Some r -> alive r = true ->
  (length (List.filter alive (revs (mark t cur r))) + 1 =
   length (List.filter alive (revs t)))%nat.
Proof.
  intros Hr Ha. rewrite mark_revs.
  pose proof (filter_length_insert alive (revs t) cur r
                (set_parentIndex (set_revID r []) kNoParent) Hr) as Hc.
  rewrite Ha in Hc.
  change (if alive (set_parentIndex (set_revID r []) kNoParent) then 1 else 0)%nat
    with 0%nat in Hc. lia.
Qed.

Lemma mark_lookup (t : RevTree) (cur : nat) (r : Revision) (x : nat) :
  revs t !! cur = Some r ->
  revs (mark t cur r) !! x =
    if decide (x = cur) then Some (set_parentIndex (set_revID r []) kNoParent)
    else revs t !! x.
Proof.
  intros Hr. rewrite mark_revs. destruct (decide (x = cur)) as [->|Hne].
  - apply list_lookup_insert_eq. eapply lookup_lt_Some. exact Hr.
  - apply list_lookup_insert_ne. congruence.
Qed.

Lemma purge_loop_spec (hc : nat) :
  forall (fuel : nat) (t : RevTree) (cur k : nat),
    unknown t = false -> (cur < length l0)%nat ->
    height l0 (Z.of_nat cur) hc -> (hc <= fuel)%nat ->
    tracks hc (revs t) ->
    (length (List.filter alive (revs t)) + k = length l0)%nat ->
    exists t' k',
      purge_loop fuel t (Z.of_nat cur) (Z.of_nat k) = Ok (t', Z.of_nat k') /\
      (k < k')%nat /\ unknown t' = false /\
      (length (List.filter alive (revs t')) + k' = length l0)%nat /\
      (forall x r', revs t' !! x = Some r' ->
         exists r0, l0 !! x = Some r0 /\ (revID r' = [] \/ revID r' = revID r0)) /\
      (forall x r r', revs t !! x = Some r -> revs t' !! x = Some r' ->
         revID r = [] \/ x = cur -> revID r' = []).
Proof.
  induction hc as [|h IH]; intros fuel t cur k Hu Hcur Hh Hfuel [Hlen Htr] Hcount.
  { exfalso. inversion Hh. unfold kNoParent, UINT16_MAX in *. lia. }
  destruct fuel as [|fuel]; [lia|].
  destruct (lookup_lt_is_Some_2 (revs t) cur) as [r Hr]; [lia|].
  destruct (Htr cur r Hr) as (r0 & Hr0 & [[_ Hhigh]|[Hid Hpar]]).
  { specialize (Hhigh _ Hh). lia. }
  assert (Ha : alive r = true).
  { apply alive_revID. rewrite Hid. eapply ids. exact Hr0. }
  destruct (height_parent l0 cur r0 h fits Hr0 Hh) as [Hhp Hcases].
  pose proof (mark_count t cur r Hr Ha) as HMcount.
  pose proof (fun x => mark_lookup t cur r x Hr) as HMlookup.
  assert (HMlen : length (revs (mark t cur r)) = length l0).
  { rewrite mark_revs, length_insert. exact Hlen. }
  assert (Hfinish :
    exists t' k',
      Ok (mark t cur r, Z.of_nat k + 1) = Ok (t', Z.of_nat k') /\
      (k < k')%nat /\ unknown t' = false /\
      (length (List.filter alive (revs t')) + k' = length l0)%nat /\
      (forall x r', revs t' !! x = Some r' ->
         exists r0, l0 !! x = Some r0 /\ (revID r' = [] \/ revID r' = revID r0)) /\
      (forall x r r', revs t !! x = Some r -> revs t' !! x = Some r' ->
         revID r = [] \/ x = cur -> revID r' = [])).
  { exists (mark t cur r), (S k).
    split; [do 2 f_equal; lia|]. split; [lia|]. split; [exact Hu|].
    split; [lia|]. split.
    - intros x r' Hx. rewrite HMlookup in Hx.
      destruct (decide (x = cur)) as [->|Hne].
      + inversion Hx; subst r'. exists r0. split; [exact Hr0|left; reflexivity].
      + destruct (Htr x r' Hx) as (rx0 & Hrx0 & [[Hm _]|[Hm _]]);
          exists rx0; auto.
    - intros x rx r' Hx Hx' Hmarked. rewrite HMlookup in Hx'.
      destruct (decide (x = cur)) as [->|Hne].
      + inversion Hx'; subst r'. reflexivity.
      + rewrite Hx in Hx'. inversion Hx'; subst r'.
        destruct Hmarked as [Hm|Hm]; [exact Hm|contradiction]. }
  cbn [purge_loop]. rewrite (deref_lookup t cur r Hr). cbn [bind].
  fold (mark t cur r). unfold parent. cbn [parentIndex set_revID]. rewrite Hpar.
  destruct Hcases as [[Hroot _]|(y & h' & Hy & Hne & -> & Hxy)].
  { rewrite Hroot, Z.eqb_refl. cbn [bind]. exact Hfinish. }
  replace (parentIndex r0 =? kNoParent) with false
    by (symmetry; apply Z.eqb_neq; exact Hne).
  destruct Hxy as (r0' & Hr0' & Hpy & Hylt).
  assert (Hyne : y <> cur).
  { intros ->. rewrite Hy in Hhp.
    pose proof (height_unique l0 _ _ fits Hh _ Hhp). lia. }
  destruct (lookup_lt_is_Some_2 (revs t) y) as [ry Hry]; [lia|].
  assert (Hget : exists ry', get (store t (Z.of_nat cur) (set_revID r [])) (parentIndex r0)
                             = Ok ry').
  { exists ry. rewrite Hy. apply get_valid; [exact Hu|].
    cbn [store revs set_revs]. rewrite Nat2Z.id.
    rewrite list_lookup_insert_ne by congruence. exact Hry. }
  destruct Hget as [ry' Hget]. rewrite Hget. cbn [bind]. rewrite Hy.
  assert (HMy : revs (mark t cur r) !! y = Some ry).
  { rewrite HMlookup. destruct (decide (y = cur)); [contradiction|exact Hry]. }
  unfold confirmLeaf.
  rewrite index_in_range by (unfold size; rewrite HMlen; lia). cbn [bind].
  destruct (names_parent (revs (mark t cur r)) (Z.of_nat y)) eqn:Hnames.
  { cbn [snd fst]. exact Hfinish. }
  rewrite (deref_lookup _ y ry HMy). cbn [bind snd fst].
  replace (Z.of_nat k + 1) with (Z.of_nat (S k)) by lia.
  set (t3 := store (mark t cur r) (Z.of_nat y) (addFlag ry kLeaf)).
  assert (H3lookup : forall x, revs t3 !! x =
            if decide (x = y) then Some (addFlag ry kLeaf)
            else revs (mark t cur r) !! x).
  { intros x. unfold t3, store. cbn [revs set_revs]. rewrite Nat2Z.id.
    destruct (decide (x = y)) as [->|Hxy].
    - apply list_lookup_insert_eq. eapply lookup_lt_Some. exact HMy.
    - apply list_lookup_insert_ne. congruence. }
  rewrite Hy in Hhp.
  destruct (IH fuel t3 y (S k))
    as (t' & k' & Hrun & Hk & Hu' & Hcount' & Hids' & Hkeep).
  - exact Hu.
  - exact Hylt.
  - exact Hhp.
  - lia.
  - split.
    + unfold t3, store. cbn [revs set_revs]. rewrite length_insert. exact HMlen.
    + intros x rx Hx. rewrite H3lookup in Hx.
      destruct (decide (x = y)) as [->|Hxy].
      * inversion Hx; subst rx.
        destruct (Htr y ry Hry) as (ry0 & Hry0 & [[_ Hhigh]|[Hidy Hpary]]).
        { specialize (Hhigh _ Hhp). lia. }
        exists ry0. split; [exact Hry0|]. right. auto.
      * rewrite HMlookup in Hx. destruct (decide (x = cur)) as [->|Hxc].
        -- inversion Hx; subst rx. exists r0. split; [exact Hr0|]. left.
           split; [reflexivity|]. intros h0 Hh0.
           pose proof (height_unique l0 _ _ fits Hh _ Hh0). lia.
        -- destruct (Htr x rx Hx) as (rx0 & Hrx0 & [[Hm Hhigh]|Hsame]);
             exists rx0; (split; [exact Hrx0|]); [left|right; exact Hsame].
           split; [exact Hm|]. intros h0 Hh0. specialize (Hhigh _ Hh0). lia.
  - pose proof (filter_length_insert alive (revs (mark t cur r)) y ry
                  (addFlag ry kLeaf) HMy) as Hc.
    rewrite alive_addFlag in Hc.
    unfold t3, store. cbn [revs set_revs]. rewrite Nat2Z.id. lia.
  - exists t', k'. split; [exact Hrun|]. split; [lia|]. split; [exact Hu'|].
    split; [exact Hcount'|]. split; [exact Hids'|].
    intros x rx r' Hx Hx' Hmarked.
    destruct (lookup_lt_is_Some_2 (revs t3) x) as [r3 Hr3].
    { unfold t3, store. cbn [revs set_revs]. rewrite length_insert, HMlen, <- Hlen.
      eapply lookup_lt_Some. exact Hx. }
    apply (Hkeep x r3 r' Hr3 Hx'). left.
    rewrite H3lookup in Hr3. destruct (decide (x = y)) as [->|Hxy].
    + exfalso. rewrite Hry in Hx. inversion Hx; subst rx.
      destruct Hmarked as [Hm|Hm]; [|contradiction].
      destruct (Htr y ry Hry) as (ry0 & Hry0 & [[_ Hhigh]|[Hidy _]]).
      * specialize (Hhigh _ Hhp). lia.
      * rewrite Hm in Hidy. symmetry in Hidy. exact (ids _ _ Hry0 Hidy).
    + rewrite HMlookup in Hr3. destruct (decide (x = cur)) as [->|Hxc].
      * inversion Hr3; subst r3. reflexivity.
      * rewrite Hx in Hr3. inversion Hr3; subst r3.
        destruct Hmarked as [Hm|Hm]; [exact Hm|contradiction].
Qed.

End PurgeLoop.

Lemma filter_all {A : Type} (p : A -> bool) (l : list A) :
  (forall a, a ∈ l -> p a = true) -> List.filter p l = l.
Proof.
  induction l as [|a l IH]; intros Hall; [reflexivity|].
  cbn [List.filter]. rewrite (Hall a) by apply list_elem_of_here.
  f_equal. apply IH. intros b Hb. apply Hall. apply list_elem_of_further. exact Hb.
Qed.

Lemma find_revID_None (l : list Revision) (id : revid) :
  (forall r, r ∈ l -> revID r <> id) -> forall i, find_revID l id i = None.
Proof.
  induction l as [|a l IH]; intros Hall i; [reflexivity|].
  cbn [find_revID]. unfold bytes_eqb.
  rewrite bool_decide_eq_false_2 by (apply Hall; apply list_elem_of_here).
  apply IH. intros r Hr. apply Hall. apply list_elem_of_further. exact Hr.
Qed.

Lemma compact_members (t : RevTree) (r' : Revision) :
  r' ∈ revs (compact t) ->
  exists x r, revs t !! x = Some r /\ alive r = true /\ same_content r r'.
Proof.
  unfold compact. cbn [revs]. change (List.map ?f ?x) with (f <$> x).
  intros Hin. apply list_elem_of_fmap in Hin. destruct Hin as (r & -> & Hr).
  apply list_elem_of_In, filter_In in Hr. destruct Hr as [Hr Ha].
  apply list_elem_of_In, list_elem_of_lookup_1 in Hr. destruct Hr as [x Hx].
  exists x, r. split; [exact Hx|]. split; [exact Ha|]. repeat split.
Qed.

Lemma compact_size (t : RevTree) :
  size (compact t) = Z.of_nat (length (List.filter alive (revs t))).
Proof.
  unfold size, compact. cbn [revs]. rewrite length_map. reflexivity.
Qed.

(** X6: [purge] of a leaf.  On a tree of at most 65,535 revisions with
    distinct, non-empty identifiers, for an identifier that names a leaf
    whose chain of parents ends, [purge] returns a count of at least 1, the
    tree has exactly that many revisions fewer, the identifier is no longer
    found, and every revision left has the identifier of a revision that
    was there. *)
Theorem purge_leaf (fuel : nat) (t : RevTree) (leafID : revid) (p : nat)
  (rev : Revision) (h : nat) :
  unknown t = false -> size t <= 65535 ->
  (forall x r, revs t !! x = Some r -> revID r <> []) ->
  NoDup (revID <$> revs t) ->
  get_by_revID t leafID = Ok (Some (Z.of_nat p)) ->
  revs t !! p = Some rev -> isLeaf rev = true ->
  height (revs t) (Z.of_nat p) h -> (h <= fuel)%nat ->
  exists t' k,
    purge fuel t leafID = Ok (t', Z.of_nat k) /\
    (1 <= k)%nat /\
    size t' = size t - Z.of_nat k /\
    get_by_revID t' leafID = Ok None /\
    forall r', r' ∈ revs t' -> revID r' ∈ revID <$> revs t.
Proof.
  intros Hu Hsize Hids Hnd Hget Hrev Hleaf Hh Hfuel.
  pose proof Hget as Hfind. rewrite (get_by_revID_known _ _ Hu) in Hfind.
  inversion Hfind as [Hfind']. clear Hfind.
  destruct (find_revID_Some _ _ _ _ Hfind') as (_ & rp & Hrp & Hrpid).
  rewrite Z.sub_0_r, Nat2Z.id, Hrev in Hrp. inversion Hrp; subst rp.
  apply lookup_lt_Some in Hrev as Hp.
  destruct (purge_loop_spec (revs t) Hsize Hids h fuel t p O Hu Hp Hh Hfuel)
    as (t1 & k & Hrun & Hk & Hu1 & Hcount & Hids' & Hkeep).
  { split; [reflexivity|]. intros x r Hx. exists r. split; [exact Hx|]. right. auto. }
  { rewrite filter_all; [lia|]. intros a Ha. apply list_elem_of_lookup_1 in Ha.
    destruct Ha as [x Hx]. apply alive_revID. eapply Hids. exact Hx. }
  exists (compact t1), k.
  assert (Hmembers : forall r', r' ∈ revs (compact t1) ->
            exists x r0, revs t !! x = Some r0 /\ revID r' = revID r0 /\ x <> p).
  { intros r' Hr'. destruct (compact_members t1 r' Hr') as (x & r & Hx & Ha & Hsame).
    destruct (Hids' x r Hx) as (r0 & Hr0 & [Hm|Hm]).
    { apply alive_revID in Ha. contradiction. }
    exists x, r0. split; [exact Hr0|]. split.
    - destruct Hsame as [<- _]. exact Hm.
    - intros ->. rewrite Hrev in Hr0. inversion Hr0; subst r0.
      pose proof (Hkeep p rev r Hrev Hx (or_intror eq_refl)) as Hgone.
      apply alive_revID in Ha. contradiction. }
  split.
  { unfold purge. rewrite Hget. cbn [bind].
    rewrite (deref_lookup t p rev Hrev). cbn [bind]. rewrite Hleaf. cbn [negb].
    change 0 with (Z.of_nat O). rewrite Hrun. reflexivity. }
  split; [lia|]. split.
  { rewrite compact_size. unfold size. lia. }
  split.
  - assert (Hu2 : unknown (compact t1) = false) by exact Hu1.
    rewrite (get_by_revID_known _ _ Hu2). f_equal.
    apply find_revID_None. intros r' Hr' Heq.
    destruct (Hmembers r' Hr') as (x & r0 & Hr0 & Hid & Hne).
    apply Hne. eapply NoDup_lookup; [exact Hnd| |].
    + rewrite list_lookup_fmap, Hr0. reflexivity.
    + rewrite list_lookup_fmap, Hrev. cbn. congruence.
  - intros r' Hr'. destruct (Hmembers r' Hr') as (x & r0 & Hr0 & Hid & _).
    rewrite Hid. apply list_elem_of_fmap. exists r0. split; [reflexivity|].
    eapply list_elem_of_lookup_2. exact Hr0.
Qed.

Lemma tree_deleted_parent_height :
  height (revs tree_deleted_parent) (Z.of_nat 2) 3.
Proof.
  eapply (height_step _ 2%nat); [reflexivity|].
  eapply (height_step _ 1%nat); [reflexivity|].
  eapply (height_step _ 0%nat); [reflexivity|]. apply height_root.
Qed.

Lemma purge_leaf_witness :
  exists t' k,
    purge 3 tree_deleted_parent (bytes_of "3-c") = Ok (t', Z.of_nat k) /\
    size t' = size tree_deleted_parent - Z.of_nat k /\
    get_by_revID t' (bytes_of "3-c") = Ok None.
Proof.
  destruct (purge_leaf 3 tree_deleted_parent (bytes_of "3-c") 2
              (mkRevision (bytes_of "3-c") 0 (Some (bytes_of "z")) 0
                          (Z.lor kLeaf kNew) 1 kNoParent) 3)
    as (t' & k & Hrun & _ & Hsize & Hgone & _).
  - reflexivity.
  - vm_compute. discriminate.
  - intros x r Hx. destruct x as [|[|[|x]]]; try discriminate;
      inversion Hx; discriminate.
  - apply (bool_decide_unpack _). vm_compute. reflexivity.
  - vm_compute. reflexivity.
  - reflexivity.
  - reflexivity.
  - exact tree_deleted_parent_height.
  - lia.
  - exists t', k. auto.
Defined.

(** X7: [purge] given an identifier that is not in the tree, or one that
    names a revision that is not a leaf, returns 0 and leaves the tree as it
    was, without compacting it or marking it as changed. *)
Theorem purge_refuses (fuel : nat) (t : RevTree) (leafID : revid) :
  unknown t = false ->
  (forall p rev, find_revID (revs t) leafID 0 = Some p ->
                 revs t !! Z.to_nat p = Some rev -> isLeaf rev = false) ->
  purge fuel t leafID = Ok (t, 0).
Proof.
  intros Hu Hnot. unfold purge. rewrite (get_by_revID_known _ _ Hu).
  destruct (find_revID (revs t) leafID 0) as [p|] eqn:Hfind; cbn [bind]; [|reflexivity].
  destruct (find_revID_deref _ _ _ Hfind) as (_ & rev & Hd & _ & Hl).
  rewrite Hd. cbn [bind]. rewrite (Hnot p rev eq_refl Hl). reflexivity.
Qed.

Lemma purge_refuses_witness :
  purge 3 tree_deleted_parent (bytes_of "2-b") = Ok (tree_deleted_parent, 0) /\
  purge 3 tree_deleted_parent (bytes_of "9-z") = Ok (tree_deleted_parent, 0).
Proof.
  split; apply purge_refuses; try reflexivity; intros p rev Hp Hrev;
    vm_compute in Hp; inversion Hp; subst p;
    vm_compute in Hrev; inversion Hrev; reflexivity.
Defined.

(** ** Removing the body of a delta reference *)

Section RemoveReference.
Context `{Delta}.

Lemma removeBody_loop_skip (fuel : nat) (t : RevTree) (index : Z)
  (allowExpansion : bool) :
  forall (n i : nat),
    (i + n <= length (revs t))%nat ->
    (forall j r, (i <= j < i + n)%nat -> revs t !! j = Some r ->
                 deltaRefIndex r <> index) ->
    removeBody_loop fuel n t (Z.of_nat i) index allowExpansion = Ok (t, true).
Proof.
  induction n as [|n IH]; intros i Hi Hno; [reflexivity|].
  cbn [removeBody_loop].
  destruct (lookup_lt_is_Some_2 (revs t) i ltac:(lia)) as [r Hr].
  rewrite (deref_lookup _ _ _ Hr). cbn [bind].
  replace (deltaRefIndex r =? index) with false
    by (symmetry; apply Z.eqb_neq; apply (Hno i r); [lia|exact Hr]).
  replace (Z.of_nat i + 1) with (Z.of_nat (S i)) by lia.
  apply IH; [lia|]. intros j rj Hj. apply Hno. lia.
Qed.

Lemma removeBody_loop_refuses (fuel : nat) (t : RevTree) (index : Z) :
  forall (n i : nat),
    (i + n <= length (revs t))%nat ->
    (exists j r, (i <= j < i + n)%nat /\ revs t !! j = Some r /\
                 deltaRefIndex r = index) ->
    removeBody_loop fuel n t (Z.of_nat i) index false = Ok (t, false).
Proof.
  induction n as [|n IH]; intros i Hi (j & rj & Hj & Hrj & Href); [lia|].
  cbn [removeBody_loop].
  destruct (lookup_lt_is_Some_2 (revs t) i ltac:(lia)) as [r Hr].
  rewrite (deref_lookup _ _ _ Hr). cbn [bind].
  destruct (deltaRefIndex r =? index) eqn:E; [reflexivity|].
  replace (Z.of_nat i + 1) with (Z.of_nat (S i)) by lia.
  apply IH; [lia|]. exists j, rj. split; [|auto].
  destruct (decide (j = i)) as [->|Hne]; [|lia].
  rewrite Hr in Hrj. inversion Hrj; subst rj. zbool. contradiction.
Qed.

(** X10: [removeBody] without expansion refuses to remove a body that a
    delta depends on: when some revision names the revision as its delta
    reference and [allowExpansion] is false, the call returns false and the
    tree is as it was. *)
Theorem removeBody_refuses (fuel : nat) (t : RevTree) (p : Z) (rev : Revision)
  (b : list byte) :
  deref t p = Ok rev -> body rev = Some b ->
  (exists j r, revs t !! j = Some r /\ deltaRefIndex r = p) ->
  removeBody fuel t p false = Ok (t, false).
Proof.
  intros Hd Hb (j & r & Hr & Href).
  destruct (deref_in_range _ _ _ Hd) as [Hp _].
  unfold removeBody. rewrite Hd. cbn [bind]. rewrite Hb.
  rewrite index_in_range by exact Hp. cbn [bind].
  pose proof (removeBody_loop_refuses fuel t p (length (revs t)) 0 ltac:(lia)) as Hloop.
  change (Z.of_nat 0) with 0 in Hloop. rewrite Hloop; [reflexivity|].
  exists j, r. split; [|auto]. apply lookup_lt_Some in Hr. lia.
Qed.

End RemoveReference.

Lemma removeBody_refuses_witness :
  removeBody 2 tree_delta_pair 0 false = Ok (tree_delta_pair, false).
Proof.
  eapply (removeBody_refuses 2 tree_delta_pair 0); [reflexivity|reflexivity|].
  exists 1%nat. eexists. split; reflexivity.
Defined.

(** ** Delta compression round trips *)

#[global] Instance verbatim_DeltaLaws : @DeltaLaws verbatim_Delta.
Proof. split. intros reference target delta Hc. cbn in *. congruence. Qed.

Lemma deref_set_changed (t : RevTree) (b : bool) (p : Z) :
  deref (set_changed t b) p = deref t p.
Proof. reflexivity. Qed.

Lemma restore_revision (r : Revision) (d : option (list byte)) (ref : Z) :
  set_deltaRefIndex (set_body (set_deltaRefIndex (set_body r d) ref) (body r))
                    (deltaRefIndex r) = r.
Proof. destruct r. reflexivity. Qed.

Section Compression.
Context `{DeltaLaws}.
Variable t : RevTree.
Variables target reference : Z.
Variables trev rrev : Revision.
Variables tb rb : list byte.
Hypothesis known : unknown t = false.
Hypothesis fits : size t <= 65535.
Hypothesis distinct : reference <> target.
Hypothesis Htarget : deref t target = Ok trev.
Hypothesis Hreference : deref t reference = Ok rrev.
Hypothesis target_plain : deltaRefIndex trev = kNoParent.
Hypothesis reference_plain : deltaRefIndex rrev = kNoParent.
Hypothesis target_body : body trev = Some tb.
Hypothesis reference_body : body rrev = Some rb.

Lemma readBody_plain (fuel : nat) (t0 : RevTree) (p : Z) (r : Revision) :
  deref t0 p = Ok r -> deltaRefIndex r = kNoParent ->
  readBody fuel t0 p = Ok (body r).
Proof.
  intros Hd Hplain. unfold readBody.
  destruct fuel; cbn [readBodyOfRevision]; rewrite Hd; cbn [bind];
    (destruct (body r); [|reflexivity]);
    unfold deltaReference; rewrite Hplain, Z.eqb_refl; reflexivity.
Qed.

Lemma generateZDeltaFrom_plain (fuel : nat) :
  generateZDeltaFrom fuel t target reference = Ok (CreateDelta rb tb).
Proof.
  unfold generateZDeltaFrom.
  replace (reference =? target) with false by (symmetry; apply Z.eqb_neq; exact distinct).
  cbn [negb assert bind]. rewrite Htarget. cbn [bind].
  destruct (deref_in_range _ _ _ Hreference) as [Hr _].
  rewrite (index_in_range _ _ Hr). cbn [bind].
  unfold isCompressed. rewrite target_plain, Z.eqb_refl. cbn [negb andb].
  rewrite (readBody_plain fuel t target trev Htarget target_plain).
  rewrite (readBody_plain fuel t reference rrev Hreference reference_plain).
  cbn [bind]. rewrite target_body, reference_body. reflexivity.
Qed.

(** The tree after a successful [compress]. *)
Let compressed (delta : list byte) : RevTree :=
  store (set_changed (store t target (set_body trev (Some delta))) true) target
        (set_deltaRefIndex (set_body trev (Some delta)) reference).

Lemma compress_plain (fuel : nat) :
  compress fuel t target reference =
    match CreateDelta rb tb with
    | Some delta => Ok (compressed delta, true)
    | None => Ok (t, false)
    end.
Proof.
  unfold compress. rewrite Htarget. cbn [bind].
  unfold isCompressed at 1. rewrite target_plain, Z.eqb_refl. cbn [negb].
  assert (Hcyc : compress_finds_cycle fuel t target reference = Ok false).
  { destruct fuel; cbn [compress_finds_cycle]; rewrite Hreference; cbn [bind];
      unfold isCompressed; rewrite reference_plain, Z.eqb_refl; reflexivity. }
  rewrite Hcyc. cbn [bind]. rewrite generateZDeltaFrom_plain. cbn [bind].
  destruct (CreateDelta rb tb) as [delta|]; [|reflexivity].
  unfold replaceBody. rewrite Htarget. cbn [bind].
  destruct (deref_in_range _ _ _ Hreference) as [Hr _].
  rewrite index_in_range
    by (unfold size, store; cbn [revs set_revs set_changed];
        rewrite length_insert; exact Hr).
  cbn [bind].
  rewrite deref_set_changed, (deref_store_same _ _ _ _ Htarget). cbn [bind].
  rewrite wrap16_small by lia. reflexivity.
Qed.

Lemma compressed_target (delta : list byte) :
  deref (compressed delta) target =
    Ok (set_deltaRefIndex (set_body trev (Some delta)) reference).
Proof.
  unfold compressed. eapply deref_store_same.
  rewrite deref_set_changed. eapply deref_store_same. exact Htarget.
Qed.

Lemma compressed_reference (delta : list byte) :
  deref (compressed delta) reference = Ok rrev.
Proof.
  destruct (deref_in_range _ _ _ Hreference) as [Hr Hl].
  destruct (deref_in_range _ _ _ Htarget) as [Ht _].
  unfold compressed, deref, store. cbn [revs set_revs set_changed].
  replace (0 <=? reference) with true by (symmetry; apply Z.leb_le; lia).
  rewrite !list_lookup_insert_ne by lia. rewrite Hl. reflexivity.
Qed.

Lemma readBody_compressed (fuel : nat) (delta : list byte) :
  readBody fuel (compressed delta) target = Ok (ApplyDelta rb delta).
Proof.
  destruct (deref_in_range _ _ _ Hreference) as [Hr Hl].
  assert (Hget : get (compressed delta) reference = Ok rrev).
  { pose proof (compressed_reference delta) as Hd.
    apply deref_in_range in Hd. destruct Hd as [Hr' Hl'].
    replace reference with (Z.of_nat (Z.to_nat reference)) by lia.
    apply get_valid; [exact known|exact Hl']. }
  unfold readBody.
  destruct fuel; cbn [readBodyOfRevision]; rewrite compressed_target; cbn [bind body
    set_deltaRefIndex set_body]; unfold deltaReference;
    cbn [deltaRefIndex set_deltaRefIndex];
    (replace (reference =? kNoParent) with false
       by (symmetry; apply Z.eqb_neq; unfold kNoParent, UINT16_MAX; lia));
    rewrite Hget; cbn [bind]; rewrite compressed_reference; cbn [bind];
    unfold inlineBody, isCompressed; rewrite reference_plain, Z.eqb_refl;
    cbn [negb]; rewrite reference_body; reflexivity.
Qed.

(** X8: [compress] keeps the body that [readBody] returns.  For two
    distinct revisions of a tree of at most 65,535 revisions, both holding
    their bodies in full, with a delta codec whose deltas apply back:
    when the codec produces a delta, [compress] returns true, stores the
    delta and the reference in the target and touches no other revision,
    and [readBody] of the target still returns the original body; when the
    codec fails, [compress] returns false and the tree is as it was. *)
Theorem compress_keeps_body (fuel : nat) :
  match CreateDelta rb tb with
  | Some delta =>
      exists t',
        compress fuel t target reference = Ok (t', true) /\
        readBody fuel t' target = Ok (Some tb) /\
        (exists r', deref t' target = Ok r' /\ body r' = Some delta /\
                    deltaRefIndex r' = reference /\ isCompressed r' = true) /\
        forall j, j <> Z.to_nat target -> revs t' !! j = revs t !! j
  | None => compress fuel t target reference = Ok (t, false)
  end.
Proof.
  rewrite compress_plain.
  destruct (CreateDelta rb tb) as [delta|] eqn:Hdelta; [|reflexivity].
  destruct (deref_in_range _ _ _ Hreference) as [Hr _].
  exists (compressed delta). split; [reflexivity|]. split.
  { rewrite readBody_compressed. f_equal. apply apply_create. exact Hdelta. }
  split.
  - eexists. split; [apply compressed_target|]. split; [reflexivity|].
    split; [reflexivity|]. unfold isCompressed. cbn [deltaRefIndex set_deltaRefIndex].
    apply negb_true_iff, Z.eqb_neq. unfold kNoParent, UINT16_MAX. lia.
  - intros j Hj. unfold compressed, store. cbn [revs set_revs set_changed].
    rewrite !list_lookup_insert_ne by congruence. reflexivity.
Qed.

Lemma decompress_compressed (fuel : nat) (delta : list byte) :
  CreateDelta rb tb = Some delta ->
  decompress fuel (compressed delta) target = Ok (set_changed t true, true).
Proof.
  intros Hdelta.
  destruct (deref_in_range _ _ _ Hreference) as [Hr _].
  destruct (deref_in_range _ _ _ Htarget) as [Ht Hl].
  unfold decompress. rewrite compressed_target. cbn [bind].
  unfold isCompressed at 1. cbn [deltaRefIndex set_deltaRefIndex].
  replace (reference =? kNoParent) with false
    by (symmetry; apply Z.eqb_neq; unfold kNoParent, UINT16_MAX; lia).
  cbn [negb]. rewrite readBody_compressed, (apply_create _ _ _ Hdelta). cbn [bind].
  unfold replaceBody. rewrite compressed_target. cbn [bind].
  rewrite deref_set_changed.
  rewrite (deref_store_same _ _ _ _ (compressed_target delta)). cbn [bind].
  unfold compressed, store, set_changed, set_revs. cbn [revs bodyOffset sorted unknown].
  do 2 f_equal. f_equal.
  rewrite !list_insert_insert_eq.
  apply list_insert_id. rewrite Hl. f_equal.
  rewrite <- target_body, <- target_plain. symmetry. apply restore_revision.
Qed.

(** X9: [decompress] undoes [compress].  Under the same conditions,
    decompressing the target after a successful [compress] returns true and
    gives back the tree as it was before the compression, now marked as
    changed. *)
Theorem decompress_after_compress (fuel : nat) (delta : list byte) :
  CreateDelta rb tb = Some delta ->
  exists t',
    compress fuel t target reference = Ok (t', true) /\
    decompress fuel t' target = Ok (set_changed t true, true).
Proof.
  intros Hdelta. rewrite compress_plain, Hdelta.
  exists (compressed delta). split; [reflexivity|].
  apply decompress_compressed. exact Hdelta.
Qed.

Hypothesis saved : 0 < bodyOffset t.
Hypothesis sole : forall j r, revs t !! j = Some r -> deltaRefIndex r <> reference.

Lemma removeBody_loop_expands (fuel : nat) (delta : list byte) :
  CreateDelta rb tb = Some delta ->
  forall (n i : nat),
    (i + n = length (revs t))%nat -> (i <= Z.to_nat target)%nat ->
    removeBody_loop fuel n (compressed delta) (Z.of_nat i) reference true =
      Ok (set_changed t true, true).
Proof.
  intros Hdelta.
  destruct (deref_in_range _ _ _ Htarget) as [Ht Hl].
  pose proof (decompress_compressed fuel delta Hdelta) as Hdec.
  induction n as [|n IH]; intros i Hi Hle; [unfold size in Ht; lia|].
  cbn [removeBody_loop].
  replace (Z.of_nat i + 1) with (Z.of_nat (S i)) by lia.
  destruct (decide (i = Z.to_nat target)) as [->|Hne].
  - replace (Z.of_nat (Z.to_nat target)) with target by lia.
    rewrite compressed_target. cbn [bind deltaRefIndex set_deltaRefIndex].
    rewrite Z.eqb_refl. cbn [negb]. rewrite Hdec. cbn [bind snd fst negb].
    apply removeBody_loop_skip; [cbn [revs set_changed]; lia|].
    intros j r _ Hr. exact (sole j r Hr).
  - destruct (lookup_lt_is_Some_2 (revs t) i ltac:(lia)) as [r Hr].
    assert (Hd : deref (compressed delta) (Z.of_nat i) = Ok r).
    { apply deref_lookup. unfold compressed, store.
      cbn [revs set_revs set_changed].
      rewrite !list_lookup_insert_ne by congruence. exact Hr. }
    rewrite Hd. cbn [bind].
    replace (deltaRefIndex r =? reference) with false
      by (symmetry; apply Z.eqb_neq; exact (sole i r Hr)).
    apply IH; lia.
Qed.

(** X11: [removeBody] with expansion on the reference of a delta.  After
    a successful [compress] of a target against a reference that no other
    revision depends on, in a tree read from a file, removing the body of
    the reference with [allowExpansion] returns true: the target holds its
    own body in full again and the reference has no body and remembers the
    offset of the tree. *)
Theorem removeBody_expands (fuel : nat) (delta : list byte) :
  CreateDelta rb tb = Some delta ->
  exists t' t'',
    compress fuel t target reference = Ok (t', true) /\
    removeBody fuel t' reference true = Ok (t'', true) /\
    deref t'' target = Ok trev /\
    deref t'' reference =
      Ok (set_body (set_oldBodyOffset rrev (bodyOffset t)) None) /\
    forall j, j <> Z.to_nat reference -> revs t'' !! j = revs t !! j.
Proof.
  intros Hdelta. rewrite compress_plain, Hdelta.
  destruct (deref_in_range _ _ _ Hreference) as [Hr Hl].
  destruct (deref_in_range _ _ _ Htarget) as [Ht Hlt].
  exists (compressed delta),
    (set_changed (store (set_changed t true) reference
                    (set_body (set_oldBodyOffset rrev (bodyOffset t)) None)) true).
  split; [reflexivity|]. split.
  - unfold removeBody. rewrite compressed_reference. cbn [bind].
    rewrite reference_body.
    rewrite index_in_range
      by (unfold compressed, size, store; cbn [revs set_revs set_changed];
          rewrite !length_insert; exact Hr).
    cbn [bind].
    pose proof (removeBody_loop_expands fuel delta Hdelta
                  (length (revs (compressed delta))) 0) as Hloop.
    change (Z.of_nat 0) with 0 in Hloop. rewrite Hloop.
    + cbn [bind snd fst negb]. unfold replaceBody.
      rewrite deref_set_changed, Hreference. cbn [bind]. rewrite reference_body.
      replace (0 <? bodyOffset (set_changed t true)) with true
        by (symmetry; apply Z.ltb_lt; exact saved).
      reflexivity.
    + unfold compressed, store. cbn [revs set_revs set_changed].
      rewrite !length_insert. lia.
    + lia.
  - split; [|split].
    + rewrite deref_set_changed. unfold deref, store.
      cbn [revs set_revs set_changed].
      replace (0 <=? target) with true by (symmetry; apply Z.leb_le; lia).
      rewrite list_lookup_insert_ne by lia. rewrite Hlt. reflexivity.
    + rewrite deref_set_changed. eapply deref_store_same.
      rewrite deref_set_changed. exact Hreference.
    + intros j Hj. cbn [revs set_revs set_changed store].
      apply list_lookup_insert_ne. congruence.
Qed.

End Compression.

Lemma compress_keeps_body_witness :
  exists t',
    compress 1 tree_1a_2b 0 1 = Ok (t', true) /\
    readBody 1 t' 0 = Ok (Some (bytes_of "x")).
Proof.
  pose proof (compress_keeps_body tree_1a_2b 0 1
                (mkRevision (bytes_of "1-a") 0 (Some (bytes_of "x")) 0 kNew
                            kNoParent kNoParent)
                (mkRevision (bytes_of "2-b") 0 (Some (bytes_of "y")) 0
                            (Z.lor kLeaf kNew) 0 kNoParent)
                (bytes_of "x") (bytes_of "y")
                eq_refl ltac:(vm_compute; discriminate) ltac:(discriminate)
                eq_refl eq_refl eq_refl eq_refl eq_refl eq_refl 1%nat) as Hc.
  cbn [CreateDelta verbatim_Delta] in Hc.
  destruct Hc as (t' & Hrun & Hread & _). exists t'. auto.
Defined.

Lemma decompress_after_compress_witness :
  exists t',
    compress 1 tree_1a_2b 0 1 = Ok (t', true) /\
    decompress 1 t' 0 = Ok (set_changed tree_1a_2b true, true).
Proof.
  apply (decompress_after_compress tree_1a_2b 0 1
           (mkRevision (bytes_of "1-a") 0 (Some (bytes_of "x")) 0 kNew
                       kNoParent kNoParent)
           (mkRevision (bytes_of "2-b") 0 (Some (bytes_of "y")) 0
                       (Z.lor kLeaf kNew) 0 kNoParent)
           (bytes_of "x") (bytes_of "y")
           eq_refl ltac:(vm_compute; discriminate) ltac:(discriminate)
           eq_refl eq_refl eq_refl eq_refl eq_refl eq_refl 1%nat (bytes_of "x")).
  reflexivity.
Defined.

Lemma removeBody_expands_witness :
  exists t' t'',
    compress 1 tree_saved_pair 0 1 = Ok (t', true) /\
    removeBody 1 t' 1 true = Ok (t'', true) /\
    body <$> revs t'' = [Some (bytes_of "x"); None].
Proof.
  destruct (removeBody_expands tree_saved_pair 0 1
              (mkRevision (bytes_of "1-a") 1 (Some (bytes_of "x")) 0 0
                          kNoParent kNoParent)
              (mkRevision (bytes_of "2-b") 2 (Some (bytes_of "y")) 0 kLeaf
                          0 kNoParent)
              (bytes_of "x") (bytes_of "y")
              eq_refl ltac:(vm_compute; discriminate) ltac:(discriminate)
              eq_refl eq_refl eq_refl eq_refl eq_refl eq_refl
              ltac:(vm_compute; reflexivity)) with (fuel := 1%nat)
              (delta := bytes_of "x")
    as (t' & t'' & Hc & Hr & _).
  - intros j r Hj. destruct j as [|[|j]]; [| |discriminate];
      inversion Hj; subst r; vm_compute; discriminate.
  - reflexivity.
  - exists t', t''. split; [exact Hc|]. split; [exact Hr|].
    assert (Hv : exists a b,
              compress 1 tree_saved_pair 0 1 = Ok (a, true) /\
              removeBody 1 a 1 true = Ok (b, true) /\
              body <$> revs b = [Some (bytes_of "x"); None]).
    { eexists _, _. split; [vm_compute; reflexivity|].
      split; vm_compute; reflexivity. }
    destruct Hv as (a & b & Ha & Hb & Hbodies).
    rewrite Hc in Ha. inversion Ha; subst a.
    rewrite Hr in Hb. inversion Hb; subst b. exact Hbodies.
Defined.

(** ** What [decode] accepts *)

Lemma decode_records_post (seq bo : Z) (post : list byte) (l : list Revision) :
  forall (pre : list byte) (fuel : nat),
    Forall encodable l -> (length l <= fuel)%nat ->
    let records :=
      concat (List.map (fun src => RawRevision.bytes (Revision_write src bo)) l) in
    let buf := pre ++ records ++ put_u32 0 ++ post in
    RawRevision_count fuel buf (length pre) = Ok (Z.of_nat (length l)) /\
    decode_loop fuel buf (length pre) seq =
      Ok (decoded seq <$> l, (length pre + length records)%nat).
Proof.
  induction l as [|r l IH]; intros pre fuel Hall Hfuel records buf; subst records buf.
  - cbn [List.map concat app length].
    assert (Hz : raw_size (pre ++ put_u32 0 ++ post) (length pre) = Ok 0).
    { unfold raw_size.
      rewrite (read_bytes_middle pre (put_u32 0) post) by reflexivity. reflexivity. }
    destruct fuel; cbn [RawRevision_count decode_loop]; rewrite Hz; cbn [bind];
      change (0 =? 0) with true; cbv iota; rewrite Nat.add_0_r; split; reflexivity.
  - inversion Hall as [|? ? Hr Hl]; subst.
    destruct fuel as [|fuel]; [cbn [length] in Hfuel; lia|].
    cbn [List.map concat]. rewrite <- !app_assoc.
    set (rec := RawRevision.bytes (Revision_write r bo)).
    set (rest := concat (List.map (fun src => RawRevision.bytes (Revision_write src bo)) l)).
    destruct (Revision_read_written (mkRevision [] 0 None 0 0 0 0) r bo pre
                (rest ++ put_u32 0 ++ post) Hr) as [Hsize Hread].
    cbv zeta in Hsize, Hread. fold rec in Hsize, Hread.
    assert (Hpos : 10 <= sizeToWrite r).
    { destruct Hr as ([_ Ho _ _ _] & _). apply sizeToWrite_pos. lia. }
    assert (Hlen : Z.of_nat (length rec) = sizeToWrite r).
    { destruct Hr as ([_ Ho _ _ _] & _). apply record_length. lia. }
    assert (Hnext : (length pre + Z.to_nat (sizeToWrite r))%nat = length (pre ++ rec)).
    { rewrite length_app. lia. }
    destruct (IH (pre ++ rec) fuel Hl ltac:(cbn [length] in Hfuel; lia)) as [Hc Hd].
    cbv zeta in Hc, Hd. fold rest in Hc, Hd. rewrite <- !app_assoc in Hc, Hd.
    cbn [RawRevision_count decode_loop]. rewrite Hsize. cbn [bind].
    destruct (sizeToWrite r =? 0) eqn:E; [zbool; lia|].
    rewrite Hnext, Hc, Hd, Hread. cbn [bind fst snd].
    split.
    + f_equal. cbn [length]. lia.
    + f_equal. f_equal.
      * cbn [fmap list_fmap]. f_equal. apply decoded_sequence.
      * rewrite !length_app. lia.
Qed.

(** X12: [decode] rejects bytes after the terminator.  For a tree that
    fits the encoded form, the bytes that [encode] produced followed by any
    further byte are refused with [CorruptRevisionData]. *)
Theorem decode_rejects_trailing `{StdSortLaws} (t : RevTree) (seq docOffset : Z)
  (extra : list byte) :
  size t <= 65535 ->
  Forall encodable (revs t) ->
  extra <> [] ->
  RevTree_from (snd (encode t) ++ extra) seq docOffset = Err CorruptRevisionData.
Proof.
  intros Hfits Hall Hextra. unfold encode. cbn [fst snd].
  pose proof (sort_encodable t Hall) as Henc.
  pose proof (sort_length t) as Hlen.
  set (t1 := sort t) in *.
  set (records := concat (List.map (fun src => RawRevision.bytes
                                      (Revision_write src (bodyOffset t1))) (revs t1))).
  pose proof (records_length (bodyOffset t1) (revs t1) Henc) as Hrl. fold records in Hrl.
  rewrite <- app_assoc.
  destruct (decode_records_post seq (bodyOffset t1) extra (revs t1) []
              (length (records ++ put_u32 0 ++ extra))
              Henc ltac:(rewrite length_app; lia)) as [Hc Hd].
  cbv zeta in Hc, Hd. fold records in Hc, Hd. cbn [app length Nat.add] in Hc, Hd.
  unfold RevTree_from, decode. rewrite Hc. cbn [bind].
  destruct (UINT16_MAX <? Z.of_nat (length (revs t1))) eqn:E.
  { zbool. unfold UINT16_MAX, size in *. lia. }
  rewrite Hd. cbn [bind fst snd].
  destruct (negb (Z.of_nat (length records) =?
                  Z.of_nat (length (records ++ put_u32 0 ++ extra)) - 4)) eqn:E';
    [reflexivity|].
  apply negb_false_iff in E'. zbool. rewrite !length_app in E'.
  cbn [put_u32 length] in E'. destruct extra; [contradiction|]. cbn [length] in E'. lia.
Qed.

Lemma decode_rejects_trailing_witness :
  RevTree_from (snd (encode tree_1a_2b) ++ [x00]) 7 4096 = Err CorruptRevisionData.
Proof.
  apply decode_rejects_trailing.
  - vm_compute. discriminate.
  - repeat constructor; vm_compute; try discriminate; reflexivity.
  - discriminate.
Defined.

Lemma read_bytes_length (buf : list byte) (pos len : nat) (s : list byte) :
  read_bytes buf pos len = Ok s -> length s = len.
Proof.
  unfold read_bytes. destruct (length (take len (drop pos buf)) =? len)%nat eqn:E;
    [|discriminate].
  intros Hs. inversion Hs; subst s. apply Nat.eqb_eq. exact E.
Qed.

Lemma get_be_two (bs : list byte) : length bs = 2%nat -> 0 <= get_be bs <= 65535.
Proof.
  destruct bs as [|a [|b [|c bs]]]; try discriminate. intros _.
  unfold get_be. cbn [fold_left].
  pose proof (Z_of_byte_range a). pose proof (Z_of_byte_range b). lia.
Qed.

Lemma get_be_one (bs : list byte) : length bs = 1%nat -> 0 <= get_be bs <= 255.
Proof.
  destruct bs as [|a [|b bs]]; try discriminate. intros _.
  unfold get_be. cbn [fold_left]. pose proof (Z_of_byte_range a). lia.
Qed.

Lemma public_flags_not_new (f : Z) :
  has_flag (Z.land f kPublicPersistentFlags) kNew = false.
Proof.
  unfold has_flag. rewrite <- Z.land_assoc.
  change (Z.land kPublicPersistentFlags kNew) with 0. rewrite Z.land_0_r. reflexivity.
Qed.

Lemma Revision_read_shape (this : Revision) (buf : list byte) (pos : nat)
  (rev : Revision) :
  Revision_read this buf pos = Ok rev ->
  Z.land (flags rev) kPublicPersistentFlags = flags rev /\
  isNew rev = false /\
  0 <= parentIndex rev <= 65535 /\ 0 <= deltaRefIndex rev <= 65535 /\
  (body rev <> None -> oldBodyOffset rev = 0) /\
  Z.of_nat (length (revID rev)) <= 255.
Proof.
  unfold Revision_read. intros Hread.
  destruct (raw_size buf pos) as [sz|]; [|discriminate]. cbn [bind] in Hread.
  destruct (read_bytes buf (pos + 4) 2) as [pidx|] eqn:Hp; [|discriminate].
  cbn [bind] in Hread.
  destruct (read_bytes buf (pos + 6) 2) as [didx|] eqn:Hd; [|discriminate].
  cbn [bind] in Hread.
  destruct (read_bytes buf (pos + 8) 1) as [fl|] eqn:Hf; [|discriminate].
  cbn [bind] in Hread.
  destruct (read_bytes buf (pos + 9) 1) as [idlen|] eqn:Hi; [|discriminate].
  cbn [bind] in Hread.
  destruct (read_bytes buf (pos + 10) (Z.to_nat (get_be idlen))) as [id|] eqn:Hid;
    [|discriminate].
  cbn [bind] in Hread.
  destruct (read_varint buf (pos + 10 + Z.to_nat (get_be idlen)) _) as [v|];
    [|discriminate].
  cbn [bind] in Hread.
  pose proof (get_be_two _ (read_bytes_length _ _ _ _ Hp)) as Rp.
  pose proof (get_be_two _ (read_bytes_length _ _ _ _ Hd)) as Rd.
  pose proof (get_be_one _ (read_bytes_length _ _ _ _ Hi)) as Ri.
  pose proof (read_bytes_length _ _ _ _ Hid) as Rid.
  assert (Hshape : forall sq b off,
            (b <> None -> off = 0) ->
            let r := mkRevision id sq b off
                       (Z.land (get_be fl) kPublicPersistentFlags)
                       (get_be pidx) (get_be didx) in
            Z.land (flags r) kPublicPersistentFlags = flags r /\
            isNew r = false /\
            0 <= parentIndex r <= 65535 /\ 0 <= deltaRefIndex r <= 65535 /\
            (body r <> None -> oldBodyOffset r = 0) /\
            Z.of_nat (length (revID r)) <= 255).
  { intros sq b off Hb r. subst r. cbn [flags parentIndex deltaRefIndex body
                                        oldBodyOffset revID].
    split; [apply land_public_idem|]. split; [apply public_flags_not_new|].
    split; [exact Rp|]. split; [exact Rd|]. split; [exact Hb|]. lia. }
  destruct (match v with
            | Some (used, n) => (used, n)
            | None => (O, sequence this)
            end) as [used sq].
  destruct (has_flag (get_be fl) kHasData).
  - destruct (read_slice buf (pos + 10 + Z.to_nat (get_be idlen) + used) _) as [b|];
      [|discriminate].
    cbn [bind] in Hread.
    inversion Hread; subst rev. apply Hshape. reflexivity.
  - destruct (has_flag (get_be fl) kHasBodyOffset).
    + destruct (read_varint buf (pos + 10 + Z.to_nat (get_be idlen) + used) _)
        as [rest|]; [|discriminate].
      cbn [bind] in Hread.
      inversion Hread; subst rev. apply Hshape. intros Hne. contradiction.
    + inversion Hread; subst rev. apply Hshape. reflexivity.
Qed.

Lemma decode_loop_shape (seq : Z) (fuel : nat) :
  forall (buf : list byte) (pos : nat) (l : list Revision) (e : nat),
    decode_loop fuel buf pos seq = Ok (l, e) ->
    Forall (decoded_shape seq) l /\
    forall c, RawRevision_count fuel buf pos = Ok c -> c = Z.of_nat (length l).
Proof.
  induction fuel as [|fuel IH]; intros buf pos l e Hloop;
    cbn [decode_loop RawRevision_count] in *;
    destruct (raw_size buf pos) as [sz|]; try discriminate; cbn [bind] in *;
    destruct (sz =? 0).
  - inversion Hloop; subst. split; [constructor|]. intros c Hc. inversion Hc. reflexivity.
  - discriminate.
  - inversion Hloop; subst. split; [constructor|]. intros c Hc. inversion Hc. reflexivity.
  - destruct (Revision_read _ buf pos) as [rev|] eqn:Hread; [|discriminate].
    cbn [bind] in Hloop.
    destruct (decode_loop fuel buf (pos + Z.to_nat sz) seq) as [[l' e']|] eqn:Hrest;
      [|discriminate].
    cbn [bind fst snd] in Hloop. inversion Hloop; subst l e.
    destruct (IH _ _ _ _ Hrest) as [Hall Hcount].
    destruct (Revision_read_shape _ _ _ _ Hread) as (H1 & H2 & H3 & H4 & H5 & H6).
    split.
    + constructor; [|exact Hall].
      destruct (sequence rev =? 0) eqn:E.
      * split; try assumption. intros Hseq. exact Hseq.
      * split; try assumption. intros _. zbool. exact E.
    + intros c Hc.
      destruct (RawRevision_count fuel buf (pos + Z.to_nat sz)) as [n|]; [|discriminate].
      cbn [bind] in Hc. inversion Hc; subst c. rewrite (Hcount n eq_refl).
      cbn [length]. lia.
Qed.

(** X13: what [decode] accepts is well formed.  Whenever [decode]
    returns a tree whose identifiers and bodies are bytes of the input
    (also for a record whose identifier runs past the record's own size),
    the tree has at most 65,535 revisions and the given offset, and every
    revision has only persistent flags (so it is not new), index fields
    within 16 bits, an identifier of at most 255 bytes, no old body offset
    beside a body, and a sequence other than 0 when the sequence given is
    not 0. *)
Theorem decode_well_formed (t : RevTree) (raw_tree : list byte) (seq docOffset : Z)
  (t' : RevTree) :
  decode t raw_tree seq docOffset = Ok t' ->
  size t' <= 65535 /\ bodyOffset t' = docOffset /\
  Forall (decoded_shape seq) (revs t').
Proof.
  unfold decode. intros Hdec.
  destruct (RawRevision_count (length raw_tree) raw_tree 0) as [c|] eqn:Hc;
    [|discriminate].
  cbn [bind] in Hdec. destruct (UINT16_MAX <? c) eqn:E; [discriminate|].
  destruct (decode_loop (length raw_tree) raw_tree 0 seq) as [[l e]|] eqn:Hloop;
    [|discriminate].
  cbn [bind fst snd] in Hdec.
  destruct (negb _); [discriminate|]. inversion Hdec; subst t'.
  destruct (decode_loop_shape _ _ _ _ _ _ Hloop) as [Hall Hcount].
  split; [|split; [reflexivity|exact Hall]].
  unfold size. cbn [revs]. rewrite <- (Hcount c Hc). zbool. unfold UINT16_MAX in E. lia.
Qed.

Lemma decode_well_formed_witness :
  exists t' t'',
    decode RevTree_new (snd (encode tree_1a_2b)) 7 4096 = Ok t' /\
    Forall (decoded_shape 7) (revs t') /\
    decode RevTree_new raw_revID_past_record 7 0 = Ok t'' /\
    revID <$> revs t'' = [byte_of_Z <$> [49; 0; 0]] /\
    sequence <$> revs t'' = [7] /\
    Forall (decoded_shape 7) (revs t'').
Proof.
  assert (Hrun : exists t', decode RevTree_new (snd (encode tree_1a_2b)) 7 4096 = Ok t').
  { eexists. vm_compute. reflexivity. }
  assert (Hrun' : exists t'',
            decode RevTree_new raw_revID_past_record 7 0 = Ok t'' /\
            revID <$> revs t'' = [byte_of_Z <$> [49; 0; 0]] /\
            sequence <$> revs t'' = [7]).
  { eexists. repeat split; vm_compute; reflexivity. }
  destruct Hrun as [t' Hrun]. destruct Hrun' as (t'' & Hrun' & Hid & Hseq).
  exists t', t''. split; [exact Hrun|].
  split; [exact (proj2 (proj2 (decode_well_formed _ _ _ _ _ Hrun)))|].
  split; [exact Hrun'|]. split; [exact Hid|]. split; [exact Hseq|].
  exact (proj2 (proj2 (decode_well_formed _ _ _ _ _ Hrun'))).
Defined.

(** ** The size of what [encode] writes *)

Lemma sort_keeps_Forall `{StdSortLaws} (P : Revision -> Prop) (t : RevTree) :
  (forall r p d, P r -> P (set_deltaRefIndex (set_parentIndex r p) d)) ->
  Forall P (revs t) -> Forall P (revs (sort t)).
Proof.
  intros Hlinks Hall. unfold sort. destruct (sorted t); [exact Hall|]. cbn [revs].
  change (List.map ?f ?x) with (f <$> x). apply Forall_fmap.
  assert (Hcookied : Forall P (imap (fun i rev => set_parentIndex rev (wrap16 (Z.of_nat i)))
                                    (revs t))).
  { apply Forall_lookup. intros i r Hi. rewrite list_lookup_imap in Hi.
    destruct (revs t !! i) as [r0|] eqn:Hr0; [|discriminate]. cbn in Hi.
    inversion Hi; subst r. rewrite Forall_lookup in Hall.
    pose proof (Hlinks r0 (wrap16 (Z.of_nat i)) (deltaRefIndex r0) (Hall i r0 Hr0)) as Hp.
    destruct r0. exact Hp. }
  rewrite <- (std_sort_perm _) in Hcookied.
  eapply Forall_impl; [exact Hcookied|]. intros r Hr. cbn. apply Hlinks. exact Hr.
Qed.

Lemma encode_size_records (bo : Z) (l : list Revision) :
  Forall (fun r => 0 <= oldBodyOffset r) l ->
  forall acc,
    fold_left (fun size rev => size + sizeToWrite rev) l acc =
    acc + Z.of_nat (length (concat (List.map
            (fun src => RawRevision.bytes (Revision_write src bo)) l))).
Proof.
  induction 1 as [|r l Hr _ IH]; intros acc; cbn [fold_left List.map concat].
  - cbn. lia.
  - rewrite IH, length_app, Nat2Z.inj_add, (record_length r bo Hr). lia.
Qed.

(** X14: [encode] fills the buffer it allocated, which is what its
    closing assertion checks: the bytes written for the sorted revisions,
    with the trailing zero size, are as many as the sum of [sizeToWrite]
    plus four. *)
Theorem encode_fills_buffer `{StdSortLaws} (t : RevTree) :
  Forall (fun r => 0 <= oldBodyOffset r) (revs t) ->
  Z.of_nat (length (snd (encode t))) = encode_size (revs (fst (encode t))) /\
  drop (length (snd (encode t)) - 4) (snd (encode t)) = put_u32 0.
Proof.
  intros Hall. unfold encode. cbn [fst snd].
  assert (Hsorted : Forall (fun r => 0 <= oldBodyOffset r) (revs (sort t))).
  { apply sort_keeps_Forall; [|exact Hall]. intros r p d Hr. exact Hr. }
  split.
  - unfold encode_size.
    rewrite (encode_size_records (bodyOffset (sort t)) _ Hsorted).
    rewrite length_app. cbn [put_u32 length]. lia.
  - rewrite length_app. cbn [put_u32 length].
    replace (length _ + 4 - 4)%nat
      with (length (concat (List.map
              (fun src => RawRevision.bytes (Revision_write src (bodyOffset (sort t))))
              (revs (sort t))))) by lia.
    apply drop_app_length.
Qed.

Lemma encode_fills_buffer_witness :
  Z.of_nat (length (snd (encode tree_1a_2b))) =
    encode_size (revs (fst (encode tree_1a_2b))).
Proof.
  apply encode_fills_buffer. repeat constructor; vm_compute; discriminate.
Defined.

(** ** [getBySequence] and [currentRevisions] *)

Lemma find_sequence_spec (l : list Revision) (seq : Z) :
  forall i : nat,
    match find_sequence l seq (Z.of_nat i) with
    | Some p =>
        exists (x : nat) (r : Revision),
          p = Z.of_nat (i + x) /\ l !! x = Some r /\ sequence r = seq /\
          forall y r', (y < x)%nat -> l !! y = Some r' -> sequence r' <> seq
    | None => forall r, r ∈ l -> sequence r <> seq
    end.
Proof.
  induction l as [|a l IH]; intros i; cbn [find_sequence].
  - intros r Hr. inversion Hr.
  - destruct (sequence a =? seq) eqn:E; zbool.
    + exists 0%nat, a. split; [f_equal; lia|]. split; [reflexivity|].
      split; [exact E|]. intros y r' Hy. lia.
    + replace (Z.of_nat i + 1) with (Z.of_nat (S i)) by lia.
      specialize (IH (S i)).
      destruct (find_sequence l seq (Z.of_nat (S i))) as [p|].
      * destruct IH as (x & r & Hp & Hx & Hs & Hmin). exists (S x), r.
        split; [rewrite Hp; f_equal; lia|]. split; [exact Hx|]. split; [exact Hs|].
        intros y r' Hy Hl. destruct y as [|y].
        -- cbn in Hl. inversion Hl; subst r'. exact E.
        -- apply (Hmin y r'); [lia|exact Hl].
      * intros r Hr. apply elem_of_cons in Hr. destruct Hr as [Hr|Hr].
        -- subst r. exact E.
        -- apply IH. exact Hr.
Qed.

(** X21: [getBySequence] returns the first revision that has the
    sequence; when no revision has it, it returns NULL on a known tree and
    fails its assertion on an unknown one, which it checks only then. *)
Theorem getBySequence_first (t : RevTree) (seq : Z) :
  match getBySequence t seq with
  | Ok (Some p) =>
      exists (x : nat) (r : Revision),
        p = Z.of_nat x /\ revs t !! x = Some r /\ sequence r = seq /\
        forall y r', (y < x)%nat -> revs t !! y = Some r' -> sequence r' <> seq
  | Ok None => unknown t = false /\ forall r, r ∈ revs t -> sequence r <> seq
  | Err e => e = AssertionFailure /\ unknown t = true /\
             forall r, r ∈ revs t -> sequence r <> seq
  end.
Proof.
  unfold getBySequence. pose proof (find_sequence_spec (revs t) seq 0) as Hf.
  change (Z.of_nat 0) with 0 in Hf.
  destruct (find_sequence (revs t) seq 0) as [p|].
  - destruct Hf as (x & r & Hp & Hx & Hs & Hmin). exists x, r.
    split; [rewrite Hp; f_equal|]. split; [exact Hx|]. split; [exact Hs|exact Hmin].
  - destruct (unknown t); cbn [negb assert bind].
    + split; [reflexivity|]. split; [reflexivity|exact Hf].
    + split; [reflexivity|exact Hf].
Qed.

(** X25: in a tree that the constructor read from a document saved under
    a sequence other than 0, with identifiers and bodies that are bytes of
    the input, every revision has a sequence other than 0, and
    [getBySequence] finds no revision under sequence 0. *)
Theorem getBySequence_decoded (t : RevTree) (raw_tree : list byte) (s docOffset : Z) :
  s <> 0 -> RevTree_from raw_tree s docOffset = Ok t ->
  (forall r, r ∈ revs t -> sequence r <> 0) /\
  getBySequence t 0 = Ok None.
Proof.
  intros Hs Hdec. unfold RevTree_from, decode in Hdec.
  destruct (RawRevision_count (length raw_tree) raw_tree 0) as [c|];
    [|discriminate].
  cbn [bind] in Hdec. destruct (UINT16_MAX <? c); [discriminate|].
  destruct (decode_loop (length raw_tree) raw_tree 0 s) as [[l e]|] eqn:Hloop;
    [|discriminate].
  cbn [bind fst snd] in Hdec.
  destruct (negb _); [discriminate|]. inversion Hdec; subst t.
  destruct (decode_loop_shape _ _ _ _ _ _ Hloop) as [Hall _].
  rewrite Forall_forall in Hall. cbn [revs].
  assert (Hnz : forall r, r ∈ l -> sequence r <> 0).
  { intros r Hr. exact (shape_sequence _ _ (Hall r Hr) Hs). }
  split; [exact Hnz|].
  unfold getBySequence. cbn [revs unknown].
  pose proof (find_sequence_spec l 0 0) as Hf. change (Z.of_nat 0) with 0 in Hf.
  destruct (find_sequence l 0 0) as [p|]; [|reflexivity].
  destruct Hf as (x & r & _ & Hx & Hzero & _). exfalso.
  exact (Hnz r (list_elem_of_lookup_2 _ _ _ Hx) Hzero).
Qed.

Lemma getBySequence_decoded_witness :
  exists t,
    RevTree_from (snd (encode tree_1a_2b)) 7 4096 = Ok t /\
    getBySequence t 0 = Ok None.
Proof.
  assert (Hrun : exists t, RevTree_from (snd (encode tree_1a_2b)) 7 4096 = Ok t).
  { eexists. vm_compute. reflexivity. }
  destruct Hrun as [t Hrun]. exists t. split; [exact Hrun|].
  exact (proj2 (getBySequence_decoded t _ 7 4096 ltac:(discriminate) Hrun)).
Defined.

Lemma leaves_from_spec (l : list Revision) :
  forall i : nat,
    exists ys : list nat,
      leaves_from l (Z.of_nat i) = Z.of_nat <$> ys /\
      StronglySorted Nat.lt ys /\
      (forall y, y ∈ ys <->
                 (i <= y)%nat /\
                 exists r, l !! (y - i)%nat = Some r /\ isLeaf r = true) /\
      length ys = length (List.filter isLeaf l).
Proof.
  induction l as [|a l IH]; intros i; cbn [leaves_from List.filter].
  - exists []. split; [reflexivity|]. split; [constructor|]. split; [|reflexivity].
    intros y. split; [intros Hy; inversion Hy|].
    intros [_ (r & Hr & _)]. discriminate.
  - replace (Z.of_nat i + 1) with (Z.of_nat (S i)) by lia.
    destruct (IH (S i)) as (ys & Hrun & Hsorted & Hmem & Hlen).
    assert (Hrest : forall y, y ∈ ys <->
              (S i <= y)%nat /\
              exists r, (a :: l) !! (y - i)%nat = Some r /\ isLeaf r = true).
    { intros y. rewrite Hmem. split; intros [Hy (r & Hr & Hleaf)].
      - split; [exact Hy|]. exists r. split; [|exact Hleaf].
        replace (y - i)%nat with (S (y - S i)) by lia. exact Hr.
      - split; [exact Hy|]. exists r. split; [|exact Hleaf].
        replace (y - i)%nat with (S (y - S i)) in Hr by lia. exact Hr. }
    destruct (isLeaf a) eqn:La.
    + exists (i :: ys). split; [cbn [fmap list_fmap]; rewrite Hrun; reflexivity|].
      split.
      { constructor; [exact Hsorted|]. apply Forall_forall. intros y Hy.
        apply Hrest in Hy. unfold Nat.lt. lia. }
      split; [|cbn [length]; rewrite Hlen; reflexivity].
      intros y. rewrite elem_of_cons, Hrest. split.
      * intros [Hy|[Hy Hr]].
        -- subst y. split; [lia|]. exists a. rewrite Nat.sub_diag.
           split; [reflexivity|exact La].
        -- split; [lia|exact Hr].
      * intros [Hy Hr]. destruct (decide (y = i)) as [Heq|Hne]; [left; exact Heq|].
        right. split; [lia|exact Hr].
    + exists ys. split; [exact Hrun|]. split; [exact Hsorted|].
      split; [|exact Hlen].
      intros y. rewrite Hrest. split.
      * intros [Hy Hr]. split; [lia|exact Hr].
      * intros [Hy (r & Hr & Hleaf)].
        destruct (decide (y = i)) as [Heq|Hne].
        -- subst y. rewrite Nat.sub_diag in Hr. cbn in Hr. inversion Hr; subst r.
           congruence.
        -- split; [lia|]. exists r. split; [exact Hr|exact Hleaf].
Qed.

Lemma active_le_leaves (l : list Revision) :
  (count_active l <= length (List.filter isLeaf l))%nat.
Proof.
  unfold count_active. induction l as [|a l IH]; [reflexivity|].
  cbn [List.filter]. unfold isActive at 1.
  destruct (isLeaf a); cbn [andb]; [destruct (negb _)|]; cbn [length]; lia.
Qed.

(** The number of active revisions of a tree that [hasConflict] finds
    free of conflicts, or in conflict. *)
Lemma hasConflict_count (t : RevTree) (c : bool) :
  (sorted t = true -> descending outranks (revs t)) ->
  hasConflict t = Ok c ->
  c = (1 <? Z.of_nat (count_active (revs t))).
Proof.
  intros Hd. unfold hasConflict, size.
  destruct (Z.of_nat (length (revs t)) <? 2) eqn:E; zbool.
  - destruct (unknown t); cbn [negb assert bind]; [discriminate|].
    intros Hc. inversion Hc. symmetry. apply Z.ltb_ge.
    pose proof (active_le_leaves (revs t)) as H1.
    pose proof (filter_length isLeaf (revs t)) as H2. lia.
  - destruct (sorted t) eqn:Hs.
    + destruct (revs t) as [|a [|b rest]] eqn:Hrevs; cbn [length] in E; try lia.
      cbn [lookup list_lookup of_option bind]. intros Hc. inversion Hc.
      symmetry. apply second_active_count. apply Hd. reflexivity.
    + intros Hc. inversion Hc. rewrite hasConflict_loop_count by lia.
      reflexivity.
Qed.

(** X22: [currentRevisions] lists the leaves, deleted ones included:
    on a known tree it returns the positions of the revisions flagged as
    leaves, each once, in ascending order, and nothing else.  When
    [hasConflict] says true it returns at least one, and at least two
    provided the tree is not flagged as sorted while its revisions are out
    of order ([hasConflict] then looks at the second revision only). *)
Theorem currentRevisions_leaves (t : RevTree) :
  unknown t = false ->
  exists ys : list nat,
    currentRevisions t = Ok (Z.of_nat <$> ys) /\
    StronglySorted Nat.lt ys /\
    (forall y, y ∈ ys <-> exists r, revs t !! y = Some r /\ isLeaf r = true) /\
    (hasConflict t = Ok true -> (1 <= length ys)%nat) /\
    ((sorted t = true -> descending outranks (revs t)) ->
     hasConflict t = Ok true -> (2 <= length ys)%nat).
Proof.
  intros Hu. unfold currentRevisions. rewrite Hu. cbn [negb assert bind].
  destruct (leaves_from_spec (revs t) 0) as (ys & Hrun & Hsorted & Hmem & Hlen).
  exists ys. change (Z.of_nat 0) with 0 in Hrun. rewrite Hrun.
  assert (Hleaves : forall y, y ∈ ys <->
                      exists r, revs t !! y = Some r /\ isLeaf r = true).
  { intros y. rewrite Hmem, Nat.sub_0_r. split.
    - intros [_ Hr]. exact Hr.
    - intros Hr. split; [lia|exact Hr]. }
  assert (Htwo : (sorted t = true -> descending outranks (revs t)) ->
                 hasConflict t = Ok true -> (2 <= length ys)%nat).
  { intros Hd Hc. apply (hasConflict_count t true Hd) in Hc.
    symmetry in Hc. zbool. pose proof (active_le_leaves (revs t)). lia. }
  split; [reflexivity|]. split; [exact Hsorted|]. split; [exact Hleaves|].
  split; [|exact Htwo].
  intros Hc. destruct (sorted t) eqn:Hs.
  - unfold hasConflict in Hc. rewrite Hs in Hc.
    destruct (size t <? 2).
    { rewrite Hu in Hc. cbn [negb assert bind] in Hc. discriminate Hc. }
    destruct (revs t !! 1%nat) as [rev|] eqn:Hrev; [|discriminate Hc].
    cbn [of_option bind] in Hc. inversion Hc as [Hact].
    assert (Hin : 1%nat ∈ ys).
    { apply Hleaves. exists rev. split; [exact Hrev|].
      unfold isActive in Hact. apply andb_true_iff in Hact. apply Hact. }
    destruct ys; [inversion Hin|cbn [length]; lia].
  - assert (H2 : (2 <= length ys)%nat) by (apply Htwo; [discriminate|exact Hc]).
    lia.
Qed.

Lemma currentRevisions_leaves_witness :
  exists ys : list nat,
    currentRevisions tree_1a_2b = Ok (Z.of_nat <$> ys) /\
    StronglySorted Nat.lt ys.
Proof.
  destruct (currentRevisions_leaves tree_1a_2b eq_refl) as (ys & Hrun & Hsorted & _).
  exists ys. split; [exact Hrun|exact Hsorted].
Defined.

(** ** Conflicts after [insert] *)

Lemma count_active_snoc (l : list Revision) (r : Revision) :
  count_active (l ++ [r]) = (count_active l + if isActive r then 1 else 0)%nat.
Proof.
  unfold count_active. rewrite List.filter_app, length_app. cbn [List.filter].
  destruct (isActive r); reflexivity.
Qed.

Lemma _insert_unsorted (t : RevTree) (id : revid) (data : option (list byte))
  (p : Z) (deleted hasAttachments : bool) (r : RevTree * Z) :
  _insert t id data (Some p) deleted hasAttachments = Ok r ->
  sorted (fst r) = false.
Proof.
  intros Hins. pose proof (_insert_parent_valid _ _ _ _ _ _ _ Hins) as Hp.
  unfold _insert in Hins.
  destruct (assert (negb (unknown t))) as [[]|]; [|discriminate].
  cbn [bind] in Hins. rewrite index_in_range in Hins by exact Hp.
  cbn [bind] in Hins. destruct (deref t p) as [prev|]; [|discriminate].
  cbn [bind fst snd] in Hins. inversion Hins. cbn [fst sorted].
  destruct (1 <? _) eqn:E; [reflexivity|]. zbool.
  rewrite length_app in E. cbn [store set_revs revs length] in E.
  rewrite length_insert in E. unfold size in Hp. lia.
Qed.

(** X23: when [insert] creates a conflict.  After an accepted [insert]
    under a parent: if the parent was an active revision (a leaf that is
    not deleted) and [hasConflict] said false on a tree that is not flagged
    as sorted while its revisions are out of order, it says false
    afterwards; if the parent was not active, the new revision is not a
    deletion and the tree already held an active revision, [hasConflict]
    says true afterwards, on every tree, also when [allowConflict] was
    false. *)
Theorem insert_conflict (t : RevTree) (newRevID : revid)
  (data : option (list byte)) (deleted hasAttachments : bool) (p : Z)
  (allowConflict : bool) (res : inserted) (q : Z) (prev : Revision) :
  insert t newRevID data deleted hasAttachments (Some p) allowConflict = Ok res ->
  ins_rev res = Some q ->
  deref t p = Ok prev ->
  (isActive prev = true ->
   (sorted t = true -> descending outranks (revs t)) ->
   hasConflict t = Ok false ->
   hasConflict (ins_tree res) = Ok false) /\
  (isActive prev = false -> deleted = false ->
   (exists x a, revs t !! x = Some a /\ isActive a = true) ->
   hasConflict (ins_tree res) = Ok true).
Proof.
  intros Hins Hq Hprev.
  destruct (insert_accepted _ _ _ _ _ _ _ _ _ Hins Hq) as [_ Hrun].
  pose proof (_insert_unsorted _ _ _ _ _ _ _ Hrun) as Hunsorted.
  pose proof (_insert_known _ _ _ _ _ _ _ Hrun) as Hu.
  destruct (deref_in_range _ _ _ Hprev) as [Hp Hl].
  destruct (_insert_child t newRevID data deleted hasAttachments p prev Hu Hp Hl)
    as (t' & Hrun' & Hrevs & _).
  rewrite Hrun' in Hrun. inversion Hrun as [[Ht' Hsz]]. clear Hrun.
  cbn [fst] in Hunsorted. rewrite <- Ht' in Hunsorted.
  assert (Hcount : (count_active (revs t') + (if isActive prev then 1 else 0) =
                    count_active (revs t) + (if deleted then 0 else 1))%nat).
  { rewrite Hrevs, count_active_snoc.
    pose proof (filter_length_insert isActive (revs t) (Z.to_nat p) prev
                  (clearFlag prev kLeaf) Hl) as Hf.
    assert (Hc : isActive (clearFlag prev kLeaf) = false).
    { unfold isActive. rewrite isLeaf_clearFlag. reflexivity. }
    rewrite Hc in Hf. fold (count_active (revs t)) in Hf.
    fold (count_active (<[Z.to_nat p := clearFlag prev kLeaf]> (revs t))) in Hf.
    destruct (new_revision_fields newRevID data deleted hasAttachments (wrap16 p))
      as (_ & _ & Hleaf & Hdel & _).
    unfold isActive at 1. rewrite Hleaf, Hdel.
    destruct deleted; cbn [andb negb]; lia. }
  assert (Hafter : hasConflict t' = Ok (1 <? Z.of_nat (count_active (revs t')))).
  { unfold hasConflict, size. rewrite Hrevs at 1. rewrite length_app, length_insert.
    cbn [length]. destruct (_ <? 2) eqn:E; [zbool; unfold size in Hp; lia|].
    rewrite Hunsorted. rewrite hasConflict_loop_count by lia. reflexivity. }
  rewrite <- Ht', Hafter. split.
  - intros Hact Hd Hno. rewrite Hact in Hcount.
    apply (hasConflict_count t false Hd) in Hno. symmetry in Hno. zbool.
    f_equal. apply Z.ltb_ge. destruct deleted; lia.
  - intros Hact Hdel (x & a & Hx & Ha). rewrite Hact, Hdel in Hcount.
    assert (Hone : (1 <= count_active (revs t))%nat).
    { unfold count_active.
      assert (Hin : In a (List.filter isActive (revs t))).
      { apply List.filter_In. split; [|exact Ha].
        apply list_elem_of_In. apply (list_elem_of_lookup_2 _ x). exact Hx. }
      destruct (List.filter isActive (revs t)); [destruct Hin|cbn [length]; lia]. }
    f_equal. apply Z.ltb_lt. lia.
Qed.

Lemma insert_conflict_witness :
  exists res res',
    insert tree_1a_2b (bytes_of "3-c") (Some (bytes_of "z")) false false (Some 1) false
      = Ok res /\
    hasConflict (ins_tree res) = Ok false /\
    insert tree_1a_2b (bytes_of "2-c") (Some (bytes_of "z")) false false (Some 0) true
      = Ok res' /\
    hasConflict (ins_tree res') = Ok true.
Proof.
  assert (Hrun : exists res,
            insert tree_1a_2b (bytes_of "3-c") (Some (bytes_of "z")) false false
                   (Some 1) false = Ok res /\ ins_rev res = Some 2).
  { eexists. split; vm_compute; reflexivity. }
  assert (Hrun' : exists res,
            insert tree_1a_2b (bytes_of "2-c") (Some (bytes_of "z")) false false
                   (Some 0) true = Ok res /\ ins_rev res = Some 2).
  { eexists. split; vm_compute; reflexivity. }
  assert (Hprev : exists prev, deref tree_1a_2b 1 = Ok prev /\ isActive prev = true).
  { eexists. split; vm_compute; reflexivity. }
  assert (Hprev' : exists prev, deref tree_1a_2b 0 = Ok prev /\ isActive prev = false).
  { eexists. split; vm_compute; reflexivity. }
  assert (Hd : sorted tree_1a_2b = true -> descending outranks (revs tree_1a_2b)).
  { intros Hs. discriminate Hs. }
  destruct Hrun as (res & Hrun & Hrev). destruct Hrun' as (res' & Hrun' & Hrev').
  destruct Hprev as (prev & Hprev & Hact). destruct Hprev' as (prev' & Hprev' & Hact').
  exists res, res'. split; [exact Hrun|]. split; [|split; [exact Hrun'|]].
  - apply (proj1 (insert_conflict _ _ _ _ _ _ _ _ _ _ Hrun Hrev Hprev) Hact Hd).
    vm_compute. reflexivity.
  - apply (proj2 (insert_conflict _ _ _ _ _ _ _ _ _ _ Hrun' Hrev' Hprev') Hact'
             eq_refl).
    exists 1%nat. eexists. split; vm_compute; reflexivity.
Defined.

(** * Further properties of the tagged value encoder *)

Module WriterMore.
Import EncodingWriter.
Import EncodingRuns.
Import WriterFacts.

(** ** Integers *)

Lemma put_u64_low (z : Z) :
  get_be (drop 7 (put_u64 z)) = wrap64 z mod 256 /\
  get_be (drop 6 (put_u64 z)) = wrap64 z mod 65536 /\
  get_be (drop 4 (put_u64 z)) = wrap64 z mod 4294967296 /\
  get_be (put_u64 z) = wrap64 z.
Proof.
  assert (Hx : 0 <= wrap64 z < 18446744073709551616)
    by (unfold wrap64; apply Z.mod_pos_bound; lia).
  set (x := wrap64 z) in *.
  unfold put_u64. fold x. cbn [drop]. unfold get_be. cbn [fold_left].
  rewrite !Z_of_byte_of_Z. unfold wrap8.
  pose proof (Z.div_mod x 256 ltac:(lia)) as D0.
  pose proof (Z.div_mod (x / 256) 256 ltac:(lia)) as D1.
  pose proof (Z.div_mod (x / 65536) 256 ltac:(lia)) as D2.
  pose proof (Z.div_mod (x / 16777216) 256 ltac:(lia)) as D3.
  pose proof (Z.div_mod (x / 4294967296) 256 ltac:(lia)) as D4.
  pose proof (Z.div_mod (x / 1099511627776) 256 ltac:(lia)) as D5.
  pose proof (Z.div_mod (x / 281474976710656) 256 ltac:(lia)) as D6.
  pose proof (Z.div_mod (x / 72057594037927936) 256 ltac:(lia)) as D7.
  rewrite !Z.div_div in D1, D2, D3, D4, D5, D6, D7 by lia.
  change (256 * 256) with 65536 in *. change (65536 * 256) with 16777216 in *.
  change (16777216 * 256) with 4294967296 in *.
  change (4294967296 * 256) with 1099511627776 in *.
  change (1099511627776 * 256) with 281474976710656 in *.
  change (281474976710656 * 256) with 72057594037927936 in *.
  change (72057594037927936 * 256) with 18446744073709551616 in *.
  assert (Htop : x / 18446744073709551616 = 0) by (apply Z.div_small; lia).
  pose proof (Z.mod_pos_bound x 256 ltac:(lia)).
  pose proof (Z.mod_pos_bound (x / 256) 256 ltac:(lia)).
  pose proof (Z.mod_pos_bound (x / 65536) 256 ltac:(lia)).
  pose proof (Z.mod_pos_bound (x / 16777216) 256 ltac:(lia)).
  pose proof (Z.mod_pos_bound (x / 4294967296) 256 ltac:(lia)).
  pose proof (Z.mod_pos_bound (x / 1099511627776) 256 ltac:(lia)).
  pose proof (Z.mod_pos_bound (x / 281474976710656) 256 ltac:(lia)).
  pose proof (Z.mod_pos_bound (x / 72057594037927936) 256 ltac:(lia)).
  split; [lia|]. split; [|split].
  - apply (Z.mod_unique_pos x 65536 (x / 65536)); lia.
  - apply (Z.mod_unique_pos x 4294967296 (x / 4294967296)); lia.
  - lia.
Qed.

Lemma signed_mod (i h : Z) :
  0 < h -> - h <= i < h ->
  (if i mod (2 * h) <? h then i mod (2 * h) else i mod (2 * h) - 2 * h) = i.
Proof.
  intros Hh Hi. destruct (Z_lt_ge_dec i 0) as [Hneg|Hpos].
  - assert (Hu : i mod (2 * h) = i + 2 * h).
    { symmetry. apply (Z.mod_unique_pos i (2 * h) (-1)); lia. }
    rewrite Hu. destruct (i + 2 * h <? h) eqn:E; zbool; lia.
  - rewrite Z.mod_small by lia. destruct (i <? h) eqn:E; zbool; lia.
Qed.

Lemma wrap64_mod (z m : Z) :
  0 < m -> (m | 18446744073709551616) -> wrap64 z mod m = z mod m.
Proof.
  intros Hm Hdiv. unfold wrap64. apply Zdiv.Z.mod_mod_divide. exact Hdiv.
Qed.

Lemma put_u64_signed (i : Z) :
  ((-128 <= i < 128 -> get_be_signed (drop 7 (put_u64 i)) = i) /\
   (-32768 <= i < 32768 -> get_be_signed (drop 6 (put_u64 i)) = i)) /\
  (-2147483648 <= i < 2147483648 -> get_be_signed (drop 4 (put_u64 i)) = i) /\
  (-9223372036854775808 <= i < 9223372036854775808 ->
   get_be_signed (put_u64 i) = i).
Proof.
  destruct (put_u64_low i) as (L1 & L2 & L4 & L8).
  unfold get_be_signed. rewrite L1, L2, L4, L8.
  change (length (drop 7 (put_u64 i))) with 1%nat.
  change (length (drop 6 (put_u64 i))) with 2%nat.
  change (length (drop 4 (put_u64 i))) with 4%nat.
  change (length (put_u64 i)) with 8%nat.
  change (2 ^ (8 * Z.of_nat 1)) with (2 * 128).
  change (2 ^ (8 * Z.of_nat 2)) with (2 * 32768).
  change (2 ^ (8 * Z.of_nat 4)) with (2 * 2147483648).
  change (2 ^ (8 * Z.of_nat 8)) with (2 * 9223372036854775808).
  rewrite !(Z.mul_comm 2), !Z.div_mul by lia. rewrite !(Z.mul_comm _ 2).
  rewrite (wrap64_mod i 256) by (try lia; exists 72057594037927936; reflexivity).
  rewrite (wrap64_mod i 65536) by (try lia; exists 281474976710656; reflexivity).
  rewrite (wrap64_mod i 4294967296) by (try lia; exists 4294967296; reflexivity).
  change (wrap64 i) with (i mod (2 * 9223372036854775808)).
  change 256 with (2 * 128). change 65536 with (2 * 32768).
  change 4294967296 with (2 * 2147483648).
  repeat split; intros Hi; apply signed_mod; lia.
Qed.

Section Integers.
Context `{TypeCodeBytes}.

Lemma writeInt_out (w : dataWriter) (i : Z) :
  _out (writeInt w i) =
    _out w ++
    code_byte (match int_width i with
               | 1%nat => kInt8Code | 2%nat => kInt16Code
               | 4%nat => kInt32Code | _ => kInt64Code
               end)
    :: drop (8 - int_width i) (put_u64 i).
Proof.
  unfold writeInt, int_width.
  destruct ((-128 <=? i) && (i <=? 127));
    [|destruct ((-32768 <=? i) && (i <=? 32767));
      [|destruct ((-2147483648 <=? i) && (i <=? 2147483647))]];
    unfold Writer_write; cbn [_out set_out]; rewrite addTypeCode_out;
    rewrite <- app_assoc; reflexivity.
Qed.

(** X15: [writeInt] loses nothing and wastes nothing.  For every
    [int64_t] value it appends one type code and 1, 2, 4 or 8 bytes that
    denote the value in big-endian two's complement, the code telling the
    width, and no smaller of these widths could hold the value. *)
Theorem writeInt_round_trip (w : dataWriter) (i : Z) :
  -9223372036854775808 <= i < 9223372036854775808 ->
  exists code payload,
    _out (writeInt w i) = _out w ++ code_byte code :: payload /\
    (length payload = 1%nat /\ code = kInt8Code \/
     length payload = 2%nat /\ code = kInt16Code \/
     length payload = 4%nat /\ code = kInt32Code \/
     length payload = 8%nat /\ code = kInt64Code) /\
    get_be_signed payload = i /\
    forall k : nat,
      In k [1; 2; 4; 8]%nat ->
      - 2 ^ (8 * Z.of_nat k - 1) <= i < 2 ^ (8 * Z.of_nat k - 1) ->
      (length payload <= k)%nat.
Proof.
  intros Hi. rewrite writeInt_out.
  destruct (put_u64_signed i) as ((S1 & S2) & S4 & S8).
  eexists _, _. split; [reflexivity|].
  unfold int_width.
  destruct ((-128 <=? i) && (i <=? 127)) eqn:E1.
  { apply andb_true_iff in E1. destruct E1. zbool.
    split; [left; split; reflexivity|]. split; [apply S1; lia|].
    intros k Hk _. cbn in Hk. cbn [length drop put_u64 Nat.sub]. lia. }
  destruct ((-32768 <=? i) && (i <=? 32767)) eqn:E2.
  { apply andb_true_iff in E2. destruct E2. zbool.
    split; [right; left; split; reflexivity|]. split; [apply S2; lia|].
    intros k Hk Hr. cbn [length drop put_u64 Nat.sub].
    destruct Hk as [<-|Hk]; [|cbn in Hk; lia].
    exfalso. apply andb_false_iff in E1. change (2 ^ (8 * Z.of_nat 1 - 1)) with 128 in Hr.
    destruct E1; zbool; lia. }
  destruct ((-2147483648 <=? i) && (i <=? 2147483647)) eqn:E4.
  { apply andb_true_iff in E4. destruct E4. zbool.
    split; [right; right; left; split; reflexivity|]. split; [apply S4; lia|].
    intros k Hk Hr. cbn [length drop put_u64 Nat.sub].
    destruct Hk as [<-|[<-|Hk]]; [| |cbn in Hk; lia]; exfalso.
    - apply andb_false_iff in E1. change (2 ^ (8 * Z.of_nat 1 - 1)) with 128 in Hr.
      destruct E1; zbool; lia.
    - apply andb_false_iff in E2. change (2 ^ (8 * Z.of_nat 2 - 1)) with 32768 in Hr.
      destruct E2; zbool; lia. }
  split; [right; right; right; split; reflexivity|]. split; [apply S8; lia|].
  intros k Hk Hr. cbn [length drop put_u64 Nat.sub].
  destruct Hk as [<-|[<-|[<-|Hk]]]; [| | |cbn in Hk; lia]; exfalso.
  - apply andb_false_iff in E1. change (2 ^ (8 * Z.of_nat 1 - 1)) with 128 in Hr.
    destruct E1; zbool; lia.
  - apply andb_false_iff in E2. change (2 ^ (8 * Z.of_nat 2 - 1)) with 32768 in Hr.
    destruct E2; zbool; lia.
  - apply andb_false_iff in E4.
    change (2 ^ (8 * Z.of_nat 4 - 1)) with 2147483648 in Hr.
    destruct E4; zbool; lia.
Qed.

(** X16: [writeUInt] writes a value below [INT64_MAX] as [writeInt]
    writes it, and any other value, [INT64_MAX] itself included, as the
    code [kUInt64Code] and the eight bytes of the value in big-endian
    order. *)
Theorem writeUInt_forms (w : dataWriter) (u : Z) :
  0 <= u < 18446744073709551616 ->
  (u < INT64_MAX -> writeUInt w u = writeInt w u) /\
  (INT64_MAX <= u ->
   exists payload,
     _out (writeUInt w u) = _out w ++ code_byte kUInt64Code :: payload /\
     length payload = 8%nat /\ get_be payload = u).
Proof.
  intros Hu. unfold writeUInt. split.
  - intros Hlt. replace (u <? INT64_MAX) with true by (symmetry; apply Z.ltb_lt; exact Hlt).
    f_equal. unfold to_int64, wrap64. rewrite Z.mod_small by lia.
    unfold INT64_MAX in Hlt.
    replace (u <? 9223372036854775808) with true by (symmetry; apply Z.ltb_lt; lia).
    reflexivity.
  - intros Hge. replace (u <? INT64_MAX) with false by (symmetry; apply Z.ltb_ge; exact Hge).
    exists (put_u64 u). unfold Writer_write. cbn [_out set_out].
    rewrite addTypeCode_out, <- app_assoc. split; [reflexivity|]. split; [reflexivity|].
    destruct (put_u64_low u) as (_ & _ & _ & L8). rewrite L8.
    unfold wrap64. apply Z.mod_small. lia.
Qed.

End Integers.

Lemma writeInt_round_trip_witness :
  exists code payload,
    _out (@writeInt declaration_order (dataWriter_new [] None 0) 300) =
      @code_byte declaration_order code :: payload /\
    get_be_signed payload = 300.
Proof.
  destruct (@writeInt_round_trip declaration_order (dataWriter_new [] None 0) 300)
    as (code & payload & Hout & _ & Hval & _); [lia|].
  exists code, payload. split; [exact Hout|exact Hval].
Defined.

Lemma writeUInt_forms_witness :
  @writeUInt declaration_order (dataWriter_new [] None 0) 7 =
  @writeInt declaration_order (dataWriter_new [] None 0) 7.
Proof.
  apply (@writeUInt_forms declaration_order); [lia|unfold INT64_MAX; lia].
Defined.

(** ** The extern table *)

Lemma invert_externs_consistent (l : list string) :
  forall (pre : list string) (m : gmap string Z),
    Z.of_nat (length (pre ++ l)) <= 4294967295 ->
    (forall s k, m !! s = Some k -> 0 < k /\ (pre ++ l) !! Z.to_nat (k - 1) = Some s) ->
    forall s k, invert_externs l (Z.of_nat (length pre)) m !! s = Some k ->
                0 < k /\ (pre ++ l) !! Z.to_nat (k - 1) = Some s.
Proof.
  induction l as [|x l IH]; intros pre m Hlen Hm s k Hk; [exact (Hm s k Hk)|].
  cbn [invert_externs] in Hk.
  replace (Z.of_nat (length pre) + 1) with (Z.of_nat (length (pre ++ [x]))) in Hk
    by (rewrite length_app; cbn; lia).
  replace (pre ++ x :: l) with ((pre ++ [x]) ++ l) in *
    by (rewrite <- app_assoc; reflexivity).
  apply (IH (pre ++ [x]) _ Hlen) in Hk; [exact Hk|].
  intros s' k' Hk'. destruct (decide (x = s')) as [->|Hne].
  - rewrite lookup_insert_eq in Hk'. inversion Hk'; subst k'.
    rewrite !length_app in Hlen. cbn [length] in Hlen.
    unfold wrap32. rewrite Z.mod_small by lia. split; [lia|].
    replace (Z.to_nat (Z.of_nat (length pre) + 1 - 1)) with (length pre) by lia.
    rewrite <- app_assoc. rewrite lookup_app_r by lia.
    rewrite Nat.sub_diag. reflexivity.
  - rewrite lookup_insert_ne in Hk' by exact Hne. exact (Hm s' k' Hk').
Qed.

Lemma dataWriter_new_consistent (out : list byte) (l : list string) (maxExtern : Z) :
  Z.of_nat (length l) <= 4294967295 -> maxExtern <= 4294967295 ->
  externs_consistent (dataWriter_new out (Some l) maxExtern).
Proof.
  intros Hlen Hmax. unfold externs_consistent, dataWriter_new.
  cbn [_externStrings _externStringsLookup _maxExternStrings].
  split; [exact Hlen|]. split; [exact Hmax|].
  intros s k Hk.
  apply (invert_externs_consistent l [] ∅ Hlen) in Hk; [exact Hk|].
  intros s' k' Hk'. rewrite lookup_empty in Hk'. discriminate.
Qed.

Section Externs.
Context `{TypeCodeBytes}.

Lemma addTypeCode_externs (w : dataWriter) (c : typeCode) :
  _externStrings (addTypeCode w c) = _externStrings w /\
  _externStringsLookup (addTypeCode w c) = _externStringsLookup w /\
  _maxExternStrings (addTypeCode w c) = _maxExternStrings w.
Proof. unfold addTypeCode. cbn. destruct (_states w); auto. Qed.

Lemma writeString_shared_externs (w w' : dataWriter) (str : string) :
  writeString_shared w str = Ok w' ->
  _externStrings w' = _externStrings w /\
  _externStringsLookup w' = _externStringsLookup w /\
  _maxExternStrings w' = _maxExternStrings w.
Proof.
  unfold writeString_shared, sharedStrings_at. intros Hw.
  destruct (_enableSharedStrings w && shareable (str_length str)).
  - destruct (UINT32_MAX <? Writer_length w); [discriminate|].
    destruct (_sharedStrings w !! str) as [off|].
    + destruct (0 <? off); inversion Hw; subst w';
        unfold addUVarint, Writer_write;
        cbn [_externStrings _externStringsLookup _maxExternStrings set_out];
        match goal with
        | |- context [addTypeCode ?x ?c] =>
            destruct (addTypeCode_externs x c) as (H1 & H2 & H3)
        end; rewrite H1, H2, H3; auto.
    + cbn [Z.ltb Z.compare] in Hw. inversion Hw; subst w'.
      unfold addUVarint, Writer_write.
      cbn [_externStrings _externStringsLookup _maxExternStrings set_out].
      match goal with
      | |- context [addTypeCode ?x ?c] =>
          destruct (addTypeCode_externs x c) as (H1 & H2 & H3)
      end. rewrite H1, H2, H3. auto.
  - inversion Hw; subst w'. unfold addUVarint, Writer_write.
    cbn [_externStrings _externStringsLookup _maxExternStrings set_out].
    destruct (addTypeCode_externs w kStringCode) as (H1 & H2 & H3).
    rewrite H1, H2, H3. auto.
Qed.

Lemma writeString_shared_no_assert (w : dataWriter) (str : string) :
  writeString_shared w str <> Err AssertionFailure.
Proof.
  unfold writeString_shared, sharedStrings_at.
  destruct (_enableSharedStrings w && shareable (str_length str)); [|discriminate].
  destruct (UINT32_MAX <? Writer_length w); [discriminate|].
  destruct (_sharedStrings w !! str) as [off|]; [destruct (0 <? off)|]; discriminate.
Qed.

Lemma writeExternString_out (w : dataWriter) (k : Z) :
  0 < k ->
  exists w',
    writeExternString w k = Ok w' /\
    _out w' = _out w ++ extern_ref k /\
    _externStrings w' = _externStrings w /\
    _externStringsLookup w' = _externStringsLookup w /\
    _maxExternStrings w' = _maxExternStrings w.
Proof.
  intros Hk. unfold writeExternString.
  replace (0 <? k) with true by (symmetry; apply Z.ltb_lt; exact Hk).
  cbn [assert bind]. eexists. split; [reflexivity|].
  unfold addUVarint, Writer_write, extern_ref.
  cbn [_out _externStrings _externStringsLookup _maxExternStrings set_out].
  rewrite addTypeCode_out, <- app_assoc.
  destruct (addTypeCode_externs w kExternStringRefCode) as (H1 & H2 & H3).
  rewrite H1, H2, H3. auto.
Qed.

(** What [writeString] does when the writer has an extern table. *)
Lemma writeString_extern (w : dataWriter) (l : list string) (str : string)
  (canAddExtern : bool) :
  externs_consistent w -> _externStrings w = Some l ->
  match _externStringsLookup w !! str with
  | Some k =>
      exists w', writeString w str canAddExtern = Ok w' /\
                 _out w' = _out w ++ extern_ref k /\
                 _externStrings w' = Some l /\
                 _externStringsLookup w' = _externStringsLookup w /\
                 _maxExternStrings w' = _maxExternStrings w
  | None =>
      if (Z.of_nat (length l) <? _maxExternStrings w) && canAddExtern then
        exists w', writeString w str canAddExtern = Ok w' /\
                   _out w' = _out w ++ extern_ref (Z.of_nat (length l) + 1) /\
                   _externStrings w' = Some (l ++ [str]) /\
                   _externStringsLookup w' =
                     <[str := Z.of_nat (length l) + 1]> (_externStringsLookup w) /\
                   _maxExternStrings w' = _maxExternStrings w
      else writeString w str canAddExtern = writeString_shared w str
  end.
Proof.
  intros Hc Hl. unfold externs_consistent in Hc. rewrite Hl in Hc.
  destruct Hc as (Hlen & Hmax & Hinv).
  unfold writeString. rewrite Hl.
  destruct (_externStringsLookup w !! str) as [k|] eqn:Hk.
  - destruct (Hinv str k Hk) as [Hpos _].
    destruct (writeExternString_out w k Hpos) as (w' & Hrun & Hout & H1 & H2 & H3).
    exists w'. rewrite H1. auto.
  - assert (Hw : wrap32 (Z.of_nat (length l)) = Z.of_nat (length l))
      by (unfold wrap32; apply Z.mod_small; lia).
    rewrite !Hw.
    destruct ((Z.of_nat (length l) <? _maxExternStrings w) && canAddExtern) eqn:E;
      [|reflexivity].
    apply andb_true_iff in E. destruct E as [E _]. zbool.
    assert (Hw1 : wrap32 (Z.of_nat (length l) + 1) = Z.of_nat (length l) + 1)
      by (unfold wrap32; apply Z.mod_small; lia).
    rewrite !Hw1.
    match goal with
    | |- context [writeExternString ?x ?k] =>
        destruct (writeExternString_out x k ltac:(lia))
          as (w' & Hrun & Hout & H1 & H2 & H3)
    end.
    exists w'. split; [exact Hrun|]. rewrite Hout, H1, H2, H3. auto.
Qed.

Lemma writeString_consistent (w w' : dataWriter) (str : string) (canAddExtern : bool) :
  externs_consistent w -> writeString w str canAddExtern = Ok w' ->
  externs_consistent w'.
Proof.
  intros Hc Hw. destruct (_externStrings w) as [l|] eqn:Hl.
  - pose proof (writeString_extern w l str canAddExtern Hc Hl) as Hx.
    unfold externs_consistent in Hc. rewrite Hl in Hc. destruct Hc as (Hlen & Hmax & Hinv).
    destruct (_externStringsLookup w !! str) as [k|] eqn:Hk.
    + destruct Hx as (w1 & Hrun & _ & H1 & H2 & H3). rewrite Hrun in Hw.
      inversion Hw; subst w1. unfold externs_consistent. rewrite H1, H2, H3. auto.
    + destruct ((Z.of_nat (length l) <? _maxExternStrings w) && canAddExtern) eqn:E.
      * destruct Hx as (w1 & Hrun & _ & H1 & H2 & H3). rewrite Hrun in Hw.
        inversion Hw; subst w1. unfold externs_consistent. rewrite H1, H2, H3.
        apply andb_true_iff in E. destruct E as [E _]. zbool.
        split; [rewrite length_app; cbn; lia|]. split; [exact Hmax|].
        intros s k Hsk. destruct (decide (str = s)) as [->|Hne].
        -- rewrite lookup_insert_eq in Hsk. inversion Hsk; subst k. split; [lia|].
           replace (Z.to_nat (Z.of_nat (length l) + 1 - 1)) with (length l) by lia.
           rewrite lookup_app_r by lia. rewrite Nat.sub_diag. reflexivity.
        -- rewrite lookup_insert_ne in Hsk by exact Hne.
           destruct (Hinv s k Hsk) as [Hpos Hs]. split; [exact Hpos|].
           apply lookup_app_l_Some. exact Hs.
      * rewrite Hx in Hw.
        destruct (writeString_shared_externs _ _ _ Hw) as (H1 & H2 & H3).
        unfold externs_consistent. rewrite H1, H2, H3, Hl. auto.
  - unfold writeString in Hw. rewrite Hl in Hw.
    destruct (writeString_shared_externs _ _ _ Hw) as (H1 & _).
    unfold externs_consistent. rewrite H1, Hl. exact I.
Qed.

Lemma writeString_no_assert (w : dataWriter) (str : string) (canAddExtern : bool) :
  externs_consistent w -> writeString w str canAddExtern <> Err AssertionFailure.
Proof.
  intros Hc. destruct (_externStrings w) as [l|] eqn:Hl.
  - pose proof (writeString_extern w l str canAddExtern Hc Hl) as Hx.
    destruct (_externStringsLookup w !! str) as [k|].
    + destruct Hx as (w1 & Hrun & _). rewrite Hrun. discriminate.
    + destruct ((Z.of_nat (length l) <? _maxExternStrings w) && canAddExtern).
      * destruct Hx as (w1 & Hrun & _). rewrite Hrun. discriminate.
      * rewrite Hx. apply writeString_shared_no_assert.
  - unfold writeString. rewrite Hl. apply writeString_shared_no_assert.
Qed.

(** X17: the assertion of [writeExternString] never fails in
    [writeString].  For a writer constructed with an extern table and a
    limit that fit 32 bits, no run of [writeString] calls ends in a failed
    assertion, and after any run that returns every index in the lookup
    table is positive and names an entry of the extern table that holds the
    string it is recorded for. *)
Theorem extern_table_consistent (out : list byte) (l : list string) (maxExtern : Z)
  (strs : list string) :
  Z.of_nat (length l) <= 4294967295 -> maxExtern <= 4294967295 ->
  writeStrings (dataWriter_new out (Some l) maxExtern) strs <> Err AssertionFailure /\
  forall w', writeStrings (dataWriter_new out (Some l) maxExtern) strs = Ok w' ->
             externs_consistent w'.
Proof.
  intros Hlen Hmax.
  pose proof (dataWriter_new_consistent out l maxExtern Hlen Hmax) as Hc.
  revert Hc. generalize (dataWriter_new out (Some l) maxExtern) as w.
  induction strs as [|s strs IH]; intros w Hc; cbn [writeStrings].
  - split; [discriminate|]. intros w' Hw. inversion Hw; subst w'. exact Hc.
  - destruct (writeString w s true) as [w1|e] eqn:Hw1; cbn [bind].
    + apply IH. eapply writeString_consistent; eassumption.
    + split; [|discriminate]. intros He. inversion He; subst e.
      exact (writeString_no_assert w s true Hc Hw1).
Qed.

(** X18: a string written through the extern table is written the same
    way every time.  When the string is in the table, or the table has room
    for it, [writeString] writes a reference to an entry of the table that
    holds the string, and writing the string again writes the same
    reference, whether or not adding is allowed then. *)
Theorem extern_reference_stable (w : dataWriter) (l : list string) (str : string)
  (canAddExtern : bool) :
  externs_consistent w -> _externStrings w = Some l ->
  _externStringsLookup w !! str <> None \/
    Z.of_nat (length l) < _maxExternStrings w ->
  exists k w1 w2 l1,
    writeString w str true = Ok w1 /\
    writeString w1 str canAddExtern = Ok w2 /\
    _out w1 = _out w ++ extern_ref k /\
    _out w2 = _out w1 ++ extern_ref k /\
    _externStrings w1 = Some l1 /\ _externStrings w2 = Some l1 /\
    l1 !! Z.to_nat (k - 1) = Some str.
Proof.
  intros Hc Hl Hroom.
  pose proof (writeString_extern w l str true Hc Hl) as Hx.
  assert (Hfirst : exists k w1 l1,
            writeString w str true = Ok w1 /\ _out w1 = _out w ++ extern_ref k /\
            _externStrings w1 = Some l1 /\ _externStringsLookup w1 !! str = Some k).
  { destruct (_externStringsLookup w !! str) as [k|] eqn:Hk.
    - destruct Hx as (w1 & Hrun & Hout & H1 & H2 & _).
      exists k, w1, l. rewrite H2. auto.
    - destruct Hroom as [Hin|Hlt]; [contradiction|].
      replace (Z.of_nat (length l) <? _maxExternStrings w) with true in Hx
        by (symmetry; apply Z.ltb_lt; exact Hlt).
      cbn [andb] in Hx. destruct Hx as (w1 & Hrun & Hout & H1 & H2 & _).
      exists (Z.of_nat (length l) + 1), w1, (l ++ [str]).
      rewrite H2, lookup_insert_eq. auto. }
  destruct Hfirst as (k & w1 & l1 & Hrun1 & Hout1 & Hl1 & Hk1).
  pose proof (writeString_consistent _ _ _ _ Hc Hrun1) as Hc1.
  pose proof (writeString_extern w1 l1 str canAddExtern Hc1 Hl1) as Hx1.
  rewrite Hk1 in Hx1. destruct Hx1 as (w2 & Hrun2 & Hout2 & Hl2 & _).
  exists k, w1, w2, l1. repeat (split; [assumption|]).
  unfold externs_consistent in Hc1. rewrite Hl1 in Hc1.
  destruct Hc1 as (_ & _ & Hinv). exact (proj2 (Hinv str k Hk1)).
Qed.

End Externs.

Lemma extern_table_consistent_witness :
  exists w',
    @writeStrings declaration_order
      (dataWriter_new [] (Some ["type"; "name"]%string) 3) ["name"; "age"; "age"]%string
      = Ok w' /\
    externs_consistent w'.
Proof.
  assert (Hrun : exists w',
            @writeStrings declaration_order
              (dataWriter_new [] (Some ["type"; "name"]%string) 3)
              ["name"; "age"; "age"]%string = Ok w').
  { eexists. vm_compute. reflexivity. }
  destruct Hrun as [w' Hrun]. exists w'. split; [exact Hrun|].
  destruct (@extern_table_consistent declaration_order []
              ["type"; "name"]%string 3 ["name"; "age"; "age"]%string) as [_ Hc];
    [cbn; lia|lia|].
  exact (Hc w' Hrun).
Defined.

Lemma extern_reference_stable_witness :
  exists k w1 w2,
    @writeString declaration_order
      (dataWriter_new [] (Some ["type"]%string) 2) "name" true = Ok w1 /\
    @writeString declaration_order w1 "name" false = Ok w2 /\
    _out w2 = @extern_ref declaration_order k ++ @extern_ref declaration_order k.
Proof.
  destruct (@extern_reference_stable declaration_order
              (dataWriter_new [] (Some ["type"]%string) 2) ["type"]%string
              "name" false)
    as (k & w1 & w2 & l1 & H1 & H2 & Ho1 & Ho2 & _).
  - apply dataWriter_new_consistent; cbn; lia.
  - reflexivity.
  - right. cbn. lia.
  - exists k, w1, w2. split; [exact H1|]. split; [exact H2|].
    rewrite Ho2, Ho1. reflexivity.
Defined.

(** ** Containers *)

Section Containers.
Context `{TypeCodeBytes}.

Lemma addTypeCode_states (w : dataWriter) (c : typeCode) :
  _states (addTypeCode w c) = counted (_states w).
Proof.
  unfold addTypeCode, counted, Writer_write. cbn [_states set_out].
  destruct (_states w) eqn:E; cbn [_states set_states set_out]; [exact E|reflexivity].
Qed.

Lemma writeInt_states (w : dataWriter) (v : Z) :
  _states (writeInt w v) = counted (_states w).
Proof.
  unfold writeInt.
  destruct ((-128 <=? v) && (v <=? 127));
    [|destruct ((-32768 <=? v) && (v <=? 32767));
      [|destruct ((-2147483648 <=? v) && (v <=? 2147483647))]];
    unfold Writer_write; cbn [_states set_out]; apply addTypeCode_states.
Qed.

Lemma writeInt_grows (w : dataWriter) (v : Z) :
  (length (_out w) <= length (_out (writeInt w v)))%nat.
Proof. rewrite writeInt_out, length_app. lia. Qed.

Lemma writeInts_states (vs : list Z) :
  forall (w : dataWriter) (st : state) (below : list state),
    _states w = st :: below ->
    _states (writeInts w vs) =
      mkState (count st) (i st + Z.of_nat (length vs)) (hashes st) (indexPos st)
      :: below.
Proof.
  unfold writeInts.
  induction vs as [|v vs IH]; intros w st below Hst; cbn [fold_left length].
  - rewrite Hst, Z.add_0_r. destruct st; reflexivity.
  - rewrite (IH (writeInt w v) (mkState (count st) (i st + 1) (hashes st) (indexPos st))
               below).
    + cbn [count i hashes indexPos]. do 2 f_equal. lia.
    + rewrite writeInt_states, Hst. reflexivity.
Qed.

Lemma beginArray_shape (w : dataWriter) (n : Z) :
  _out (beginArray w n) = _out w ++ code_byte kArrayCode :: PutUVarInt n /\
  _states (beginArray w n) = mkState n 0 None 0 :: counted (_states w).
Proof.
  unfold beginArray, pushCount, pushState, update_state, addUVarint, Writer_write.
  cbn [_out _states set_states set_out count i hashes indexPos].
  rewrite addTypeCode_out, addTypeCode_states, <- app_assoc. split; reflexivity.
Qed.

(** X19: the count given to [beginArray] is checked when the array is
    closed.  [beginArray] writes the code and the count; after a run of
    [writeInt] calls, [popState] returns, leaving the output as it is and
    the array counted as one item of the enclosing frame, exactly when the
    number of values written is the count given; otherwise it throws
    "mismatched count". *)
Theorem array_count_checked (w : dataWriter) (n : Z) (vs : list Z) :
  _out (beginArray w n) = _out w ++ code_byte kArrayCode :: PutUVarInt n /\
  if decide (Z.of_nat (length vs) = n) then
    exists w',
      popState (writeInts (beginArray w n) vs) = Ok w' /\
      _out w' = _out (writeInts (beginArray w n) vs) /\
      _states w' = counted (_states w)
  else
    popState (writeInts (beginArray w n) vs) =
      Err (Exception "dataWriter: mismatched count").
Proof.
  destruct (beginArray_shape w n) as [Hout Hst]. split; [exact Hout|].
  pose proof (writeInts_states vs _ _ _ Hst) as Hst'.
  cbn [count i hashes indexPos] in Hst'. unfold popState. rewrite Hst'.
  cbn [i count]. rewrite Z.add_0_l.
  destruct (decide (Z.of_nat (length vs) = n)) as [Heq|Hne].
  - rewrite Heq, Z.eqb_refl. cbn [negb]. eexists. split; [reflexivity|].
    split; reflexivity.
  - replace (Z.of_nat (length vs) =? n) with false
      by (symmetry; apply Z.eqb_neq; exact Hne).
    reflexivity.
Qed.

Lemma Writer_rewrite_length (w : dataWriter) (pos : Z) (newData : list byte) :
  length (_out (Writer_rewrite w pos newData)) = length (_out w).
Proof.
  unfold Writer_rewrite. cbn [_out set_out].
  rewrite length_take, !length_app, length_take, length_drop. lia.
Qed.

Lemma writeExternString_states (w w' : dataWriter) (k : Z) :
  writeExternString w k = Ok w' ->
  _states w' = counted (_states w) /\ (length (_out w) <= length (_out w'))%nat.
Proof.
  unfold writeExternString. destruct (assert (0 <? k)) as [[]|]; [|discriminate].
  cbn [bind]. intros Hw. inversion Hw; subst w'.
  unfold addUVarint, Writer_write. cbn [_states _out set_out].
  rewrite addTypeCode_states, addTypeCode_out, !length_app. split; [reflexivity|lia].
Qed.

Lemma writeString_shared_states (w w' : dataWriter) (str : string) :
  writeString_shared w str = Ok w' ->
  _states w' = counted (_states w) /\ (length (_out w) <= length (_out w'))%nat.
Proof.
  unfold writeString_shared, sharedStrings_at. intros Hw.
  destruct (_enableSharedStrings w && shareable (str_length str)).
  - destruct (UINT32_MAX <? Writer_length w); [discriminate|].
    destruct (_sharedStrings w !! str) as [off|].
    + destruct (0 <? off); inversion Hw; subst w';
        unfold addUVarint, Writer_write; cbn [_states _out set_out];
        rewrite addTypeCode_states, addTypeCode_out, !length_app.
      * rewrite Writer_rewrite_length. split; [reflexivity|lia].
      * cbn [_states _out set_sharedStrings]. split; [reflexivity|lia].
    + cbn [Z.ltb Z.compare] in Hw. inversion Hw; subst w'.
      unfold addUVarint, Writer_write. cbn [_states _out set_out].
      rewrite addTypeCode_states, addTypeCode_out, !length_app.
      cbn [_states _out set_sharedStrings]. split; [reflexivity|lia].
  - inversion Hw; subst w'. unfold addUVarint, Writer_write.
    cbn [_states _out set_out].
    rewrite addTypeCode_states, addTypeCode_out, !length_app. split; [reflexivity|lia].
Qed.

(** Whatever way [writeString] takes, it counts one item and never
    shortens the output. *)
Lemma writeString_states (w w' : dataWriter) (str : string) (canAddExtern : bool) :
  writeString w str canAddExtern = Ok w' ->
  _states w' = counted (_states w) /\ (length (_out w) <= length (_out w'))%nat.
Proof.
  unfold writeString. intros Hw.
  destruct (_externStrings w) as [externs|];
    [|exact (writeString_shared_states _ _ _ Hw)].
  destruct (_externStringsLookup w !! str) as [k|];
    [exact (writeExternString_states _ _ _ Hw)|].
  destruct ((wrap32 (Z.of_nat (length externs)) <? _maxExternStrings w) && canAddExtern);
    [|exact (writeString_shared_states _ _ _ Hw)].
  apply writeExternString_states in Hw. exact Hw.
Qed.

End Containers.

Section DictIndex.
Context `{TypeCodeBytes} `{KeyHash} `{HostMemory}.

Lemma u16s_bytes_length (l : list Z) : length (u16s_bytes l) = (2 * length l)%nat.
Proof.
  unfold u16s_bytes. induction l as [|z l IH]; [reflexivity|].
  cbn [flat_map length]. rewrite length_app, u16_bytes_length, IH. lia.
Qed.

Lemma beginDict_shape (w : dataWriter) (n : Z) (fresh : list Z) :
  let pos := (length (_out w) + 1 + length (PutUVarInt n))%nat in
  _out (beginDict w n fresh) =
    _out w ++ code_byte kDictCode :: PutUVarInt n
    ++ take (Z.to_nat (n * 2)) (u16s_bytes fresh) /\
  _states (beginDict w n fresh) =
    mkState n 0 (Some fresh) (Z.of_nat pos) :: counted (_states w).
Proof.
  unfold beginDict, pushCount, pushState, update_state, addUVarint, Writer_write,
    Writer_length.
  cbn [_out _states set_states set_out count i hashes indexPos].
  rewrite addTypeCode_out, addTypeCode_states, <- !app_assoc. split; [reflexivity|].
  do 2 f_equal. rewrite !length_app. cbn [length]. lia.
Qed.

Lemma writeKey_states (w w' : dataWriter) (key : string) (canAddExtern : bool)
  (n j pos : Z) (hs : list Z) (below : list state) :
  _states w = mkState n j (Some hs) pos :: below ->
  writeKey w key canAddExtern = Ok w' ->
  0 <= j < Z.of_nat (length hs) /\
  _states w' =
    mkState n j (Some (<[Z.to_nat j := wrap16 (hashCode key)]> hs)) pos :: below /\
  (length (_out w) <= length (_out w'))%nat.
Proof.
  intros Hst Hw. unfold writeKey, store_hash in Hw. rewrite Hst in Hw.
  cbn [hashes i count indexPos] in Hw.
  destruct ((0 <=? j) && (j <? Z.of_nat (length hs))) eqn:E; [|discriminate].
  cbn [assert_in_bounds bind] in Hw.
  destruct (writeString _ key canAddExtern) as [w1|] eqn:Hw1; [|discriminate].
  cbn [bind] in Hw. inversion Hw; subst w'.
  destruct (writeString_states _ _ _ _ Hw1) as [Hst1 Hlen].
  cbn [_states set_states _out counted count i hashes indexPos] in Hst1, Hlen.
  apply andb_true_iff in E. destruct E. zbool. split; [lia|].
  unfold uncount, update_state. rewrite Hst1.
  cbn [_states set_states _out count i hashes indexPos].
  split; [|exact Hlen]. do 2 f_equal. lia.
Qed.

Lemma writeEntries_states (canAddExtern : bool) (n pos : Z) (below : list state)
  (entries : list (string * Z)) :
  forall (w w' : dataWriter) (j : nat) (hs : list Z),
    _states w = mkState n (Z.of_nat j) (Some hs) pos :: below ->
    (j <= length hs)%nat ->
    writeEntries w entries canAddExtern = Ok w' ->
    (j + length entries <= length hs)%nat /\
    _states w' =
      mkState n (Z.of_nat (j + length entries))
        (Some (take j hs
               ++ ((fun e => wrap16 (hashCode (fst e))) <$> entries)
               ++ drop (j + length entries) hs)) pos :: below /\
    (length (_out w) <= length (_out w'))%nat.
Proof.
  induction entries as [|[key value] entries IH]; intros w w' j hs Hst Hjle Hw.
  - cbn [writeEntries] in Hw. inversion Hw; subst w'.
    cbn [length fmap list_fmap app]. rewrite Nat.add_0_r, take_drop.
    split; [exact Hjle|split; [exact Hst|lia]].
  - cbn [writeEntries] in Hw.
    destruct (writeKey w key canAddExtern) as [w1|] eqn:Hw1; [|discriminate].
    cbn [bind] in Hw.
    destruct (writeKey_states _ _ _ _ _ _ _ _ _ Hst Hw1) as (Hj & Hst1 & Hlen1).
    rewrite Nat2Z.id in Hst1.
    assert (Hst2 : _states (writeInt w1 value) =
              mkState n (Z.of_nat (S j))
                (Some (<[j := wrap16 (hashCode key)]> hs)) pos :: below).
    { rewrite writeInt_states, Hst1. cbn [counted count i hashes indexPos].
      do 2 f_equal. lia. }
    destruct (IH _ _ _ _ Hst2 ltac:(rewrite length_insert; lia) Hw)
      as (Hle & Hst' & Hlen').
    rewrite length_insert in Hle. cbn [length].
    split; [lia|]. split.
    + rewrite Hst'. do 2 f_equal; [lia|]. f_equal.
      cbn [fmap list_fmap fst].
      rewrite (take_S_r _ j (wrap16 (hashCode key)))
        by (apply list_lookup_insert_eq; lia).
      rewrite take_insert_ge by lia. rewrite drop_insert_lt by lia.
      rewrite <- app_assoc. cbn [app].
      replace (S j + length entries)%nat with (j + S (length entries))%nat by lia.
      reflexivity.
    + pose proof (writeInt_grows w1 value). lia.
Qed.

(** X20: [endDict] fills in the hash index.  After [beginDict] with a
    count and a run of [writeKey] and [writeInt] calls that returns, no more
    entries were written than the count; if as many, [endDict] returns and
    the bytes reserved after the count hold the 16-bit hashes of the keys in
    the order written, as the host stores them, whatever these bytes held
    before, while the rest of the output is as it was and the dict counts
    as one item of the enclosing frame; if fewer, [endDict] throws
    "mismatched count". *)
Theorem dict_index_rewritten (w : dataWriter) (n : Z) (fresh : list Z)
  (entries : list (string * Z)) (canAddExtern : bool) (w2 : dataWriter) :
  0 <= n -> length fresh = Z.to_nat n ->
  writeEntries (beginDict w n fresh) entries canAddExtern = Ok w2 ->
  let pos := (length (_out w) + 1 + length (PutUVarInt n))%nat in
  let m := length entries in
  Z.of_nat m <= n /\
  if decide (Z.of_nat m = n) then
    exists w3,
      endDict w2 = Ok w3 /\
      length (_out w3) = length (_out w2) /\
      take pos (_out w3) = take pos (_out w2) /\
      take (2 * m) (drop pos (_out w3)) =
        u16s_bytes ((fun e => wrap16 (hashCode (fst e))) <$> entries) /\
      drop (pos + 2 * m) (_out w3) = drop (pos + 2 * m) (_out w2) /\
      _states w3 = counted (_states w)
  else endDict w2 = Err (Exception "dataWriter: mismatched count").
Proof.
  intros Hn Hfresh Hrun pos m.
  destruct (beginDict_shape w n fresh) as [Hout0 Hst0]. cbv zeta in Hout0, Hst0.
  fold pos in Hst0.
  destruct (writeEntries_states canAddExtern n (Z.of_nat pos) (counted (_states w))
              entries _ _ O fresh Hst0 ltac:(lia) Hrun) as (Hle & Hst2 & Hlen2).
  rewrite take_0 in Hst2. cbn [Nat.add app] in Hle, Hst2. fold m in Hle, Hst2.
  split; [lia|].
  set (hs := ((fun e => wrap16 (hashCode (fst e))) <$> entries) ++ drop m fresh) in *.
  assert (Hhs : length hs = Z.to_nat n).
  { unfold hs. rewrite length_app, length_fmap, length_drop. fold m. lia. }
  assert (Hlong : (pos + 2 * Z.to_nat n <= length (_out w2))%nat).
  { rewrite Hout0 in Hlen2. rewrite length_app in Hlen2. cbn [length] in Hlen2.
    rewrite length_app, length_take, u16s_bytes_length in Hlen2. unfold pos. lia. }
  unfold endDict. rewrite Hst2. cbn [hashes count indexPos].
  replace (n <=? Z.of_nat (length hs)) with true by (symmetry; apply Z.leb_le; lia).
  cbn [assert_in_bounds bind]. unfold popState.
  change (_states (Writer_rewrite w2 ?p ?d)) with (_states w2). rewrite Hst2.
  cbn [i count].
  destruct (decide (Z.of_nat m = n)) as [Heq|Hne].
  - rewrite Heq, Z.eqb_refl. cbn [negb]. eexists. split; [reflexivity|].
    cbn [_out set_states].
    assert (Hdata : take (Z.to_nat (n * 2)) (u16s_bytes hs) =
                    u16s_bytes ((fun e => wrap16 (hashCode (fst e))) <$> entries)).
    { unfold hs. rewrite drop_ge by lia. rewrite app_nil_r.
      apply take_ge. rewrite u16s_bytes_length, length_fmap. fold m. lia. }
    rewrite Hdata.
    set (data := u16s_bytes ((fun e => wrap16 (hashCode (fst e))) <$> entries)) in *.
    assert (Hdl : length data = (2 * m)%nat).
    { unfold data. rewrite u16s_bytes_length, length_fmap. reflexivity. }
    assert (Hout3 : _out (Writer_rewrite w2 (Z.of_nat pos) data) =
                    take pos (_out w2) ++ data ++ drop (pos + 2 * m) (_out w2)).
    { unfold Writer_rewrite. cbn [_out set_out]. rewrite Nat2Z.id, Hdl.
      apply take_ge. rewrite !length_app, length_take, length_drop. lia. }
    rewrite Hout3.
    assert (Htl : length (take pos (_out w2)) = pos) by (rewrite length_take; lia).
    split; [rewrite !length_app, length_drop, Htl, Hdl; lia|].
    symmetry in Htl, Hdl.
    split; [rewrite take_app_length'; [reflexivity|exact Htl]|].
    split; [rewrite drop_app_length'; [|exact Htl];
            rewrite take_app_length'; [reflexivity|exact Hdl]|].
    split; [|reflexivity].
    rewrite <- drop_drop, drop_app_length' by exact Htl.
    rewrite drop_app_length' by exact Hdl. reflexivity.
  - replace (Z.of_nat m =? n) with false by (symmetry; apply Z.eqb_neq; exact Hne).
    reflexivity.
Qed.

End DictIndex.

Lemma dict_index_rewritten_witness :
  exists w2 w3,
    @writeEntries declaration_order length_hash
      (@beginDict declaration_order little_endian_host
         (dataWriter_new [] None 0) 2 [43981; 52719])
      [("a"%string, 1); ("bb"%string, 300)] false = Ok w2 /\
    @endDict little_endian_host w2 = Ok w3 /\
    take 4 (drop 2 (_out w3)) = [x01; x00; x02; x00].
Proof.
  assert (Hrun : exists w2,
            @writeEntries declaration_order length_hash
              (@beginDict declaration_order little_endian_host
                 (dataWriter_new [] None 0) 2 [43981; 52719])
              [("a"%string, 1); ("bb"%string, 300)] false = Ok w2).
  { eexists. vm_compute. reflexivity. }
  destruct Hrun as [w2 Hrun]. exists w2.
  destruct (@dict_index_rewritten declaration_order length_hash
              little_endian_host (dataWriter_new [] None 0) 2 [43981; 52719]
              [("a"%string, 1); ("bb"%string, 300)] false w2 ltac:(lia) eq_refl Hrun)
    as [_ Hend].
  cbv zeta in Hend. cbn [length] in Hend.
  destruct (decide (Z.of_nat 2 = 2)) as [_|Hne]; [|exfalso; apply Hne; reflexivity].
  destruct Hend as (w3 & Hend & _ & _ & Hindex & _).
  exists w3. split; [exact Hrun|]. split; [exact Hend|].
  etransitivity; [exact Hindex|]. vm_compute. reflexivity.
Defined.


Section Overloads.
Context `{TypeCodeBytes}.

(** X24: the two overloads of [writeString] agree.  The overload taking
    a slice, which writes a string that can be neither externed nor shared
    without converting it, leaves the writer exactly as the overload taking
    a [std::string] leaves it, in every state of the writer. *)
Theorem writeString_overloads_agree (w : dataWriter) (s : string)
  (canAddExtern : bool) :
  writeString_slice w s canAddExtern = writeString w s canAddExtern.
Proof.
  unfold writeString_slice.
  destruct (bool_decide (_externStrings w <> None)) eqn:Hext; cbn [orb].
  - reflexivity.
  - apply bool_decide_eq_false in Hext.
    assert (Hnone : _externStrings w = None).
    { destruct (_externStrings w); [exfalso; apply Hext; discriminate|reflexivity]. }
    unfold writeString. rewrite Hnone.
    destruct (_enableSharedStrings w && shareable (str_length s)) eqn:Hshare.
    + reflexivity.
    + unfold writeString_shared. rewrite Hshare. reflexivity.
Qed.

End Overloads.

End WriterMore.
